(** * Quadtree image codec: a shallow embedding of the C sources

    The development follows the C files of the repository:
    - [bit.c]      the bit stream ([BitStream], [pushbits], [pullbits], ...);
    - [quadtree.c] the heap-indexed quadtree store, the test of a file
                   extension and the two cases of [main];
    - [encode.c]   the builder, the lossy filter and the encoder;
    - [decode.c]   the decoder and the painter (in [utils.c], as [image.c]);
    - [utils.c]    the reading of a QTC file and of a binary PGM file, with
                   the part of stdio they use;
    - [segmentation_grid.c] the grid of the blocks a tree draws.

    Conventions of the embedding.
    - A C [int] or [size_t] is a [Z]; an [unsigned char] is a [Z] reduced
      modulo 256 wherever the C code stores into one.  For trees of at most
      14 levels every [int] expression of the code stays below [2^31], so
      the unbounded arithmetic below coincides with the machine arithmetic;
      without the encoder, whose buffer has [total_nodes * 2] bytes, this
      holds up to 15 levels.  From 16 levels on [1 << (2 * i)] and the pixel
      offsets overflow: every property below that speaks of a tree or of an
      image carries the bound under which it was read off the code.  The
      size of a file and the number of pixels of an image are taken below
      [2^31] for the same reason.  A [size_t] is reduced modulo [2^64].
    - A [double] is a primitive binary64 float.
    - A file is the list of its bytes, and a [FILE] opened on it a position
      in that list, with the characters [ungetc] pushed back.
    - A block returned by [malloc] is a list whose length is the requested
      size and whose initial contents are arbitrary: every allocating
      function takes the initial contents as an extra argument.
    - An access outside a block, or a conversion that C leaves undefined,
      is the [Undefined] outcome here.  [exit(EXIT_FAILURE)] is [ExitFailure].
    - Recursive C functions take a fuel argument; [OutOfFuel] is the
      outcome of a recursion that did not finish within it. *)

From Stdlib Require Import ZArith Lia List Bool.
From Stdlib Require Import Floats Uint63.
From Stdlib Require String Ascii.
From stdpp Require Import base option list.
Import String.StringSyntax Ascii.AsciiSyntax.

Delimit Scope string_scope with string.
Delimit Scope char_scope with char.

Local Open Scope Z_scope.

(** ** Outcomes of a C call *)

Inductive outcome (A : Type) : Type :=
  | Done (a : A)
  | ExitFailure
  | Undefined
  | OutOfFuel.
Arguments Done {A} a.
Arguments ExitFailure {A}.
Arguments Undefined {A}.
Arguments OutOfFuel {A}.

#[global] Instance outcome_ret : MRet outcome := @Done.
#[global] Instance outcome_bind : MBind outcome := fun A B f m =>
  match m with
  | Done a => f a
  | ExitFailure => ExitFailure
  | Undefined => Undefined
  | OutOfFuel => OutOfFuel
  end.

(** ** Blocks of memory indexed by a C integer *)

Definition load {A} (l : list A) (i : Z) : outcome A :=
  if Z.ltb i 0 then Undefined
  else match l !! Z.to_nat i with
       | Some a => Done a
       | None => Undefined
       end.

Definition store {A} (l : list A) (i : Z) (a : A) : outcome (list A) :=
  if Z.ltb i 0 then Undefined
  else if Z.ltb i (Z.of_nat (length l)) then Done (<[Z.to_nat i := a]> l)
  else Undefined.

(** [malloc(size)]: [size] cells, initial contents given by [junk]. *)
Definition malloc {A} (size : Z) (junk : nat -> A) : list A :=
  map junk (seq 0 (Z.to_nat size)).

Definition byte_of (z : Z) : Z := z mod 256.

(** ** bit.c *)

Definition CHAR_BIT : Z := 8.

(** [address] only serves [free]; the block it points to is [buf], and
    [start] and [ptr] are offsets into it. *)
Record BitStream : Type := mkBitStream {
  buf : list Z;
  start : Z;
  ptr : Z;
  capa : Z
}.

Definition initBitStream (size : Z) (junk : nat -> Z) : BitStream :=
  {| buf := malloc size (fun k => byte_of (junk k));
     start := 0; ptr := 0; capa := CHAR_BIT |}.

Definition getbit (byte b : Z) : Z := Z.land (Z.shiftr byte b) 1.

Definition setbit (byte b valb : Z) : Z :=
  byte_of (if Z.eqb valb 0 then Z.land byte (Z.lnot (Z.shiftl 1 b))
           else Z.lor byte (Z.shiftl 1 b)).

(** One iteration of the loop of [pushbits]. *)
Definition pushbits_step (src nbit i : Z) (curr : BitStream) : outcome BitStream :=
  let p := if Z.eqb (capa curr) 0 then ptr curr + 1 else ptr curr in
  let c := if Z.eqb (capa curr) 0 then CHAR_BIT else capa curr in
  let bit_to_write := getbit src (nbit - 1 - i) in
  byte ← load (buf curr) p;
  buf' ← store (buf curr) p (setbit byte (c - 1) bit_to_write);
  Done {| buf := buf'; start := start curr; ptr := p; capa := c - 1 |}.

Fixpoint pushbits_loop (k : nat) (src nbit i : Z) (curr : BitStream)
    (bits_written : Z) : outcome (BitStream * Z) :=
  match k with
  | O => Done (curr, bits_written)
  | S k' =>
      curr' ← pushbits_step src nbit i curr;
      pushbits_loop k' src nbit (i + 1) curr' (bits_written + 1)
  end.

Definition pushbits (curr : BitStream) (src nbit : Z) : outcome (BitStream * Z) :=
  pushbits_loop (Z.to_nat nbit) src nbit 0 curr 0.

(** One iteration of the loop of [pullbits]; [dest] is the byte being
    assembled. *)
Definition pullbits_step (nbit i : Z) (st : BitStream * Z) : outcome (BitStream * Z) :=
  let '(curr, dest) := st in
  let s := if Z.eqb (capa curr) 0 then start curr + 1 else start curr in
  let c := if Z.eqb (capa curr) 0 then CHAR_BIT else capa curr in
  byte ← load (buf curr) s;
  let bit_to_read := getbit byte (c - 1) in
  Done ({| buf := buf curr; start := s; ptr := ptr curr; capa := c - 1 |},
        setbit dest (nbit - 1 - i) bit_to_read).

Fixpoint pullbits_loop (k : nat) (nbit i : Z) (st : BitStream * Z)
    (bits_readed : Z) : outcome (BitStream * Z * Z) :=
  match k with
  | O => Done (st, bits_readed)
  | S k' =>
      st' ← pullbits_step nbit i st;
      pullbits_loop k' nbit (i + 1) st' (bits_readed + 1)
  end.

Definition pullbits (curr : BitStream) (nbit : Z) : outcome (BitStream * Z * Z) :=
  pullbits_loop (Z.to_nat nbit) nbit 0 (curr, 0) 0.

(** Conversion of an [int] to [size_t]. *)
Definition size_t_of (n : Z) : Z := n mod 2 ^ 64.

Definition read_n_bits (stream : BitStream) (n : Z) : outcome (BitStream * Z) :=
  '(st, bits_readed) ← pullbits stream (size_t_of n);
  if Z.eqb bits_readed (size_t_of n) then Done st else ExitFailure.

Definition push_n_bits (stream : BitStream) (src n : Z) : outcome BitStream :=
  '(stream', bits_written) ← pushbits stream (byte_of src) (size_t_of n);
  if Z.eqb bits_written (size_t_of n) then Done stream' else ExitFailure.

Definition finishBitStream (stream : BitStream) : outcome BitStream :=
  if Z.eqb (capa stream) CHAR_BIT then Done stream
  else
    stream' ← push_n_bits stream 0 (capa stream);
    Done {| buf := buf stream'; start := start stream';
            ptr := ptr stream' + 1; capa := CHAR_BIT |}.

(** The sum is taken in [size_t], the type of [capa] and of the result. *)
Definition BitStream_size (stream : BitStream) : Z :=
  size_t_of ((ptr stream - start stream) * CHAR_BIT + (CHAR_BIT - capa stream)).

(** The bytes between [start] and [ptr]: what [write_qtc] hands to [fwrite]. *)
Definition stream_bytes (stream : BitStream) : list Z :=
  take (Z.to_nat (ptr stream - start stream)) (drop (Z.to_nat (start stream)) (buf stream)).

(** ** quadtree.c *)

Record Node : Type := mkNode {
  moyenne : Z;
  epsilon : Z;
  u : Z;
  v : float
}.

Record Quadtree : Type := mkQuadtree {
  nodes : list Node;
  total_nodes : Z;
  levels : Z;
  medvar : float;
  maxvar : float
}.

Definition set_nodes (q : Quadtree) (ns : list Node) : Quadtree :=
  {| nodes := ns; total_nodes := total_nodes q; levels := levels q;
     medvar := medvar q; maxvar := maxvar q |}.

Definition is_leaf (quadtree : Quadtree) (index : Z) : bool :=
  Z.geb index (total_nodes quadtree - Z.shiftl 1 (2 * levels quadtree)).

(** The loop [for (i = 0; i <= levels; i++) total_nodes += 1 << (2 * i)];
    the shifts and the sum are those of the C [int]s up to 15 levels. *)
Fixpoint count_nodes (k : nat) (i total : Z) : Z :=
  match k with
  | O => total
  | S k' => count_nodes k' (i + 1) (total + Z.shiftl 1 (2 * i))
  end.

Definition create_empty_quadtree (lv : Z) (junk : nat -> Node) : Quadtree :=
  let total := count_nodes (Z.to_nat (lv + 1)) 0 0 in
  {| nodes := malloc total junk; total_nodes := total; levels := lv;
     medvar := 0%float; maxvar := 0%float |}.

(** ** image.c *)

Record Image : Type := mkImage {
  width : Z;
  image_size : Z;
  max_val : Z;
  image : list Z
}.

Definition allocate_image (w size mv : Z) (junk : nat -> Z) : Image :=
  {| width := w; image_size := size; max_val := mv;
     image := malloc size (fun k => byte_of (junk k)) |}.

(** ** encode.c: the builder *)

(** Conversion of a C [int] to [double]. *)
Definition of_int (z : Z) : float :=
  if Z.ltb z 0 then PrimFloat.opp (PrimFloat.of_uint63 (Uint63.of_Z (- z)))
  else PrimFloat.of_uint63 (Uint63.of_Z z).

Definition leaf_node (pixel : Z) : Node :=
  {| moyenne := pixel; epsilon := 0; u := 1; v := 0%float |}.

(** One iteration of the variance loop: [somme_v += v_i * v_i + m_diff * m_diff]. *)
Definition variance_term (m : Z) (somme_v : float) (child : Node) : float :=
  let m_diff := of_int (m - moyenne child) in
  (somme_v + (v child * v child + m_diff * m_diff))%float.

(** The fields [build_quadtree_rec] gives a node from its four children. *)
Definition parent_node (n1 n2 n3 n4 : Node) : Node :=
  let somme_moyennes := moyenne n1 + moyenne n2 + moyenne n3 + moyenne n4 in
  let m := byte_of (Z.quot somme_moyennes 4) in
  let somme_v := fold_left (variance_term m) [n1; n2; n3; n4] 0%float in
  {| moyenne := m;
     epsilon := byte_of (Z.rem somme_moyennes 4);
     u := if (moyenne n1 =? moyenne n2) && (moyenne n2 =? moyenne n3)
             && (moyenne n3 =? moyenne n4)
             && (u n1 =? 1) && (u n2 =? 1) && (u n3 =? 1) && (u n4 =? 1)
          then 1 else 0;
     v := (PrimFloat.sqrt somme_v / of_int 4)%float |}.

Fixpoint build_quadtree_rec (fuel : nat) (quadtree : Quadtree) (img : Image)
    (size index x y : Z) : outcome Quadtree :=
  match fuel with
  | O => OutOfFuel
  | S fuel' =>
      if size =? 1 then
        pixel ← load (image img) (y * width img + x);
        ns ← store (nodes quadtree) index (leaf_node pixel);
        Done (set_nodes quadtree ns)
      else
        let child_size := Z.quot size 2 in
        q1 ← build_quadtree_rec fuel' quadtree img child_size (4 * index + 1) x y;
        q2 ← build_quadtree_rec fuel' q1 img child_size (4 * index + 2) (x + child_size) y;
        q3 ← build_quadtree_rec fuel' q2 img child_size (4 * index + 3)
               (x + child_size) (y + child_size);
        q4 ← build_quadtree_rec fuel' q3 img child_size (4 * index + 4) x (y + child_size);
        n1 ← load (nodes q4) (4 * index + 0 + 1);
        n2 ← load (nodes q4) (4 * index + 1 + 1);
        n3 ← load (nodes q4) (4 * index + 2 + 1);
        n4 ← load (nodes q4) (4 * index + 3 + 1);
        let node := parent_node n1 n2 n3 n4 in
        ns ← store (nodes q4) index node;
        Done {| nodes := ns; total_nodes := total_nodes q4; levels := levels q4;
                medvar := (medvar q4 + v node)%float;
                maxvar := if (maxvar q4 <? v node)%float then v node else maxvar q4 |}
  end.

(** [(int) log2(width)]: the conversion is undefined for a width below 1
    (the logarithm is infinite or not a number); above, it is the floor of
    the binary logarithm.  The offsets [y * width + x] of the builder are
    those of the C [int]s while [width * width] is below [2^31]. *)
Definition int_log2 (w : Z) : outcome Z :=
  if Z.ltb w 1 then Undefined else Done (Z.log2 w).

Definition build_quadtree_from_image (fuel : nat) (img : Image) (junk : nat -> Node)
    : outcome Quadtree :=
  n ← int_log2 (width img);
  let quadtree := create_empty_quadtree n junk in
  let child_size := width img in
  q ← build_quadtree_rec fuel quadtree img child_size 0 0 0;
  Done {| nodes := nodes q; total_nodes := total_nodes q; levels := levels q;
          medvar := (medvar q / of_int (total_nodes q - Z.shiftl 1 (2 * levels q)))%float;
          maxvar := maxvar q |}.

(** ** encode.c: the lossy filter *)

(** In every call of the source the pointer [node] is [&quadtree->nodes[index]]. *)
Fixpoint filtrage (fuel : nat) (quadtree : Quadtree) (index : Z) (sigma alpha : float)
    : outcome (Quadtree * Z) :=
  match fuel with
  | O => OutOfFuel
  | S fuel' =>
      node ← load (nodes quadtree) index;
      if negb (u node =? 0) then Done (quadtree, 1)
      else
        '(q1, r1) ← filtrage fuel' quadtree (4 * index + 1) (sigma * alpha)%float alpha;
        '(q2, r2) ← filtrage fuel' q1 (4 * index + 2) (sigma * alpha)%float alpha;
        '(q3, r3) ← filtrage fuel' q2 (4 * index + 3) (sigma * alpha)%float alpha;
        '(q4, r4) ← filtrage fuel' q3 (4 * index + 4) (sigma * alpha)%float alpha;
        let s := 0 + r1 + r2 + r3 + r4 in
        node' ← load (nodes q4) index;
        if (s <? 4) || (sigma <? v node')%float then Done (q4, 0)
        else
          ns ← store (nodes q4) index
                 {| moyenne := moyenne node'; epsilon := 0; u := 1; v := v node' |};
          Done (set_nodes q4 ns, 1)
  end.

(** The call of [main]: [filtrage(quadtree, quadtree->nodes, 0, medvar / maxvar, alpha)]. *)
Definition main_sigma (quadtree : Quadtree) : float :=
  (medvar quadtree / maxvar quadtree)%float.

Definition main_filtrage (fuel : nat) (quadtree : Quadtree) (alpha : float)
    : outcome (Quadtree * Z) :=
  filtrage fuel quadtree 0 (main_sigma quadtree) alpha.

(** ** encode.c: the encoder *)

Definition write_node (stream : BitStream) (node : Node) (index : Z) : outcome BitStream :=
  s1 ← (if negb (Z.rem index 4 =? 0) || (index =? 0)
        then push_n_bits stream (moyenne node) 8 else Done stream);
  s2 ← push_n_bits s1 (epsilon node) 2;
  if epsilon node =? 0 then push_n_bits s2 (u node) 1 else Done s2.

Definition write_leaf (stream : BitStream) (node : Node) (index : Z) : outcome BitStream :=
  if negb (Z.rem index 4 =? 0) then push_n_bits stream (moyenne node) 8 else Done stream.

(** The body of the loop of [encode] at index [i]. *)
Definition encode_step (quadtree : Quadtree) (i : Z) (stream : BitStream) : outcome BitStream :=
  current_node ← load (nodes quadtree) i;
  if i =? 0 then write_node stream current_node i
  else
    current_node_parent ← load (nodes quadtree) (Z.quot (i - 1) 4);
    if negb (u current_node_parent =? 0) then Done stream
    else if is_leaf quadtree i then write_leaf stream current_node i
    else write_node stream current_node i.

Fixpoint encode_loop (k : nat) (quadtree : Quadtree) (i : Z) (stream : BitStream)
    : outcome BitStream :=
  match k with
  | O => Done stream
  | S k' =>
      stream' ← encode_step quadtree i stream;
      encode_loop k' quadtree (i + 1) stream'
  end.

(** [encode] after its allocation: the header, the nodes, the padding. *)
Definition encode_into (stream : BitStream) (quadtree : Quadtree) : outcome BitStream :=
  s1 ← push_n_bits stream (levels quadtree) 8;
  s2 ← encode_loop (Z.to_nat (total_nodes quadtree)) quadtree 0 s1;
  finishBitStream s2.

Definition encode (quadtree : Quadtree) (junk : nat -> Z) : outcome BitStream :=
  encode_into (initBitStream (total_nodes quadtree * 2) junk) quadtree.

(** ** decode.c: the decoder *)

(** The three fields are read into the node in place; its [v] is left as
    allocated. *)
Definition read_node (stream : BitStream) (node : Node) : outcome (BitStream * Node) :=
  '(s1, m) ← read_n_bits stream 8;
  '(s2, e) ← read_n_bits s1 2;
  if e =? 0 then
    '(s3, b) ← read_n_bits s2 1;
    Done (s3, {| moyenne := m; epsilon := e; u := b; v := v node |})
  else Done (s2, {| moyenne := m; epsilon := e; u := 0; v := v node |}).

Definition read_leaf (stream : BitStream) (node : Node) : outcome (BitStream * Node) :=
  '(s1, m) ← read_n_bits stream 8;
  Done (s1, {| moyenne := m; epsilon := 0; u := 1; v := v node |}).

Definition interpolation_4th_child (stream : BitStream) (quadtree : Quadtree)
    (node parent_node : Node) (index : Z) : outcome (BitStream * Node) :=
  n1 ← load (nodes quadtree) (index - 1);
  n2 ← load (nodes quadtree) (index - 2);
  n3 ← load (nodes quadtree) (index - 3);
  let m := byte_of (4 * moyenne parent_node + epsilon parent_node
                    - moyenne n1 - moyenne n2 - moyenne n3) in
  if is_leaf quadtree index then
    Done (stream, {| moyenne := m; epsilon := 0; u := 1; v := v node |})
  else
    '(s1, e) ← read_n_bits stream 2;
    if e =? 0 then
      '(s2, b) ← read_n_bits s1 1;
      Done (s2, {| moyenne := m; epsilon := e; u := b; v := v node |})
    else Done (s1, {| moyenne := m; epsilon := e; u := 0; v := v node |}).

(** The body of the loop of [decode] at index [i]. *)
Definition decode_step (i : Z) (st : BitStream * Quadtree) : outcome (BitStream * Quadtree) :=
  let '(stream, quadtree) := st in
  current_node ← load (nodes quadtree) i;
  '(stream', node') ←
    (if i =? 0 then read_node stream current_node
     else
       current_node_parent ← load (nodes quadtree) (Z.quot (i - 1) 4);
       if negb (u current_node_parent =? 0) then
         Done (stream, {| moyenne := moyenne current_node_parent; epsilon := 0; u := 1;
                          v := v current_node |})
       else if Z.rem i 4 =? 0 then
         interpolation_4th_child stream quadtree current_node current_node_parent i
       else if is_leaf quadtree i then read_leaf stream current_node
       else read_node stream current_node);
  ns ← store (nodes quadtree) i node';
  Done (stream', set_nodes quadtree ns).

Fixpoint decode_loop (k : nat) (i : Z) (st : BitStream * Quadtree)
    : outcome (BitStream * Quadtree) :=
  match k with
  | O => Done st
  | S k' =>
      st' ← decode_step i st;
      decode_loop k' (i + 1) st'
  end.

Definition decode (stream : BitStream) (junk : nat -> Node) : outcome (BitStream * Quadtree) :=
  '(s1, lv) ← read_n_bits stream 8;
  let quadtree := create_empty_quadtree lv junk in
  decode_loop (Z.to_nat (total_nodes quadtree)) 0 (s1, quadtree).

(** ** decode.c: the painter *)

(** [1 << levels] and [width * width] are those of the C [int]s up to 15
    levels. *)

Fixpoint build_image_from_quadtree_rec (fuel : nat) (quadtree : Quadtree) (img : Image)
    (index x y size : Z) : outcome Image :=
  match fuel with
  | O => OutOfFuel
  | S fuel' =>
      if is_leaf quadtree index then
        node ← load (nodes quadtree) index;
        px ← store (image img) (y * width img + x) (moyenne node);
        Done {| width := width img; image_size := image_size img;
                max_val := max_val img; image := px |}
      else
        let child_size := Z.quot size 2 in
        i1 ← build_image_from_quadtree_rec fuel' quadtree img (4 * index + 1) x y child_size;
        i2 ← build_image_from_quadtree_rec fuel' quadtree i1 (4 * index + 2)
               (x + child_size) y child_size;
        i3 ← build_image_from_quadtree_rec fuel' quadtree i2 (4 * index + 3)
               (x + child_size) (y + child_size) child_size;
        build_image_from_quadtree_rec fuel' quadtree i3 (4 * index + 4)
               x (y + child_size) child_size
  end.

Definition build_image_from_quadtree (fuel : nat) (quadtree : Quadtree) (junk : nat -> Z)
    : outcome Image :=
  let w := Z.shiftl 1 (levels quadtree) in
  let size := w * w in
  let img := allocate_image w size 255 junk in
  build_image_from_quadtree_rec fuel quadtree img 0 0 0 w.

(** ** stdio: a file opened for reading *)

(** A stream opened on a file: the bytes of the file, the file position
    indicator, and the characters pushed back by [ungetc], which are read
    before the byte at the position. *)
Record FILE : Type := mkFILE {
  contents : list Z;
  position : Z;
  pushed_back : list Z
}.

Definition fopen (bytes : list Z) : FILE :=
  {| contents := bytes; position := 0; pushed_back := [] |}.

Definition EOF : Z := -1.

(** [fgetc]: the character pushed back last if there is one, else the byte
    at the position, and the position moves one on; [EOF] at the end of the
    file, where nothing moves. *)
Definition fgetc (file : FILE) : Z * FILE :=
  match pushed_back file with
  | c :: rest =>
      (c, {| contents := contents file; position := position file + 1;
             pushed_back := rest |})
  | [] =>
      match load (contents file) (position file) with
      | Done c =>
          (c, {| contents := contents file; position := position file + 1;
                 pushed_back := [] |})
      | _ => (EOF, file)
      end
  end.

(** [ungetc(c, file)] with [c] an [unsigned char]: the character is pushed
    back and the position goes one back; at position zero the position is
    indeterminate afterwards. *)
Definition ungetc (c : Z) (file : FILE) : outcome FILE :=
  if position file <=? 0 then Undefined
  else Done {| contents := contents file; position := position file - 1;
               pushed_back := c :: pushed_back file |}.

Definition ftell (file : FILE) : Z := position file.

(** [fseek(file, 0, SEEK_END)] and [fseek(file, pos, SEEK_SET)]: the
    characters pushed back are dropped. *)
Definition fseek_end (file : FILE) : FILE :=
  {| contents := contents file; position := Z.of_nat (length (contents file));
     pushed_back := [] |}.

Definition fseek_set (file : FILE) (pos : Z) : FILE :=
  if pos <? 0 then file
  else {| contents := contents file; position := pos; pushed_back := [] |}.

(** [fgets(line, size, file)] reads at most [size - 1] characters and stops
    after a newline or at the end of the file; it returns nothing (a null
    pointer) when the file ends before any character was read. *)
Fixpoint fgets_loop (k : nat) (file : FILE) (line : list Z) : list Z * FILE :=
  match k with
  | O => (line, file)
  | S k' =>
      let '(c, file') := fgetc file in
      if c =? EOF then (line, file)
      else if c =? 10 then (line ++ [c], file')
      else fgets_loop k' file' (line ++ [c])
  end.

Definition fgets (size : Z) (file : FILE) : option (list Z) * FILE :=
  if size <=? 1 then (Some [], file)
  else
    let '(line, file') := fgets_loop (Z.to_nat (size - 1)) file [] in
    match line with
    | [] => (None, file')
    | _ => (Some line, file')
    end.

(** [fread(buffer, 1, size, file)]: the characters read, which are fewer
    than [size] when the file ends first. *)
Fixpoint fread (k : nat) (file : FILE) : list Z * FILE :=
  match k with
  | O => ([], file)
  | S k' =>
      let '(c, file') := fgetc file in
      if c =? EOF then ([], file)
      else let '(cs, file'') := fread k' file' in (c :: cs, file'')
  end.

(** The string held by the buffer [fgets] filled: it ends at the first
    null character. *)
Fixpoint c_str (line : list Z) : list Z :=
  match line with
  | [] => []
  | c :: line' => if c =? 0 then [] else c :: c_str line'
  end.

Definition isspace (c : Z) : bool := (c =? 32) || ((9 <=? c) && (c <=? 13)).
Definition isdigit (c : Z) : bool := (48 <=? c) && (c <=? 57).

Fixpoint skip_spaces (s : list Z) : list Z :=
  match s with
  | [] => []
  | c :: s' => if isspace c then skip_spaces s' else s
  end.

(** The decimal digits at the head of [s]: their value after [acc], and
    how many they are. *)
Fixpoint scan_digits (s : list Z) (acc : Z) (n : nat) : Z * nat :=
  match s with
  | [] => (acc, n)
  | c :: s' => if isdigit c then scan_digits s' (10 * acc + (c - 48)) (S n) else (acc, n)
  end.

Definition INT_MAX : Z := 2147483647.
Definition INT_MIN : Z := -2147483648.

(** [sscanf(line, "%d", value)]: white space, an optional sign, decimal
    digits.  The result is the value when there is one (the call returns
    1), nothing when no digit is found (it returns 0 or [EOF]); a number
    that is not an [int] is undefined. *)
Definition sscanf_d (line : list Z) : outcome (option Z) :=
  let s := skip_spaces (c_str line) in
  let '(negative, s') :=
    match s with
    | 45 :: r => (true, r)
    | 43 :: r => (false, r)
    | _ => (false, s)
    end in
  let '(val, n) := scan_digits s' 0 0 in
  match n with
  | O => Done None
  | S _ =>
      let r := if negative then - val else val in
      if (r <? INT_MIN) || (INT_MAX <? r) then Undefined else Done (Some r)
  end.

(** ** utils.c: reading lines *)

Definition readline (file : FILE) (size : Z) : outcome (list Z * FILE) :=
  match fgets size file with
  | (Some line, file') => Done (line, file')
  | (None, _) => ExitFailure
  end.

(** The loop of [ignore_comments]; [c] is the [unsigned char] just read.
    Every turn reads at least one character, so that [k] need not exceed
    the length of the file by more than one. *)
Fixpoint ignore_comments_loop (k : nat) (file : FILE) (size c : Z) : outcome FILE :=
  match k with
  | O => OutOfFuel
  | S k' =>
      if c =? 35 then
        '(_, file1) ← readline file size;
        let '(c', file2) := fgetc file1 in
        ignore_comments_loop k' file2 size (byte_of c')
      else ungetc c file
  end.

(** [ignore_comments]: the character read is held in an [unsigned char],
    so that [EOF] is pushed back as the character 255. *)
Definition ignore_comments (file : FILE) (size : Z) : outcome FILE :=
  let '(c, file1) := fgetc file in
  ignore_comments_loop (S (length (contents file))) file1 size (byte_of c).

Definition scan_int (line : list Z) : outcome Z :=
  r ← sscanf_d line;
  match r with
  | Some value => Done value
  | None => ExitFailure
  end.

(** ** utils.c: reading a QTC file *)

(** The loop [for (i = 0; i < size; i++) push_n_bits(stream, buffer[i], 8)]. *)
Fixpoint push_bytes (bytes : list Z) (stream : BitStream) : outcome BitStream :=
  match bytes with
  | [] => Done stream
  | b :: bytes' => stream' ← push_n_bits stream b 8; push_bytes bytes' stream'
  end.

(** [file] is the stream [read_qtc] opened.  The first line is read and not
    looked at; [size] is what the file holds from the position
    [ignore_comments] left. *)
Definition read_bitstream_from_file_Q1 (file : FILE) (junk : nat -> Z)
    : outcome BitStream :=
  '(_, file1) ← readline file 128;
  file2 ← ignore_comments file1 128;
  let pos := ftell file2 in
  let file3 := fseek_end file2 in
  let size := ftell file3 - pos in
  let file4 := fseek_set file3 pos in
  let stream := initBitStream size junk in
  let '(buffer, _) := fread (Z.to_nat size) file4 in
  if negb (Z.of_nat (length buffer) =? size) then ExitFailure
  else
    stream' ← push_bytes buffer stream;
    finishBitStream stream'.

Definition read_qtc (bytes : list Z) (junk : nat -> Z) : outcome BitStream :=
  read_bitstream_from_file_Q1 (fopen bytes) junk.

(** ** segmentation_grid.c *)

Definition set_image (img : Image) (px : list Z) : Image :=
  {| width := width img; image_size := image_size img; max_val := max_val img;
     image := px |}.

(** [memset(block, c, n)]: the first [n] bytes of the block are set to [c];
    [n] may not exceed the size of the block. *)
Definition memset (l : list Z) (c n : Z) : outcome (list Z) :=
  if (n <? 0) || (Z.of_nat (length l) <? n) then Undefined
  else Done (replicate (Z.to_nat n) (byte_of c) ++ drop (Z.to_nat n) l).

(** The first loop of [build_grid], [k] turns from [i] on: the top border. *)
Fixpoint build_grid_top (k : nat) (img : Image) (x y i : Z) : outcome Image :=
  match k with
  | O => Done img
  | S k' =>
      img' ← (if x + i <? width img
              then px ← store (image img) ((y - 1) * width img + x + i) 190;
                   Done (set_image img px)
              else Done img);
      build_grid_top k' img' x y (i + 1)
  end.

(** The second loop of [build_grid]: the left border. *)
Fixpoint build_grid_left (k : nat) (img : Image) (x y i : Z) : outcome Image :=
  match k with
  | O => Done img
  | S k' =>
      img' ← (if y + i <? width img
              then px ← store (image img) ((y + i) * width img + x - 1) 190;
                   Done (set_image img px)
              else Done img);
      build_grid_left k' img' x y (i + 1)
  end.

Definition build_grid (img : Image) (x y size : Z) : outcome Image :=
  img1 ← (if 0 <? y then build_grid_top (Z.to_nat size) img x y 0 else Done img);
  if 0 <? x then build_grid_left (Z.to_nat size) img1 x y 0 else Done img1.

Fixpoint build_segmentation_grid (fuel : nat) (quadtree : Quadtree) (img : Image)
    (size index x y : Z) : outcome Image :=
  match fuel with
  | O => OutOfFuel
  | S fuel' =>
      node ← load (nodes quadtree) index;
      if negb (u node =? 0) then build_grid img x y size
      else
        let child_size := Z.quot size 2 in
        i1 ← build_segmentation_grid fuel' quadtree img child_size (4 * index + 1) x y;
        i2 ← build_segmentation_grid fuel' quadtree i1 child_size (4 * index + 2)
               (x + child_size) y;
        i3 ← build_segmentation_grid fuel' quadtree i2 child_size (4 * index + 3)
               (x + child_size) (y + child_size);
        build_segmentation_grid fuel' quadtree i3 child_size (4 * index + 4)
               x (y + child_size)
  end.

Definition generate_segmentation_grid (fuel : nat) (quadtree : Quadtree)
    (junk : nat -> Z) : outcome Image :=
  let w := Z.shiftl 1 (levels quadtree) in
  let img := allocate_image w (w * w) 255 junk in
  px ← memset (image img) 255 (image_size img);
  build_segmentation_grid fuel quadtree (set_image img px) w 0 0 0.

(** ** utils.c: reading a binary PGM file *)

Definition check_pixel_value (pixel max_val : Z) : outcome unit :=
  if (pixel <? 0) || (max_val <? pixel) then ExitFailure else Done tt.

(** The loop of [read_pgm_P5], [k] turns from [i] on. *)
Fixpoint read_pgm_P5_loop (k : nat) (file : FILE) (img : Image) (i : Z)
    : outcome Image :=
  match k with
  | O => Done img
  | S k' =>
      let '(pixel, file') := fgetc file in
      _ ← check_pixel_value pixel (max_val img);
      px ← store (image img) i (byte_of pixel);
      read_pgm_P5_loop k' file' (set_image img px) (i + 1)
  end.

(** [file] is the stream as [read_pgm] hands it over, the two characters
    of the format read.  The width and the height are both scanned from the
    start of the same line. *)
Definition read_pgm_P5 (file : FILE) (junk : nat -> Z) : outcome Image :=
  '(_, file1) ← readline file 128;
  file2 ← ignore_comments file1 128;
  '(line, file3) ← readline file2 128;
  width ← scan_int line;
  height ← scan_int line;
  '(line', file4) ← readline file3 128;
  max_val ← scan_int line';
  let image_size := width * height in
  let img := allocate_image width image_size max_val junk in
  read_pgm_P5_loop (Z.to_nat image_size) file4 img 0.

(** ** quadtree.c: the extension of a file name *)

(** [strrchr(s, c)]: the part of [s] that starts at the last [c], or
    nothing (a null pointer) when [c] does not occur. *)
Fixpoint strrchr (s : String.string) (c : Ascii.ascii) : option String.string :=
  match s with
  | String.EmptyString => None
  | String.String a s' =>
      match strrchr s' c with
      | Some t => Some t
      | None => if Ascii.eqb a c then Some s else None
      end
  end.

(** [check_file_extension]: the test of [extension] has an empty body, so
    that a null [extension] reaches [strcmp(extension + 1, ...)]. *)
Definition check_file_extension (filename expected_extension : String.string)
    : outcome Z :=
  match strrchr filename "."%char with
  | Some (String.String _ rest) =>
      Done (if String.eqb rest expected_extension then 1 else 0)
  | _ => Undefined
  end.

(** ** quadtree.c: the two cases of [main] *)

(** The option [-a] in the loop of [main]: [alpha] is [atof(optarg)], and
    [main] returns [EXIT_FAILURE] when it is negative. *)
Definition main_option_a (alpha : float) : outcome float :=
  if (alpha <? 0)%float then ExitFailure else Done alpha.

(** The encoding case of [main], from the image [read_pgm] returned to the
    tree, the segmentation grid (with [-g]) and the stream handed to
    [write_qtc]; [optarg] is the value given to [-a], zero without the
    option, and [if (alpha)] is true of every [alpha] that is not zero.
    The messages are left out. *)
Definition main_encode (fuel : nat) (img : Image) (optarg : float) (g : bool)
    (junkN : nat -> Node) (junkB junkG : nat -> Z)
    : outcome (Quadtree * option Image * BitStream) :=
  alpha ← main_option_a optarg;
  quadtree ← build_quadtree_from_image fuel img junkN;
  quadtree' ← (if negb (alpha =? 0)%float
               then '(q', _) ← main_filtrage fuel quadtree alpha; Done q'
               else Done quadtree);
  grid ← (if g then segmentation_grid ← generate_segmentation_grid fuel quadtree' junkG;
                    Done (Some segmentation_grid)
          else Done None);
  stream ← encode quadtree' junkB;
  Done (quadtree', grid, stream).

(** The decoding case of [main], from the bytes of the file [read_qtc]
    opens to the image handed to [write_pgm] and the segmentation grid
    (with [-g]). *)
Definition main_decode (fuel : nat) (bytes : list Z) (g : bool)
    (junkB : nat -> Z) (junkN : nat -> Node) (junkI junkG : nat -> Z)
    : outcome (Image * option Image) :=
  stream ← read_qtc bytes junkB;
  '(_, quadtree) ← decode stream junkN;
  img ← build_image_from_quadtree fuel quadtree junkI;
  grid ← (if g then segmentation_grid ← generate_segmentation_grid fuel quadtree junkG;
                    Done (Some segmentation_grid)
          else Done None);
  Done (img, grid).

(** * Vocabulary of the properties

    The definitions below are not in the C sources: they are the notions
    in which the properties of the C functions are stated. *)

(** ** The bit stream seen as a sequence of bits *)

(** Bit [k] of a block is bit [7 - k mod 8] of byte [k / 8]: the first bit
    of the stream is the most significant bit of byte 0. *)
Definition sbit (m : list Z) (k : Z) : bool :=
  match m !! Z.to_nat (k / 8) with
  | Some byte => Z.testbit byte (7 - k mod 8)
  | None => false
  end.

(** Position of the write cursor and of the read cursor, in bits. *)
Definition wpos (s : BitStream) : Z := 8 * ptr s + (8 - capa s).
Definition rpos (s : BitStream) : Z := 8 * start s + (8 - capa s).

(** The bit counter of a stream is between 0 and 8. *)
Definition capa_ok (s : BitStream) : Prop := 0 <= capa s <= 8.

(** A stream from which one can read. *)
Definition cursor_ok (s : BitStream) : Prop := capa_ok s /\ 0 <= start s.

(** A field is a value and a width; the encoder is a sequence of
    [push_n_bits], the decoder a sequence of [read_n_bits]. *)
Fixpoint push_fields (fs : list (Z * Z)) (s : BitStream) : outcome BitStream :=
  match fs with
  | [] => Done s
  | (val, w) :: fs' => s' ← push_n_bits s val w; push_fields fs' s'
  end.

(** A sequence of [read_n_bits], one per width. *)
Fixpoint pull_fields (ws : list Z) (s : BitStream) : outcome (BitStream * list Z) :=
  match ws with
  | [] => Done (s, [])
  | w :: ws' =>
      '(s1, val) ← read_n_bits s w;
      '(s2, vals) ← pull_fields ws' s1;
      Done (s2, val :: vals)
  end.

(** Number of bits of a sequence of fields. *)
Fixpoint bits_len (fs : list (Z * Z)) : Z :=
  match fs with
  | [] => 0
  | (_, w) :: fs' => w + bits_len fs'
  end.

(** [spells m p fs]: from bit [p] on, the block [m] holds the fields [fs],
    each with its most significant bit first. *)
Fixpoint spells (m : list Z) (p : Z) (fs : list (Z * Z)) : Prop :=
  match fs with
  | [] => True
  | (val, w) :: fs' =>
      (forall j, 0 <= j < w -> sbit m (p + j) = Z.testbit val (w - 1 - j)) /\
      spells m (p + w) fs'
  end.

(** Every field is 1 to 8 bits wide. *)
Definition widths_ok (fs : list (Z * Z)) : Prop :=
  Forall (fun f => 1 <= snd f <= 8) fs.

(** ** The heap layout of the quadtree *)

(** Index of the first node of level [l]: [(4^l - 1) / 3]. *)
Fixpoint first_index (l : nat) : Z :=
  match l with
  | O => 0
  | S l' => 4 * first_index l' + 1
  end.

(** A tree has the shape of [n] levels below the root when its node block
    has exactly the nodes of levels 0 to [n]. *)
Definition shape (q : Quadtree) (n : nat) : Prop :=
  levels q = Z.of_nat n /\
  total_nodes q = first_index (S n) /\
  Z.of_nat (length (nodes q)) = first_index (S n).

(** [desc i j]: node [j] belongs to the subtree rooted at node [i]. *)
Inductive desc (i : Z) : Z -> Prop :=
  | desc_refl : desc i i
  | desc_child (j a : Z) : desc i j -> 1 <= a <= 4 -> desc i (4 * j + a).

(** [at_level l i]: node [i] is on level [l]. *)
Definition at_level (l : nat) (i : Z) : Prop :=
  first_index l <= i < first_index (S l).

(** ** Built trees *)

(** A valid raster of side [2^n]: square, and one byte per pixel. *)
Definition valid_raster (n : nat) (img : Image) : Prop :=
  width img = 2 ^ Z.of_nat n /\
  Z.of_nat (length (image img)) = width img * width img /\
  Forall (fun p => 0 <= p < 256) (image img).

(** [built img ns d size i x y]: in the node block [ns], the subtree of
    depth [d] rooted at [i] is the one [build_quadtree_rec] computes for the
    block of side [size] at [(x, y)] of the image. *)
Fixpoint built (img : Image) (ns : list Node) (d : nat) (size i x y : Z) : Prop :=
  match d with
  | O => exists pixel,
      load (image img) (y * width img + x) = Done pixel /\
      load ns i = Done (leaf_node pixel)
  | S d' =>
      let c := Z.quot size 2 in
      built img ns d' c (4 * i + 1) x y /\
      built img ns d' c (4 * i + 2) (x + c) y /\
      built img ns d' c (4 * i + 3) (x + c) (y + c) /\
      built img ns d' c (4 * i + 4) x (y + c) /\
      exists n1 n2 n3 n4,
        load ns (4 * i + 1) = Done n1 /\ load ns (4 * i + 2) = Done n2 /\
        load ns (4 * i + 3) = Done n3 /\ load ns (4 * i + 4) = Done n4 /\
        load ns i = Done (parent_node n1 n2 n3 n4)
  end.

(** The running sum and the running maximum of the variances after the
    subtree of depth [d] rooted at [i] has been built: every internal node,
    in postorder, adds its variance to the sum and raises the maximum. *)
Fixpoint vars_after (ns : list Node) (d : nat) (i : Z) (mv : float * float)
    : float * float :=
  match d with
  | O => mv
  | S d' =>
      let mv1 := vars_after ns d' (4 * i + 1) mv in
      let mv2 := vars_after ns d' (4 * i + 2) mv1 in
      let mv3 := vars_after ns d' (4 * i + 3) mv2 in
      let mv4 := vars_after ns d' (4 * i + 4) mv3 in
      match load ns i with
      | Done nd => ((fst mv4 + v nd)%float,
                    if (snd mv4 <? v nd)%float then v nd else snd mv4)
      | _ => mv4
      end
  end.

(** The three serialised fields of a node fit their widths, and a node
    whose epsilon is not zero is not uniform. *)
Definition byte_fields (nd : Node) : Prop :=
  0 <= moyenne nd < 256 /\ 0 <= epsilon nd < 4 /\
  (u nd = 0 \/ u nd = 1) /\ (epsilon nd <> 0 -> u nd = 0).

(** The constant fields of a leaf. *)
Definition leaf_fields (nd : Node) : Prop := epsilon nd = 0 /\ u nd = 1.

(** The relation between a node [p] and its four children: the sum of the
    means, and what a uniform parent says of its children. *)
Definition family (p n1 n2 n3 n4 : Node) : Prop :=
  4 * moyenne p + epsilon p = moyenne n1 + moyenne n2 + moyenne n3 + moyenne n4 /\
  (u p <> 0 ->
   Forall (fun c => moyenne c = moyenne p /\ epsilon c = 0 /\ u c = 1) [n1; n2; n3; n4]).

(** The invariants of node [j] in a tree of [n] levels below the root. *)
Definition node_coherent (ns : list Node) (n : nat) (j : Z) : Prop :=
  (exists nd, load ns j = Done nd /\ byte_fields nd /\
              (first_index n <= j -> leaf_fields nd)) /\
  (j < first_index n ->
   exists p n1 n2 n3 n4,
     load ns j = Done p /\
     load ns (4 * j + 1) = Done n1 /\ load ns (4 * j + 2) = Done n2 /\
     load ns (4 * j + 3) = Done n3 /\ load ns (4 * j + 4) = Done n4 /\
     family p n1 n2 n3 n4).

Definition coherent (ns : list Node) (n : nat) : Prop :=
  forall j, 0 <= j < first_index (S n) -> node_coherent ns n j.

(** ** The fields the encoder writes for each node *)

(** Epsilon, and the uniformity bit when epsilon is zero. *)
Definition node_part (nd : Node) : list (Z * Z) :=
  (epsilon nd, 2) :: (if epsilon nd =? 0 then [(u nd, 1)] else []).

(** The calls of [push_n_bits] made by [write_node] and by [write_leaf]. *)
Definition write_node_fields (nd : Node) (index : Z) : list (Z * Z) :=
  (if negb (Z.rem index 4 =? 0) || (index =? 0) then [(moyenne nd, 8)] else [])
  ++ node_part nd.

Definition write_leaf_fields (nd : Node) (index : Z) : list (Z * Z) :=
  if negb (Z.rem index 4 =? 0) then [(moyenne nd, 8)] else [].

(** The calls made by the body of the loop of [encode] at index [i], and by
    [k] turns of the loop from index [i] on. *)
Definition step_fields (q : Quadtree) (i : Z) : list (Z * Z) :=
  match load (nodes q) i with
  | Done cur =>
      if i =? 0 then write_node_fields cur i
      else match load (nodes q) (Z.quot (i - 1) 4) with
           | Done par =>
               if negb (u par =? 0) then []
               else if is_leaf q i then write_leaf_fields cur i
               else write_node_fields cur i
           | _ => []
           end
  | _ => []
  end.

Fixpoint loop_fields (k : nat) (q : Quadtree) (i : Z) : list (Z * Z) :=
  match k with
  | O => []
  | S k' => step_fields q i ++ loop_fields k' q (i + 1)
  end.

(** ** The decoder against the encoder *)

(** Equality of the three serialised fields; the variance is not part of
    the stream. *)
Definition same_fields (a b : Node) : Prop :=
  moyenne a = moyenne b /\ epsilon a = epsilon b /\ u a = u b.

(** [agree ns ns' i]: the blocks [ns] and [ns'] hold the same serialised
    fields at every index below [i]. *)
Definition agree (ns ns' : list Node) (i : Z) : Prop :=
  forall j, 0 <= j < i ->
  exists nd nd', load ns j = Done nd /\ load ns' j = Done nd' /\ same_fields nd nd'.

(** The end of [read_node], which [interpolation_4th_child] repeats. *)
Definition read_tail (s : BitStream) (m : Z) (vv : float) : outcome (BitStream * Node) :=
  '(s1, e) ← read_n_bits s 2;
  if e =? 0 then
    '(s2, b) ← read_n_bits s1 1;
    Done (s2, {| moyenne := m; epsilon := e; u := b; v := vv |})
  else Done (s1, {| moyenne := m; epsilon := e; u := 0; v := vv |}).

(** The dispatch in the body of the loop of [decode]. *)
Definition decode_node (i : Z) (stream : BitStream) (quadtree : Quadtree)
    (current_node : Node) : outcome (BitStream * Node) :=
  if i =? 0 then read_node stream current_node
  else
    current_node_parent ← load (nodes quadtree) (Z.quot (i - 1) 4);
    if negb (u current_node_parent =? 0) then
      Done (stream, {| moyenne := moyenne current_node_parent; epsilon := 0; u := 1;
                       v := v current_node |})
    else if Z.rem i 4 =? 0 then
      interpolation_4th_child stream quadtree current_node current_node_parent i
    else if is_leaf quadtree i then read_leaf stream current_node
    else read_node stream current_node.

(** ** The painter *)

(** The leaf that the traversal of [build_image_from_quadtree_rec] (and of
    [build_quadtree_rec]) reaches for the pixel at offset [(dx, dy)] of a
    block of side [2^d] whose node is [index]: children 1 to 4 are the
    top-left, top-right, bottom-right and bottom-left quadrants. *)
Fixpoint leaf_index (d : nat) (index dx dy : Z) : Z :=
  match d with
  | O => index
  | S d' =>
      let c := 2 ^ Z.of_nat d' in
      if dx <? c then
        if dy <? c then leaf_index d' (4 * index + 1) dx dy
        else leaf_index d' (4 * index + 4) dx (dy - c)
      else
        if dy <? c then leaf_index d' (4 * index + 2) (dx - c) dy
        else leaf_index d' (4 * index + 3) (dx - c) (dy - c)
  end.

(** The mean of node [j]. *)
Definition node_moyenne (q : Quadtree) (j : Z) : Z :=
  match load (nodes q) j with
  | Done nd => moyenne nd
  | _ => 0
  end.

(** The pixel [(x', y')] is in the block of side [size] at [(x, y)]. *)
Definition in_block (x y size x' y' : Z) : bool :=
  (x <=? x') && (x' <? x + size) && (y <=? y') && (y' <? y + size).

(** ** The lossy filter *)

(** What [filtrage] may do to a node: nothing, or turn a node that is not
    uniform into a uniform one with [epsilon = 0]; [moyenne] and [v] stay. *)
Definition filtered (nd nd' : Node) : Prop :=
  moyenne nd' = moyenne nd /\ v nd' = v nd /\
  (nd' = nd \/ (u nd = 0 /\ u nd' = 1 /\ epsilon nd' = 0)).

Definition filtered_nodes (ns ns' : list Node) : Prop :=
  length ns' = length ns /\
  forall j nd, load ns j = Done nd ->
    exists nd', load ns' j = Done nd' /\ filtered nd nd'.

(** The value a call of [filtrage] returns for a node it leaves as it is. *)
Definition flag (nd : Node) : Z := if u nd =? 0 then 0 else 1.

(** [stable alpha ns d i sigma]: in the block [ns], the subtree of depth [d]
    rooted at [i] is one on which [filtrage] with threshold [sigma] has
    nothing left to do. *)
Fixpoint stable (alpha : float) (ns : list Node) (d : nat) (i : Z) (sigma : float)
    : Prop :=
  exists nd, load ns i = Done nd /\
    (u nd <> 0 \/
     (u nd = 0 /\
      match d with
      | O => False
      | S d' =>
          stable alpha ns d' (4 * i + 1) (sigma * alpha)%float /\
          stable alpha ns d' (4 * i + 2) (sigma * alpha)%float /\
          stable alpha ns d' (4 * i + 3) (sigma * alpha)%float /\
          stable alpha ns d' (4 * i + 4) (sigma * alpha)%float /\
          exists n1 n2 n3 n4,
            load ns (4 * i + 1) = Done n1 /\ load ns (4 * i + 2) = Done n2 /\
            load ns (4 * i + 3) = Done n3 /\ load ns (4 * i + 4) = Done n4 /\
            (0 + flag n1 + flag n2 + flag n3 + flag n4 <? 4)
            || (sigma <? v nd)%float = true
      end)).

(** Every leaf is uniform: this is what stops the recursion of [filtrage]
    before it leaves the node block. *)
Definition leaves_uniform (n : nat) (ns : list Node) : Prop :=
  forall j, first_index n <= j < first_index (S n) ->
  exists nd, load ns j = Done nd /\ u nd <> 0.

(** ** Inputs of the examples *)

(** Blocks whose initial contents are all zero. *)
Definition zero_bytes : nat -> Z := fun _ => 0.
Definition zero_nodes : nat -> Node :=
  fun _ => {| moyenne := 0; epsilon := 0; u := 0; v := 0%float |}.

(** The 1x1 raster of scenario 1; a 2x2 raster whose quadrants, in the
    order of the children, are 10, 20, 30 and 40; a uniform 2x2 raster; a
    3x3 raster. *)
Definition raster_1x1 : Image :=
  {| width := 1; image_size := 1; max_val := 255; image := [128] |}.

Definition raster_2x2 : Image :=
  {| width := 2; image_size := 4; max_val := 255; image := [10; 20; 40; 30] |}.

Definition raster_uniform_2x2 : Image :=
  {| width := 2; image_size := 4; max_val := 255; image := [10; 10; 10; 10] |}.

Definition raster_3x3 : Image :=
  {| width := 3; image_size := 9; max_val := 255;
     image := [1; 2; 3; 4; 5; 6; 7; 8; 9] |}.

(** A 4x4 raster whose quadrants are, in the order of the children: a block
    that is nearly uniform (10 11 / 10 10), a uniform block of 50, a block
    of extremes (0 255 / 255 0) and a uniform block of 90. *)
Definition raster_4x4 : Image :=
  {| width := 4; image_size := 16; max_val := 255;
     image := [10; 11; 50; 50;
               10; 10; 50; 50;
               90; 90; 0; 255;
               90; 90; 255; 0] |}.

(** A tree of one level below the root whose four leaves hold the means
    10, 20, 30 and 40. *)
Definition tree_2x2 : Quadtree :=
  {| nodes := [ {| moyenne := 25; epsilon := 0; u := 0; v := 0%float |};
                leaf_node 10; leaf_node 20; leaf_node 30; leaf_node 40 ];
     total_nodes := 5; levels := 1; medvar := 0%float; maxvar := 0%float |}.

(** ** Blocks of bytes *)

(** Every cell of the block holds a byte. *)
Definition bytes_ok (m : list Z) : Prop := Forall (fun b => 0 <= b < 256) m.

(** ** Files *)

(** A line without its newline, short enough for [fgets] to read it whole,
    newline included, into a buffer of 128 characters. *)
Definition short_line (l : list Z) : Prop :=
  Forall (fun c => 0 <= c < 256 /\ c <> 10) l /\ (length l <= 126)%nat.

(** Comment lines: each is [#], a text and a newline. *)
Definition comment_lines (texts : list (list Z)) : list Z :=
  concat (map (fun t => 35 :: t ++ [10]) texts).

(** The stream at byte [p] of a file, nothing pushed back. *)
Definition at_byte (bytes : list Z) (p : nat) : FILE :=
  {| contents := bytes; position := Z.of_nat p; pushed_back := [] |}.

(** The bytes of a text. *)
Definition bytes_of (s : String.string) : list Z :=
  map (fun a => Z.of_nat (Ascii.nat_of_ascii a)) (String.list_ascii_of_string s).

(** ** Nodes and their blocks *)

(** The block side, the node and the block origin reached from node [i],
    whose block has side [size] and origin [(x, y)], by going down the
    quadrants of [path] in turn: 1 is the top-left quadrant, 2 the
    top-right, 3 the bottom-right and 4 the bottom-left, as in the four
    recursive calls of [build_quadtree_rec]. *)
Fixpoint walk (path : list Z) (size i x y : Z) : Z * Z * Z * Z :=
  match path with
  | [] => (size, i, x, y)
  | a :: path' =>
      let c := Z.quot size 2 in
      walk path' c (4 * i + a)
        (if (a =? 2) || (a =? 3) then x + c else x)
        (if (a =? 3) || (a =? 4) then y + c else y)
  end.

Definition quadrants (path : list Z) : Prop := Forall (fun a => 1 <= a <= 4) path.

(** Every pixel of the block of side [size] at [(x, y)] has the value [c]. *)
Definition block_is (img : Image) (x y size c : Z) : Prop :=
  forall x' y', x <= x' < x + size -> y <= y' < y + size ->
  load (image img) (y' * width img + x') = Done c.

(** ** Uniformity in a subtree *)

(** In the subtree rooted at [i], every child of a uniform node is uniform. *)
Definition closed_under (ns : list Node) (i : Z) : Prop :=
  forall j p, desc i j -> load ns j = Done p -> u p <> 0 ->
  forall a c, 1 <= a <= 4 -> load ns (4 * j + a) = Done c -> u c <> 0.

(** ** What the decoder can know of a filtered tree *)

(** The invariants of a filtered tree: the fields fit their widths, the
    leaves are uniform, a node that is not uniform holds the sum of the
    means of its children, and the children of a uniform node are uniform. *)
Definition filtered_coherent (ns : list Node) (n : nat) : Prop :=
  forall j, 0 <= j < first_index (S n) ->
  exists nd, load ns j = Done nd /\ byte_fields nd /\
    (first_index n <= j -> leaf_fields nd) /\
    (j < first_index n ->
     exists n1 n2 n3 n4,
       load ns (4 * j + 1) = Done n1 /\ load ns (4 * j + 2) = Done n2 /\
       load ns (4 * j + 3) = Done n3 /\ load ns (4 * j + 4) = Done n4 /\
       (u nd = 0 ->
        4 * moyenne nd + epsilon nd = moyenne n1 + moyenne n2 + moyenne n3 + moyenne n4) /\
       (u nd <> 0 -> u n1 <> 0 /\ u n2 <> 0 /\ u n3 <> 0 /\ u n4 <> 0)).

(** The node at index [j], a node of zeros outside the block. *)
Definition node_at (ns : list Node) (j : Z) : Node :=
  match load ns j with
  | Done nd => nd
  | _ => {| moyenne := 0; epsilon := 0; u := 0; v := 0%float |}
  end.

(** The node the stream stands for at index [j]: the node of the tree when
    no ancestor of [j] is uniform, and otherwise a uniform node with the
    mean of the topmost uniform ancestor.  [k] bounds the number of
    ancestors of [j]. *)
Fixpoint flat_node (ns : list Node) (k : nat) (j : Z) : Node :=
  match k with
  | O => node_at ns j
  | S k' =>
      if j <=? 0 then node_at ns j
      else
        let par := flat_node ns k' ((j - 1) / 4) in
        if u par =? 0 then node_at ns j
        else {| moyenne := moyenne par; epsilon := 0; u := 1; v := v (node_at ns j) |}
  end.

Definition flat (ns : list Node) : list Node :=
  map (fun k => flat_node ns k (Z.of_nat k)) (seq 0 (length ns)).

(** The pixel shown for the offset [(dx, dy)] of the block of side [2^d]
    of node [index]: the mean of the first uniform node met on the way down
    from [index] to the leaf of that pixel, the quadrants being those of
    [leaf_index]. *)
Fixpoint shown_pixel (ns : list Node) (d : nat) (index dx dy : Z) {struct d} : Z :=
  match load ns index with
  | Done nd =>
      match d with
      | O => moyenne nd
      | S d' =>
          if negb (u nd =? 0) then moyenne nd
          else
            let c := 2 ^ Z.of_nat d' in
            if dx <? c then
              if dy <? c then shown_pixel ns d' (4 * index + 1) dx dy
              else shown_pixel ns d' (4 * index + 4) dx (dy - c)
            else
              if dy <? c then shown_pixel ns d' (4 * index + 2) (dx - c) dy
              else shown_pixel ns d' (4 * index + 3) (dx - c) (dy - c)
      end
  | _ => 0
  end.

(** ** The segmentation grid *)

(** The origin of the block that [build_segmentation_grid] draws for the
    pixel [(px, py)]: the block of the first uniform node met on the way
    down from [index], whose block has side [2^d] and origin [(x, y)], to
    that pixel. *)
Fixpoint drawn_block (ns : list Node) (d : nat) (index x y px py : Z) {struct d}
    : Z * Z :=
  match load ns index with
  | Done nd =>
      match d with
      | O => (x, y)
      | S d' =>
          if negb (u nd =? 0) then (x, y)
          else
            let c := 2 ^ Z.of_nat d' in
            if px <? x + c then
              if py <? y + c then drawn_block ns d' (4 * index + 1) x y px py
              else drawn_block ns d' (4 * index + 4) x (y + c) px py
            else
              if py <? y + c then drawn_block ns d' (4 * index + 2) (x + c) y px py
              else drawn_block ns d' (4 * index + 3) (x + c) (y + c) px py
      end
  | _ => (x, y)
  end.

(** The pixel [(px, py)] is just above the top row of a drawn block of the
    subtree of [index]. *)
Definition top_border (ns : list Node) (d : nat) (index x y px py : Z) : bool :=
  (x <=? px) && (px <? x + 2 ^ Z.of_nat d) &&
  (y <=? py + 1) && (py + 1 <? y + 2 ^ Z.of_nat d) &&
  (snd (drawn_block ns d index x y px (py + 1)) =? py + 1).

(** The pixel [(px, py)] is just left of the left column of a drawn block
    of the subtree of [index]. *)
Definition left_border (ns : list Node) (d : nat) (index x y px py : Z) : bool :=
  (x <=? px + 1) && (px + 1 <? x + 2 ^ Z.of_nat d) &&
  (y <=? py) && (py <? y + 2 ^ Z.of_nat d) &&
  (fst (drawn_block ns d index x y (px + 1) py) =? px + 1).

(** ** What every decoded tree satisfies *)

(** The first [k] nodes of the block are well formed: each holds a mean
    between 0 and 255, an epsilon between 0 and 3 and a uniformity bit that
    is 0 when epsilon is not; below the root, a leaf is uniform, and a
    child of a uniform node is uniform with the mean of its parent. *)
Definition decoded_upto (n : nat) (ns : list Node) (k : Z) : Prop :=
  forall j, 0 <= j < k ->
  exists nd, load ns j = Done nd /\ byte_fields nd /\
    (1 <= j -> first_index n <= j -> leaf_fields nd) /\
    (1 <= j -> forall par, load ns ((j - 1) / 4) = Done par -> u par <> 0 ->
       moyenne nd = moyenne par /\ epsilon nd = 0 /\ u nd = 1).

(** ** More inputs of the examples *)

(** A stream of eight bytes that announces one level and was not written
    by the encoder. *)
Definition stream_8_bytes : BitStream :=
  {| buf := [1; 37; 0; 255; 0; 255; 0; 255]; start := 0; ptr := 8; capa := 8 |}.

(** * Properties *)

(** ** Outcomes *)

Lemma bind_Done {A B} (m : outcome A) (f : A -> outcome B) (b : B) :
  m ≫= f = Done b -> exists a, m = Done a /\ f a = Done b.
Proof. destruct m; simpl; intros H; try discriminate. eauto. Qed.

Lemma bind_Done_l {A B} (m : outcome A) (f : A -> outcome B) (a : A) :
  m = Done a -> m ≫= f = f a.
Proof. intros ->. reflexivity. Qed.

(** ** Blocks *)

Lemma load_Done {A} (l : list A) (i : Z) (a : A) :
  load l i = Done a <-> 0 <= i /\ l !! Z.to_nat i = Some a.
Proof.
  unfold load. destruct (Z.ltb_spec i 0).
  - split; [discriminate | lia].
  - destruct (l !! Z.to_nat i) eqn:E; split; intros H1;
      try discriminate; try (destruct H1; congruence).
    inversion H1; subst; auto.
Qed.

Lemma load_in_range {A} (l : list A) (i : Z) :
  0 <= i < Z.of_nat (length l) -> exists a, load l i = Done a.
Proof.
  intros Hi. destruct (lookup_lt_is_Some_2 l (Z.to_nat i)) as [a Ha]; [lia|].
  exists a. apply load_Done. split; [lia | done].
Qed.

Lemma load_range {A} (l : list A) (i : Z) (a : A) :
  load l i = Done a -> 0 <= i < Z.of_nat (length l).
Proof.
  intros [H0 H]%load_Done. apply lookup_lt_Some in H. lia.
Qed.

Lemma store_Done {A} (l l' : list A) (i : Z) (a : A) :
  store l i a = Done l' <->
  0 <= i < Z.of_nat (length l) /\ l' = <[Z.to_nat i := a]> l.
Proof.
  unfold store. destruct (Z.ltb_spec i 0); [split; [discriminate | lia]|].
  destruct (Z.ltb_spec i (Z.of_nat (length l))); split; intros H1;
    try discriminate; try lia.
  - inversion H1; subst; auto.
  - destruct H1 as [_ ->]. reflexivity.
Qed.

Lemma store_in_range {A} (l : list A) (i : Z) (a : A) :
  0 <= i < Z.of_nat (length l) -> store l i a = Done (<[Z.to_nat i := a]> l).
Proof. intros H. apply store_Done. auto. Qed.

Lemma load_insert_eq {A} (l : list A) (i : Z) (a : A) :
  0 <= i < Z.of_nat (length l) -> load (<[Z.to_nat i := a]> l) i = Done a.
Proof.
  intros H. apply load_Done. split; [lia|].
  apply list_lookup_insert_eq. lia.
Qed.

Lemma load_insert_ne {A} (l : list A) (i j : Z) (a : A) :
  0 <= i -> 0 <= j -> i <> j -> load (<[Z.to_nat i := a]> l) j = load l j.
Proof.
  intros Hi Hj Hne. unfold load. destruct (Z.ltb_spec j 0); [done|].
  rewrite list_lookup_insert_ne; [done | lia].
Qed.

Lemma length_malloc {A} (size : Z) (junk : nat -> A) :
  Z.of_nat (length (malloc size junk)) = Z.max 0 size.
Proof. unfold malloc. rewrite length_map, length_seq. lia. Qed.

(** ** The bit stream seen as a sequence of bits

    Bit [k] of a block is bit [7 - k mod 8] of byte [k / 8]: the first bit
    of the stream is the most significant bit of byte 0. *)

Lemma getbit_b2z (x k : Z) : 0 <= k -> getbit x k = Z.b2z (Z.testbit x k).
Proof.
  intros Hk. unfold getbit.
  change 1 with (Z.ones 1). rewrite Z.land_ones by lia.
  rewrite Z.shiftr_div_pow2 by lia. rewrite Z.testbit_spec' by lia.
  reflexivity.
Qed.

Lemma getbit_eqb_0 (x k : Z) : 0 <= k -> (getbit x k =? 0) = negb (Z.testbit x k).
Proof.
  intros Hk. rewrite getbit_b2z by lia. destruct (Z.testbit x k); reflexivity.
Qed.

Lemma testbit_setbit (byte b valb j : Z) :
  0 <= b < 8 -> 0 <= j < 8 ->
  Z.testbit (setbit byte b valb) j =
  if j =? b then negb (valb =? 0) else Z.testbit byte j.
Proof.
  intros Hb Hj. unfold setbit, byte_of. change 256 with (2 ^ 8).
  rewrite Z.mod_pow2_bits_low by lia.
  rewrite Z.shiftl_1_l.
  destruct (valb =? 0).
  - rewrite Z.land_spec, Z.lnot_spec, Z.pow2_bits_eqb by lia.
    rewrite (Z.eqb_sym b j). destruct (j =? b); simpl;
      [apply andb_false_r | apply andb_true_r].
  - rewrite Z.lor_spec, Z.pow2_bits_eqb by lia.
    rewrite (Z.eqb_sym b j). destruct (j =? b); simpl;
      [apply orb_true_r | apply orb_false_r].
Qed.

Lemma setbit_range (byte b valb : Z) : 0 <= setbit byte b valb < 256.
Proof. unfold setbit, byte_of. apply Z.mod_pos_bound. lia. Qed.

Lemma testbit_setbit_high (byte b valb j : Z) :
  8 <= j -> Z.testbit (setbit byte b valb) j = false.
Proof.
  intros Hj. unfold setbit, byte_of. change 256 with (2 ^ 8).
  apply Z.mod_pow2_bits_high. lia.
Qed.

Lemma sbit_insert_same (m : list Z) (p k x : Z) :
  0 <= p < Z.of_nat (length m) -> 0 <= k -> k / 8 = p ->
  sbit (<[Z.to_nat p := x]> m) k = Z.testbit x (7 - k mod 8).
Proof.
  intros Hp Hk Hq. unfold sbit. rewrite Hq.
  rewrite list_lookup_insert_eq by lia. reflexivity.
Qed.

Lemma sbit_insert_other (m : list Z) (p k x : Z) :
  0 <= p -> 0 <= k -> k / 8 <> p ->
  sbit (<[Z.to_nat p := x]> m) k = sbit m k.
Proof.
  intros Hp Hk Hq. unfold sbit.
  assert (0 <= k / 8) by (apply Z.div_pos; lia).
  rewrite list_lookup_insert_ne by lia. reflexivity.
Qed.

Lemma pushbits_step_spec (src nbit i : Z) (s : BitStream) :
  capa_ok s -> 0 <= ptr s -> 0 <= nbit - 1 - i ->
  wpos s < 8 * Z.of_nat (length (buf s)) ->
  exists s', pushbits_step src nbit i s = Done s' /\
    length (buf s') = length (buf s) /\ start s' = start s /\
    capa_ok s' /\ capa s' <= 7 /\ 0 <= ptr s' /\ wpos s' = wpos s + 1 /\
    sbit (buf s') (wpos s) = Z.testbit src (nbit - 1 - i) /\
    (forall k, 0 <= k -> k <> wpos s -> sbit (buf s') k = sbit (buf s) k).
Proof.
  unfold capa_ok, wpos, pushbits_step. intros Hc Hp Hi Hlen.
  set (p := if capa s =? 0 then ptr s + 1 else ptr s).
  set (c := if capa s =? 0 then CHAR_BIT else capa s).
  assert (Hpc : 8 * ptr s + (8 - capa s) = 8 * p + (8 - c) /\ 1 <= c <= 8 /\ 0 <= p).
  { subst p c. unfold CHAR_BIT. destruct (Z.eqb_spec (capa s) 0); lia. }
  destruct Hpc as (Hpos & Hc' & Hp').
  assert (Hin : 0 <= p < Z.of_nat (length (buf s))) by lia.
  destruct (load_in_range (buf s) p Hin) as [byte Hbyte].
  rewrite Hbyte. simpl. rewrite store_in_range by lia. simpl.
  eexists. split; [reflexivity|]. simpl.
  assert (Hdiv : (8 * p + (8 - c)) / 8 = p /\ (8 * p + (8 - c)) mod 8 = 8 - c).
  { split.
    - symmetry. apply Z.div_unique with (r := 8 - c); lia.
    - symmetry. apply Z.mod_unique with (q := p); lia. }
  destruct Hdiv as [Hq Hr].
  rewrite length_insert. repeat split; try lia.
  - rewrite Hpos. rewrite sbit_insert_same by (lia || assumption).
    rewrite Hr. rewrite testbit_setbit by lia.
    replace (7 - (8 - c)) with (c - 1) by lia. rewrite Z.eqb_refl.
    rewrite getbit_eqb_0 by lia. apply negb_involutive.
  - intros k Hk Hne. destruct (Z.eq_dec (k / 8) p) as [Hkp|Hkp].
    + rewrite sbit_insert_same by (lia || assumption).
      unfold sbit. rewrite Hkp.
      apply load_Done in Hbyte. destruct Hbyte as [_ ->].
      assert (0 <= k mod 8 < 8) by (apply Z.mod_pos_bound; lia).
      rewrite testbit_setbit by lia.
      destruct (Z.eqb_spec (7 - k mod 8) (c - 1)); [|reflexivity].
      exfalso. apply Hne. rewrite Hpos.
      rewrite (Z.div_mod k 8) by lia. lia.
    + apply sbit_insert_other; lia.
Qed.

Lemma wpos_nonneg (s : BitStream) : capa_ok s -> 0 <= ptr s -> 0 <= wpos s.
Proof. unfold capa_ok, wpos. lia. Qed.

Lemma pushbits_loop_spec (k : nat) (src nbit : Z) :
  forall (i : Z) (s : BitStream) (bw : Z),
  Z.of_nat k = nbit - i -> 0 <= i ->
  capa_ok s -> 0 <= ptr s ->
  wpos s + Z.of_nat k <= 8 * Z.of_nat (length (buf s)) ->
  exists s', pushbits_loop k src nbit i s bw = Done (s', bw + Z.of_nat k) /\
    length (buf s') = length (buf s) /\ start s' = start s /\
    capa_ok s' /\ 0 <= ptr s' /\ wpos s' = wpos s + Z.of_nat k /\
    (k = O -> s' = s) /\ (k <> O -> capa s' <= 7) /\
    (forall j, 0 <= j < Z.of_nat k ->
       sbit (buf s') (wpos s + j) = Z.testbit src (nbit - 1 - (i + j))) /\
    (forall p, 0 <= p < wpos s -> sbit (buf s') p = sbit (buf s) p).
Proof.
  induction k as [|k IH]; intros i s bw Hk Hi Hc Hp Hlen.
  - exists s. simpl. rewrite Z.add_0_r. unfold capa_ok in *.
    repeat split; auto; try lia.
  - destruct (pushbits_step_spec src nbit i s) as
      (s1 & Hs1 & Hl1 & Hst1 & Hc1 & Hc7 & Hp1 & Hw1 & Hbit1 & Hfr1); auto; try lia.
    destruct (IH (i + 1) s1 (bw + 1)) as
      (s' & Hs' & Hl' & Hst' & Hc' & Hp' & Hw' & Hk0 & Hk7 & Hbits' & Hfr');
      auto; try lia.
    pose proof (wpos_nonneg s Hc Hp) as Hw0.
    exists s'. simpl. rewrite Hs1. simpl. rewrite Hs'.
    split; [f_equal; f_equal; lia|].
    split; [congruence|]. split; [congruence|]. split; [auto|].
    split; [auto|]. split; [lia|]. split; [discriminate|].
    split.
    { intros _. destruct k as [|k'].
      - rewrite (Hk0 eq_refl). exact Hc7.
      - apply Hk7. discriminate. }
    split.
    + intros j Hj. destruct (Z.eq_dec j 0) as [->|Hj0].
      * rewrite Z.add_0_r. rewrite Hfr' by lia. rewrite Hbit1.
        f_equal. lia.
      * replace (wpos s + j) with (wpos s1 + (j - 1)) by lia.
        rewrite Hbits' by lia. f_equal. lia.
    + intros p Hp0. rewrite Hfr' by lia. apply Hfr1; lia.
Qed.

Lemma push_n_bits_spec (s : BitStream) (src n : Z) :
  0 <= n <= 8 -> capa_ok s -> 0 <= ptr s ->
  wpos s + n <= 8 * Z.of_nat (length (buf s)) ->
  exists s', push_n_bits s src n = Done s' /\
    length (buf s') = length (buf s) /\ start s' = start s /\
    capa_ok s' /\ 0 <= ptr s' /\ wpos s' = wpos s + n /\
    (n = 0 -> s' = s) /\ (0 < n -> capa s' <= 7) /\
    (forall j, 0 <= j < n ->
       sbit (buf s') (wpos s + j) = Z.testbit src (n - 1 - j)) /\
    (forall p, 0 <= p < wpos s -> sbit (buf s') p = sbit (buf s) p).
Proof.
  intros Hn Hc Hp Hlen.
  assert (Hsz : size_t_of n = n) by (apply Z.mod_small; lia).
  destruct (pushbits_loop_spec (Z.to_nat n) (byte_of src) n 0 s 0) as
    (s' & Hs' & Hl' & Hst' & Hc' & Hp' & Hw' & Hk0 & Hk7 & Hbits' & Hfr');
    auto; try lia.
  exists s'. unfold push_n_bits, pushbits. rewrite Hsz, Hs'. simpl.
  rewrite Z2Nat.id by lia. rewrite Z.eqb_refl.
  split; [reflexivity|]. split; [auto|]. split; [auto|]. split; [auto|].
  split; [auto|]. split; [lia|].
  split; [intros ->; apply Hk0; reflexivity|].
  split; [intros Hpos; apply Hk7; lia|].
  split; [|auto].
  intros j Hj. rewrite Hbits' by lia. unfold byte_of. change 256 with (2 ^ 8).
  rewrite Z.mod_pow2_bits_low by lia. f_equal; lia.
Qed.

(** [finishBitStream] pads the current byte and leaves the write cursor on
    the next byte boundary. *)
Lemma finishBitStream_spec (s : BitStream) :
  capa_ok s -> 0 <= ptr s -> wpos s <= 8 * Z.of_nat (length (buf s)) ->
  exists s', finishBitStream s = Done s' /\
    length (buf s') = length (buf s) /\ start s' = start s /\
    capa s' = 8 /\ 0 <= ptr s' /\
    wpos s <= 8 * ptr s' < wpos s + 8 /\
    (forall p, 0 <= p < wpos s -> sbit (buf s') p = sbit (buf s) p).
Proof.
  intros Hc Hp Hlen. unfold finishBitStream, CHAR_BIT.
  destruct (Z.eqb_spec (capa s) 8) as [H8|H8].
  - exists s. unfold wpos in *. repeat split; auto; lia.
  - destruct (push_n_bits_spec s 0 (capa s)) as
      (s' & Hs' & Hl' & Hst' & Hc' & Hp' & Hw' & Hk0 & Hk7 & _ & Hfr');
      auto; unfold capa_ok, wpos in *; try lia.
    rewrite Hs'. simpl. eexists. split; [reflexivity|]. simpl.
    assert (Hcs : capa s' = 0).
    { destruct (Z.eq_dec (capa s) 0) as [E0|E0].
      - rewrite (Hk0 E0). exact E0.
      - assert (capa s' <= 7) by (apply Hk7; lia). lia. }
    repeat split; auto; try lia.
Qed.

Lemma pullbits_step_spec (nbit i : Z) (s : BitStream) (d : Z) :
  capa_ok s -> 0 <= start s ->
  rpos s < 8 * Z.of_nat (length (buf s)) ->
  exists s',
    pullbits_step nbit i (s, d) =
      Done (s', setbit d (nbit - 1 - i) (Z.b2z (sbit (buf s) (rpos s)))) /\
    buf s' = buf s /\ ptr s' = ptr s /\
    capa_ok s' /\ 0 <= start s' /\ rpos s' = rpos s + 1.
Proof.
  unfold capa_ok, rpos, pullbits_step. intros Hc Hp Hlen.
  set (p := if capa s =? 0 then start s + 1 else start s).
  set (c := if capa s =? 0 then CHAR_BIT else capa s).
  assert (Hpc : 8 * start s + (8 - capa s) = 8 * p + (8 - c) /\ 1 <= c <= 8 /\ 0 <= p).
  { subst p c. unfold CHAR_BIT. destruct (Z.eqb_spec (capa s) 0); lia. }
  destruct Hpc as (Hpos & Hc' & Hp').
  assert (Hin : 0 <= p < Z.of_nat (length (buf s))) by lia.
  destruct (load_in_range (buf s) p Hin) as [byte Hbyte].
  rewrite Hbyte. simpl.
  exists {| buf := buf s; start := p; ptr := ptr s; capa := c - 1 |}.
  split; [|cbn [buf start ptr capa]; repeat split; lia].
  do 3 f_equal. rewrite getbit_b2z by lia. f_equal.
  unfold sbit. rewrite Hpos.
  replace ((8 * p + (8 - c)) / 8) with p
    by (apply Z.div_unique with (r := 8 - c); lia).
  replace ((8 * p + (8 - c)) mod 8) with (8 - c)
    by (apply Z.mod_unique with (q := p); lia).
  apply load_Done in Hbyte. destruct Hbyte as [_ ->]. f_equal. lia.
Qed.

Lemma b2z_eqb_0 (b : bool) : (Z.b2z b =? 0) = negb b.
Proof. destruct b; reflexivity. Qed.

Lemma pullbits_loop_spec (k : nat) (nbit : Z) :
  forall (i : Z) (s : BitStream) (d br : Z),
  Z.of_nat k = nbit - i -> 0 <= i -> nbit <= 8 ->
  capa_ok s -> 0 <= start s ->
  rpos s + Z.of_nat k <= 8 * Z.of_nat (length (buf s)) ->
  exists s' d', pullbits_loop k nbit i (s, d) br = Done (s', d', br + Z.of_nat k) /\
    buf s' = buf s /\ ptr s' = ptr s /\
    capa_ok s' /\ 0 <= start s' /\ rpos s' = rpos s + Z.of_nat k /\
    (k = O -> d' = d) /\ (k <> O -> 0 <= d' < 256) /\
    (forall j, 0 <= j < 8 ->
       Z.testbit d' j =
       if j <? nbit - i then sbit (buf s) (rpos s + (nbit - 1 - j - i))
       else Z.testbit d j).
Proof.
  induction k as [|k IH]; intros i s d br Hk Hi Hn Hc Hp Hlen.
  - exists s, d. simpl. rewrite !Z.add_0_r. unfold capa_ok in *.
    repeat split; auto; try lia.
    intros j Hj. destruct (Z.ltb_spec j (nbit - i)); [lia | reflexivity].
  - destruct (pullbits_step_spec nbit i s d) as
      (s1 & Hs1 & Hb1 & Hpt1 & Hc1 & Hp1 & Hr1); auto; try lia.
    destruct (IH (i + 1) s1
                (setbit d (nbit - 1 - i) (Z.b2z (sbit (buf s) (rpos s)))) (br + 1))
      as (s' & d' & Hs' & Hb' & Hpt' & Hc' & Hp' & Hr' & Hk0 & Hk8 & Hbits');
      auto; try lia.
    { rewrite Hb1. lia. }
    exists s', d'. cbn [pullbits_loop]. rewrite Hs1.
    cbn [mbind outcome_bind]. rewrite Hs'.
    split; [do 2 f_equal; lia|].
    split; [congruence|]. split; [congruence|]. split; [auto|].
    split; [auto|]. split; [lia|]. split; [discriminate|].
    split.
    { intros _. destruct k as [|k'].
      - rewrite (Hk0 eq_refl). apply setbit_range.
      - apply Hk8. discriminate. }
    intros j Hj. rewrite Hbits' by lia. rewrite Hb1, Hr1.
    destruct (Z.ltb_spec j (nbit - (i + 1))), (Z.ltb_spec j (nbit - i)); try lia.
    + f_equal. lia.
    + rewrite testbit_setbit by lia.
      replace (j =? nbit - 1 - i) with true by (symmetry; apply Z.eqb_eq; lia).
      rewrite b2z_eqb_0, negb_involutive. f_equal. lia.
    + rewrite testbit_setbit by lia.
      replace (j =? nbit - 1 - i) with false by (symmetry; apply Z.eqb_neq; lia).
      reflexivity.
Qed.

Lemma read_n_bits_spec (s : BitStream) (n : Z) :
  0 <= n <= 8 -> capa_ok s -> 0 <= start s ->
  rpos s + n <= 8 * Z.of_nat (length (buf s)) ->
  exists s' r, read_n_bits s n = Done (s', r) /\
    buf s' = buf s /\ ptr s' = ptr s /\
    capa_ok s' /\ 0 <= start s' /\ rpos s' = rpos s + n /\
    (forall j, 0 <= j ->
       Z.testbit r j = if j <? n then sbit (buf s) (rpos s + (n - 1 - j)) else false).
Proof.
  intros Hn Hc Hp Hlen.
  assert (Hsz : size_t_of n = n) by (apply Z.mod_small; lia).
  destruct (pullbits_loop_spec (Z.to_nat n) n 0 s 0 0) as
    (s' & r & Hs' & Hb' & Hpt' & Hc' & Hp' & Hr' & Hk0 & Hk8 & Hbits');
    auto; try lia.
  exists s', r. unfold read_n_bits, pullbits. rewrite Hsz, Hs'. simpl.
  rewrite Z2Nat.id by lia. rewrite Z.eqb_refl.
  split; [reflexivity|]. split; [auto|]. split; [auto|]. split; [auto|].
  split; [auto|]. split; [lia|].
  intros j Hj. destruct (Z.ltb_spec j 8) as [Hj8|Hj8].
  - rewrite Hbits' by lia. rewrite Z.sub_0_r, Z.testbit_0_l.
    destruct (j <? n); [f_equal; lia | reflexivity].
  - replace (j <? n) with false by (symmetry; apply Z.ltb_ge; lia).
    destruct (Z.eq_dec n 0) as [E0|E0].
    + rewrite Hk0 by lia. apply Z.testbit_0_l.
    + assert (Hr8 : 0 <= r < 256) by (apply Hk8; lia).
      rewrite <- (Z.mod_small r (2 ^ 8)) by (change (2 ^ 8) with 256; lia).
      apply Z.mod_pow2_bits_high. lia.
Qed.

(** Reading back a field that was written: the value read is the low [n]
    bits of the value written. *)
Lemma read_n_bits_value (s : BitStream) (n val : Z) :
  0 <= n <= 8 -> capa_ok s -> 0 <= start s ->
  rpos s + n <= 8 * Z.of_nat (length (buf s)) ->
  (forall j, 0 <= j < n -> sbit (buf s) (rpos s + j) = Z.testbit val (n - 1 - j)) ->
  exists s', read_n_bits s n = Done (s', val mod 2 ^ n) /\
    buf s' = buf s /\ ptr s' = ptr s /\
    capa_ok s' /\ 0 <= start s' /\ rpos s' = rpos s + n.
Proof.
  intros Hn Hc Hp Hlen Hbits.
  destruct (read_n_bits_spec s n) as (s' & r & Hs' & Hb & Hpt & Hc' & Hp' & Hr' & Hr);
    auto.
  exists s'. split; [|auto].
  rewrite Hs'. do 2 f_equal. apply Z.bits_inj'. intros j Hj.
  rewrite Hr by lia. destruct (Z.ltb_spec j n).
  - rewrite Z.mod_pow2_bits_low by lia. rewrite Hbits by lia. f_equal. lia.
  - rewrite Z.mod_pow2_bits_high by lia. reflexivity.
Qed.

(** [pullbits] always reports [nbit] bits, so the error branch of
    [read_n_bits] is never taken. *)
Lemma pullbits_loop_count (k : nat) (nbit : Z) :
  forall i st br st' w,
  pullbits_loop k nbit i st br = Done (st', w) -> w = br + Z.of_nat k.
Proof.
  induction k as [|k IH]; intros i st br st' w H; simpl in H.
  - inversion H. lia.
  - apply bind_Done in H. destruct H as (st1 & _ & H).
    apply IH in H. lia.
Qed.

Lemma pullbits_loop_no_exit (k : nat) (nbit : Z) :
  forall i st br, pullbits_loop k nbit i st br <> ExitFailure.
Proof.
  induction k as [|k IH]; intros i st br; simpl; [discriminate|].
  destruct (pullbits_step nbit i st) as [st1| | |] eqn:E1; simpl;
    try discriminate; [apply IH|].
  destruct st as [c d]. unfold pullbits_step, load in E1.
  destruct (Z.ltb _ 0); [discriminate|].
  destruct (buf c !! _); discriminate.
Qed.

(** [read_n_bits] never takes its error exit,
    whatever the stream holds and however many bits are asked for. *)
Lemma read_n_bits_never_exits (s : BitStream) (n : Z) :
  read_n_bits s n <> ExitFailure.
Proof.
  unfold read_n_bits, pullbits.
  assert (Hsz : 0 <= size_t_of n) by (apply Z.mod_pos_bound; lia).
  destruct (pullbits_loop (Z.to_nat (size_t_of n)) (size_t_of n) 0 (s, 0) 0)
    as [[st w]| | |] eqn:E; simpl; try discriminate.
  - apply pullbits_loop_count in E. rewrite E, Z.add_0_l, Z2Nat.id by lia.
    rewrite Z.eqb_refl. discriminate.
  - exfalso. revert E. apply pullbits_loop_no_exit.
Qed.

(** ** The heap layout of the quadtree *)

Lemma first_index_nonneg (l : nat) : 0 <= first_index l.
Proof. induction l; simpl; lia. Qed.

Lemma first_index_succ (l : nat) : first_index (S l) = first_index l + 4 ^ Z.of_nat l.
Proof.
  induction l as [|l IH]; [reflexivity|].
  change (first_index (S (S l))) with (4 * first_index (S l) + 1).
  rewrite IH at 1. rewrite Nat2Z.inj_succ, Z.pow_succ_r by lia.
  simpl first_index. lia.
Qed.

Lemma first_index_mono (l : nat) : first_index l < first_index (S l).
Proof. pose proof (first_index_nonneg l). simpl. lia. Qed.

Lemma first_index_closed (l : nat) : 3 * first_index l + 1 = 4 ^ Z.of_nat l.
Proof.
  induction l as [|l IH]; [reflexivity|].
  rewrite Nat2Z.inj_succ, Z.pow_succ_r by lia. cbn [first_index]. lia.
Qed.

Lemma shiftl_1_pow4 (n : Z) : 0 <= n -> Z.shiftl 1 (2 * n) = 4 ^ n.
Proof.
  intros Hn. rewrite Z.shiftl_1_l. rewrite Z.pow_mul_r by lia. reflexivity.
Qed.

Lemma count_nodes_spec (k : nat) :
  forall (i : nat) (total : Z),
  count_nodes k (Z.of_nat i) total =
  total + first_index (i + k) - first_index i.
Proof.
  induction k as [|k IH]; intros i total; simpl.
  - rewrite Nat.add_0_r. lia.
  - replace (Z.of_nat i + 1) with (Z.of_nat (S i)) by lia.
    rewrite IH. rewrite shiftl_1_pow4 by lia.
    replace (i + S k)%nat with (S i + k)%nat by lia.
    rewrite (first_index_succ i). lia.
Qed.

Lemma create_empty_quadtree_shape (n : nat) (junk : nat -> Node) :
  shape (create_empty_quadtree (Z.of_nat n) junk) n.
Proof.
  unfold shape, create_empty_quadtree. cbn [levels total_nodes nodes].
  replace (Z.to_nat (Z.of_nat n + 1)) with (S n) by lia.
  pose proof (count_nodes_spec (S n) 0 0) as H.
  change (Z.of_nat 0) with 0 in H. rewrite H.
  change (0 + S n)%nat with (S n). change (first_index 0) with 0.
  rewrite length_malloc.
  pose proof (first_index_nonneg (S n)). repeat split; lia.
Qed.

Lemma is_leaf_shape (q : Quadtree) (n : nat) (i : Z) :
  shape q n -> is_leaf q i = (first_index n <=? i).
Proof.
  intros (Hl & Ht & _). unfold is_leaf. rewrite Hl, Ht.
  rewrite shiftl_1_pow4 by lia. rewrite first_index_succ.
  rewrite Z.geb_leb. f_equal. lia.
Qed.

Lemma desc_le (i j : Z) : 0 <= i -> desc i j -> i <= j.
Proof. intros Hi H. induction H; lia. Qed.

Lemma desc_trans (i j k : Z) : desc i j -> desc j k -> desc i k.
Proof. intros Hij Hjk. induction Hjk; [assumption|]. apply desc_child; auto. Qed.

Lemma desc_of_child (i j a : Z) : 1 <= a <= 4 -> desc (4 * i + a) j -> desc i j.
Proof.
  intros Ha H. apply desc_trans with (j := 4 * i + a); [|assumption].
  apply desc_child; [apply desc_refl | assumption].
Qed.

(** The ancestors of a node form a chain. *)
Lemma desc_chain (i i' j : Z) :
  0 <= i -> 0 <= i' -> desc i j -> desc i' j -> desc i i' \/ desc i' i.
Proof.
  intros Hi Hi' H. revert i' Hi'. induction H as [|j a H IH Ha]; intros i' Hi' H'.
  - right. assumption.
  - inversion H' as [E|j' a' Hj' Ha' E].
    + left. subst i'. apply desc_child; assumption.
    + assert (j' = j) by lia. subst j'. apply IH; assumption.
Qed.

Lemma desc_siblings_disjoint (p a b j : Z) :
  0 <= p -> 1 <= a <= 4 -> 1 <= b <= 4 -> a <> b ->
  desc (4 * p + a) j -> ~ desc (4 * p + b) j.
Proof.
  intros Hp Ha Hb Hab H1 H2.
  assert (Hgen : forall c d, 1 <= c <= 4 -> 1 <= d <= 4 -> c <> d ->
                   ~ desc (4 * p + c) (4 * p + d)).
  { intros c d Hc Hd Hcd H. inversion H as [E|j' a' Hj' Ha' E]; [lia|].
    assert (j' = p) by lia. subst j'.
    apply desc_le in Hj'; lia. }
  destruct (desc_chain (4 * p + a) (4 * p + b) j) as [H|H]; auto; try lia.
  - apply (Hgen a b); auto.
  - apply (Hgen b a); auto.
Qed.

Lemma desc_not_parent (p a : Z) : 0 <= p -> 1 <= a <= 4 -> ~ desc (4 * p + a) p.
Proof. intros Hp Ha H. apply desc_le in H; lia. Qed.

Lemma desc_inv (i j : Z) :
  desc i j -> j = i \/ exists a, 1 <= a <= 4 /\ desc (4 * i + a) j.
Proof.
  intros H. induction H as [|j a H IH Ha]; [left; reflexivity|].
  right. destruct IH as [->|(b & Hb & Hd)].
  - exists a. split; [assumption | apply desc_refl].
  - exists b. split; [assumption | apply desc_child; assumption].
Qed.

Lemma desc_root (j : Z) : 0 <= j -> desc 0 j.
Proof.
  assert (H : forall (m : nat) (k : Z), 0 <= k <= Z.of_nat m -> desc 0 k).
  { induction m as [|m IH]; intros k Hk.
    - replace k with 0 by lia. apply desc_refl.
    - destruct (Z.eq_dec k 0) as [->|Hk0]; [apply desc_refl|].
      replace k with (4 * ((k - 1) / 4) + ((k - 1) mod 4 + 1))
        by (pose proof (Z.div_mod (k - 1) 4); lia).
      apply desc_child.
      + apply IH. split; [apply Z.div_pos; lia|].
        apply Z.div_le_upper_bound; lia.
      + pose proof (Z.mod_pos_bound (k - 1) 4). lia. }
  intros Hj. apply (H (Z.to_nat j)). lia.
Qed.

Lemma at_level_child (l : nat) (i a : Z) :
  at_level l i -> 1 <= a <= 4 -> at_level (S l) (4 * i + a).
Proof. unfold at_level. simpl. lia. Qed.

Lemma at_level_root : at_level 0 0.
Proof. unfold at_level. simpl. lia. Qed.

(** ** The builder *)

Lemma built_root (img : Image) (ns : list Node) (d : nat) (size i x y : Z) :
  built img ns d size i x y -> exists nd, load ns i = Done nd.
Proof.
  destruct d; simpl.
  - intros (pixel & _ & H). eauto.
  - intros (_ & _ & _ & _ & n1 & n2 & n3 & n4 & _ & _ & _ & _ & H). eauto.
Qed.

(** [built] only looks at the subtree of [i]. *)
Lemma built_ext (img : Image) (ns ns' : list Node) (d : nat) :
  forall size i x y, 0 <= i ->
  (forall j, desc i j -> load ns' j = load ns j) ->
  built img ns d size i x y -> built img ns' d size i x y.
Proof.
  induction d as [|d IH]; intros size i x y Hi Hext; simpl.
  - intros (pixel & Hp & Hn). exists pixel. split; [assumption|].
    rewrite Hext; [assumption | apply desc_refl].
  - assert (Hc : forall a, 1 <= a <= 4 ->
              forall j, desc (4 * i + a) j -> load ns' j = load ns j).
    { intros a Ha j Hd. apply Hext. apply desc_of_child with (a := a); assumption. }
    assert (Hr : forall a, 1 <= a <= 4 -> load ns' (4 * i + a) = load ns (4 * i + a)).
    { intros a Ha. apply (Hc a Ha). apply desc_refl. }
    intros (H1 & H2 & H3 & H4 & n1 & n2 & n3 & n4 & L1 & L2 & L3 & L4 & L).
    split; [apply IH; [lia | apply (Hc 1); lia | assumption]|].
    split; [apply IH; [lia | apply (Hc 2); lia | assumption]|].
    split; [apply IH; [lia | apply (Hc 3); lia | assumption]|].
    split; [apply IH; [lia | apply (Hc 4); lia | assumption]|].
    exists n1, n2, n3, n4.
    rewrite !Hr by lia. rewrite Hext by apply desc_refl. auto.
Qed.

Lemma vars_after_ext (ns ns' : list Node) (d : nat) :
  forall i mv, 0 <= i ->
  (forall j, desc i j -> load ns' j = load ns j) ->
  vars_after ns' d i mv = vars_after ns d i mv.
Proof.
  induction d as [|d IH]; intros i mv Hi Hext; [reflexivity|].
  assert (Hc : forall a, 1 <= a <= 4 ->
            forall j, desc (4 * i + a) j -> load ns' j = load ns j).
  { intros a Ha j Hd. apply Hext. apply desc_of_child with (a := a); assumption. }
  cbn [vars_after]. rewrite Hext by apply desc_refl.
  rewrite (IH (4 * i + 1)) by (lia || apply (Hc 1); lia).
  rewrite (IH (4 * i + 2)) by (lia || apply (Hc 2); lia).
  rewrite (IH (4 * i + 3)) by (lia || apply (Hc 3); lia).
  rewrite (IH (4 * i + 4)) by (lia || apply (Hc 4); lia).
  reflexivity.
Qed.

Lemma pixel_in_range (w x y : Z) (px : list Z) :
  0 <= x < w -> 0 <= y < w -> w * w <= Z.of_nat (length px) ->
  0 <= y * w + x < Z.of_nat (length px).
Proof. intros Hx Hy Hl. nia. Qed.

Lemma pow2_pos (d : nat) : 0 < 2 ^ Z.of_nat d.
Proof. apply Z.pow_pos_nonneg; lia. Qed.

Lemma pow2_succ (d : nat) : 2 ^ Z.of_nat (S d) = 2 * 2 ^ Z.of_nat d.
Proof. rewrite Nat2Z.inj_succ, Z.pow_succ_r by lia. reflexivity. Qed.

Lemma quot2_bounds (d : nat) (size : Z) :
  2 ^ Z.of_nat (S d) <= size < 2 ^ Z.of_nat (S (S d)) ->
  2 ^ Z.of_nat d <= Z.quot size 2 < 2 ^ Z.of_nat (S d) /\
  2 * Z.quot size 2 <= size /\ size <> 1.
Proof.
  rewrite !pow2_succ. pose proof (pow2_pos d). intros Hs.
  rewrite Z.quot_div_nonneg by lia.
  pose proof (Z.div_mod size 2). pose proof (Z.mod_pos_bound size 2). lia.
Qed.

Lemma first_index_le (l m : nat) : (l <= m)%nat -> first_index l <= first_index m.
Proof.
  induction 1 as [|m Hle IH]; [lia|].
  pose proof (first_index_mono m). lia.
Qed.

Lemma at_level_in_range (l n : nat) (i : Z) :
  at_level l i -> (l <= n)%nat -> 0 <= i < first_index (S n).
Proof.
  unfold at_level. intros Hi Hl.
  pose proof (first_index_nonneg l).
  pose proof (first_index_le (S l) (S n) ltac:(lia)). lia.
Qed.

Section Build.

Variable img : Image.
Variable n : nat.
Hypothesis image_square : width img * width img <= Z.of_nat (length (image img)).

Lemma build_quadtree_rec_spec (d : nat) :
  forall (l fuel : nat) (q : Quadtree) (size index x y : Z),
  (l + d = n)%nat -> (d < fuel)%nat -> at_level l index ->
  Z.of_nat (length (nodes q)) = first_index (S n) ->
  2 ^ Z.of_nat d <= size < 2 ^ Z.of_nat (S d) ->
  0 <= x -> 0 <= y -> x + size <= width img -> y + size <= width img ->
  exists q', build_quadtree_rec fuel q img size index x y = Done q' /\
    length (nodes q') = length (nodes q) /\
    total_nodes q' = total_nodes q /\ levels q' = levels q /\
    (forall j, 0 <= j -> ~ desc index j -> load (nodes q') j = load (nodes q) j) /\
    built img (nodes q') d size index x y /\
    (medvar q', maxvar q') = vars_after (nodes q') d index (medvar q, maxvar q).
Proof.
  induction d as [|d IH];
    intros l fuel q size index x y Hld Hfuel Hlvl Hlen Hsize Hx Hy Hxw Hyw;
    (destruct fuel as [|fuel]; [lia|]);
    pose proof (first_index_nonneg l) as Hl0;
    assert (Hidx : 0 <= index < Z.of_nat (length (nodes q)))
      by (rewrite Hlen; apply at_level_in_range with (l := l); [assumption | lia]).
  - (* a leaf *)
    change (2 ^ Z.of_nat 1) with 2 in Hsize. change (2 ^ Z.of_nat 0) with 1 in Hsize.
    assert (size = 1) by lia. subst size.
    cbn [build_quadtree_rec]. rewrite Z.eqb_refl.
    destruct (load_in_range (image img) (y * width img + x)) as [pixel Hpix].
    { apply pixel_in_range; auto; lia. }
    rewrite Hpix. cbn [mbind outcome_bind].
    rewrite store_in_range by lia. cbn [mbind outcome_bind].
    eexists. split; [reflexivity|].
    cbn [set_nodes nodes total_nodes levels medvar maxvar vars_after].
    rewrite length_insert. repeat split; auto.
    + intros j Hj Hnd. apply load_insert_ne; try lia.
      intros ->. apply Hnd. apply desc_refl.
    + simpl. exists pixel. split; [assumption|]. apply load_insert_eq. lia.
  - (* an internal node *)
    destruct (quot2_bounds d size Hsize) as (Hc & Hc2 & Hne1).
    set (c := Z.quot size 2) in *.
    cbn [build_quadtree_rec].
    replace (size =? 1) with false by (symmetry; apply Z.eqb_neq; assumption).
    fold c.
    pose proof (pow2_pos d) as Hpd.
    destruct (IH (S l) fuel q c (4 * index + 1) x y) as
      (q1 & E1 & Hlen1 & Ht1 & Hlv1 & Hfr1 & Hb1 & Hv1);
      try lia; [apply at_level_child; [assumption | lia]|].
    destruct (IH (S l) fuel q1 c (4 * index + 2) (x + c) y) as
      (q2 & E2 & Hlen2 & Ht2 & Hlv2 & Hfr2 & Hb2 & Hv2);
      try lia; [apply at_level_child; [assumption | lia]|].
    destruct (IH (S l) fuel q2 c (4 * index + 3) (x + c) (y + c)) as
      (q3 & E3 & Hlen3 & Ht3 & Hlv3 & Hfr3 & Hb3 & Hv3);
      try lia; [apply at_level_child; [assumption | lia]|].
    destruct (IH (S l) fuel q3 c (4 * index + 4) x (y + c)) as
      (q4 & E4 & Hlen4 & Ht4 & Hlv4 & Hfr4 & Hb4 & Hv4);
      try lia; [apply at_level_child; [assumption | lia]|].
    rewrite E1. cbn [mbind outcome_bind]. rewrite E2. cbn [mbind outcome_bind].
    rewrite E3. cbn [mbind outcome_bind]. rewrite E4. cbn [mbind outcome_bind].
    (* what the later siblings leave untouched *)
    assert (Hsib : forall a b j, 1 <= a <= 4 -> 1 <= b <= 4 -> a <> b ->
              desc (4 * index + a) j -> ~ desc (4 * index + b) j).
    { intros a b j Ha Hb Hab. apply desc_siblings_disjoint; lia. }
    assert (Hge : forall a j, 1 <= a <= 4 -> desc (4 * index + a) j -> 0 <= j /\ j <> index).
    { intros a j Ha Hd. apply desc_le in Hd; lia. }
    assert (K1 : forall j, desc (4 * index + 1) j -> load (nodes q4) j = load (nodes q1) j).
    { intros j Hd. destruct (Hge 1 j ltac:(lia) Hd).
      rewrite Hfr4, Hfr3, Hfr2; auto; apply (Hsib 1); auto; lia. }
    assert (K2 : forall j, desc (4 * index + 2) j -> load (nodes q4) j = load (nodes q2) j).
    { intros j Hd. destruct (Hge 2 j ltac:(lia) Hd).
      rewrite Hfr4, Hfr3; auto; apply (Hsib 2); auto; lia. }
    assert (K3 : forall j, desc (4 * index + 3) j -> load (nodes q4) j = load (nodes q3) j).
    { intros j Hd. destruct (Hge 3 j ltac:(lia) Hd).
      rewrite Hfr4; auto; apply (Hsib 3); auto; lia. }
    assert (B1 : built img (nodes q4) d c (4 * index + 1) x y)
      by (apply built_ext with (ns := nodes q1); [lia | exact K1 | exact Hb1]).
    assert (B2 : built img (nodes q4) d c (4 * index + 2) (x + c) y)
      by (apply built_ext with (ns := nodes q2); [lia | exact K2 | exact Hb2]).
    assert (B3 : built img (nodes q4) d c (4 * index + 3) (x + c) (y + c))
      by (apply built_ext with (ns := nodes q3); [lia | exact K3 | exact Hb3]).
    destruct (built_root _ _ _ _ _ _ _ B1) as [n1 L1].
    destruct (built_root _ _ _ _ _ _ _ B2) as [n2 L2].
    destruct (built_root _ _ _ _ _ _ _ B3) as [n3 L3].
    destruct (built_root _ _ _ _ _ _ _ Hb4) as [n4 L4].
    replace (4 * index + 0 + 1) with (4 * index + 1) by lia.
    replace (4 * index + 1 + 1) with (4 * index + 2) by lia.
    replace (4 * index + 2 + 1) with (4 * index + 3) by lia.
    replace (4 * index + 3 + 1) with (4 * index + 4) by lia.
    rewrite L1, L2, L3, L4. cbn [mbind outcome_bind].
    rewrite store_in_range by lia. cbn [mbind outcome_bind].
    eexists. split; [reflexivity|]. cbn [nodes total_nodes levels medvar maxvar].
    rewrite length_insert.
    split; [lia|]. split; [congruence|]. split; [congruence|].
    assert (Hins : forall a, 1 <= a <= 4 -> forall j, desc (4 * index + a) j ->
              load (<[Z.to_nat index := parent_node n1 n2 n3 n4]> (nodes q4)) j
              = load (nodes q4) j).
    { intros a Ha j Hd. destruct (Hge a j Ha Hd). apply load_insert_ne; lia. }
    split.
    + intros j Hj Hnd.
      assert (j <> index) by (intros ->; apply Hnd; apply desc_refl).
      rewrite load_insert_ne by lia.
      rewrite Hfr4, Hfr3, Hfr2, Hfr1; auto;
        intros Hd; apply Hnd; eapply desc_of_child; try eassumption; lia.
    + split.
      * cbn [built]. fold c.
        split; [apply built_ext with (ns := nodes q4); [lia | apply (Hins 1); lia | exact B1]|].
        split; [apply built_ext with (ns := nodes q4); [lia | apply (Hins 2); lia | exact B2]|].
        split; [apply built_ext with (ns := nodes q4); [lia | apply (Hins 3); lia | exact B3]|].
        split; [apply built_ext with (ns := nodes q4); [lia | apply (Hins 4); lia | exact Hb4]|].
        exists n1, n2, n3, n4.
        rewrite (Hins 1), (Hins 2), (Hins 3), (Hins 4) by (lia || apply desc_refl).
        rewrite load_insert_eq by lia. auto.
      * assert (V1 : forall j, desc (4 * index + 1) j ->
                  load (<[Z.to_nat index := parent_node n1 n2 n3 n4]> (nodes q4)) j
                  = load (nodes q1) j)
          by (intros j Hd; rewrite (Hins 1), K1 by (lia || assumption); reflexivity).
        assert (V2 : forall j, desc (4 * index + 2) j ->
                  load (<[Z.to_nat index := parent_node n1 n2 n3 n4]> (nodes q4)) j
                  = load (nodes q2) j)
          by (intros j Hd; rewrite (Hins 2), K2 by (lia || assumption); reflexivity).
        assert (V3 : forall j, desc (4 * index + 3) j ->
                  load (<[Z.to_nat index := parent_node n1 n2 n3 n4]> (nodes q4)) j
                  = load (nodes q3) j)
          by (intros j Hd; rewrite (Hins 3), K3 by (lia || assumption); reflexivity).
        cbn [vars_after]. rewrite load_insert_eq by lia.
        rewrite (vars_after_ext (nodes q1) _ d (4 * index + 1)) by (lia || exact V1).
        rewrite <- Hv1.
        rewrite (vars_after_ext (nodes q2) _ d (4 * index + 2)) by (lia || exact V2).
        rewrite <- Hv2.
        rewrite (vars_after_ext (nodes q3) _ d (4 * index + 3)) by (lia || exact V3).
        rewrite <- Hv3.
        rewrite (vars_after_ext (nodes q4) _ d (4 * index + 4))
          by (lia || apply (Hins 4); lia).
        rewrite <- Hv4. reflexivity.
Qed.

End Build.

Lemma log2_bounds (w : Z) :
  0 < w -> 2 ^ Z.of_nat (Z.to_nat (Z.log2 w)) <= w < 2 ^ Z.of_nat (S (Z.to_nat (Z.log2 w))).
Proof.
  intros Hw. pose proof (Z.log2_nonneg w). pose proof (Z.log2_spec w Hw).
  rewrite Nat2Z.inj_succ, Z2Nat.id by lia. assumption.
Qed.

(** The builder returns a tree for every image of positive width (it never
    exits); the tree has [floor (log2 width)] levels below the root. *)
Lemma build_quadtree_from_image_spec (img : Image) (junk : nat -> Node) (fuel : nat) :
  0 < width img ->
  width img * width img <= Z.of_nat (length (image img)) ->
  (Z.to_nat (Z.log2 (width img)) < fuel)%nat ->
  exists q, build_quadtree_from_image fuel img junk = Done q /\
    shape q (Z.to_nat (Z.log2 (width img))) /\
    built img (nodes q) (Z.to_nat (Z.log2 (width img))) (width img) 0 0 0 /\
    maxvar q = snd (vars_after (nodes q) (Z.to_nat (Z.log2 (width img))) 0
                      (0%float, 0%float)) /\
    medvar q = (fst (vars_after (nodes q) (Z.to_nat (Z.log2 (width img))) 0
                       (0%float, 0%float))
                / of_int (total_nodes q - Z.shiftl 1 (2 * levels q)))%float.
Proof.
  intros Hw Hsq Hfuel. set (n := Z.to_nat (Z.log2 (width img))) in *.
  unfold build_quadtree_from_image, int_log2.
  replace (width img <? 1) with false by (symmetry; apply Z.ltb_ge; lia).
  cbn [mbind outcome_bind].
  replace (Z.log2 (width img)) with (Z.of_nat n)
    by (subst n; pose proof (Z.log2_nonneg (width img)); lia).
  destruct (create_empty_quadtree_shape n junk) as (Hlv & Htot & Hlen).
  destruct (build_quadtree_rec_spec img n Hsq n 0%nat fuel
              (create_empty_quadtree (Z.of_nat n) junk) (width img) 0 0 0)
    as (q & E & Hlen' & Ht' & Hlv' & _ & Hb & Hv); auto; try lia.
  { apply at_level_root. }
  { apply log2_bounds. assumption. }
  rewrite E. cbn [mbind outcome_bind]. eexists. split; [reflexivity|].
  unfold shape. cbn [nodes total_nodes levels medvar maxvar].
  cbn [create_empty_quadtree medvar maxvar] in Hv. rewrite <- Hv.
  repeat split; (congruence || lia || assumption).
Qed.

(** ** Invariants of a built tree *)

Lemma parent_node_fields (n1 n2 n3 n4 : Node) :
  byte_fields n1 -> byte_fields n2 -> byte_fields n3 -> byte_fields n4 ->
  byte_fields (parent_node n1 n2 n3 n4) /\
  family (parent_node n1 n2 n3 n4) n1 n2 n3 n4.
Proof.
  intros (M1 & E1 & U1 & X1) (M2 & E2 & U2 & X2) (M3 & E3 & U3 & X3) (M4 & E4 & U4 & X4).
  unfold byte_fields, family, parent_node. cbn [moyenne epsilon u].
  set (s := moyenne n1 + moyenne n2 + moyenne n3 + moyenne n4).
  assert (Hs : 0 <= s <= 1020) by (subst s; lia).
  rewrite Z.quot_div_nonneg, Z.rem_mod_nonneg by lia.
  pose proof (Z.div_mod s 4 ltac:(lia)) as Hdm.
  pose proof (Z.mod_pos_bound s 4 ltac:(lia)) as Hmb.
  unfold byte_of. rewrite !Z.mod_small by lia.
  set (b := (moyenne n1 =? moyenne n2) && (moyenne n2 =? moyenne n3)
            && (moyenne n3 =? moyenne n4)
            && (u n1 =? 1) && (u n2 =? 1) && (u n3 =? 1) && (u n4 =? 1)).
  destruct b eqn:Hb; subst b.
  - repeat (apply andb_prop in Hb; destruct Hb as [Hb ?]).
    repeat match goal with H : (_ =? _) = true |- _ => apply Z.eqb_eq in H end.
    assert (s = 4 * moyenne n1) by (subst s; lia).
    split; [split; [lia|]; split; [lia|]; split; [auto|]; lia|].
    split; [lia|]. intros _.
    assert (s / 4 = moyenne n1) by lia.
    repeat constructor; lia.
  - split; [split; [lia|]; split; [lia|]; split; [auto|]; auto|].
    split; [lia|]. intros H. exfalso. apply H. reflexivity.
Qed.

Section BuiltCoherent.

Variable img : Image.
Variable ns : list Node.
Variable n : nat.
Hypothesis pixels_bytes : Forall (fun p => 0 <= p < 256) (image img).

Lemma built_node_coherent (d : nat) :
  forall (l : nat) (size i x y : Z),
  (l + d = n)%nat -> at_level l i ->
  built img ns d size i x y ->
  forall j, desc i j -> j < first_index (S n) -> node_coherent ns n j.
Proof.
  induction d as [|d IH]; intros l size i x y Hld Hlvl Hb j Hd Hj;
    pose proof (first_index_nonneg l) as Hl0; unfold at_level in Hlvl.
  - replace l with n in * by lia.
    apply desc_inv in Hd. destruct Hd as [->|(a & Ha & Hd)].
    + simpl in Hb. destruct Hb as (pixel & Hp & Hn).
      split; [|lia]. exists (leaf_node pixel). split; [assumption|].
      apply load_Done in Hp. destruct Hp as [_ Hp].
      pose proof (Forall_lookup_1 _ _ _ _ pixels_bytes Hp) as Hr. simpl in Hr.
      unfold byte_fields, leaf_fields. cbn [leaf_node moyenne epsilon u].
      repeat split; auto; lia.
    + exfalso. apply desc_le in Hd; [|lia]. simpl in Hj. lia.
  - cbn [built] in Hb.
    destruct Hb as (H1 & H2 & H3 & H4 & n1 & n2 & n3 & n4 & L1 & L2 & L3 & L4 & L).
    assert (Hchild : forall a size' x' y', 1 <= a <= 4 ->
              built img ns d size' (4 * i + a) x' y' ->
              forall k, desc (4 * i + a) k -> k < first_index (S n) ->
              node_coherent ns n k).
    { intros a size' x' y' Ha Hb. apply (IH (S l) size' (4 * i + a) x' y');
        [lia | apply at_level_child; assumption | assumption]. }
    apply desc_inv in Hd. destruct Hd as [->|(a & Ha & Hd)].
    + assert (Hroot : forall a size' x' y' c, 1 <= a <= 4 ->
                built img ns d size' (4 * i + a) x' y' ->
                load ns (4 * i + a) = Done c -> byte_fields c).
      { intros a size' x' y' c Ha Hb Hc.
        destruct (Hchild a size' x' y' Ha Hb (4 * i + a)) as [(nd & Hnd & Hbf & _) _].
        - apply desc_refl.
        - pose proof (first_index_le (S (S l)) (S n) ltac:(lia)).
          simpl in *. lia.
        - congruence. }
      destruct (parent_node_fields n1 n2 n3 n4) as [Hbf Hfam];
        [eapply (Hroot 1); eauto; lia | eapply (Hroot 2); eauto; lia
        | eapply (Hroot 3); eauto; lia | eapply (Hroot 4); eauto; lia |].
      pose proof (first_index_le (S l) n ltac:(lia)) as Hle.
      split.
      * exists (parent_node n1 n2 n3 n4). split; [assumption|].
        split; [assumption|]. intros Hge. lia.
      * intros _. exists (parent_node n1 n2 n3 n4), n1, n2, n3, n4. auto 10.
    + assert (a = 1 \/ a = 2 \/ a = 3 \/ a = 4) as [->|[->|[->| ->]]] by lia.
      * eapply (Hchild 1); eauto; lia.
      * eapply (Hchild 2); eauto; lia.
      * eapply (Hchild 3); eauto; lia.
      * eapply (Hchild 4); eauto; lia.
Qed.

Lemma built_coherent (size : Z) :
  built img ns n size 0 0 0 -> coherent ns n.
Proof.
  intros Hb j Hj.
  apply (built_node_coherent n 0%nat size 0 0 0); auto.
  - apply at_level_root.
  - apply desc_root. lia.
  - lia.
Qed.

End BuiltCoherent.

(** ** The fields of the bit stream

    A field is a value and a width; the encoder is a sequence of
    [push_n_bits], the decoder a sequence of [read_n_bits]. *)

Lemma bits_len_app (fs gs : list (Z * Z)) :
  bits_len (fs ++ gs) = bits_len fs + bits_len gs.
Proof. induction fs as [|[val w] fs IH]; simpl; lia. Qed.

Lemma bits_len_nonneg (fs : list (Z * Z)) : widths_ok fs -> 0 <= bits_len fs.
Proof.
  induction 1 as [|[val w] fs Hw _ IH]; simpl in *; lia.
Qed.

Lemma bits_len_bound (fs : list (Z * Z)) :
  widths_ok fs -> bits_len fs <= 8 * Z.of_nat (length fs).
Proof.
  induction 1 as [|[val w] fs Hw _ IH]; [simpl; lia|].
  simpl in Hw. cbn [length bits_len]. lia.
Qed.

Lemma push_fields_app (fs gs : list (Z * Z)) (s : BitStream) :
  push_fields (fs ++ gs) s = push_fields fs s ≫= push_fields gs.
Proof.
  revert s. induction fs as [|[val w] fs IH]; intros s; simpl; [reflexivity|].
  destruct (push_n_bits s val w); simpl; auto.
Qed.

Lemma spells_app (m : list Z) (p : Z) (fs gs : list (Z * Z)) :
  spells m p (fs ++ gs) <-> spells m p fs /\ spells m (p + bits_len fs) gs.
Proof.
  revert p. induction fs as [|[val w] fs IH]; intros p; simpl.
  - rewrite Z.add_0_r. tauto.
  - rewrite IH. rewrite Z.add_assoc. tauto.
Qed.

Lemma spells_ext (m m' : list Z) (fs : list (Z * Z)) :
  forall p, widths_ok fs -> 0 <= p ->
  (forall k, p <= k < p + bits_len fs -> sbit m' k = sbit m k) ->
  spells m p fs -> spells m' p fs.
Proof.
  induction fs as [|[val w] fs IH]; intros p Hw Hp Hext; simpl; [auto|].
  inversion Hw as [|? ? Hw1 Hw2]; subst. simpl in Hw1.
  pose proof (bits_len_nonneg fs Hw2).
  intros [Hbits Hrest]. split.
  - intros j Hj. rewrite Hext by (simpl; lia). apply Hbits. assumption.
  - apply IH; auto; try lia. intros k Hk. apply Hext. simpl. lia.
Qed.

Lemma push_fields_spec (fs : list (Z * Z)) :
  forall s, widths_ok fs -> capa_ok s -> 0 <= ptr s ->
  wpos s + bits_len fs <= 8 * Z.of_nat (length (buf s)) ->
  exists s', push_fields fs s = Done s' /\
    length (buf s') = length (buf s) /\ start s' = start s /\
    capa_ok s' /\ 0 <= ptr s' /\ wpos s' = wpos s + bits_len fs /\
    spells (buf s') (wpos s) fs /\
    (forall p, 0 <= p < wpos s -> sbit (buf s') p = sbit (buf s) p).
Proof.
  induction fs as [|[val w] fs IH]; intros s Hw Hc Hp Hlen.
  - exists s. simpl. rewrite Z.add_0_r. auto 10.
  - inversion Hw as [|? ? Hw1 Hw2]; subst. simpl in Hw1.
    pose proof (bits_len_nonneg fs Hw2) as Hnn. simpl bits_len in *.
    pose proof (wpos_nonneg s Hc Hp) as Hw0.
    destruct (push_n_bits_spec s val w) as
      (s1 & E1 & Hl1 & Hst1 & Hc1 & Hp1 & Hwp1 & _ & _ & Hbits1 & Hfr1);
      auto; try lia.
    destruct (IH s1) as (s' & E' & Hl' & Hst' & Hc' & Hp' & Hwp' & Hsp' & Hfr');
      auto; try lia.
    exists s'. simpl. rewrite E1. cbn [mbind outcome_bind]. rewrite E'.
    split; [reflexivity|]. split; [congruence|]. split; [congruence|].
    split; [auto|]. split; [auto|]. split; [lia|]. split.
    + split.
      * intros j Hj. rewrite Hfr' by lia. apply Hbits1. assumption.
      * rewrite <- Hwp1. assumption.
    + intros p Hp0. rewrite Hfr' by lia. apply Hfr1. assumption.
Qed.

Lemma read_field (s : BitStream) (val w : Z) (fs : list (Z * Z)) :
  cursor_ok s -> 1 <= w <= 8 -> 0 <= val < 2 ^ w ->
  spells (buf s) (rpos s) ((val, w) :: fs) ->
  rpos s + w <= 8 * Z.of_nat (length (buf s)) ->
  exists s', read_n_bits s w = Done (s', val) /\
    cursor_ok s' /\ buf s' = buf s /\ ptr s' = ptr s /\ rpos s' = rpos s + w /\
    spells (buf s') (rpos s') fs.
Proof.
  intros [Hc Hp] Hw Hval [Hbits Hrest] Hlen.
  destruct (read_n_bits_value s w val) as (s' & E & Hb & Hpt & Hc' & Hp' & Hr');
    auto; try lia.
  exists s'. rewrite Z.mod_small in E by lia.
  split; [assumption|]. split; [split; assumption|].
  split; [assumption|]. split; [assumption|]. split; [assumption|].
  rewrite Hb, Hr'. assumption.
Qed.

(** ** The fields the encoder writes for each node *)

Lemma bind_ret_r {A} (m : outcome A) : m ≫= Done = m.
Proof. destruct m; reflexivity. Qed.

Lemma write_node_push (s : BitStream) (nd : Node) (i : Z) :
  write_node s nd i = push_fields (write_node_fields nd i) s.
Proof.
  unfold write_node, write_node_fields, node_part.
  destruct (negb (Z.rem i 4 =? 0) || (i =? 0)); cbn [app push_fields].
  - destruct (push_n_bits s (moyenne nd) 8) as [s1| | |]; cbn [mbind outcome_bind]; auto.
    destruct (push_n_bits s1 (epsilon nd) 2) as [s2| | |]; cbn [mbind outcome_bind]; auto.
    destruct (epsilon nd =? 0); cbn [push_fields]; [|reflexivity].
    symmetry. apply bind_ret_r.
  - cbn [mbind outcome_bind].
    destruct (push_n_bits s (epsilon nd) 2) as [s2| | |]; cbn [mbind outcome_bind]; auto.
    destruct (epsilon nd =? 0); cbn [push_fields]; [|reflexivity].
    symmetry. apply bind_ret_r.
Qed.

Lemma write_leaf_push (s : BitStream) (nd : Node) (i : Z) :
  write_leaf s nd i = push_fields (write_leaf_fields nd i) s.
Proof.
  unfold write_leaf, write_leaf_fields.
  destruct (negb (Z.rem i 4 =? 0)); cbn [push_fields]; [|reflexivity].
  symmetry. apply bind_ret_r.
Qed.

Lemma parent_index (i : Z) :
  1 <= i -> Z.quot (i - 1) 4 = (i - 1) / 4 /\ 0 <= (i - 1) / 4 < i.
Proof.
  intros Hi. rewrite Z.quot_div_nonneg by lia.
  pose proof (Z.div_mod (i - 1) 4 ltac:(lia)).
  pose proof (Z.mod_pos_bound (i - 1) 4 ltac:(lia)). lia.
Qed.

Lemma encode_step_push (q : Quadtree) (i : Z) (s : BitStream) :
  0 <= i < Z.of_nat (length (nodes q)) ->
  encode_step q i s = push_fields (step_fields q i) s.
Proof.
  intros Hi. unfold encode_step, step_fields.
  destruct (load_in_range (nodes q) i Hi) as [cur ->]. cbn [mbind outcome_bind].
  destruct (Z.eqb_spec i 0) as [->|Hne]; [apply write_node_push|].
  destruct (parent_index i ltac:(lia)) as [Hq Hp]. rewrite Hq.
  destruct (load_in_range (nodes q) ((i - 1) / 4) ltac:(lia)) as [par ->].
  cbn [mbind outcome_bind].
  destruct (negb (u par =? 0)); [reflexivity|].
  destruct (is_leaf q i); [apply write_leaf_push | apply write_node_push].
Qed.

Lemma encode_loop_push (k : nat) (q : Quadtree) :
  forall (i : Z) (s : BitStream),
  0 <= i -> i + Z.of_nat k <= Z.of_nat (length (nodes q)) ->
  encode_loop k q i s = push_fields (loop_fields k q i) s.
Proof.
  induction k as [|k IH]; intros i s Hi Hk; [reflexivity|].
  cbn [encode_loop loop_fields]. rewrite push_fields_app.
  rewrite encode_step_push by lia.
  destruct (push_fields (step_fields q i) s); cbn [mbind outcome_bind]; auto.
  apply IH; lia.
Qed.

Lemma node_part_widths (nd : Node) :
  widths_ok (node_part nd) /\ bits_len (node_part nd) <= 3.
Proof.
  unfold node_part, widths_ok. destruct (epsilon nd =? 0); simpl;
    split; try lia; repeat constructor; simpl; lia.
Qed.

Lemma write_node_fields_widths (nd : Node) (i : Z) :
  widths_ok (write_node_fields nd i) /\ bits_len (write_node_fields nd i) <= 11.
Proof.
  unfold write_node_fields. destruct (node_part_widths nd) as [Hw Hb].
  rewrite bits_len_app.
  destruct (negb (Z.rem i 4 =? 0) || (i =? 0)); cbn [app bits_len]; split; try lia; auto.
  constructor; [simpl; lia | assumption].
Qed.

Lemma write_leaf_fields_widths (nd : Node) (i : Z) :
  widths_ok (write_leaf_fields nd i) /\ bits_len (write_leaf_fields nd i) <= 11.
Proof.
  unfold write_leaf_fields, widths_ok.
  destruct (negb (Z.rem i 4 =? 0)); simpl; split; try lia; repeat constructor; simpl; lia.
Qed.

Lemma step_fields_widths (q : Quadtree) (i : Z) :
  widths_ok (step_fields q i) /\ bits_len (step_fields q i) <= 11.
Proof.
  assert (Hnil : widths_ok [] /\ bits_len [] <= 11) by (split; [constructor | simpl; lia]).
  unfold step_fields.
  destruct (load (nodes q) i) as [cur| | |]; auto.
  destruct (i =? 0); [apply write_node_fields_widths|].
  destruct (load (nodes q) (Z.quot (i - 1) 4)) as [par| | |]; auto.
  destruct (negb (u par =? 0)); auto.
  destruct (is_leaf q i);
    [apply write_leaf_fields_widths | apply write_node_fields_widths].
Qed.

Lemma loop_fields_widths (k : nat) (q : Quadtree) :
  forall i, widths_ok (loop_fields k q i) /\
            bits_len (loop_fields k q i) <= 11 * Z.of_nat k.
Proof.
  induction k as [|k IH]; intros i; cbn [loop_fields].
  - split; [constructor | simpl; lia].
  - destruct (step_fields_widths q i) as [Hw Hb].
    destruct (IH (i + 1)) as [Hw' Hb'].
    rewrite bits_len_app. split; [apply Forall_app; auto | lia].
Qed.

(** ** The decoder against the encoder *)

Lemma read_node_tail (s : BitStream) (nd : Node) :
  read_node s nd = '(s1, m) ← read_n_bits s 8; read_tail s1 m (v nd).
Proof. reflexivity. Qed.

Lemma read_tail_spec (s : BitStream) (m : Z) (vv : float) (cur : Node) :
  cursor_ok s -> byte_fields cur ->
  spells (buf s) (rpos s) (node_part cur) ->
  rpos s + bits_len (node_part cur) <= 8 * Z.of_nat (length (buf s)) ->
  exists s', read_tail s m vv =
      Done (s', {| moyenne := m; epsilon := epsilon cur; u := u cur; v := vv |}) /\
    cursor_ok s' /\ buf s' = buf s /\
    rpos s' = rpos s + bits_len (node_part cur).
Proof.
  intros Hc (Hm & He & Hu & Heu). unfold node_part, read_tail.
  destruct (Z.eqb_spec (epsilon cur) 0) as [E0|E0]; intros Hsp Hlen;
    cbn [bits_len] in Hlen.
  - destruct (read_field s (epsilon cur) 2 [(u cur, 1)]) as
      (s1 & E1 & Hc1 & Hb1 & _ & Hr1 & Hsp1); auto; try lia.
    rewrite E1. cbn [mbind outcome_bind]. rewrite E0. cbn [Z.eqb].
    destruct (read_field s1 (u cur) 1 []) as
      (s2 & E2 & Hc2 & Hb2 & _ & Hr2 & _); auto; try lia.
    { rewrite Hb1. lia. }
    rewrite E2. cbn [mbind outcome_bind].
    exists s2. split; [reflexivity|]. split; [assumption|].
    split; [congruence|]. cbn [bits_len]. lia.
  - destruct (read_field s (epsilon cur) 2 []) as
      (s1 & E1 & Hc1 & Hb1 & _ & Hr1 & _); auto; try lia.
    rewrite E1. cbn [mbind outcome_bind].
    replace (epsilon cur =? 0) with false by (symmetry; apply Z.eqb_neq; assumption).
    exists s1. rewrite (Heu E0). split; [reflexivity|]. split; [assumption|].
    split; [assumption|]. cbn [bits_len]. lia.
Qed.

Lemma read_node_spec (s : BitStream) (nd cur : Node) :
  cursor_ok s -> byte_fields cur ->
  spells (buf s) (rpos s) ((moyenne cur, 8) :: node_part cur) ->
  rpos s + (8 + bits_len (node_part cur)) <= 8 * Z.of_nat (length (buf s)) ->
  exists s', read_node s nd =
      Done (s', {| moyenne := moyenne cur; epsilon := epsilon cur; u := u cur;
                   v := v nd |}) /\
    cursor_ok s' /\ buf s' = buf s /\
    rpos s' = rpos s + (8 + bits_len (node_part cur)).
Proof.
  intros Hc Hbf Hsp Hlen. pose proof Hbf as (Hm & _).
  destruct (node_part_widths cur) as [Hw Hb3].
  pose proof (bits_len_nonneg _ Hw) as Hnn.
  destruct (read_field s (moyenne cur) 8 (node_part cur)) as
    (s1 & E1 & Hc1 & Hb1 & _ & Hr1 & Hsp1); auto; try lia.
  destruct (read_tail_spec s1 (moyenne cur) (v nd) cur) as
    (s2 & E2 & Hc2 & Hb2 & Hr2); auto.
  { rewrite Hb1. lia. }
  rewrite read_node_tail, E1. cbn [mbind outcome_bind]. rewrite E2.
  exists s2. split; [reflexivity|]. split; [assumption|].
  split; [congruence|]. lia.
Qed.

Lemma read_leaf_spec (s : BitStream) (nd cur : Node) :
  cursor_ok s -> byte_fields cur ->
  spells (buf s) (rpos s) [(moyenne cur, 8)] ->
  rpos s + 8 <= 8 * Z.of_nat (length (buf s)) ->
  exists s', read_leaf s nd =
      Done (s', {| moyenne := moyenne cur; epsilon := 0; u := 1; v := v nd |}) /\
    cursor_ok s' /\ buf s' = buf s /\ rpos s' = rpos s + 8.
Proof.
  intros Hc (Hm & _) Hsp Hlen.
  destruct (read_field s (moyenne cur) 8 []) as
    (s1 & E1 & Hc1 & Hb1 & _ & Hr1 & _); auto; try lia.
  unfold read_leaf. rewrite E1. cbn [mbind outcome_bind].
  exists s1. auto.
Qed.

(** A node of a coherent tree, seen from its parent. *)
Lemma coherent_parent (ns : list Node) (n : nat) (i : Z) :
  coherent ns n -> 1 <= i < first_index (S n) ->
  exists par n1 n2 n3 n4 cur,
    load ns ((i - 1) / 4) = Done par /\
    load ns (4 * ((i - 1) / 4) + 1) = Done n1 /\
    load ns (4 * ((i - 1) / 4) + 2) = Done n2 /\
    load ns (4 * ((i - 1) / 4) + 3) = Done n3 /\
    load ns (4 * ((i - 1) / 4) + 4) = Done n4 /\
    family par n1 n2 n3 n4 /\ byte_fields par /\
    load ns i = Done cur /\ byte_fields cur /\
    (first_index n <= i -> leaf_fields cur) /\
    ((i = 4 * ((i - 1) / 4) + 1 /\ cur = n1) \/
     (i = 4 * ((i - 1) / 4) + 2 /\ cur = n2) \/
     (i = 4 * ((i - 1) / 4) + 3 /\ cur = n3) \/
     (i = 4 * ((i - 1) / 4) + 4 /\ cur = n4)).
Proof.
  intros Hco Hi. set (p := (i - 1) / 4).
  pose proof (Z.div_mod (i - 1) 4 ltac:(lia)) as Hdm.
  pose proof (Z.mod_pos_bound (i - 1) 4 ltac:(lia)) as Hmb. fold p in Hdm.
  assert (Hp : 0 <= p < first_index n) by (simpl in Hi; lia).
  pose proof (first_index_mono n) as Hmono.
  destruct (Hco p ltac:(lia)) as [(par0 & Lp0 & Hbfp & _) Hfam].
  destruct (Hfam ltac:(lia)) as (par & n1 & n2 & n3 & n4 & Lp & L1 & L2 & L3 & L4 & Hf).
  assert (par0 = par) by congruence. subst par0.
  destruct (Hco i ltac:(lia)) as [(cur & Lc & Hbfc & Hleaf) _].
  exists par, n1, n2, n3, n4, cur.
  repeat (split; [assumption|]).
  assert (Ha : (i - 1) mod 4 = 0 \/ (i - 1) mod 4 = 1 \/
               (i - 1) mod 4 = 2 \/ (i - 1) mod 4 = 3) by lia.
  destruct Ha as [Ha|[Ha|[Ha|Ha]]].
  - left. split; [lia|]. replace i with (4 * p + 1) in Lc by lia. congruence.
  - right; left. split; [lia|]. replace i with (4 * p + 2) in Lc by lia. congruence.
  - right; right; left. split; [lia|].
    replace i with (4 * p + 3) in Lc by lia. congruence.
  - right; right; right. split; [lia|].
    replace i with (4 * p + 4) in Lc by lia. congruence.
Qed.

Lemma decode_step_node (i : Z) (s : BitStream) (q : Quadtree) :
  decode_step i (s, q) =
  current_node ← load (nodes q) i;
  '(s', node') ← decode_node i s q current_node;
  ns ← store (nodes q) i node';
  Done (s', set_nodes q ns).
Proof. reflexivity. Qed.

Lemma interpolation_tail (s : BitStream) (q : Quadtree) (nd par : Node) (i : Z) :
  interpolation_4th_child s q nd par i =
  n1 ← load (nodes q) (i - 1);
  n2 ← load (nodes q) (i - 2);
  n3 ← load (nodes q) (i - 3);
  let m := byte_of (4 * moyenne par + epsilon par
                    - moyenne n1 - moyenne n2 - moyenne n3) in
  if is_leaf q i then
    Done (s, {| moyenne := m; epsilon := 0; u := 1; v := v nd |})
  else read_tail s m (v nd).
Proof. reflexivity. Qed.

Section DecodeStep.

Variable q : Quadtree.
Variable n : nat.
Hypothesis q_shape : shape q n.
Hypothesis q_coherent : coherent (nodes q) n.

Lemma decode_node_spec (i : Z) (s : BitStream) (q' : Quadtree) (cur cur' : Node) :
  0 <= i < first_index (S n) ->
  shape q' n -> agree (nodes q) (nodes q') i ->
  load (nodes q) i = Done cur ->
  cursor_ok s ->
  spells (buf s) (rpos s) (step_fields q i) ->
  rpos s + bits_len (step_fields q i) <= 8 * Z.of_nat (length (buf s)) ->
  exists s' nd', decode_node i s q' cur' = Done (s', nd') /\
    same_fields cur nd' /\
    cursor_ok s' /\ buf s' = buf s /\
    rpos s' = rpos s + bits_len (step_fields q i).
Proof.
  intros Hi Hsh' Hag Hcur Hc.
  unfold decode_node, step_fields. rewrite Hcur.
  destruct (Z.eqb_spec i 0) as [->|Hi0].
  - (* the root *)
    unfold write_node_fields. cbn [Z.rem Z.eqb negb orb app bits_len].
    change (Z.rem 0 4 =? 0) with true. cbn [negb orb app bits_len].
    intros Hsp Hlen.
    destruct (q_coherent 0 ltac:(lia)) as [(cur0 & L0 & Hbf & _) _].
    assert (cur0 = cur) by congruence. subst cur0.
    destruct (read_node_spec s cur' cur) as (s' & E & Hc' & Hb' & Hr'); auto.
    exists s'. eexists. split; [exact E|].
    split; [repeat split|]. auto.
  - destruct (coherent_parent (nodes q) n i q_coherent ltac:(lia)) as
      (par & n1 & n2 & n3 & n4 & cur0 & Lp & L1 & L2 & L3 & L4 & Hfam & Hbfp
           & Lc & Hbf & Hleaf & Hpos).
    assert (cur0 = cur) by congruence. subst cur0.
    destruct (parent_index i ltac:(lia)) as [Hquot Hp]. rewrite Hquot, Lp.
    set (p := (i - 1) / 4) in *.
    destruct (Hag p ltac:(lia)) as (par0 & par' & Lp0 & Lp' & Hsp0 & Hsp1 & Hsp2).
    assert (par0 = par) by congruence. subst par0.
    rewrite Lp'. cbn [mbind outcome_bind]. rewrite <- Hsp2.
    rewrite (is_leaf_shape q n i q_shape), (is_leaf_shape q' n i Hsh').
    destruct Hfam as [Hsum Huni].
    destruct (Z.eqb_spec (u par) 0) as [Hu0|Hu0]; cbn [negb].
    + (* the parent is not uniform *)
      rewrite Z.rem_mod_nonneg by lia.
      pose proof (Z.div_mod i 4 ltac:(lia)) as Hdm.
      pose proof (Z.mod_pos_bound i 4 ltac:(lia)) as Hmb.
      destruct (Z.eqb_spec (i mod 4) 0) as [Hr0|Hr0].
      * (* the fourth child *)
        assert (Hi4 : i = 4 * p + 4 /\ cur = n4) by (destruct Hpos as [?|[?|[?|?]]]; lia || auto).
        destruct Hi4 as [Hi4 ->].
        rewrite interpolation_tail, (is_leaf_shape q' n i Hsh').
        destruct (Hag (i - 1) ltac:(lia)) as (a3 & a3' & La3 & La3' & Ha3 & _).
        destruct (Hag (i - 2) ltac:(lia)) as (a2 & a2' & La2 & La2' & Ha2 & _).
        destruct (Hag (i - 3) ltac:(lia)) as (a1 & a1' & La1 & La1' & Ha1 & _).
        replace (i - 1) with (4 * p + 3) in La3 by lia.
        replace (i - 2) with (4 * p + 2) in La2 by lia.
        replace (i - 3) with (4 * p + 1) in La1 by lia.
        assert (a3 = n3) by congruence. assert (a2 = n2) by congruence.
        assert (a1 = n1) by congruence. subst a1 a2 a3.
        rewrite La3', La2', La1'. cbn [mbind outcome_bind].
        destruct Hbf as (Hm & Hbf').
        assert (Hmoy : byte_of (4 * moyenne par' + epsilon par' - moyenne a3'
                                - moyenne a2' - moyenne a1') = moyenne n4).
        { unfold byte_of. rewrite <- Hsp0, <- Hsp1, <- Ha3, <- Ha2, <- Ha1.
          rewrite Z.mod_small; lia. }
        rewrite Hmoy.
        destruct (Z.leb_spec (first_index n) i) as [Hlf|Hlf].
        -- unfold write_leaf_fields.
           replace (Z.rem i 4 =? 0) with true
             by (symmetry; apply Z.eqb_eq; rewrite Z.rem_mod_nonneg; lia).
           cbn [negb bits_len]. intros _ _.
           destruct (Hleaf Hlf) as [He Hu].
           exists s. eexists. split; [reflexivity|].
           split; [split; [reflexivity|]; split; cbn; congruence|].
           split; [assumption|]. split; [reflexivity|]. lia.
        -- unfold write_node_fields.
           replace (Z.rem i 4 =? 0) with true
             by (symmetry; apply Z.eqb_eq; rewrite Z.rem_mod_nonneg; lia).
           replace (i =? 0) with false by (symmetry; apply Z.eqb_neq; lia).
           cbn [negb orb app]. intros Hsp Hlen.
           destruct (read_tail_spec s (moyenne n4) (v cur') n4) as
             (s' & E & Hc' & Hb' & Hr'); auto.
           { repeat split; tauto || lia. }
           exists s'. eexists. split; [exact E|].
           split; [repeat split|]. auto.
      * (* one of the first three children *)
        destruct (Z.leb_spec (first_index n) i) as [Hlf|Hlf].
        -- unfold write_leaf_fields.
           replace (Z.rem i 4 =? 0) with false
             by (symmetry; apply Z.eqb_neq; rewrite Z.rem_mod_nonneg; lia).
           cbn [negb bits_len]. intros Hsp Hlen.
           destruct (Hleaf Hlf) as [He Hu].
           destruct (read_leaf_spec s cur' cur) as (s' & E & Hc' & Hb' & Hr');
             auto; try lia.
           exists s'. eexists. split; [exact E|].
           split; [split; [reflexivity|]; split; cbn; congruence|].
           split; [assumption|]. split; [assumption|]. lia.
        -- unfold write_node_fields.
           replace (Z.rem i 4 =? 0) with false
             by (symmetry; apply Z.eqb_neq; rewrite Z.rem_mod_nonneg; lia).
           cbn [negb orb app bits_len]. intros Hsp Hlen.
           destruct (read_node_spec s cur' cur) as (s' & E & Hc' & Hb' & Hr'); auto.
           exists s'. eexists. split; [exact E|].
           split; [repeat split|]. auto.
    + (* the parent is uniform: nothing is read *)
      cbn [bits_len]. intros _ _.
      exists s. eexists. split; [reflexivity|].
      split.
      * specialize (Huni Hu0).
        inversion Huni as [|? ? H1 T1]; subst.
        inversion T1 as [|? ? H2 T2]; subst.
        inversion T2 as [|? ? H3 T3]; subst.
        inversion T3 as [|? ? H4 _]; subst.
        unfold same_fields. cbn [moyenne epsilon u]. rewrite <- Hsp0.
        destruct Hpos as [[_ ->]|[[_ ->]|[[_ ->]|[_ ->]]]]; tauto.
      * split; [assumption|]. split; [reflexivity|]. lia.
Qed.

End DecodeStep.

Section DecodeLoop.

Variable q : Quadtree.
Variable n : nat.
Hypothesis q_shape : shape q n.
Hypothesis q_coherent : coherent (nodes q) n.

Lemma decode_step_spec (i : Z) (s : BitStream) (q' : Quadtree) :
  0 <= i < first_index (S n) ->
  shape q' n -> agree (nodes q) (nodes q') i ->
  cursor_ok s ->
  spells (buf s) (rpos s) (step_fields q i) ->
  rpos s + bits_len (step_fields q i) <= 8 * Z.of_nat (length (buf s)) ->
  exists s' q'', decode_step i (s, q') = Done (s', q'') /\
    cursor_ok s' /\ buf s' = buf s /\
    rpos s' = rpos s + bits_len (step_fields q i) /\
    shape q'' n /\ agree (nodes q) (nodes q'') (i + 1).
Proof.
  intros Hi Hsh' Hag Hc Hsp Hlen.
  pose proof Hsh' as (Hlv' & Ht' & Hl').
  destruct (q_coherent i Hi) as [(cur & Lc & _) _].
  destruct (load_in_range (nodes q') i ltac:(lia)) as [cur' Lc'].
  destruct (decode_node_spec q n q_shape q_coherent i s q' cur cur')
    as (s' & nd' & E & Hsame & Hc' & Hb' & Hr'); auto.
  rewrite decode_step_node, Lc'. cbn [mbind outcome_bind]. rewrite E.
  cbn [mbind outcome_bind]. rewrite store_in_range by lia.
  cbn [mbind outcome_bind].
  exists s'. eexists. split; [reflexivity|].
  split; [assumption|]. split; [assumption|]. split; [assumption|].
  split.
  - unfold shape. cbn [set_nodes nodes levels total_nodes].
    rewrite length_insert. auto.
  - intros j Hj. cbn [set_nodes nodes].
    destruct (Z.eq_dec j i) as [->|Hne].
    + exists cur, nd'. split; [assumption|]. split; [|assumption].
      apply load_insert_eq. lia.
    + destruct (Hag j ltac:(lia)) as (a & a' & La & La' & Hs).
      exists a, a'. split; [assumption|]. split; [|assumption].
      rewrite load_insert_ne by lia. assumption.
Qed.

Lemma decode_loop_spec (k : nat) :
  forall (i : Z) (s : BitStream) (q' : Quadtree),
  0 <= i -> i + Z.of_nat k = first_index (S n) ->
  shape q' n -> agree (nodes q) (nodes q') i ->
  cursor_ok s ->
  spells (buf s) (rpos s) (loop_fields k q i) ->
  rpos s + bits_len (loop_fields k q i) <= 8 * Z.of_nat (length (buf s)) ->
  exists s' q'', decode_loop k i (s, q') = Done (s', q'') /\
    shape q'' n /\ agree (nodes q) (nodes q'') (first_index (S n)).
Proof.
  induction k as [|k IH]; intros i s q' Hi Hk Hsh' Hag Hc Hsp Hlen.
  - exists s, q'. split; [reflexivity|]. split; [assumption|].
    replace (first_index (S n)) with i by lia. assumption.
  - cbn [loop_fields] in Hsp, Hlen. rewrite bits_len_app in Hlen.
    apply spells_app in Hsp. destruct Hsp as [Hsp1 Hsp2].
    destruct (loop_fields_widths k q (i + 1)) as [Hw _].
    pose proof (bits_len_nonneg _ Hw) as Hnn.
    destruct (decode_step_spec i s q') as
      (s1 & q1 & E1 & Hc1 & Hb1 & Hr1 & Hsh1 & Hag1); auto; try lia.
    destruct (IH (i + 1) s1 q1) as (s2 & q2 & E2 & Hsh2 & Hag2);
      auto; try lia.
    { rewrite Hb1, Hr1. assumption. }
    { rewrite Hb1, Hr1. lia. }
    exists s2, q2. cbn [decode_loop]. rewrite E1. cbn [mbind outcome_bind].
    auto.
Qed.

(** The stream [encode] returns, read from its first bit, spells the
    header and then the fields of the nodes in index order. *)
Lemma encode_into_spec (s0 : BitStream) :
  0 <= levels q < 256 ->
  capa s0 = 8 -> start s0 = 0 -> ptr s0 = 0 ->
  8 + bits_len (loop_fields (Z.to_nat (total_nodes q)) q 0)
    <= 8 * Z.of_nat (length (buf s0)) ->
  exists s, encode_into s0 q = Done s /\
    capa s = 8 /\ start s = 0 /\ length (buf s) = length (buf s0) /\
    8 * ptr s < 8 + bits_len (loop_fields (Z.to_nat (total_nodes q)) q 0) + 8 /\
    8 + bits_len (loop_fields (Z.to_nat (total_nodes q)) q 0) <= 8 * ptr s /\
    spells (buf s) 0 ((levels q, 8) :: loop_fields (Z.to_nat (total_nodes q)) q 0).
Proof.
  intros Hlv Hcapa Hstart Hptr Hlen.
  destruct q_shape as (Hl & Ht & Hn).
  pose proof (first_index_nonneg (S n)) as HT.
  set (fs := loop_fields (Z.to_nat (total_nodes q)) q 0) in *.
  destruct (loop_fields_widths (Z.to_nat (total_nodes q)) q 0) as [Hw Hb].
  fold fs in Hw, Hb.
  assert (Hwall : widths_ok ((levels q, 8) :: fs))
    by (constructor; [simpl; lia | assumption]).
  assert (Hw0 : wpos s0 = 0) by (unfold wpos; lia).
  destruct (push_fields_spec ((levels q, 8) :: fs) s0) as
    (s2 & E2 & Hl2 & Hst2 & Hc2 & Hp2 & Hwp2 & Hsp2 & _); auto.
  { unfold capa_ok. lia. } { lia. }
  { rewrite Hw0. cbn [bits_len]. lia. }
  pose proof (bits_len_nonneg _ Hw) as Hnn.
  cbn [bits_len] in Hwp2.
  destruct (finishBitStream_spec s2) as
    (s3 & E3 & Hl3 & Hst3 & Hc3 & Hp3 & Hwp3 & Hfr3); auto.
  { rewrite Hwp2, Hl2. lia. }
  exists s3. split.
  - unfold encode_into. cbn [push_fields] in E2.
    destruct (push_n_bits s0 (levels q) 8) as [s1| | |]; cbn [mbind outcome_bind] in *;
      try discriminate.
    rewrite encode_loop_push by lia. fold fs. rewrite E2. exact E3.
  - split; [assumption|]. split; [congruence|]. split; [congruence|].
    split; [lia|]. split; [lia|].
    apply spells_ext with (m := buf s2); auto; try lia.
    + intros k Hk. apply Hfr3. cbn [bits_len] in Hk. lia.
    + rewrite Hw0 in Hsp2. assumption.
Qed.

End DecodeLoop.

Lemma first_index_ge_5 (n : nat) : (1 <= n)%nat -> 5 <= first_index (S n).
Proof.
  intros Hn. pose proof (first_index_le 1 n Hn) as H. simpl in *. lia.
Qed.

(** Decoding what the encoder wrote into a stream with enough room gives
    back the serialised fields of every node of a coherent tree. *)
Lemma encode_into_decode_tree (q : Quadtree) (n : nat) (s0 : BitStream)
    (junkN : nat -> Node) :
  shape q n -> coherent (nodes q) n -> Z.of_nat n < 256 ->
  capa s0 = 8 -> start s0 = 0 -> ptr s0 = 0 ->
  8 + bits_len (loop_fields (Z.to_nat (total_nodes q)) q 0)
    <= 8 * Z.of_nat (length (buf s0)) ->
  exists s s' q', encode_into s0 q = Done s /\
    decode s junkN = Done (s', q') /\
    shape q' n /\ agree (nodes q) (nodes q') (first_index (S n)) /\
    start s = 0 /\
    8 + bits_len (loop_fields (Z.to_nat (total_nodes q)) q 0) <= 8 * ptr s /\
    8 * ptr s < 8 + bits_len (loop_fields (Z.to_nat (total_nodes q)) q 0) + 8 /\
    spells (buf s) 0 ((levels q, 8) :: loop_fields (Z.to_nat (total_nodes q)) q 0).
Proof.
  intros Hsh Hco Hn256 Hcapa0 Hstart0 Hptr0 Hroom.
  pose proof Hsh as (Hl & Ht & Hlen).
  pose proof (first_index_nonneg (S n)) as HT.
  destruct (loop_fields_widths (Z.to_nat (total_nodes q)) q 0) as [Hw Hb].
  pose proof (bits_len_nonneg _ Hw) as Hnn.
  destruct (encode_into_spec q n Hsh s0)
    as (s & E & Hcapa & Hstart & Hlb & Hp1 & Hp2 & Hsp); try assumption; try lia.
  assert (Hc : cursor_ok s) by (unfold cursor_ok, capa_ok; lia).
  assert (Hr0 : rpos s = 0) by (unfold rpos; lia).
  destruct (read_field s (levels q) 8 (loop_fields (Z.to_nat (total_nodes q)) q 0)) as
    (s1 & E1 & Hc1 & Hb1 & _ & Hr1 & Hsp1); auto; try lia.
  { rewrite Hr0. assumption. }
  pose proof (create_empty_quadtree_shape n junkN) as Hsh0.
  destruct (decode_loop_spec q n Hsh Hco (Z.to_nat (total_nodes q)) 0 s1
              (create_empty_quadtree (Z.of_nat n) junkN))
    as (s2 & q2 & E2 & Hsh2 & Hag2); auto; try lia.
  { intros j Hj. lia. }
  { rewrite Hb1, Hr1, Hr0. lia. }
  exists s, s2, q2. split; [exact E|]. split; [|auto 10].
  unfold decode. rewrite E1. cbn [mbind outcome_bind]. rewrite Hl.
  destruct Hsh0 as (_ & Ht0 & _). rewrite Ht0, <- Ht. exact E2.
Qed.

(** With the buffer [encode] allocates, two bytes per node, there is room
    as soon as the tree has more than one node. *)
Lemma encode_decode_tree (q : Quadtree) (n : nat) (junkB : nat -> Z) (junkN : nat -> Node) :
  shape q n -> coherent (nodes q) n -> (1 <= n)%nat -> Z.of_nat n < 256 ->
  exists s s' q', encode q junkB = Done s /\
    decode s junkN = Done (s', q') /\
    shape q' n /\ agree (nodes q) (nodes q') (first_index (S n)).
Proof.
  intros Hsh Hco Hn1 Hn256. pose proof Hsh as (Hl & Ht & Hlen).
  pose proof (first_index_ge_5 n Hn1) as H5.
  destruct (loop_fields_widths (Z.to_nat (total_nodes q)) q 0) as [Hw Hb].
  destruct (encode_into_decode_tree q n (initBitStream (total_nodes q * 2) junkB) junkN)
    as (s & s' & q' & E & D & Hsh' & Hag & _); auto.
  { cbn [initBitStream buf]. rewrite length_malloc. lia. }
  exists s, s', q'. auto.
Qed.

(** ** The painter *)

Lemma leaf_index_level (d : nat) :
  forall (l : nat) (index dx dy : Z),
  at_level l index -> at_level (l + d) (leaf_index d index dx dy).
Proof.
  induction d as [|d IH]; intros l index dx dy Hl; cbn [leaf_index].
  - rewrite Nat.add_0_r. assumption.
  - replace (l + S d)%nat with (S l + d)%nat by lia.
    destruct (dx <? 2 ^ Z.of_nat d), (dy <? 2 ^ Z.of_nat d);
      apply IH; apply at_level_child; auto; lia.
Qed.

(** The leaves below [index], [d] levels down, are [4^d] consecutive
    nodes. *)
Lemma leaf_index_range (d : nat) :
  forall (index dx dy : Z),
  4 ^ Z.of_nat d * index + first_index d <= leaf_index d index dx dy
    < 4 ^ Z.of_nat d * index + first_index d + 4 ^ Z.of_nat d.
Proof.
  induction d as [|d IH]; intros index dx dy; cbn [leaf_index].
  - change (4 ^ Z.of_nat 0) with 1. cbn [first_index]. lia.
  - rewrite Nat2Z.inj_succ, Z.pow_succ_r by lia. rewrite (first_index_succ d).
    assert (Hp : 0 < 4 ^ Z.of_nat d) by (apply Z.pow_pos_nonneg; lia).
    destruct (dx <? 2 ^ Z.of_nat d), (dy <? 2 ^ Z.of_nat d);
      match goal with
      | |- context [leaf_index d ?c ?a ?b] => specialize (IH c a b)
      end; nia.
Qed.

(** Two pixels of a block are painted from two leaves. *)
Lemma leaf_index_inj (d : nat) :
  forall (index dx dy dx' dy' : Z),
  0 <= dx < 2 ^ Z.of_nat d -> 0 <= dy < 2 ^ Z.of_nat d ->
  0 <= dx' < 2 ^ Z.of_nat d -> 0 <= dy' < 2 ^ Z.of_nat d ->
  leaf_index d index dx dy = leaf_index d index dx' dy' ->
  dx = dx' /\ dy = dy'.
Proof.
  induction d as [|d IH]; intros index dx dy dx' dy' Hx Hy Hx' Hy' E.
  - change (2 ^ Z.of_nat 0) with 1 in *. lia.
  - rewrite pow2_succ in *. cbn [leaf_index] in E.
    assert (Hp : 0 < 4 ^ Z.of_nat d) by (apply Z.pow_pos_nonneg; lia).
    destruct (Z.ltb_spec dx (2 ^ Z.of_nat d)), (Z.ltb_spec dy (2 ^ Z.of_nat d)),
             (Z.ltb_spec dx' (2 ^ Z.of_nat d)), (Z.ltb_spec dy' (2 ^ Z.of_nat d));
      match type of E with
      | leaf_index d ?c ?a ?b = leaf_index d ?c ?a' ?b' =>
          destruct (IH c a b a' b') as [? ?]; [lia | lia | lia | lia | exact E |]; lia
      | leaf_index d ?c ?a ?b = leaf_index d ?c' ?a' ?b' =>
          pose proof (leaf_index_range d c a b);
          pose proof (leaf_index_range d c' a' b'); nia
      end.
Qed.

(** Every leaf below [index] is that of a pixel of the block. *)
Lemma leaf_index_surj (d : nat) :
  forall (index j : Z),
  4 ^ Z.of_nat d * index + first_index d <= j
    < 4 ^ Z.of_nat d * index + first_index d + 4 ^ Z.of_nat d ->
  exists dx dy, 0 <= dx < 2 ^ Z.of_nat d /\ 0 <= dy < 2 ^ Z.of_nat d /\
    leaf_index d index dx dy = j.
Proof.
  induction d as [|d IH]; intros index j Hj.
  - change (4 ^ Z.of_nat 0) with 1 in Hj. cbn [first_index] in Hj.
    exists 0, 0. change (2 ^ Z.of_nat 0) with 1. cbn [leaf_index]. lia.
  - rewrite Nat2Z.inj_succ, Z.pow_succ_r in Hj by lia.
    rewrite (first_index_succ d) in Hj.
    assert (Hp : 0 < 4 ^ Z.of_nat d) by (apply Z.pow_pos_nonneg; lia).
    pose proof (pow2_pos d) as Hp2. rewrite pow2_succ.
    set (b := 4 * 4 ^ Z.of_nat d * index + first_index d) in *.
    assert (Hc : (b + 4 ^ Z.of_nat d <= j < b + 2 * 4 ^ Z.of_nat d) \/
                 (b + 2 * 4 ^ Z.of_nat d <= j < b + 3 * 4 ^ Z.of_nat d) \/
                 (b + 3 * 4 ^ Z.of_nat d <= j < b + 4 * 4 ^ Z.of_nat d) \/
                 (b + 4 * 4 ^ Z.of_nat d <= j < b + 5 * 4 ^ Z.of_nat d)) by lia.
    destruct Hc as [Hc|[Hc|[Hc|Hc]]].
    + destruct (IH (4 * index + 1) j) as (dx & dy & Hx & Hy & E); [subst b; lia|].
      exists dx, dy. cbn [leaf_index].
      replace (dx <? 2 ^ Z.of_nat d) with true by (symmetry; apply Z.ltb_lt; lia).
      replace (dy <? 2 ^ Z.of_nat d) with true by (symmetry; apply Z.ltb_lt; lia).
      split; [lia|]. split; [lia|]. exact E.
    + destruct (IH (4 * index + 2) j) as (dx & dy & Hx & Hy & E); [subst b; lia|].
      exists (dx + 2 ^ Z.of_nat d), dy. cbn [leaf_index].
      replace (dx + 2 ^ Z.of_nat d <? 2 ^ Z.of_nat d) with false
        by (symmetry; apply Z.ltb_ge; lia).
      replace (dy <? 2 ^ Z.of_nat d) with true by (symmetry; apply Z.ltb_lt; lia).
      replace (dx + 2 ^ Z.of_nat d - 2 ^ Z.of_nat d) with dx by lia.
      split; [lia|]. split; [lia|]. exact E.
    + destruct (IH (4 * index + 3) j) as (dx & dy & Hx & Hy & E); [subst b; lia|].
      exists (dx + 2 ^ Z.of_nat d), (dy + 2 ^ Z.of_nat d). cbn [leaf_index].
      replace (dx + 2 ^ Z.of_nat d <? 2 ^ Z.of_nat d) with false
        by (symmetry; apply Z.ltb_ge; lia).
      replace (dy + 2 ^ Z.of_nat d <? 2 ^ Z.of_nat d) with false
        by (symmetry; apply Z.ltb_ge; lia).
      replace (dx + 2 ^ Z.of_nat d - 2 ^ Z.of_nat d) with dx by lia.
      replace (dy + 2 ^ Z.of_nat d - 2 ^ Z.of_nat d) with dy by lia.
      split; [lia|]. split; [lia|]. exact E.
    + destruct (IH (4 * index + 4) j) as (dx & dy & Hx & Hy & E); [subst b; lia|].
      exists dx, (dy + 2 ^ Z.of_nat d). cbn [leaf_index].
      replace (dx <? 2 ^ Z.of_nat d) with true by (symmetry; apply Z.ltb_lt; lia).
      replace (dy + 2 ^ Z.of_nat d <? 2 ^ Z.of_nat d) with false
        by (symmetry; apply Z.ltb_ge; lia).
      replace (dy + 2 ^ Z.of_nat d - 2 ^ Z.of_nat d) with dy by lia.
      split; [lia|]. split; [lia|]. exact E.
Qed.

Lemma pixel_index_inj (w x y x' y' : Z) :
  0 <= x < w -> 0 <= x' < w -> y * w + x = y' * w + x' -> x = x' /\ y = y'.
Proof.
  intros Hx Hx' H.
  assert (y = y') by nia. subst. lia.
Qed.

Lemma quot_pow2 (d : nat) : Z.quot (2 ^ Z.of_nat (S d)) 2 = 2 ^ Z.of_nat d.
Proof.
  rewrite pow2_succ. pose proof (pow2_pos d).
  rewrite Z.quot_div_nonneg by lia.
  rewrite Z.mul_comm. apply Z.div_mul. lia.
Qed.

(** Resolve the integer comparisons of the goal, by arithmetic where the
    context decides them and by cases where it does not. *)
Ltac decide_cmp :=
  repeat match goal with
  | |- context [?a <? ?b] =>
      first [ replace (a <? b) with true by (symmetry; apply Z.ltb_lt; lia)
            | replace (a <? b) with false by (symmetry; apply Z.ltb_ge; lia)
            | destruct (Z.ltb_spec a b) ]
  | |- context [?a <=? ?b] =>
      first [ replace (a <=? b) with true by (symmetry; apply Z.leb_le; lia)
            | replace (a <=? b) with false by (symmetry; apply Z.leb_gt; lia)
            | destruct (Z.leb_spec a b) ]
  end.

Section Painter.

Variable q : Quadtree.
Variable n : nat.
Hypothesis q_shape : shape q n.

Let W : Z := 2 ^ Z.of_nat n.

Lemma paint_rec_spec (d : nat) :
  forall (l fuel : nat) (im : Image) (index x y : Z),
  (l + d = n)%nat -> (d < fuel)%nat -> at_level l index ->
  width im = W -> Z.of_nat (length (image im)) = W * W ->
  0 <= x -> 0 <= y -> x + 2 ^ Z.of_nat d <= W -> y + 2 ^ Z.of_nat d <= W ->
  exists im',
    build_image_from_quadtree_rec fuel q im index x y (2 ^ Z.of_nat d) = Done im' /\
    width im' = width im /\ image_size im' = image_size im /\
    max_val im' = max_val im /\
    length (image im') = length (image im) /\
    forall x' y', 0 <= x' < W -> 0 <= y' < W ->
      load (image im') (y' * W + x') =
      if in_block x y (2 ^ Z.of_nat d) x' y'
      then Done (node_moyenne q (leaf_index d index (x' - x) (y' - y)))
      else load (image im) (y' * W + x').
Proof.
  induction d as [|d IH];
    intros l fuel im index x y Hld Hfuel Hlvl Hw Hlen Hx Hy Hxw Hyw;
    (destruct fuel as [|fuel]; [lia|]);
    pose proof q_shape as (Hlv & Ht & Hn);
    pose proof (at_level_in_range l n index Hlvl ltac:(lia)) as Hidx;
    cbn [build_image_from_quadtree_rec];
    rewrite (is_leaf_shape q n index q_shape);
    unfold at_level in Hlvl.
  - (* a leaf *)
    replace l with n in * by lia. change (2 ^ Z.of_nat 0) with 1 in *.
    replace (first_index n <=? index) with true by (symmetry; apply Z.leb_le; lia).
    destruct (load_in_range (nodes q) index ltac:(lia)) as [nd Hnd].
    rewrite Hnd. cbn [mbind outcome_bind].
    assert (Hpos : 0 <= y * width im + x < Z.of_nat (length (image im)))
      by (rewrite Hw; nia).
    rewrite store_in_range by assumption. cbn [mbind outcome_bind].
    eexists. split; [reflexivity|]. cbn [width image_size max_val image].
    rewrite length_insert. repeat split; auto.
    intros x' y' Hx' Hy'. unfold in_block. rewrite Hw in *.
    destruct (Z.eq_dec x' x) as [->|Hnx].
    + destruct (Z.eq_dec y' y) as [->|Hny].
      * decide_cmp. cbn [andb leaf_index]. rewrite load_insert_eq by assumption.
        unfold node_moyenne. rewrite Hnd. reflexivity.
      * assert (y' * W + x <> y * W + x) by nia.
        rewrite load_insert_ne by nia.
        decide_cmp; cbn [andb]; reflexivity.
    + assert (y' * W + x' <> y * W + x).
      { intros E. apply pixel_index_inj in E; lia. }
      rewrite load_insert_ne by nia.
      decide_cmp; cbn [andb]; reflexivity.
  - (* an internal node *)
    pose proof (first_index_le (S l) n ltac:(lia)) as Hle.
    replace (first_index n <=? index) with false by (symmetry; apply Z.leb_gt; lia).
    rewrite quot_pow2. rewrite pow2_succ in *. pose proof (pow2_pos d) as Hpd.
    set (c := 2 ^ Z.of_nat d) in *.
    destruct (IH (S l) fuel im (4 * index + 1) x y) as
      (i1 & E1 & Hw1 & Hs1 & Hm1 & Hl1 & P1);
      try lia; [apply at_level_child; [assumption | lia]|].
    destruct (IH (S l) fuel i1 (4 * index + 2) (x + c) y) as
      (i2 & E2 & Hw2 & Hs2 & Hm2 & Hl2 & P2);
      try lia; [apply at_level_child; [assumption | lia]|].
    destruct (IH (S l) fuel i2 (4 * index + 3) (x + c) (y + c)) as
      (i3 & E3 & Hw3 & Hs3 & Hm3 & Hl3 & P3);
      try lia; [apply at_level_child; [assumption | lia]|].
    destruct (IH (S l) fuel i3 (4 * index + 4) x (y + c)) as
      (i4 & E4 & Hw4 & Hs4 & Hm4 & Hl4 & P4);
      try lia; [apply at_level_child; [assumption | lia]|].
    rewrite E1. cbn [mbind outcome_bind]. rewrite E2. cbn [mbind outcome_bind].
    rewrite E3. cbn [mbind outcome_bind]. rewrite E4.
    exists i4. split; [reflexivity|].
    split; [congruence|]. split; [congruence|]. split; [congruence|].
    split; [congruence|].
    intros x' y' Hx' Hy'.
    rewrite P4, P3, P2, P1 by assumption.
    unfold in_block. cbn [leaf_index]. fold c.
    decide_cmp; cbn [andb]; try reflexivity; do 3 f_equal; lia.
Qed.

End Painter.

Lemma pixel_decompose (w p : Z) :
  0 < w -> 0 <= p < w * w ->
  0 <= p mod w < w /\ 0 <= p / w < w /\ p = (p / w) * w + p mod w.
Proof.
  intros Hw Hp.
  pose proof (Z.div_mod p w ltac:(lia)). pose proof (Z.mod_pos_bound p w Hw).
  assert (0 <= p / w) by (apply Z.div_pos; lia).
  assert (p / w < w) by (apply Z.div_lt_upper_bound; lia).
  lia.
Qed.

Lemma load_lookup {A} (l : list A) (k : nat) :
  l !! k = match load l (Z.of_nat k) with Done a => Some a | _ => None end.
Proof.
  unfold load. replace (Z.of_nat k <? 0) with false by (symmetry; apply Z.ltb_ge; lia).
  rewrite Nat2Z.id. destruct (l !! k); reflexivity.
Qed.

Lemma image_ext (w : Z) (l1 l2 : list Z) :
  0 < w -> Z.of_nat (length l1) = w * w -> Z.of_nat (length l2) = w * w ->
  (forall x y, 0 <= x < w -> 0 <= y < w ->
     load l1 (y * w + x) = load l2 (y * w + x)) ->
  l1 = l2.
Proof.
  intros Hw H1 H2 Hext. apply list_eq. intros k.
  destruct (Z_lt_le_dec (Z.of_nat k) (w * w)) as [Hk|Hk].
  - rewrite !load_lookup.
    destruct (pixel_decompose w (Z.of_nat k) Hw ltac:(lia)) as (Hx & Hy & ->).
    rewrite Hext by assumption. reflexivity.
  - rewrite (lookup_ge_None_2 l1), (lookup_ge_None_2 l2) by lia. reflexivity.
Qed.

Lemma shiftl_1_pow2 (n : nat) : Z.shiftl 1 (Z.of_nat n) = 2 ^ Z.of_nat n.
Proof. rewrite Z.shiftl_1_l. reflexivity. Qed.

(** The painter returns an image in which every pixel is the mean of the
    leaf of its position, whatever the initial contents of the image. *)
Lemma build_image_from_quadtree_spec (q : Quadtree) (n : nat) (fuel : nat)
    (junk : nat -> Z) :
  shape q n -> (n < fuel)%nat ->
  exists im, build_image_from_quadtree fuel q junk = Done im /\
    width im = 2 ^ Z.of_nat n /\
    Z.of_nat (length (image im)) = 2 ^ Z.of_nat n * 2 ^ Z.of_nat n /\
    forall x y, 0 <= x < 2 ^ Z.of_nat n -> 0 <= y < 2 ^ Z.of_nat n ->
      load (image im) (y * 2 ^ Z.of_nat n + x) =
      Done (node_moyenne q (leaf_index n 0 x y)).
Proof.
  intros Hsh Hfuel. pose proof Hsh as (Hlv & _ & _).
  unfold build_image_from_quadtree. rewrite Hlv, shiftl_1_pow2.
  pose proof (pow2_pos n) as Hp. set (w := 2 ^ Z.of_nat n) in *.
  assert (Hal : Z.of_nat (length (image (allocate_image w (w * w) 255 junk))) = w * w).
  { cbn [allocate_image image]. rewrite length_malloc. nia. }
  destruct (paint_rec_spec q n Hsh n 0%nat fuel (allocate_image w (w * w) 255 junk) 0 0 0)
    as (im & E & Hw & _ & _ & Hl & P); auto; try (fold w; lia).
  { apply at_level_root. }
  exists im. split; [exact E|]. split; [rewrite Hw; reflexivity|].
  split; [rewrite Hl; exact Hal|].
  intros x y Hx Hy. fold w in P. rewrite P by assumption.
  unfold in_block. decide_cmp. cbn [andb]. rewrite !Z.sub_0_r. reflexivity.
Qed.

(** Where [built] puts the pixels: each leaf holds the pixel of its position. *)
Lemma built_leaf (img : Image) (ns : list Node) (d : nat) :
  forall (index x y dx dy : Z),
  built img ns d (2 ^ Z.of_nat d) index x y ->
  0 <= dx < 2 ^ Z.of_nat d -> 0 <= dy < 2 ^ Z.of_nat d ->
  exists nd, load ns (leaf_index d index dx dy) = Done nd /\
    load (image img) ((y + dy) * width img + (x + dx)) = Done (moyenne nd).
Proof.
  induction d as [|d IH]; intros index x y dx dy Hb Hdx Hdy.
  - change (2 ^ Z.of_nat 0) with 1 in *.
    replace dx with 0 by lia. replace dy with 0 by lia. rewrite !Z.add_0_r.
    cbn [built] in Hb. destruct Hb as (pixel & Hp & Hn).
    exists (leaf_node pixel). split; [exact Hn | exact Hp].
  - cbn [built] in Hb. rewrite quot_pow2 in Hb. rewrite pow2_succ in *.
    pose proof (pow2_pos d) as Hpd. cbn [leaf_index].
    set (c := 2 ^ Z.of_nat d) in *.
    destruct Hb as (H1 & H2 & H3 & H4 & _).
    destruct (Z.ltb_spec dx c), (Z.ltb_spec dy c).
    + apply IH; auto; lia.
    + destruct (IH _ _ _ dx (dy - c) H4) as (nd & L & P); try lia.
      exists nd. split; [exact L|]. rewrite <- P. f_equal. lia.
    + destruct (IH _ _ _ (dx - c) dy H2) as (nd & L & P); try lia.
      exists nd. split; [exact L|]. rewrite <- P. f_equal. lia.
    + destruct (IH _ _ _ (dx - c) (dy - c) H3) as (nd & L & P); try lia.
      exists nd. split; [exact L|]. rewrite <- P. f_equal. lia.
Qed.

(** ** Trees built from a valid raster *)

Lemma build_valid_raster (n : nat) (img : Image) (junk : nat -> Node) (fuel : nat) :
  valid_raster n img -> (n < fuel)%nat ->
  exists q, build_quadtree_from_image fuel img junk = Done q /\
    shape q n /\ coherent (nodes q) n /\
    built img (nodes q) n (2 ^ Z.of_nat n) 0 0 0.
Proof.
  intros (Hw & Hlen & Hpx) Hfuel. pose proof (pow2_pos n) as Hp.
  assert (Hlog : Z.to_nat (Z.log2 (width img)) = n).
  { rewrite Hw, Z.log2_pow2 by lia. apply Nat2Z.id. }
  destruct (build_quadtree_from_image_spec img junk fuel) as (q & E & Hsh & Hb & _);
    try lia.
  rewrite Hlog in Hsh, Hb. rewrite Hw in Hb.
  exists q. split; [exact E|]. split; [exact Hsh|]. split; [|exact Hb].
  apply built_coherent with (img := img) (size := 2 ^ Z.of_nat n); assumption.
Qed.

(** Painting a tree that agrees with a built tree on the serialised fields
    gives back the raster the tree was built from. *)
Lemma paint_agree (n : nat) (img : Image) (q q' : Quadtree) (fuel : nat)
    (junkI : nat -> Z) :
  valid_raster n img -> (n < fuel)%nat ->
  built img (nodes q) n (2 ^ Z.of_nat n) 0 0 0 ->
  shape q' n -> agree (nodes q) (nodes q') (first_index (S n)) ->
  exists im, build_image_from_quadtree fuel q' junkI = Done im /\
    width im = width img /\ image im = image img.
Proof.
  intros (Hw & Hlen & Hpx) Hfuel Hb Hsh' Hag.
  destruct (build_image_from_quadtree_spec q' n fuel junkI Hsh' Hfuel) as
    (im & Ep & Hwi & Hli & Hpix).
  exists im. split; [exact Ep|]. split; [congruence|].
  pose proof (pow2_pos n) as Hp.
  apply image_ext with (w := 2 ^ Z.of_nat n); auto; try congruence.
  intros x y Hx Hy. rewrite Hpix by assumption.
  destruct (built_leaf img (nodes q) n 0 0 0 x y Hb Hx Hy) as (nd & Lq & Lp).
  rewrite !Z.add_0_l, Hw in Lp. rewrite Lp.
  pose proof (leaf_index_level n 0%nat 0 x y at_level_root) as Hlvl.
  pose proof (at_level_in_range _ n _ Hlvl ltac:(lia)) as Hr.
  destruct (Hag (leaf_index n 0 x y) Hr) as (a & a' & La & La' & Hm & _).
  unfold node_moyenne. rewrite La'. congruence.
Qed.

(** The lossless round trip for every raster of side [2^n], [1 <= n <= 14]:
    the decoder returns the serialised fields of every node of the built
    tree, and the painter returns the raster. *)
Theorem lossless_roundtrip (n : nat) (img : Image) (fuel : nat)
    (junkN junkN' : nat -> Node) (junkB junkI : nat -> Z) :
  valid_raster n img -> (1 <= n <= 14)%nat -> (n < fuel)%nat ->
  exists q s s' q' im,
    build_quadtree_from_image fuel img junkN = Done q /\
    encode q junkB = Done s /\
    decode s junkN' = Done (s', q') /\
    levels q' = levels q /\ total_nodes q' = total_nodes q /\
    length (nodes q') = length (nodes q) /\
    agree (nodes q) (nodes q') (total_nodes q) /\
    build_image_from_quadtree fuel q' junkI = Done im /\
    width im = width img /\ image im = image img.
Proof.
  intros Hvalid Hn Hfuel.
  destruct (build_valid_raster n img junkN fuel Hvalid Hfuel) as
    (q & Eb & Hsh & Hco & Hb).
  destruct (encode_decode_tree q n junkB junkN' Hsh Hco) as
    (s & s' & q' & Ee & Ed & Hsh' & Hag); try lia.
  destruct (paint_agree n img q q' fuel junkI Hvalid Hfuel Hb Hsh' Hag) as
    (im & Ep & Hwi & Him).
  destruct Hsh as (Hlv & Ht & Hln). destruct Hsh' as (Hlv' & Ht' & Hln').
  exists q, s, s', q', im.
  repeat (split; [first [assumption | congruence | lia]|]).
  split; [rewrite Ht; exact Hag|]. auto.
Qed.

(** ** The lossy filter *)

Lemma filtered_refl (nd : Node) : filtered nd nd.
Proof. unfold filtered. auto. Qed.

Lemma filtered_trans (a b c : Node) : filtered a b -> filtered b c -> filtered a c.
Proof.
  intros (M1 & V1 & H1) (M2 & V2 & H2). unfold filtered.
  split; [congruence|]. split; [congruence|].
  destruct H1 as [->|(U1 & U1' & E1)]; [assumption|].
  destruct H2 as [->|(U2 & _)]; [right; auto | congruence].
Qed.

Lemma filtered_nodes_refl (ns : list Node) : filtered_nodes ns ns.
Proof.
  split; [reflexivity|]. intros j nd H.
  exists nd. split; [assumption | apply filtered_refl].
Qed.

Lemma filtered_nodes_trans (a b c : list Node) :
  filtered_nodes a b -> filtered_nodes b c -> filtered_nodes a c.
Proof.
  intros [L1 H1] [L2 H2]. split; [congruence|].
  intros j nd Hj. destruct (H1 j nd Hj) as (nd1 & Hj1 & F1).
  destruct (H2 j nd1 Hj1) as (nd2 & Hj2 & F2).
  exists nd2. split; [assumption | eapply filtered_trans; eassumption].
Qed.

Lemma stable_ext (alpha : float) (ns ns' : list Node) (d : nat) :
  forall i sigma, 0 <= i ->
  (forall j, desc i j -> load ns' j = load ns j) ->
  stable alpha ns d i sigma -> stable alpha ns' d i sigma.
Proof.
  induction d as [|d IH]; intros i sigma Hi Hext (nd & L & H).
  - exists nd. rewrite Hext by apply desc_refl. auto.
  - exists nd. rewrite Hext by apply desc_refl. split; [assumption|].
    destruct H as [H|(Hu & H1 & H2 & H3 & H4 & n1 & n2 & n3 & n4 & L1 & L2 & L3 & L4 & Hc)];
      [left; assumption|].
    assert (Hch : forall a, 1 <= a <= 4 ->
              forall j, desc (4 * i + a) j -> load ns' j = load ns j).
    { intros a Ha j Hd. apply Hext. apply desc_of_child with (a := a); assumption. }
    right. split; [assumption|].
    split; [apply IH; [lia | apply (Hch 1); lia | assumption]|].
    split; [apply IH; [lia | apply (Hch 2); lia | assumption]|].
    split; [apply IH; [lia | apply (Hch 3); lia | assumption]|].
    split; [apply IH; [lia | apply (Hch 4); lia | assumption]|].
    exists n1, n2, n3, n4.
    rewrite (Hch 1), (Hch 2), (Hch 3), (Hch 4) by (lia || apply desc_refl).
    auto.
Qed.

(** On a stable subtree [filtrage] returns at once what it finds and
    writes nothing. *)
Lemma stable_filtrage (alpha : float) (q : Quadtree) (d : nat) :
  forall (fuel : nat) (i : Z) (sigma : float),
  (d < fuel)%nat -> stable alpha (nodes q) d i sigma ->
  exists nd, load (nodes q) i = Done nd /\
    filtrage fuel q i sigma alpha = Done (q, flag nd).
Proof.
  induction d as [|d IH]; intros fuel i sigma Hfuel (nd & L & H);
    (destruct fuel as [|fuel]; [lia|]); exists nd; (split; [assumption|]);
    cbn [filtrage]; rewrite L; cbn [mbind outcome_bind]; unfold flag.
  - destruct H as [H|[_ []]].
    destruct (Z.eqb_spec (u nd) 0); [contradiction | reflexivity].
  - destruct H as [H|(Hu & H1 & H2 & H3 & H4 & n1 & n2 & n3 & n4 & L1 & L2 & L3 & L4 & Hc)].
    + destruct (Z.eqb_spec (u nd) 0); [contradiction | reflexivity].
    + rewrite Hu. cbn [Z.eqb negb].
      destruct (IH fuel _ _ ltac:(lia) H1) as (a1 & La1 & E1).
      destruct (IH fuel _ _ ltac:(lia) H2) as (a2 & La2 & E2).
      destruct (IH fuel _ _ ltac:(lia) H3) as (a3 & La3 & E3).
      destruct (IH fuel _ _ ltac:(lia) H4) as (a4 & La4 & E4).
      rewrite E1. cbn [mbind outcome_bind]. rewrite E2. cbn [mbind outcome_bind].
      rewrite E3. cbn [mbind outcome_bind]. rewrite E4. cbn [mbind outcome_bind].
      rewrite L. cbn [mbind outcome_bind].
      assert (a1 = n1) by congruence. assert (a2 = n2) by congruence.
      assert (a3 = n3) by congruence. assert (a4 = n4) by congruence.
      subst. rewrite Hc. reflexivity.
Qed.

Section Filter.

Variable alpha : float.
Variable n : nat.

Lemma leaves_uniform_filtered (ns ns' : list Node) :
  filtered_nodes ns ns' -> leaves_uniform n ns -> leaves_uniform n ns'.
Proof.
  intros [_ Hf] Hl j Hj. destruct (Hl j Hj) as (nd & L & Hu).
  destruct (Hf j nd L) as (nd' & L' & _ & _ & H).
  exists nd'. split; [assumption|].
  destruct H as [->|(_ & Hu' & _)]; [assumption | lia].
Qed.

Lemma filtrage_spec (d : nat) :
  forall (l fuel : nat) (q : Quadtree) (index : Z) (sigma : float),
  (l + d = n)%nat -> (d < fuel)%nat -> at_level l index ->
  Z.of_nat (length (nodes q)) = first_index (S n) ->
  leaves_uniform n (nodes q) ->
  exists q' r, filtrage fuel q index sigma alpha = Done (q', r) /\
    total_nodes q' = total_nodes q /\ levels q' = levels q /\
    medvar q' = medvar q /\ maxvar q' = maxvar q /\
    filtered_nodes (nodes q) (nodes q') /\
    (forall j, 0 <= j -> ~ desc index j -> load (nodes q') j = load (nodes q) j) /\
    (exists nd, load (nodes q') index = Done nd /\ r = flag nd) /\
    stable alpha (nodes q') d index sigma.
Proof.
  induction d as [|d IH]; intros l fuel q index sigma Hld Hfuel Hlvl Hlen Hleaves;
    (destruct fuel as [|fuel]; [lia|]);
    pose proof (at_level_in_range l n index Hlvl ltac:(lia)) as Hidx;
    destruct (load_in_range (nodes q) index ltac:(lia)) as [nd Lnd];
    cbn [filtrage]; rewrite Lnd; cbn [mbind outcome_bind].
  - (* a leaf *)
    replace l with n in * by lia.
    destruct (Hleaves index Hlvl) as (nd0 & L0 & Hu).
    assert (nd0 = nd) by congruence. subst nd0.
    replace (u nd =? 0) with false by (symmetry; apply Z.eqb_neq; assumption).
    cbn [negb]. exists q, 1. split; [reflexivity|].
    repeat (split; [reflexivity|]).
    split; [apply filtered_nodes_refl|]. split; [reflexivity|].
    split.
    + exists nd. split; [assumption|]. unfold flag.
      replace (u nd =? 0) with false by (symmetry; apply Z.eqb_neq; assumption).
      reflexivity.
    + exists nd. auto.
  - destruct (Z.eqb_spec (u nd) 0) as [Hu|Hu]; cbn [negb].
    + (* a node that is not uniform *)
      destruct (IH (S l) fuel q (4 * index + 1) (sigma * alpha)%float) as
        (q1 & r1 & E1 & Ht1 & Hv1 & Hme1 & Hma1 & Hf1 & Hfr1 & (c1 & Lc1 & Hr1) & Hs1);
        try lia; auto; [apply at_level_child; [assumption | lia]|].
      pose proof Hf1 as [Hl1 _].
      destruct (IH (S l) fuel q1 (4 * index + 2) (sigma * alpha)%float) as
        (q2 & r2 & E2 & Ht2 & Hv2 & Hme2 & Hma2 & Hf2 & Hfr2 & (c2 & Lc2 & Hr2) & Hs2);
        try lia; [apply at_level_child; [assumption | lia]
                 | apply leaves_uniform_filtered with (ns := nodes q); assumption |].
      pose proof Hf2 as [Hl2 _].
      pose proof (filtered_nodes_trans _ _ _ Hf1 Hf2) as Hf12.
      destruct (IH (S l) fuel q2 (4 * index + 3) (sigma * alpha)%float) as
        (q3 & r3 & E3 & Ht3 & Hv3 & Hme3 & Hma3 & Hf3 & Hfr3 & (c3 & Lc3 & Hr3) & Hs3);
        try lia; [apply at_level_child; [assumption | lia]
                 | apply leaves_uniform_filtered with (ns := nodes q); assumption |].
      pose proof Hf3 as [Hl3 _].
      pose proof (filtered_nodes_trans _ _ _ Hf12 Hf3) as Hf123.
      destruct (IH (S l) fuel q3 (4 * index + 4) (sigma * alpha)%float) as
        (q4 & r4 & E4 & Ht4 & Hv4 & Hme4 & Hma4 & Hf4 & Hfr4 & (c4 & Lc4 & Hr4) & Hs4);
        try lia; [apply at_level_child; [assumption | lia]
                 | apply leaves_uniform_filtered with (ns := nodes q); assumption |].
      pose proof Hf4 as [Hl4 _].
      pose proof (filtered_nodes_trans _ _ _ Hf123 Hf4) as Hf1234.
      rewrite E1. cbn [mbind outcome_bind]. rewrite E2. cbn [mbind outcome_bind].
      rewrite E3. cbn [mbind outcome_bind]. rewrite E4. cbn [mbind outcome_bind].
      assert (Hsib : forall a b j, 1 <= a <= 4 -> 1 <= b <= 4 -> a <> b ->
                desc (4 * index + a) j -> ~ desc (4 * index + b) j).
      { intros a b j Ha Hb Hab. apply desc_siblings_disjoint; lia. }
      assert (Hge : forall a j, 1 <= a <= 4 -> desc (4 * index + a) j ->
                0 <= j /\ j <> index).
      { intros a j Ha Hd. apply desc_le in Hd; lia. }
      assert (Hnd : forall a, 1 <= a <= 4 -> ~ desc (4 * index + a) index).
      { intros a Ha. apply desc_not_parent; lia. }
      assert (K1 : forall j, desc (4 * index + 1) j -> load (nodes q4) j = load (nodes q1) j).
      { intros j Hd. destruct (Hge 1 j ltac:(lia) Hd).
        rewrite Hfr4, Hfr3, Hfr2; auto; apply (Hsib 1); auto; lia. }
      assert (K2 : forall j, desc (4 * index + 2) j -> load (nodes q4) j = load (nodes q2) j).
      { intros j Hd. destruct (Hge 2 j ltac:(lia) Hd).
        rewrite Hfr4, Hfr3; auto; apply (Hsib 2); auto; lia. }
      assert (K3 : forall j, desc (4 * index + 3) j -> load (nodes q4) j = load (nodes q3) j).
      { intros j Hd. destruct (Hge 3 j ltac:(lia) Hd).
        rewrite Hfr4; auto; apply (Hsib 3); auto; lia. }
      assert (Lnd4 : load (nodes q4) index = Done nd).
      { rewrite Hfr4, Hfr3, Hfr2, Hfr1; auto; try lia; apply Hnd; lia. }
      assert (Lc1' : load (nodes q4) (4 * index + 1) = Done c1)
        by (rewrite K1 by apply desc_refl; assumption).
      assert (Lc2' : load (nodes q4) (4 * index + 2) = Done c2)
        by (rewrite K2 by apply desc_refl; assumption).
      assert (Lc3' : load (nodes q4) (4 * index + 3) = Done c3)
        by (rewrite K3 by apply desc_refl; assumption).
      assert (S1 : stable alpha (nodes q4) d (4 * index + 1) (sigma * alpha)%float)
        by (apply stable_ext with (ns := nodes q1); [lia | exact K1 | exact Hs1]).
      assert (S2 : stable alpha (nodes q4) d (4 * index + 2) (sigma * alpha)%float)
        by (apply stable_ext with (ns := nodes q2); [lia | exact K2 | exact Hs2]).
      assert (S3 : stable alpha (nodes q4) d (4 * index + 3) (sigma * alpha)%float)
        by (apply stable_ext with (ns := nodes q3); [lia | exact K3 | exact Hs3]).
      assert (Hframe4 : forall j, 0 <= j -> ~ desc index j ->
                load (nodes q4) j = load (nodes q) j).
      { intros j Hj Hndj.
        rewrite Hfr4, Hfr3, Hfr2, Hfr1; auto;
          intros Hd; apply Hndj; eapply desc_of_child; try eassumption; lia. }
      rewrite Lnd4. cbn [mbind outcome_bind]. subst r1 r2 r3 r4.
      destruct ((0 + flag c1 + flag c2 + flag c3 + flag c4 <? 4)
                || (sigma <? v nd)%float) eqn:Hcond.
      * (* the node stays as it is *)
        exists q4, 0. split; [reflexivity|].
        split; [congruence|]. split; [congruence|]. split; [congruence|].
        split; [congruence|]. split; [assumption|]. split; [assumption|].
        split.
        -- exists nd. split; [assumption|]. unfold flag. rewrite Hu. reflexivity.
        -- exists nd. split; [assumption|]. right. split; [assumption|].
           repeat (split; [assumption|]).
           exists c1, c2, c3, c4. auto 10.
      * (* the node is made uniform *)
        rewrite store_in_range by lia. cbn [mbind outcome_bind].
        eexists. exists 1. split; [reflexivity|].
        cbn [set_nodes nodes total_nodes levels medvar maxvar].
        split; [congruence|]. split; [congruence|]. split; [congruence|].
        split; [congruence|].
        split.
        { apply filtered_nodes_trans with (b := nodes q4); [assumption|].
          split; [apply length_insert|].
          intros j a La. pose proof (load_range _ _ _ La) as Hj.
          destruct (Z.eq_dec j index) as [->|Hne].
          - rewrite load_insert_eq by lia. eexists. split; [reflexivity|].
            assert (a = nd) by congruence. subst a.
            unfold filtered. cbn [moyenne epsilon u v]. auto 10.
          - rewrite load_insert_ne by lia. exists a. split; [assumption|].
            apply filtered_refl. }
        split.
        { intros j Hj Hndj.
          assert (j <> index) by (intros ->; apply Hndj; apply desc_refl).
          rewrite load_insert_ne by lia. apply Hframe4; assumption. }
        split.
        { eexists. split; [apply load_insert_eq; lia|]. reflexivity. }
        { eexists. split; [apply load_insert_eq; lia|]. left.
          cbn [u]. discriminate. }
    + (* a uniform node: nothing to do *)
      exists q, 1. split; [reflexivity|].
      repeat (split; [reflexivity|]).
      split; [apply filtered_nodes_refl|]. split; [reflexivity|].
      split.
      * exists nd. split; [assumption|]. unfold flag.
        replace (u nd =? 0) with false by (symmetry; apply Z.eqb_neq; assumption).
        reflexivity.
      * exists nd. auto.
Qed.

End Filter.

(** * The claims *)

Lemma raster_2x2_valid : valid_raster 1 raster_2x2.
Proof.
  unfold valid_raster, raster_2x2. cbn [width image].
  split; [reflexivity|]. split; [reflexivity|].
  repeat constructor; lia.
Defined.

Lemma coherent_leaves_uniform (ns : list Node) (n : nat) :
  coherent ns n -> leaves_uniform n ns.
Proof.
  intros Hco j Hj. pose proof (first_index_nonneg n).
  destruct (Hco j ltac:(lia)) as [(nd & L & _ & Hleaf) _].
  exists nd. split; [assumption|]. destruct (Hleaf ltac:(lia)) as [_ Hu]. lia.
Qed.

(** C2. For every tree built from a valid raster of side [2^n] ([n] at most
    15, so that every [int] of the builder is exact), the tree has [n]
    levels below the root and [(4^(n+1) - 1) / 3] nodes, its internal nodes
    are the first [(4^n - 1) / 3], and at each of them four times the mean
    of the parent plus its epsilon is the sum of the means of the four
    children; that is, the mean is the quotient of that sum by 4 and
    epsilon its remainder. *)
Theorem built_parent_mean_epsilon (n : nat) (img : Image) (fuel : nat)
    (junk : nat -> Node) :
  valid_raster n img -> (n <= 15)%nat -> (n < fuel)%nat ->
  exists q, build_quadtree_from_image fuel img junk = Done q /\
    levels q = Z.of_nat n /\
    3 * total_nodes q + 1 = 4 ^ Z.of_nat (S n) /\
    Z.of_nat (length (nodes q)) = total_nodes q /\
    (forall i, is_leaf q i = false <-> 3 * i + 1 < 4 ^ Z.of_nat n) /\
    forall i, 0 <= i -> is_leaf q i = false ->
    exists p n1 n2 n3 n4,
      load (nodes q) i = Done p /\
      load (nodes q) (4 * i + 1) = Done n1 /\ load (nodes q) (4 * i + 2) = Done n2 /\
      load (nodes q) (4 * i + 3) = Done n3 /\ load (nodes q) (4 * i + 4) = Done n4 /\
      4 * moyenne p + epsilon p = moyenne n1 + moyenne n2 + moyenne n3 + moyenne n4 /\
      moyenne p = (moyenne n1 + moyenne n2 + moyenne n3 + moyenne n4) / 4 /\
      epsilon p = (moyenne n1 + moyenne n2 + moyenne n3 + moyenne n4) mod 4.
Proof.
  intros Hvalid _ Hfuel.
  destruct (build_valid_raster n img junk fuel Hvalid Hfuel) as
    (q & Eb & Hsh & Hco & _).
  exists q. split; [exact Eb|].
  pose proof Hsh as (Hlv & Ht & Hlen).
  pose proof (first_index_closed n) as Hcl.
  pose proof (first_index_closed (S n)) as HclS.
  split; [exact Hlv|]. split; [lia|]. split; [lia|].
  split.
  { intros i. rewrite (is_leaf_shape q n i Hsh). rewrite Z.leb_gt. lia. }
  intros i Hi Hleaf.
  rewrite (is_leaf_shape q n i Hsh) in Hleaf. apply Z.leb_gt in Hleaf.
  pose proof (first_index_mono n) as Hmono.
  destruct (Hco i ltac:(lia)) as [(p0 & L0 & Hbf & _) Hint].
  destruct (Hint Hleaf) as (p & n1 & n2 & n3 & n4 & L & L1 & L2 & L3 & L4 & Hsum & _).
  assert (p0 = p) by congruence. subst p0.
  destruct Hbf as (_ & He & _).
  exists p, n1, n2, n3, n4. repeat (split; [assumption|]).
  rewrite <- Hsum. split.
  - apply Z.div_unique with (r := epsilon p); lia.
  - apply Z.mod_unique with (q := moyenne p); lia.
Qed.

Lemma raster_4x4_valid : valid_raster 2 raster_4x4.
Proof.
  unfold valid_raster, raster_4x4. cbn [width image].
  split; [reflexivity|]. split; [reflexivity|].
  repeat constructor; lia.
Defined.

Lemma built_parent_mean_epsilon_witness :
  valid_raster 2 raster_4x4 /\ (2 <= 15)%nat /\ (2 < 3)%nat /\
  exists q, build_quadtree_from_image 3 raster_4x4 zero_nodes = Done q /\
    levels q = Z.of_nat 2 /\
    3 * total_nodes q + 1 = 4 ^ Z.of_nat 3 /\
    Z.of_nat (length (nodes q)) = total_nodes q /\
    (forall i, is_leaf q i = false <-> 3 * i + 1 < 4 ^ Z.of_nat 2) /\
    forall i, 0 <= i -> is_leaf q i = false ->
    exists p n1 n2 n3 n4,
      load (nodes q) i = Done p /\
      load (nodes q) (4 * i + 1) = Done n1 /\ load (nodes q) (4 * i + 2) = Done n2 /\
      load (nodes q) (4 * i + 3) = Done n3 /\ load (nodes q) (4 * i + 4) = Done n4 /\
      4 * moyenne p + epsilon p = moyenne n1 + moyenne n2 + moyenne n3 + moyenne n4 /\
      moyenne p = (moyenne n1 + moyenne n2 + moyenne n3 + moyenne n4) / 4 /\
      epsilon p = (moyenne n1 + moyenne n2 + moyenne n3 + moyenne n4) mod 4.
Proof.
  split; [exact raster_4x4_valid|]. split; [lia|]. split; [lia|].
  apply (built_parent_mean_epsilon 2 raster_4x4 3 zero_nodes);
    [exact raster_4x4_valid | lia | lia].
Defined.

(** The filter on a tree built from a valid raster. *)
Lemma filter_built (n : nat) (img : Image) (fuel : nat) (junk : nat -> Node)
    (alpha : float) :
  valid_raster n img -> (n < fuel)%nat ->
  exists q q1 r,
    build_quadtree_from_image fuel img junk = Done q /\
    main_filtrage fuel q alpha = Done (q1, r) /\
    total_nodes q1 = total_nodes q /\ levels q1 = levels q /\
    medvar q1 = medvar q /\ maxvar q1 = maxvar q /\
    filtered_nodes (nodes q) (nodes q1) /\
    (exists nd, load (nodes q1) 0 = Done nd /\ r = flag nd) /\
    stable alpha (nodes q1) n 0 (main_sigma q).
Proof.
  intros Hvalid Hfuel.
  destruct (build_valid_raster n img junk fuel Hvalid Hfuel) as
    (q & Eb & Hsh & Hco & _).
  destruct Hsh as (Hlv & Ht & Hlen).
  destruct (filtrage_spec alpha n n 0%nat fuel q 0 (main_sigma q)) as
    (q1 & r & E & Ht1 & Hlv1 & Hme & Hma & Hf & _ & Hr & Hst); auto.
  { apply at_level_root. }
  { apply coherent_leaves_uniform. assumption. }
  exists q, q1, r. unfold main_filtrage. auto 10.
Qed.

(** On the raster [raster_4x4] with [alpha = 1.5] the filter has work to
    do: the root (69, 1, 0) and child 3 (127, 2, 0) stay as they are, and
    child 1 goes from (10, 1, 0) to (10, 0, 1): its four pixels will be
    shown as 10. *)
Lemma filter_merges_raster_4x4 :
  exists q q1,
    build_quadtree_from_image 3 raster_4x4 zero_nodes = Done q /\
    main_filtrage 3 q 1.5%float = Done (q1, 0) /\
    map (fun nd => (moyenne nd, epsilon nd, u nd)) (take 5 (nodes q)) =
      [(69, 1, 0); (10, 1, 0); (50, 0, 1); (127, 2, 0); (90, 0, 1)] /\
    map (fun nd => (moyenne nd, epsilon nd, u nd)) (take 5 (nodes q1)) =
      [(69, 1, 0); (10, 0, 1); (50, 0, 1); (127, 2, 0); (90, 0, 1)].
Proof.
  do 2 eexists. split; [vm_compute; reflexivity|].
  split; [vm_compute; reflexivity|]. split; reflexivity.
Qed.

(** C4. For every tree built from a valid raster of side [2^n] ([n] at most
    15) and every alpha, applying the filter a second time with the same
    alpha returns the tree of the first application, node for node, and
    the same flag. *)
Theorem filter_idempotent (n : nat) (img : Image) (fuel : nat) (junk : nat -> Node)
    (alpha : float) :
  valid_raster n img -> (n <= 15)%nat -> (n < fuel)%nat ->
  exists q q1 r,
    build_quadtree_from_image fuel img junk = Done q /\
    main_filtrage fuel q alpha = Done (q1, r) /\
    main_filtrage fuel q1 alpha = Done (q1, r).
Proof.
  intros Hvalid _ Hfuel.
  destruct (filter_built n img fuel junk alpha Hvalid Hfuel) as
    (q & q1 & r & Eb & E & _ & _ & Hme & Hma & _ & (nd & L & ->) & Hst).
  exists q, q1, (flag nd). split; [exact Eb|]. split; [exact E|].
  destruct (stable_filtrage alpha q1 n fuel 0 (main_sigma q) Hfuel Hst) as
    (nd' & L' & E').
  assert (nd' = nd) by congruence. subst nd'.
  unfold main_filtrage, main_sigma in *. rewrite Hme, Hma. exact E'.
Qed.

Lemma filter_idempotent_witness :
  valid_raster 2 raster_4x4 /\ (2 <= 15)%nat /\ (2 < 3)%nat /\
  exists q q1 r,
    build_quadtree_from_image 3 raster_4x4 zero_nodes = Done q /\
    main_filtrage 3 q 1.5%float = Done (q1, r) /\
    main_filtrage 3 q1 1.5%float = Done (q1, r).
Proof.
  split; [exact raster_4x4_valid|]. split; [lia|]. split; [lia|].
  apply (filter_idempotent 2 raster_4x4 3 zero_nodes 1.5%float);
    [exact raster_4x4_valid | lia | lia].
Defined.

(** C9. For every tree built from a valid raster of side [2^n] ([n] at most
    15) and every alpha, the filter keeps the number of nodes, the levels
    and the two variance scalars of the tree; at every node it keeps the
    mean and the variance, and either leaves the node as it is or turns a
    node with [u = 0] into one with [u = 1] and [epsilon = 0]. *)
Theorem filter_frame (n : nat) (img : Image) (fuel : nat) (junk : nat -> Node)
    (alpha : float) :
  valid_raster n img -> (n <= 15)%nat -> (n < fuel)%nat ->
  exists q q1 r,
    build_quadtree_from_image fuel img junk = Done q /\
    main_filtrage fuel q alpha = Done (q1, r) /\
    length (nodes q1) = length (nodes q) /\
    total_nodes q1 = total_nodes q /\ levels q1 = levels q /\
    medvar q1 = medvar q /\ maxvar q1 = maxvar q /\
    forall j nd, load (nodes q) j = Done nd ->
      exists nd', load (nodes q1) j = Done nd' /\
        moyenne nd' = moyenne nd /\ v nd' = v nd /\
        (nd' = nd \/ (u nd = 0 /\ u nd' = 1 /\ epsilon nd' = 0)).
Proof.
  intros Hvalid _ Hfuel.
  destruct (filter_built n img fuel junk alpha Hvalid Hfuel) as
    (q & q1 & r & Eb & E & Ht & Hlv & Hme & Hma & [Hlen Hf] & _ & _).
  exists q, q1, r. repeat (split; [assumption|]). exact Hf.
Qed.

Lemma filter_frame_witness :
  valid_raster 2 raster_4x4 /\ (2 <= 15)%nat /\ (2 < 3)%nat /\
  exists q q1 r,
    build_quadtree_from_image 3 raster_4x4 zero_nodes = Done q /\
    main_filtrage 3 q 1.5%float = Done (q1, r) /\
    length (nodes q1) = length (nodes q) /\
    total_nodes q1 = total_nodes q /\ levels q1 = levels q /\
    medvar q1 = medvar q /\ maxvar q1 = maxvar q /\
    forall j nd, load (nodes q) j = Done nd ->
      exists nd', load (nodes q1) j = Done nd' /\
        moyenne nd' = moyenne nd /\ v nd' = v nd /\
        (nd' = nd \/ (u nd = 0 /\ u nd' = 1 /\ epsilon nd' = 0)).
Proof.
  split; [exact raster_4x4_valid|]. split; [lia|]. split; [lia|].
  apply (filter_frame 2 raster_4x4 3 zero_nodes 1.5%float);
    [exact raster_4x4_valid | lia | lia].
Defined.

(** C10. For every quadtree with the shape of [n] levels ([n] at most 15,
    so that [width * width] is an [int]), whatever the image block holds
    when it is allocated, the painter returns an image of side [2^n] and of
    [4^n] pixels in which the pixel [(x, y)] is the mean of the leaf
    [leaf_index n 0 x y], the one the quadrants of the recursion lead to.
    Two pixels come from two leaves and every leaf gives a pixel: the leaf
    quadrants tile the image, and no pixel is left as allocated. *)
Theorem painter_covers_image (q : Quadtree) (n : nat) (fuel : nat)
    (junk1 junk2 : nat -> Z) :
  shape q n -> (n <= 15)%nat -> (n < fuel)%nat ->
  exists im1 im2,
    build_image_from_quadtree fuel q junk1 = Done im1 /\
    build_image_from_quadtree fuel q junk2 = Done im2 /\
    image im1 = image im2 /\
    width im1 = 2 ^ Z.of_nat n /\
    Z.of_nat (length (image im1)) = 4 ^ Z.of_nat n /\
    (forall x y, 0 <= x < 2 ^ Z.of_nat n -> 0 <= y < 2 ^ Z.of_nat n ->
       exists nd,
         is_leaf q (leaf_index n 0 x y) = true /\
         0 <= leaf_index n 0 x y < total_nodes q /\
         load (nodes q) (leaf_index n 0 x y) = Done nd /\
         load (image im1) (y * 2 ^ Z.of_nat n + x) = Done (moyenne nd)) /\
    (forall x y x' y',
       0 <= x < 2 ^ Z.of_nat n -> 0 <= y < 2 ^ Z.of_nat n ->
       0 <= x' < 2 ^ Z.of_nat n -> 0 <= y' < 2 ^ Z.of_nat n ->
       leaf_index n 0 x y = leaf_index n 0 x' y' -> x = x' /\ y = y') /\
    (forall j, 0 <= j < total_nodes q -> is_leaf q j = true ->
       exists x y, 0 <= x < 2 ^ Z.of_nat n /\ 0 <= y < 2 ^ Z.of_nat n /\
         leaf_index n 0 x y = j).
Proof.
  intros Hsh _ Hfuel. pose proof (pow2_pos n) as Hp.
  destruct (build_image_from_quadtree_spec q n fuel junk1 Hsh Hfuel) as
    (im1 & E1 & Hw1 & Hl1 & P1).
  destruct (build_image_from_quadtree_spec q n fuel junk2 Hsh Hfuel) as
    (im2 & E2 & Hw2 & Hl2 & P2).
  assert (H4 : 4 ^ Z.of_nat n = 2 ^ Z.of_nat n * 2 ^ Z.of_nat n).
  { change 4 with (2 * 2). apply Z.pow_mul_l. }
  pose proof Hsh as (Hlv & Ht & Hlen).
  pose proof (first_index_nonneg n) as Hf0.
  exists im1, im2. split; [exact E1|]. split; [exact E2|].
  split.
  { apply image_ext with (w := 2 ^ Z.of_nat n); auto.
    intros x y Hx Hy. rewrite P1, P2 by assumption. reflexivity. }
  split; [exact Hw1|]. split; [lia|].
  split; [|split].
  - intros x y Hx Hy.
    set (j := leaf_index n 0 x y).
    pose proof (leaf_index_level n 0%nat 0 x y at_level_root) as Hlvl.
    fold j in Hlvl. cbn [Nat.add] in Hlvl. pose proof Hlvl as [Hj1 Hj2].
    destruct (load_in_range (nodes q) j ltac:(lia)) as [nd Lnd].
    exists nd.
    split; [rewrite (is_leaf_shape q n j Hsh); apply Z.leb_le; lia|].
    split; [lia|]. split; [exact Lnd|].
    rewrite P1 by assumption. fold j. unfold node_moyenne. rewrite Lnd. reflexivity.
  - intros x y x' y' Hx Hy Hx' Hy' E.
    apply (leaf_index_inj n 0 x y x' y'); assumption.
  - intros j Hj Hleaf.
    rewrite (is_leaf_shape q n j Hsh) in Hleaf. apply Z.leb_le in Hleaf.
    apply (leaf_index_surj n 0 j). rewrite Ht, first_index_succ in Hj. lia.
Qed.

Lemma painter_covers_image_witness :
  shape tree_2x2 1 /\ (1 <= 15)%nat /\ (1 < 2)%nat /\
  exists im1 im2,
    build_image_from_quadtree 2 tree_2x2 zero_bytes = Done im1 /\
    build_image_from_quadtree 2 tree_2x2 (fun _ => 255) = Done im2 /\
    image im1 = image im2 /\
    width im1 = 2 ^ Z.of_nat 1 /\
    Z.of_nat (length (image im1)) = 4 ^ Z.of_nat 1 /\
    (forall x y, 0 <= x < 2 ^ Z.of_nat 1 -> 0 <= y < 2 ^ Z.of_nat 1 ->
       exists nd,
         is_leaf tree_2x2 (leaf_index 1 0 x y) = true /\
         0 <= leaf_index 1 0 x y < total_nodes tree_2x2 /\
         load (nodes tree_2x2) (leaf_index 1 0 x y) = Done nd /\
         load (image im1) (y * 2 ^ Z.of_nat 1 + x) = Done (moyenne nd)) /\
    (forall x y x' y',
       0 <= x < 2 ^ Z.of_nat 1 -> 0 <= y < 2 ^ Z.of_nat 1 ->
       0 <= x' < 2 ^ Z.of_nat 1 -> 0 <= y' < 2 ^ Z.of_nat 1 ->
       leaf_index 1 0 x y = leaf_index 1 0 x' y' -> x = x' /\ y = y') /\
    (forall j, 0 <= j < total_nodes tree_2x2 -> is_leaf tree_2x2 j = true ->
       exists x y, 0 <= x < 2 ^ Z.of_nat 1 /\ 0 <= y < 2 ^ Z.of_nat 1 /\
         leaf_index 1 0 x y = j).
Proof.
  assert (Hsh : shape tree_2x2 1)
    by (unfold shape; repeat split; reflexivity).
  split; [exact Hsh|]. split; [lia|]. split; [lia|].
  apply (painter_covers_image tree_2x2 1 2 zero_bytes (fun _ => 255));
    [exact Hsh | lia | lia].
Defined.

(** The painter on [tree_2x2]: the four means, in the order of the rows. *)
Lemma painter_tree_2x2 :
  exists im, build_image_from_quadtree 2 tree_2x2 (fun _ => 255) = Done im /\
    image im = [10; 20; 40; 30].
Proof. eexists. split; [vm_compute; reflexivity | reflexivity]. Qed.

(** ** Uniform rasters *)

Lemma parent_node_uniform (c : Z) :
  0 <= c < 256 ->
  parent_node (leaf_node c) (leaf_node c) (leaf_node c) (leaf_node c) = leaf_node c.
Proof.
  intros Hc. unfold parent_node, leaf_node. cbn [moyenne epsilon u v].
  assert (Hm : byte_of (Z.quot (c + c + c + c) 4) = c).
  { rewrite Z.quot_div_nonneg by lia. replace (c + c + c + c) with (c * 4) by lia.
    rewrite Z.div_mul by lia. apply Z.mod_small. lia. }
  assert (He : byte_of (Z.rem (c + c + c + c) 4) = 0).
  { rewrite Z.rem_mod_nonneg by lia. replace (c + c + c + c) with (c * 4) by lia.
    rewrite Z.mod_mul by lia. reflexivity. }
  rewrite Hm, He, !Z.eqb_refl. unfold variance_term.
  cbn [fold_left moyenne v andb]. rewrite Z.sub_diag. reflexivity.
Qed.

(** In a tree built from a raster whose pixels all have the value [c], every
    node is a uniform node of mean [c] and of variance zero. *)
Lemma built_uniform (img : Image) (ns : list Node) (c : Z) (d : nat) :
  0 <= c < 256 -> Forall (fun p => p = c) (image img) ->
  forall size i x y, built img ns d size i x y ->
  load ns i = Done (leaf_node c) /\
  vars_after ns d i (0%float, 0%float) = (0%float, 0%float).
Proof.
  intros Hc Hall. induction d as [|d IH]; intros size i x y Hb; cbn [built] in Hb.
  - destruct Hb as (pixel & Hp & Hn). split; [|reflexivity].
    apply load_Done in Hp. destruct Hp as [_ Hp].
    pose proof (Forall_lookup_1 _ _ _ _ Hall Hp) as Hpc. simpl in Hpc.
    subst pixel. exact Hn.
  - destruct Hb as (H1 & H2 & H3 & H4 & n1 & n2 & n3 & n4 & L1 & L2 & L3 & L4 & L).
    destruct (IH _ _ _ _ H1) as [R1 V1]. destruct (IH _ _ _ _ H2) as [R2 V2].
    destruct (IH _ _ _ _ H3) as [R3 V3]. destruct (IH _ _ _ _ H4) as [R4 V4].
    assert (n1 = leaf_node c) by congruence. assert (n2 = leaf_node c) by congruence.
    assert (n3 = leaf_node c) by congruence. assert (n4 = leaf_node c) by congruence.
    subst n1 n2 n3 n4. rewrite parent_node_uniform in L by assumption.
    split; [exact L|].
    cbn [vars_after]. rewrite V1, V2, V3, V4, L. reflexivity.
Qed.

(** Dividing zero by anything and the result by zero is not a number. *)
Lemma zero_ratio_is_nan (x : float) : is_nan ((0 / x) / 0)%float = true.
Proof.
  unfold is_nan. rewrite FloatAxioms.eqb_spec, !FloatAxioms.div_spec.
  change (Prim2SF 0%float) with (S754_zero false).
  destruct (Prim2SF x) as [s|s| |s m e]; reflexivity.
Qed.

(** C8, as stated, fails: on the uniform 2x2 raster the maximal variance is
    zero and the threshold [medvar / maxvar] handed to the filter is not 0
    but the quotient 0/0, which is not a number. *)
Lemma uniform_sigma_is_not_zero :
  exists q, build_quadtree_from_image 2 raster_uniform_2x2 zero_nodes = Done q /\
    maxvar q = 0%float /\
    PrimFloat.eqb (main_sigma q) 0%float = false /\
    is_nan (main_sigma q) = true.
Proof.
  eexists. split; [vm_compute; reflexivity|].
  split; [reflexivity|]. split; reflexivity.
Qed.

(** C8, amended. For every tree built from a uniform raster of side [2^n]
    ([n] at most 15) and every alpha, the maximal variance is zero, the
    threshold [medvar / maxvar] handed to the filter is not a number, and
    the filter returns 1 at the root at once and leaves the tree as it
    is. *)
Theorem uniform_filter_noop (n : nat) (img : Image) (c : Z) (fuel : nat)
    (junk : nat -> Node) (alpha : float) :
  valid_raster n img -> Forall (fun p => p = c) (image img) ->
  (n <= 15)%nat -> (n < fuel)%nat ->
  exists q, build_quadtree_from_image fuel img junk = Done q /\
    maxvar q = 0%float /\
    is_nan (main_sigma q) = true /\
    main_filtrage fuel q alpha = Done (q, 1).
Proof.
  intros Hvalid Hall _ Hfuel. pose proof Hvalid as (Hw & Hlen & Hpx).
  pose proof (pow2_pos n) as Hp.
  assert (Hc : 0 <= c < 256).
  { destruct (image img) as [|p0 rest] eqn:E; [simpl in Hlen; nia|].
    inversion Hall; subst. inversion Hpx; subst. assumption. }
  assert (Hlog : Z.to_nat (Z.log2 (width img)) = n).
  { rewrite Hw, Z.log2_pow2 by lia. apply Nat2Z.id. }
  destruct (build_quadtree_from_image_spec img junk fuel) as
    (q & E & Hsh & Hb & Hmax & Hmed); try lia.
  rewrite Hlog in *.
  destruct (built_uniform img (nodes q) c n Hc Hall _ _ _ _ Hb) as [Hroot Hv].
  rewrite Hv in Hmax, Hmed. cbn [fst snd] in Hmax, Hmed.
  exists q. split; [exact E|]. split; [exact Hmax|].
  split.
  - unfold main_sigma. rewrite Hmax, Hmed. apply zero_ratio_is_nan.
  - unfold main_filtrage. destruct fuel as [|fuel]; [lia|].
    cbn [filtrage]. rewrite Hroot. reflexivity.
Qed.

Lemma uniform_filter_noop_witness :
  valid_raster 1 raster_uniform_2x2 /\
  Forall (fun p => p = 10) (image raster_uniform_2x2) /\
  (1 <= 15)%nat /\ (1 < 2)%nat /\
  exists q, build_quadtree_from_image 2 raster_uniform_2x2 zero_nodes = Done q /\
    maxvar q = 0%float /\
    is_nan (main_sigma q) = true /\
    main_filtrage 2 q 1.5%float = Done (q, 1).
Proof.
  assert (Hv : valid_raster 1 raster_uniform_2x2).
  { unfold valid_raster, raster_uniform_2x2. cbn [width image].
    split; [reflexivity|]. split; [reflexivity|]. repeat constructor; lia. }
  assert (Hu : Forall (fun p => p = 10) (image raster_uniform_2x2))
    by (repeat constructor).
  split; [exact Hv|]. split; [exact Hu|]. split; [lia|]. split; [lia|].
  apply (uniform_filter_noop 1 raster_uniform_2x2 10 2 zero_nodes 1.5%float);
    [exact Hv | exact Hu | lia | lia].
Defined.

(** ** The bit stream, written then read *)

Lemma pull_fields_spec (fs : list (Z * Z)) :
  forall s, widths_ok fs -> cursor_ok s ->
  spells (buf s) (rpos s) fs ->
  rpos s + bits_len fs <= 8 * Z.of_nat (length (buf s)) ->
  exists s', pull_fields (map snd fs) s =
    Done (s', map (fun f => fst f mod 2 ^ snd f) fs).
Proof.
  induction fs as [|[val w] fs IH]; intros s Hw [Hc Hp] Hsp Hlen.
  - exists s. reflexivity.
  - inversion Hw as [|? ? Hw1 Hw2]; subst. simpl in Hw1.
    pose proof (bits_len_nonneg fs Hw2) as Hnn.
    cbn [bits_len] in Hlen. destruct Hsp as [Hbits Hrest].
    destruct (read_n_bits_value s w val) as (s1 & E1 & Hb1 & _ & Hc1 & Hp1 & Hr1);
      auto; try lia.
    destruct (IH s1) as (s' & E'); auto.
    { split; assumption. }
    { rewrite Hb1, Hr1. assumption. }
    { rewrite Hb1, Hr1. lia. }
    exists s'. cbn [map pull_fields snd fst]. rewrite E1. cbn [mbind outcome_bind].
    rewrite E'. reflexivity.
Qed.

(** C3, as stated, fails: the stream has one counter [capa] for both
    cursors, so a pull that follows a push without [finishBitStream] does
    not return what was pushed.  After pushing the three bits of 7, pulling
    three bits reads bits 4 to 2 of the first byte, which were never
    written; after pushing the bytes 255 and 0, pulling eight bits returns
    the second byte. *)
Lemma pull_after_push_differs :
  (exists s1 s2 r, push_n_bits (initBitStream 4 zero_bytes) 7 3 = Done s1 /\
     read_n_bits s1 3 = Done (s2, r) /\ r <> 7 mod 2 ^ 3) /\
  (exists s1 s2 s3 r, push_n_bits (initBitStream 4 zero_bytes) 255 8 = Done s1 /\
     push_n_bits s1 0 8 = Done s2 /\
     read_n_bits s2 8 = Done (s3, r) /\ r <> 255 mod 2 ^ 8).
Proof.
  split.
  - do 3 eexists. split; [vm_compute; reflexivity|].
    split; [vm_compute; reflexivity|]. discriminate.
  - do 4 eexists. split; [vm_compute; reflexivity|].
    split; [vm_compute; reflexivity|].
    split; [vm_compute; reflexivity|]. discriminate.
Qed.

(** C3, amended. For every sequence of fields of 1 to 8 bits pushed onto a
    fresh stream that has room for them, once [finishBitStream] has been
    called, pulling the same widths in the same order returns the low bits
    of each value pushed, wherever the fields fall with respect to the byte
    boundaries and whatever the block held when it was allocated. *)
Theorem push_finish_pull_roundtrip (fs : list (Z * Z)) (size : Z) (junk : nat -> Z) :
  widths_ok fs -> bits_len fs <= 8 * size ->
  exists s1 s2 s3,
    push_fields fs (initBitStream size junk) = Done s1 /\
    finishBitStream s1 = Done s2 /\
    pull_fields (map snd fs) s2 = Done (s3, map (fun f => fst f mod 2 ^ snd f) fs).
Proof.
  intros Hw Hroom. pose proof (bits_len_nonneg fs Hw) as Hnn.
  set (s0 := initBitStream size junk).
  assert (Hl0 : Z.of_nat (length (buf s0)) = size).
  { subst s0. cbn [initBitStream buf]. rewrite length_malloc. lia. }
  assert (Hw0 : wpos s0 = 0) by reflexivity.
  assert (Hc0 : capa_ok s0) by (unfold capa_ok; change (capa s0) with 8; lia).
  assert (Hp0 : 0 <= ptr s0) by (change (ptr s0) with 0; lia).
  destruct (push_fields_spec fs s0) as
    (s1 & E1 & Hl1 & Hst1 & Hc1 & Hp1 & Hwp1 & Hsp1 & _); auto.
  { rewrite Hw0, Hl0. lia. }
  destruct (finishBitStream_spec s1) as
    (s2 & E2 & Hl2 & Hst2 & Hc2 & Hp2 & Hwp2 & Hfr2); auto.
  { rewrite Hwp1, Hl1, Hw0, Hl0. lia. }
  assert (Hstart : start s2 = 0) by (rewrite Hst2, Hst1; reflexivity).
  assert (Hr : rpos s2 = 0) by (unfold rpos; lia).
  destruct (pull_fields_spec fs s2) as (s3 & E3); auto.
  { unfold cursor_ok, capa_ok. lia. }
  { rewrite Hr. apply spells_ext with (m := buf s1); auto; try lia.
    intros k Hk. apply Hfr2. lia. }
  { rewrite Hr, Hl2, Hl1, Hl0. lia. }
  exists s1, s2, s3. auto.
Qed.

Lemma push_finish_pull_roundtrip_witness :
  widths_ok [(5, 3); (255, 8); (2, 2)] /\
  bits_len [(5, 3); (255, 8); (2, 2)] <= 8 * 2 /\
  exists s1 s2 s3,
    push_fields [(5, 3); (255, 8); (2, 2)] (initBitStream 2 zero_bytes) = Done s1 /\
    finishBitStream s1 = Done s2 /\
    pull_fields (map snd [(5, 3); (255, 8); (2, 2)]) s2 =
      Done (s3, map (fun f => fst f mod 2 ^ snd f) [(5, 3); (255, 8); (2, 2)]).
Proof.
  assert (Hw : widths_ok [(5, 3); (255, 8); (2, 2)])
    by (repeat constructor; simpl; lia).
  split; [exact Hw|]. split; [simpl; lia|].
  apply (push_finish_pull_roundtrip [(5, 3); (255, 8); (2, 2)] 2 zero_bytes);
    [exact Hw | simpl; lia].
Defined.

(** ** The single-pixel image *)

Lemma raster_1x1_valid : valid_raster 0 raster_1x1.
Proof.
  unfold valid_raster, raster_1x1. cbn [width image].
  split; [reflexivity|]. split; [reflexivity|]. repeat constructor; lia.
Defined.

(** C1 (the code departs from it on the 1x1 raster).  The tree of a 1x1
    raster has one node, so [encode] allocates two bytes; it then writes
    the header byte, the eight bits of the mean, and the two bits of
    epsilon, which fall in a third byte: the write is outside the block. *)
Theorem encode_single_pixel_overflows (junkN : nat -> Node) (junkB : nat -> Z) :
  exists q, build_quadtree_from_image 1 raster_1x1 junkN = Done q /\
    total_nodes q = 1 /\
    encode q junkB = Undefined.
Proof.
  eexists. split; [reflexivity|]. split; reflexivity.
Qed.

(** C6 (the code departs from it).  For the 1x1 raster [128] the stream of
    [encode] has the two bytes of the claim, [total_nodes * 2], and the
    header byte and the eight bits of the mean fill them with 00 and
    10000000.  But [encode] writes the root as a node, not as a leaf: the
    two bits of epsilon that follow go to a third byte, which the block
    does not have.  There is no output to finish or to decode. *)
Theorem encode_single_pixel_third_byte (junkN : nat -> Node) (junkB : nat -> Z) :
  exists q s2,
    build_quadtree_from_image 1 raster_1x1 junkN = Done q /\
    levels q = 0 /\ total_nodes q = 1 /\
    load (nodes q) 0 = Done (leaf_node 128) /\
    Z.of_nat (length (buf (initBitStream (total_nodes q * 2) junkB))) = 2 /\
    push_fields [(levels q, 8); (128, 8)] (initBitStream (total_nodes q * 2) junkB)
      = Done s2 /\
    spells (buf s2) 0 [(0, 8); (128, 8)] /\
    wpos s2 = 8 * Z.of_nat (length (buf s2)) /\
    push_n_bits s2 0 2 = Undefined /\
    encode q junkB = Undefined /\
    ~ (exists s, encode q junkB = Done s /\ stream_bytes s = [0; 128]).
Proof.
  eexists. 
  destruct (push_fields_spec [(0, 8); (128, 8)] (initBitStream 2 junkB)) as
    (s2 & E & Hl & _ & Hc & Hp & Hw & Hsp & _).
  { repeat constructor; simpl; lia. }
  { unfold capa_ok. cbn [initBitStream capa]. unfold CHAR_BIT. lia. }
  { cbn [initBitStream ptr]. lia. }
  { cbn [initBitStream buf bits_len]. rewrite length_malloc. reflexivity. }
  exists s2.
  split; [reflexivity|]. split; [reflexivity|]. split; [reflexivity|].
  split; [reflexivity|]. split; [reflexivity|].
  split; [exact E|]. split; [exact Hsp|].
  assert (Hlen : Z.of_nat (length (buf s2)) = 2).
  { rewrite Hl. cbn [initBitStream buf]. rewrite length_malloc. reflexivity. }
  assert (Hw16 : wpos s2 = 16) by (rewrite Hw; reflexivity).
  split; [lia|].
  split.
  { unfold wpos in Hw16. unfold capa_ok in Hc.
    unfold push_n_bits, pushbits. change (Z.to_nat (size_t_of 2)) with 2%nat.
    cbn [pushbits_loop]. unfold pushbits_step.
    assert (Hpast : load (buf s2) (if capa s2 =? 0 then ptr s2 + 1 else ptr s2)
                    = Undefined).
    { unfold load.
      destruct (Z.eqb_spec (capa s2) 0).
      - replace (ptr s2 + 1 <? 0) with false by (symmetry; apply Z.ltb_ge; lia).
        rewrite (lookup_ge_None_2 (buf s2)) by lia. reflexivity.
      - replace (ptr s2 <? 0) with false by (symmetry; apply Z.ltb_ge; lia).
        rewrite (lookup_ge_None_2 (buf s2)) by lia. reflexivity. }
    rewrite Hpast. reflexivity. }
  split; [reflexivity|].
  intros (s & Es & _). vm_compute in Es. discriminate.
Qed.

(** ** Rasters whose side is not a power of two *)

(** C7, as stated, fails: 3 is not a power of two, and for a raster of
    width 3 the builder returns a tree, of five nodes. *)
Lemma builder_accepts_width_3 :
  (forall k : nat, 3 <> 2 ^ Z.of_nat k) /\
  exists q, build_quadtree_from_image 2 raster_3x3 zero_nodes = Done q /\
    levels q = 1 /\ total_nodes q = 5.
Proof.
  split.
  - intros [|[|k]] H; try discriminate.
    rewrite !pow2_succ in H. pose proof (pow2_pos k). lia.
  - eexists. split; [vm_compute; reflexivity|]. split; reflexivity.
Qed.

(** C7, amended. The builder does not check the dimensions: for every raster
    of positive width [w] that holds at least [w * w] pixels, [w * w] being
    an [int], whether [w] is a power of two or not, it returns a tree,
    whose number of levels below the root is the integer part of the
    binary logarithm of [w] (at most 15). *)
Theorem builder_checks_no_dimension (img : Image) (fuel : nat) (junk : nat -> Node) :
  0 < width img ->
  width img * width img < 2 ^ 31 ->
  width img * width img <= Z.of_nat (length (image img)) ->
  (Z.to_nat (Z.log2 (width img)) < fuel)%nat ->
  exists q, build_quadtree_from_image fuel img junk = Done q /\
    levels q = Z.log2 (width img) /\
    levels q <= 15 /\
    shape q (Z.to_nat (Z.log2 (width img))).
Proof.
  intros Hw Hint Hsq Hfuel.
  destruct (build_quadtree_from_image_spec img junk fuel Hw Hsq Hfuel) as
    (q & E & Hsh & _).
  pose proof (Z.log2_nonneg (width img)) as Hnn.
  assert (Hlv : levels q = Z.log2 (width img)).
  { destruct Hsh as (Hlv & _). rewrite Hlv. lia. }
  exists q. split; [exact E|]. split; [exact Hlv|]. split; [|exact Hsh].
  rewrite Hlv.
  assert (Hlt : width img < 2 ^ 16).
  { destruct (Z.lt_ge_cases (width img) (2 ^ 16)) as [?|Hge]; [assumption|].
    exfalso. assert (2 ^ 16 * 2 ^ 16 <= width img * width img) by nia. lia. }
  apply Z.log2_lt_pow2 in Hlt; lia.
Qed.

Lemma builder_checks_no_dimension_witness :
  0 < width raster_3x3 /\
  width raster_3x3 * width raster_3x3 < 2 ^ 31 /\
  width raster_3x3 * width raster_3x3 <= Z.of_nat (length (image raster_3x3)) /\
  (Z.to_nat (Z.log2 (width raster_3x3)) < 2)%nat /\
  exists q, build_quadtree_from_image 2 raster_3x3 zero_nodes = Done q /\
    levels q = Z.log2 (width raster_3x3) /\
    levels q <= 15 /\
    shape q (Z.to_nat (Z.log2 (width raster_3x3))).
Proof.
  split; [reflexivity|]. split; [reflexivity|]. split; [vm_compute; discriminate|].
  split; [vm_compute; lia|].
  apply (builder_checks_no_dimension raster_3x3 2 zero_nodes);
    [reflexivity | reflexivity | vm_compute; discriminate | vm_compute; lia].
Defined.

(** ** Streams that are too short *)

Lemma bind_no_exit {A B} (m : outcome A) (f : A -> outcome B) :
  m <> ExitFailure -> (forall a, f a <> ExitFailure) -> m ≫= f <> ExitFailure.
Proof. intros Hm Hf. destruct m; simpl; auto. Qed.

Lemma load_no_exit {A} (l : list A) (i : Z) : load l i <> ExitFailure.
Proof.
  unfold load. destruct (i <? 0); [discriminate|].
  destruct (l !! Z.to_nat i); discriminate.
Qed.

Lemma store_no_exit {A} (l : list A) (i : Z) (a : A) : store l i a <> ExitFailure.
Proof.
  unfold store. destruct (i <? 0); [discriminate|].
  destruct (i <? Z.of_nat (length l)); discriminate.
Qed.

Ltac no_exit :=
  repeat first
    [ apply read_n_bits_never_exits
    | apply load_no_exit
    | apply store_no_exit
    | apply bind_no_exit
    | discriminate
    | match goal with
      | |- forall _ : _ * _, _ => intros [? ?]
      | |- forall _, _ => intro
      | |- (if ?b then _ else _) <> _ => destruct b
      end ].

Lemma decode_step_no_exit (i : Z) (st : BitStream * Quadtree) :
  decode_step i st <> ExitFailure.
Proof.
  destruct st as [s q]. rewrite decode_step_node.
  unfold decode_node, interpolation_4th_child, read_node, read_leaf.
  no_exit.
Qed.

Lemma decode_loop_no_exit (k : nat) :
  forall i st, decode_loop k i st <> ExitFailure.
Proof.
  induction k as [|k IH]; intros i st; cbn [decode_loop]; [discriminate|].
  apply bind_no_exit; [apply decode_step_no_exit | intro; apply IH].
Qed.

(** Whatever the stream, the decoder never leaves through the error exit of
    [read_n_bits]. *)
Lemma decode_never_exits (s : BitStream) (junk : nat -> Node) :
  decode s junk <> ExitFailure.
Proof.
  unfold decode. apply bind_no_exit; [apply read_n_bits_never_exits|].
  intros [s1 lv]. apply decode_loop_no_exit.
Qed.

(** C5 (the code departs from it).  A file whose payload, after the line
    [Q1], is the one byte 00 announces a tree of one node and stops: the
    stream has no bit left for the root.  [read_n_bits] does not fail; it
    reads the byte after the end of the block, and so does the decoder. *)
Theorem decode_truncated_stream :
  exists s s1,
    read_bitstream_from_file_Q1 (fopen [81; 49; 10; 0]) zero_bytes = Done s /\
    buf s = [0] /\
    BitStream_size s = 8 /\
    read_n_bits s 8 = Done (s1, 0) /\
    read_n_bits s1 8 = Undefined /\
    decode s zero_nodes = Undefined.
Proof.
  do 2 eexists. split; [vm_compute; reflexivity|].
  split; [reflexivity|]. split; [reflexivity|]. split; [vm_compute; reflexivity|].
  split; reflexivity.
Qed.

(** * Further properties *)

(** ** bit.c: single bits *)

(** X1. [setbit] then [getbit]: the bit that was set is read back, the other
    bits of the byte are as before, and the result is a byte. *)
Theorem getbit_setbit (byte b valb : Z) :
  0 <= b < 8 ->
  getbit (setbit byte b valb) b = (if valb =? 0 then 0 else 1) /\
  (forall j, 0 <= j < 8 -> j <> b ->
     getbit (setbit byte b valb) j = getbit byte j) /\
  0 <= setbit byte b valb < 256.
Proof.
  intros Hb. split; [|split].
  - rewrite getbit_b2z by lia. rewrite testbit_setbit by lia.
    rewrite Z.eqb_refl. destruct (valb =? 0); reflexivity.
  - intros j Hj Hne. rewrite !getbit_b2z by lia.
    rewrite testbit_setbit by lia.
    destruct (Z.eqb_spec j b); [contradiction | reflexivity].
  - apply setbit_range.
Qed.

Lemma getbit_setbit_witness :
  0 <= 3 < 8 /\
  getbit (setbit 0 3 1) 3 = (if 1 =? 0 then 0 else 1) /\
  (forall j, 0 <= j < 8 -> j <> 3 -> getbit (setbit 0 3 1) j = getbit 0 j) /\
  0 <= setbit 0 3 1 < 256.
Proof.
  split; [lia|]. apply (getbit_setbit 0 3 1). lia.
Defined.

(** ** bit.c: what a push leaves alone *)

Lemma pushbits_step_bytes (src nbit i : Z) (s s' : BitStream) :
  pushbits_step src nbit i s = Done s' -> bytes_ok (buf s) -> bytes_ok (buf s').
Proof.
  unfold pushbits_step. intros H Hb.
  apply bind_Done in H as (byte & _ & H).
  apply bind_Done in H as (buf' & Hst & H).
  inversion H; subst; clear H. cbn [buf].
  apply store_Done in Hst as [_ ->].
  apply Forall_insert; [exact Hb | apply setbit_range].
Qed.

Lemma pushbits_loop_bytes (k : nat) (src nbit : Z) :
  forall (i : Z) (s s' : BitStream) (bw w : Z),
  pushbits_loop k src nbit i s bw = Done (s', w) ->
  bytes_ok (buf s) -> bytes_ok (buf s').
Proof.
  induction k as [|k IH]; intros i s s' bw w H Hb; simpl in H.
  - inversion H; subst. exact Hb.
  - apply bind_Done in H as (s1 & H1 & H).
    eapply IH; [exact H|]. eapply pushbits_step_bytes; eauto.
Qed.

Lemma push_n_bits_bytes (s s' : BitStream) (src n : Z) :
  push_n_bits s src n = Done s' -> bytes_ok (buf s) -> bytes_ok (buf s').
Proof.
  unfold push_n_bits, pushbits. intros H Hb.
  apply bind_Done in H as ([s1 w] & H1 & H).
  destruct (w =? size_t_of n); [|discriminate]. inversion H; subst.
  eapply pushbits_loop_bytes; eauto.
Qed.

Lemma pushbits_loop_after (k : nat) (src nbit : Z) :
  forall (i : Z) (s s' : BitStream) (bw w : Z),
  Z.of_nat k = nbit - i -> 0 <= i -> capa_ok s -> 0 <= ptr s ->
  wpos s + Z.of_nat k <= 8 * Z.of_nat (length (buf s)) ->
  pushbits_loop k src nbit i s bw = Done (s', w) ->
  forall p, wpos s + Z.of_nat k <= p -> sbit (buf s') p = sbit (buf s) p.
Proof.
  induction k as [|k IH]; intros i s s' bw w Hk Hi Hc Hp Hlen H p Hge.
  - simpl in H. inversion H; subst. reflexivity.
  - simpl in H.
    destruct (pushbits_step_spec src nbit i s) as
      (s1 & Hs1 & Hl1 & Hst1 & Hc1 & Hc7 & Hp1 & Hw1 & Hbit1 & Hfr1); auto; try lia.
    rewrite Hs1 in H. simpl in H.
    pose proof (wpos_nonneg s Hc Hp) as Hw0.
    rewrite (IH (i + 1) s1 s' (bw + 1) w) by (auto; lia).
    apply Hfr1; lia.
Qed.

Lemma size_t_of_add (a n : Z) : size_t_of (size_t_of a + n) = size_t_of (a + n).
Proof. unfold size_t_of. apply Zplus_mod_idemp_l. Qed.

(** X2. [push_n_bits], when the [n] bits fit in the block: the bits of [src]
    are written most significant first at the write cursor, and no other
    bit of the block changes.  [BitStream_size] grows by [n], in [size_t]:
    it counts from the read cursor, and wraps around when the read cursor
    is ahead of the write cursor; it is the number of bits between the
    cursors, [n] more than before, when the read cursor is behind. *)
Theorem push_n_bits_appends (s : BitStream) (src n : Z) :
  0 <= n <= 8 -> capa_ok s -> 0 <= ptr s ->
  wpos s + n <= 8 * Z.of_nat (length (buf s)) ->
  exists s', push_n_bits s src n = Done s' /\
    length (buf s') = length (buf s) /\ start s' = start s /\
    BitStream_size s' = size_t_of (BitStream_size s + n) /\
    (0 <= start s <= ptr s -> 8 * Z.of_nat (length (buf s)) < 2 ^ 64 ->
     BitStream_size s = wpos s - 8 * start s /\
     BitStream_size s' = BitStream_size s + n) /\
    (forall j, 0 <= j < n ->
       sbit (buf s') (wpos s + j) = Z.testbit src (n - 1 - j)) /\
    (forall p, 0 <= p -> p < wpos s \/ wpos s + n <= p ->
       sbit (buf s') p = sbit (buf s) p).
Proof.
  intros Hn Hc Hp Hlen.
  destruct (push_n_bits_spec s src n Hn Hc Hp Hlen) as
    (s' & Hs' & Hl' & Hst' & Hc' & Hp' & Hw' & _ & _ & Hbits & Hfr).
  exists s'. split; [exact Hs'|]. split; [exact Hl'|]. split; [exact Hst'|].
  assert (Hsum : (ptr s' - start s') * CHAR_BIT + (CHAR_BIT - capa s') =
                 (ptr s - start s) * CHAR_BIT + (CHAR_BIT - capa s) + n)
    by (unfold wpos, CHAR_BIT in *; lia).
  split; [unfold BitStream_size; rewrite size_t_of_add, Hsum; reflexivity|].
  split.
  { intros Hst Hsmall. unfold BitStream_size. rewrite Hsum.
    unfold size_t_of, capa_ok, wpos, CHAR_BIT in *.
    rewrite !Z.mod_small by lia. lia. }
  split; [exact Hbits|].
  intros p Hp0 [Hlt|Hge]; [apply Hfr; lia|].
  unfold push_n_bits, pushbits in Hs'.
  assert (Hsz : size_t_of n = n) by (apply Z.mod_small; lia).
  rewrite Hsz in Hs'.
  apply bind_Done in Hs' as ([s1 w] & H1 & H).
  destruct (w =? n); [|discriminate]. inversion H; subst s1.
  apply (pushbits_loop_after (Z.to_nat n) (byte_of src) n 0 s s' 0 w);
    [lia | lia | exact Hc | exact Hp | lia | exact H1 | lia].
Qed.

Lemma push_n_bits_appends_witness :
  0 <= 3 <= 8 /\ exists s', push_n_bits (initBitStream 2 zero_bytes) 5 3 = Done s' /\
    length (buf s') = length (buf (initBitStream 2 zero_bytes)) /\
    start s' = start (initBitStream 2 zero_bytes) /\
    BitStream_size s' = size_t_of (BitStream_size (initBitStream 2 zero_bytes) + 3) /\
    (0 <= start (initBitStream 2 zero_bytes) <= ptr (initBitStream 2 zero_bytes) ->
     8 * Z.of_nat (length (buf (initBitStream 2 zero_bytes))) < 2 ^ 64 ->
     BitStream_size (initBitStream 2 zero_bytes) =
       wpos (initBitStream 2 zero_bytes) - 8 * start (initBitStream 2 zero_bytes) /\
     BitStream_size s' = BitStream_size (initBitStream 2 zero_bytes) + 3) /\
    (forall j, 0 <= j < 3 ->
       sbit (buf s') (wpos (initBitStream 2 zero_bytes) + j) = Z.testbit 5 (3 - 1 - j)) /\
    (forall p, 0 <= p ->
       p < wpos (initBitStream 2 zero_bytes) \/ wpos (initBitStream 2 zero_bytes) + 3 <= p ->
       sbit (buf s') p = sbit (buf (initBitStream 2 zero_bytes)) p).
Proof.
  split; [lia|].
  apply (push_n_bits_appends (initBitStream 2 zero_bytes) 5 3);
    [lia | unfold capa_ok; simpl; unfold CHAR_BIT; lia | simpl; lia | vm_compute; discriminate].
Defined.

(** ** bit.c: the error exits and the end of the block *)

Lemma pushbits_loop_count (k : nat) (src nbit : Z) :
  forall i s bw s' w,
  pushbits_loop k src nbit i s bw = Done (s', w) -> w = bw + Z.of_nat k.
Proof.
  induction k as [|k IH]; intros i s bw s' w H; simpl in H.
  - inversion H. lia.
  - apply bind_Done in H as (s1 & _ & H). apply IH in H. lia.
Qed.

Lemma pushbits_loop_no_exit (k : nat) (src nbit : Z) :
  forall i s bw, pushbits_loop k src nbit i s bw <> ExitFailure.
Proof.
  induction k as [|k IH]; intros i s bw; simpl; [discriminate|].
  unfold pushbits_step at 1.
  destruct (load (buf s) _) eqn:El; simpl; try discriminate;
    [|unfold load in El; repeat (destruct (_ : bool) in El || destruct (_ !! _) in El);
      discriminate].
  destruct (store (buf s) _ _) eqn:Es; simpl; try discriminate;
    [apply IH|].
  unfold store in Es.
  repeat match type of Es with
         | (if ?b then _ else _) = _ => destruct b
         end; discriminate.
Qed.

(** X3. [pushbits] always reports [nbit] bits written, so the error branch of
    [push_n_bits] is never taken: no call of [push_n_bits] ends in
    [exit(EXIT_FAILURE)], whatever the stream and the arguments. *)
Theorem push_n_bits_never_exits (s : BitStream) (src n : Z) :
  push_n_bits s src n <> ExitFailure.
Proof.
  unfold push_n_bits, pushbits.
  destruct (pushbits_loop _ _ _ _ _ _) as [[s1 w]| | |] eqn:E; simpl;
    try discriminate.
  - apply pushbits_loop_count in E. rewrite Z2Nat.id in E.
    + subst w. simpl. rewrite Z.eqb_refl. discriminate.
    + unfold size_t_of. apply Z.mod_pos_bound. lia.
  - exfalso. eapply pushbits_loop_no_exit; eauto.
Qed.

Lemma load_past_end {A} (l : list A) (i : Z) :
  Z.of_nat (length l) <= i -> load l i = Undefined.
Proof.
  intros H. unfold load. destruct (Z.ltb_spec i 0); [reflexivity|].
  rewrite lookup_ge_None_2 by lia. reflexivity.
Qed.

Lemma pushbits_loop_overflow (k : nat) (src nbit : Z) :
  forall (i : Z) (s : BitStream) (bw : Z),
  Z.of_nat (S k) = nbit - i -> 0 <= i -> capa_ok s -> 0 <= ptr s ->
  8 * Z.of_nat (length (buf s)) < wpos s + Z.of_nat (S k) ->
  pushbits_loop (S k) src nbit i s bw = Undefined.
Proof.
  induction k as [|k IH]; intros i s bw Hk Hi Hc Hp Hlen;
    cbn [pushbits_loop].
  - unfold pushbits_step. rewrite load_past_end; [reflexivity|].
    unfold capa_ok, wpos in *. destruct (Z.eqb_spec (capa s) 0); lia.
  - destruct (Z.lt_ge_cases (wpos s) (8 * Z.of_nat (length (buf s)))) as [Hin|Hout].
    + destruct (pushbits_step_spec src nbit i s) as
        (s1 & Hs1 & Hl1 & Hst1 & Hc1 & Hc7 & Hp1 & Hw1 & _); auto; try lia.
      rewrite Hs1. cbn [mbind outcome_bind].
      apply IH; auto; lia.
    + unfold pushbits_step. rewrite load_past_end; [reflexivity|].
      unfold capa_ok, wpos in *. destruct (Z.eqb_spec (capa s) 0); lia.
Qed.

(** X4. [push_n_bits] does not check the size of the block: when fewer than
    [n] bits are left in it, the call writes past its end. *)
Theorem push_n_bits_past_end (s : BitStream) (src n : Z) :
  1 <= n <= 8 -> capa_ok s -> 0 <= ptr s ->
  8 * Z.of_nat (length (buf s)) < wpos s + n ->
  push_n_bits s src n = Undefined.
Proof.
  intros Hn Hc Hp Hlen. unfold push_n_bits, pushbits.
  assert (Hsz : size_t_of n = n) by (apply Z.mod_small; lia).
  rewrite Hsz.
  destruct (Z.to_nat n) as [|k] eqn:Ek; [lia|].
  rewrite pushbits_loop_overflow; auto; lia.
Qed.

Lemma push_n_bits_past_end_witness :
  1 <= 8 <= 8 /\ push_n_bits (initBitStream 0 zero_bytes) 255 8 = Undefined.
Proof.
  split; [lia|].
  apply (push_n_bits_past_end (initBitStream 0 zero_bytes) 255 8);
    [lia | unfold capa_ok; simpl; unfold CHAR_BIT; lia | simpl; lia | vm_compute; reflexivity].
Defined.

Lemma pullbits_loop_underflow (k : nat) (nbit : Z) :
  forall (i : Z) (s : BitStream) (d br : Z),
  capa_ok s -> 0 <= start s ->
  8 * Z.of_nat (length (buf s)) < rpos s + Z.of_nat (S k) ->
  pullbits_loop (S k) nbit i (s, d) br = Undefined.
Proof.
  induction k as [|k IH]; intros i s d br Hc Hp Hlen;
    cbn [pullbits_loop].
  - unfold pullbits_step. rewrite load_past_end; [reflexivity|].
    unfold capa_ok, rpos in *. destruct (Z.eqb_spec (capa s) 0); lia.
  - destruct (Z.lt_ge_cases (rpos s) (8 * Z.of_nat (length (buf s)))) as [Hin|Hout].
    + destruct (pullbits_step_spec nbit i s d) as
        (s1 & Hs1 & Hb1 & Hp1 & Hc1 & Hst1 & Hr1); auto; try lia.
      rewrite Hs1. cbn [mbind outcome_bind].
      apply IH; auto; try lia. rewrite Hb1. lia.
    + unfold pullbits_step. rewrite load_past_end; [reflexivity|].
      unfold capa_ok, rpos in *. destruct (Z.eqb_spec (capa s) 0); lia.
Qed.

(** X6. [read_n_bits] does not know where the data ends: when fewer than [n]
    bits are left in the block, the call reads past its end instead of
    reporting an error. *)
Theorem read_n_bits_past_end (s : BitStream) (n : Z) :
  1 <= n <= 8 -> capa_ok s -> 0 <= start s ->
  8 * Z.of_nat (length (buf s)) < rpos s + n ->
  read_n_bits s n = Undefined.
Proof.
  intros Hn Hc Hp Hlen. unfold read_n_bits, pullbits.
  assert (Hsz : size_t_of n = n) by (apply Z.mod_small; lia).
  rewrite Hsz.
  destruct (Z.to_nat n) as [|k] eqn:Ek; [lia|].
  rewrite pullbits_loop_underflow; auto; lia.
Qed.

Lemma read_n_bits_past_end_witness :
  1 <= 8 <= 8 /\ read_n_bits (initBitStream 0 zero_bytes) 8 = Undefined.
Proof.
  split; [lia|].
  apply (read_n_bits_past_end (initBitStream 0 zero_bytes) 8);
    [lia | unfold capa_ok; simpl; unfold CHAR_BIT; lia | simpl; lia | vm_compute; reflexivity].
Defined.

(** X5. [read_n_bits], when [n] bits are left in the block: the value read is
    the number whose binary digits are the next [n] bits, most significant
    first; the read cursor moves [n] bits on and the block is unchanged. *)
Theorem read_n_bits_reads (s : BitStream) (n : Z) :
  0 <= n <= 8 -> capa_ok s -> 0 <= start s ->
  rpos s + n <= 8 * Z.of_nat (length (buf s)) ->
  exists s' r, read_n_bits s n = Done (s', r) /\
    buf s' = buf s /\ ptr s' = ptr s /\ rpos s' = rpos s + n /\
    0 <= r < 2 ^ n /\
    (forall j, 0 <= j < n -> Z.testbit r (n - 1 - j) = sbit (buf s) (rpos s + j)).
Proof.
  intros Hn Hc Hp Hlen.
  destruct (read_n_bits_spec s n Hn Hc Hp Hlen) as
    (s' & r & Hr & Hb & Hpt & _ & _ & Hrp & Hbits).
  exists s', r. repeat (split; [assumption|]).
  assert (Hr0 : 0 <= r).
  { apply Z.bits_iff_nonneg_ex. exists n. intros m Hm.
    rewrite Hbits by lia. destruct (Z.ltb_spec m n); [lia | reflexivity]. }
  split.
  - split; [exact Hr0|].
    destruct (Z.eq_dec r 0) as [->|Hne]; [apply Z.pow_pos_nonneg; lia|].
    apply Z.log2_lt_pow2; [lia|].
    destruct (Z.lt_ge_cases (Z.log2 r) n) as [Hlt|Hge]; [exact Hlt|].
    assert (Hb1 : Z.testbit r (Z.log2 r) = true) by (apply Z.bit_log2; lia).
    rewrite Hbits in Hb1 by (apply Z.log2_nonneg).
    destruct (Z.ltb_spec (Z.log2 r) n); [lia | discriminate].
  - intros j Hj. rewrite Hbits by lia.
    destruct (Z.ltb_spec (n - 1 - j) n); [|lia].
    f_equal. lia.
Qed.

Lemma read_n_bits_reads_witness :
  0 <= 3 <= 8 /\
  exists s' r, read_n_bits (initBitStream 1 (fun _ => 160)) 3 = Done (s', r) /\
    buf s' = buf (initBitStream 1 (fun _ => 160)) /\
    ptr s' = ptr (initBitStream 1 (fun _ => 160)) /\
    rpos s' = rpos (initBitStream 1 (fun _ => 160)) + 3 /\
    0 <= r < 2 ^ 3 /\
    (forall j, 0 <= j < 3 ->
       Z.testbit r (3 - 1 - j) =
       sbit (buf (initBitStream 1 (fun _ => 160)))
            (rpos (initBitStream 1 (fun _ => 160)) + j)).
Proof.
  split; [lia|].
  apply (read_n_bits_reads (initBitStream 1 (fun _ => 160)) 3);
    [lia | unfold capa_ok; simpl; unfold CHAR_BIT; lia | simpl; lia | vm_compute; discriminate].
Defined.

(** ** bit.c: the padding *)

Lemma finishBitStream_bytes (s s' : BitStream) :
  finishBitStream s = Done s' -> bytes_ok (buf s) -> bytes_ok (buf s').
Proof.
  unfold finishBitStream. intros H Hb.
  destruct (capa s =? CHAR_BIT); [inversion H; subst; exact Hb|].
  apply bind_Done in H as (s1 & H1 & H). inversion H; subst. cbn [buf].
  eapply push_n_bits_bytes; eauto.
Qed.

Lemma finishBitStream_full (s : BitStream) :
  capa_ok s -> 0 <= ptr s -> wpos s <= 8 * Z.of_nat (length (buf s)) ->
  exists s', finishBitStream s = Done s' /\
    length (buf s') = length (buf s) /\ start s' = start s /\
    capa s' = CHAR_BIT /\
    BitStream_size s' = size_t_of ((ptr s' - start s') * 8) /\
    (exists pad, 0 <= pad < 8 /\ wpos s' = wpos s + pad /\
       BitStream_size s' = size_t_of (BitStream_size s + pad)) /\
    (forall p, 0 <= p < wpos s -> sbit (buf s') p = sbit (buf s) p) /\
    (forall p, wpos s <= p < wpos s' -> sbit (buf s') p = false) /\
    finishBitStream s' = Done s'.
Proof.
  intros Hc Hp Hlen. unfold finishBitStream at 1.
  destruct (Z.eqb_spec (capa s) CHAR_BIT) as [H8|H8].
  - exists s. unfold finishBitStream. rewrite (proj2 (Z.eqb_eq _ _) H8).
    split; [reflexivity|]. split; [reflexivity|]. split; [reflexivity|].
    split; [exact H8|].
    split; [unfold BitStream_size; rewrite H8; f_equal; unfold CHAR_BIT; lia|].
    split.
    { exists 0. split; [lia|]. split; [lia|].
      unfold BitStream_size. rewrite size_t_of_add. f_equal. lia. }
    split; [auto|]. split; [intros; lia | reflexivity].
  - unfold CHAR_BIT in H8.
    destruct (push_n_bits_spec s 0 (capa s)) as
      (s1 & Hs1 & Hl1 & Hst1 & Hc1 & Hp1 & Hw1 & Hk0 & Hk7 & Hbits & Hfr);
      auto; unfold capa_ok, wpos in *; try lia.
    rewrite Hs1. cbn [mbind outcome_bind]. eexists. split; [reflexivity|].
    assert (Hcs : capa s1 = 0).
    { destruct (Z.eq_dec (capa s) 0) as [E0|E0].
      - rewrite (Hk0 E0). exact E0.
      - assert (capa s1 <= 7) by (apply Hk7; lia). lia. }
    unfold finishBitStream, BitStream_size, CHAR_BIT. cbn [buf start ptr capa].
    rewrite Z.eqb_refl.
    split; [exact Hl1|]. split; [exact Hst1|]. split; [reflexivity|].
    split; [f_equal; lia|].
    split.
    { exists (if capa s =? 0 then 0 else capa s).
      destruct (Z.eqb_spec (capa s) 0).
      - split; [lia|]. split; [lia|]. rewrite size_t_of_add. f_equal. lia.
      - split; [lia|]. split; [lia|]. rewrite size_t_of_add. f_equal. lia. }
    split; [intros p Hpr; apply Hfr; lia|].
    split; [|reflexivity].
    intros p Hpr.
    replace p with (8 * ptr s + (8 - capa s) + (p - (8 * ptr s + (8 - capa s))))
      by lia.
    rewrite Hbits by lia. apply Z.testbit_0_l.
Qed.

(** X7. [finishBitStream] fills the byte in progress with zero bits and leaves
    the write cursor on a byte boundary, at most seven bits further; the
    bits already written stay, and a second call changes nothing.
    [BitStream_size] grows by the number of padding bits, in [size_t]. *)
Theorem finishBitStream_pads (s : BitStream) :
  capa_ok s -> 0 <= ptr s -> wpos s <= 8 * Z.of_nat (length (buf s)) ->
  exists s', finishBitStream s = Done s' /\
    length (buf s') = length (buf s) /\ start s' = start s /\
    capa s' = CHAR_BIT /\
    BitStream_size s' = size_t_of ((ptr s' - start s') * 8) /\
    (exists pad, 0 <= pad < 8 /\ wpos s' = wpos s + pad /\
       BitStream_size s' = size_t_of (BitStream_size s + pad)) /\
    (forall p, 0 <= p < wpos s -> sbit (buf s') p = sbit (buf s) p) /\
    (forall p, wpos s <= p < wpos s' -> sbit (buf s') p = false) /\
    finishBitStream s' = Done s'.
Proof. exact (finishBitStream_full s). Qed.

Lemma finishBitStream_pads_witness :
  exists s1, push_n_bits (initBitStream 2 (fun _ => 255)) 5 3 = Done s1 /\
  exists s', finishBitStream s1 = Done s' /\
    length (buf s') = length (buf s1) /\ start s' = start s1 /\
    capa s' = CHAR_BIT /\
    BitStream_size s' = size_t_of ((ptr s' - start s') * 8) /\
    (exists pad, 0 <= pad < 8 /\ wpos s' = wpos s1 + pad /\
       BitStream_size s' = size_t_of (BitStream_size s1 + pad)) /\
    (forall p, 0 <= p < wpos s1 -> sbit (buf s') p = sbit (buf s1) p) /\
    (forall p, wpos s1 <= p < wpos s' -> sbit (buf s') p = false) /\
    finishBitStream s' = Done s'.
Proof.
  eexists. split; [vm_compute; reflexivity|].
  apply finishBitStream_pads;
    [unfold capa_ok; simpl; lia | simpl; lia | vm_compute; discriminate].
Defined.

(** ** Bytes and bits of a block *)

Lemma sbit_byte (m : list Z) (i : nat) (b t : Z) :
  m !! i = Some b -> 0 <= t < 8 ->
  sbit m (8 * Z.of_nat i + t) = Z.testbit b (7 - t).
Proof.
  intros Hm Ht. unfold sbit.
  replace ((8 * Z.of_nat i + t) / 8) with (Z.of_nat i)
    by (apply Z.div_unique with (r := t); lia).
  replace ((8 * Z.of_nat i + t) mod 8) with t
    by (apply Z.mod_unique with (q := Z.of_nat i); lia).
  rewrite Nat2Z.id, Hm. reflexivity.
Qed.

Lemma bytes_ext (m m' : list Z) :
  length m = length m' -> bytes_ok m -> bytes_ok m' ->
  (forall k, 0 <= k < 8 * Z.of_nat (length m) -> sbit m k = sbit m' k) ->
  m = m'.
Proof.
  intros Hl Hm Hm' Hbits. apply list_eq. intros i.
  destruct (m !! i) as [b|] eqn:Eb.
  - pose proof (lookup_lt_Some _ _ _ Eb) as Hi.
    destruct (lookup_lt_is_Some_2 m' i) as [b' Eb']; [lia|].
    rewrite Eb'. f_equal.
    pose proof (Forall_lookup_1 _ _ _ _ Hm Eb) as Hr. simpl in Hr.
    pose proof (Forall_lookup_1 _ _ _ _ Hm' Eb') as Hr'. simpl in Hr'.
    apply Z.bits_inj'. intros j Hj.
    destruct (Z.lt_ge_cases j 8) as [Hlt|Hge].
    + pose proof (Hbits (8 * Z.of_nat i + (7 - j)) ltac:(lia)) as H.
      rewrite (sbit_byte m i b) in H by (auto; lia).
      rewrite (sbit_byte m' i b') in H by (auto; lia).
      replace (7 - (7 - j)) with j in H by lia. exact H.
    + rewrite <- (Z.mod_small b 256), <- (Z.mod_small b' 256) by lia.
      change 256 with (2 ^ 8). rewrite !Z.mod_pow2_bits_high by lia.
      reflexivity.
  - apply lookup_ge_None_1 in Eb. symmetry. apply lookup_ge_None_2. lia.
Qed.

Lemma push_fields_bytes (fs : list (Z * Z)) :
  forall s s', push_fields fs s = Done s' -> bytes_ok (buf s) -> bytes_ok (buf s').
Proof.
  induction fs as [|[val w] fs IH]; intros s s' H Hb; simpl in H.
  - inversion H; subst. exact Hb.
  - apply bind_Done in H as (s1 & H1 & H).
    eapply IH; [exact H|]. eapply push_n_bits_bytes; eauto.
Qed.

Lemma push_bytes_fields (bytes : list Z) :
  forall s, push_bytes bytes s = push_fields (map (fun b => (b, 8)) bytes) s.
Proof.
  induction bytes as [|b bytes IH]; intros s; simpl; [reflexivity|].
  destruct (push_n_bits s b 8); simpl; auto.
Qed.

Lemma spells_bytes (m bytes : list Z) :
  forall (i : nat),
  spells m (8 * Z.of_nat i) (map (fun b => (b, 8)) bytes) ->
  forall (j : nat) (b t : Z), bytes !! j = Some b -> 0 <= t < 8 ->
  sbit m (8 * Z.of_nat (i + j) + t) = Z.testbit b (7 - t).
Proof.
  induction bytes as [|b0 bytes IH]; intros i Hsp j b t Hj Ht; [discriminate|].
  cbn [map spells] in Hsp. destruct Hsp as [Hb Hsp].
  destruct j as [|j].
  - inversion Hj; subst. rewrite Nat.add_0_r. rewrite Hb by lia.
    f_equal; lia.
  - replace (8 * Z.of_nat i + 8) with (8 * Z.of_nat (S i)) in Hsp by lia.
    replace (i + S j)%nat with (S i + j)%nat by lia.
    apply (IH (S i) Hsp j b t); auto.
Qed.

Lemma bits_len_bytes (bytes : list Z) :
  bits_len (map (fun b => (b, 8)) bytes) = 8 * Z.of_nat (length bytes).
Proof. induction bytes; simpl length; cbn [map bits_len]; lia. Qed.

Lemma malloc_bytes_ok (size : Z) (junk : nat -> Z) :
  bytes_ok (malloc size (fun k => byte_of (junk k))).
Proof.
  unfold bytes_ok, malloc. apply List.Forall_map, List.Forall_forall.
  intros k _. unfold byte_of. apply Z.mod_pos_bound. lia.
Qed.

(** ** stdio: a file read byte after byte *)

Lemma drop_cons_inv {A} (l : list A) (p : nat) (c : A) (t : list A) :
  drop p l = c :: t -> l !! p = Some c /\ drop (S p) l = t.
Proof.
  intros H. split.
  - rewrite <- (Nat.add_0_r p), <- lookup_drop, H. reflexivity.
  - replace (S p) with (p + 1)%nat by lia. rewrite <- drop_drop, H. reflexivity.
Qed.

Lemma fgetc_at_byte (bytes : list Z) (p : nat) (c : Z) :
  bytes !! p = Some c -> fgetc (at_byte bytes p) = (c, at_byte bytes (S p)).
Proof.
  intros H. unfold fgetc, at_byte, load. cbn [pushed_back contents position].
  replace (Z.of_nat p <? 0) with false by (symmetry; apply Z.ltb_ge; lia).
  rewrite Nat2Z.id, H. repeat f_equal. lia.
Qed.

Lemma fgetc_at_end (bytes : list Z) (p : nat) :
  (length bytes <= p)%nat -> fgetc (at_byte bytes p) = (EOF, at_byte bytes p).
Proof.
  intros H. unfold fgetc, at_byte, load. cbn [pushed_back contents position].
  replace (Z.of_nat p <? 0) with false by (symmetry; apply Z.ltb_ge; lia).
  rewrite Nat2Z.id, (lookup_ge_None_2 bytes p) by lia. reflexivity.
Qed.

(** A character pushed back is read as if it were in the file. *)
Lemma fgetc_pushed_back (bytes : list Z) (p : nat) (c : Z) :
  fgetc {| contents := bytes; position := Z.of_nat p; pushed_back := [c] |}
  = (c, at_byte bytes (S p)).
Proof.
  unfold fgetc, at_byte. cbn [pushed_back contents position]. repeat f_equal. lia.
Qed.

Lemma fgets_loop_line (l : list Z) :
  forall (k : nat) (bytes : list Z) (p : nat) (rest acc : list Z),
  Forall (fun c => 0 <= c < 256 /\ c <> 10) l -> (length l < k)%nat ->
  drop p bytes = l ++ 10 :: rest ->
  fgets_loop k (at_byte bytes p) acc
  = (acc ++ l ++ [10], at_byte bytes (p + length l + 1)).
Proof.
  induction l as [|c l IH]; intros k bytes p rest acc Hl Hk Hd;
    (destruct k as [|k]; [simpl in Hk; lia|]); cbn [fgets_loop].
  - apply drop_cons_inv in Hd as [Hc _]. rewrite (fgetc_at_byte _ _ _ Hc).
    cbn [app length]. replace (p + 0 + 1)%nat with (S p) by lia. reflexivity.
  - cbn [app] in Hd. apply drop_cons_inv in Hd as [Hc Hd].
    rewrite (fgetc_at_byte _ _ _ Hc).
    inversion Hl as [|? ? [Hc1 Hc2] Hl']; subst.
    replace (c =? EOF) with false by (symmetry; apply Z.eqb_neq; unfold EOF; lia).
    replace (c =? 10) with false by (symmetry; apply Z.eqb_neq; lia).
    rewrite (IH k bytes (S p) rest (acc ++ [c]) Hl' ltac:(simpl in Hk; lia) Hd).
    rewrite <- app_assoc. cbn [app length].
    replace (S p + length l + 1)%nat with (p + S (length l) + 1)%nat by lia.
    reflexivity.
Qed.

Lemma readline_line (bytes : list Z) (p : nat) (l rest : list Z) :
  short_line l -> drop p bytes = l ++ 10 :: rest ->
  readline (at_byte bytes p) 128
  = Done (l ++ [10], at_byte bytes (p + length l + 1)).
Proof.
  intros [Hl Hlen] Hd. unfold readline, fgets.
  change (128 <=? 1) with false. cbn iota.
  change (Z.to_nat (128 - 1)) with 127%nat.
  rewrite (fgets_loop_line l 127 bytes p rest []) by (auto; lia).
  cbn [app]. destruct l; reflexivity.
Qed.

(** After [ungetc], the line is read as from the file. *)
Lemma readline_pushed_back (bytes : list Z) (p : nat) (c : Z) (size : Z) :
  bytes !! p = Some c -> 0 <= c -> 1 < size ->
  readline {| contents := bytes; position := Z.of_nat p; pushed_back := [c] |} size
  = readline (at_byte bytes p) size.
Proof.
  intros Hc Hc0 Hs. unfold readline, fgets.
  replace (size <=? 1) with false by (symmetry; apply Z.leb_gt; lia).
  destruct (Z.to_nat (size - 1)) as [|k] eqn:Ek; [lia|].
  cbn [fgets_loop]. rewrite fgetc_pushed_back, (fgetc_at_byte _ _ _ Hc).
  replace (c =? EOF) with false by (symmetry; apply Z.eqb_neq; unfold EOF; lia).
  reflexivity.
Qed.

Lemma length_comment_lines_ge (texts : list (list Z)) :
  (length texts <= length (comment_lines texts))%nat.
Proof.
  induction texts as [|t ts IH]; [simpl; lia|].
  unfold comment_lines in *. cbn [map concat]. rewrite length_app. simpl. lia.
Qed.

Lemma comment_lines_cons (t : list Z) (ts : list (list Z)) :
  comment_lines (t :: ts) = 35 :: t ++ 10 :: comment_lines ts.
Proof.
  unfold comment_lines. cbn [map concat]. cbn [app]. rewrite <- app_assoc. reflexivity.
Qed.

(** [ignore_comments] steps over the comment lines; the character that
    follows them is read and pushed back. *)
Lemma ignore_comments_loop_texts (texts : list (list Z)) :
  forall (k : nat) (bytes : list Z) (p : nat) (c : Z) (rest : list Z),
  Forall short_line texts -> (length texts < k)%nat ->
  0 <= c < 256 -> c <> 35 ->
  drop p bytes = comment_lines texts ++ c :: rest ->
  (let '(c', file1) := fgetc (at_byte bytes p) in
   ignore_comments_loop k file1 128 (byte_of c'))
  = Done {| contents := bytes;
            position := Z.of_nat (p + length (comment_lines texts));
            pushed_back := [c] |}.
Proof.
  induction texts as [|t ts IH]; intros k bytes p c rest Ht Hk Hc H35 Hd;
    (destruct k as [|k]; [simpl in Hk; lia|]).
  - cbn [comment_lines map concat app] in Hd. apply drop_cons_inv in Hd as [Hb _].
    rewrite (fgetc_at_byte _ _ _ Hb). cbn [ignore_comments_loop].
    assert (Hbc : byte_of c = c) by (apply Z.mod_small; lia). rewrite Hbc.
    replace (c =? 35) with false by (symmetry; apply Z.eqb_neq; lia).
    unfold ungetc, at_byte. cbn [position contents pushed_back].
    replace (Z.of_nat (S p) <=? 0) with false by (symmetry; apply Z.leb_gt; lia).
    cbn [comment_lines map concat length]. do 2 f_equal. lia.
  - rewrite comment_lines_cons in Hd. cbn [app] in Hd.
    apply drop_cons_inv in Hd as [Hb Hd]. rewrite <- app_assoc in Hd. cbn [app] in Hd.
    rewrite (fgetc_at_byte _ _ _ Hb). cbn [ignore_comments_loop].
    change (byte_of 35 =? 35) with true. cbn iota.
    inversion Ht as [|? ? Ht1 Ht2]; subst.
    rewrite (readline_line bytes (S p) t (comment_lines ts ++ c :: rest) Ht1 Hd).
    cbn [mbind outcome_bind].
    assert (Hd' : drop (S p + length t + 1) bytes = comment_lines ts ++ c :: rest).
    { replace (S p + length t + 1)%nat with (S p + (length t + 1))%nat by lia.
      rewrite <- drop_drop, Hd.
      change (t ++ 10 :: comment_lines ts ++ c :: rest)
        with (t ++ [10] ++ comment_lines ts ++ c :: rest).
      rewrite app_assoc. apply drop_app_length'. rewrite length_app. simpl. lia. }
    specialize (IH k bytes (S p + length t + 1)%nat c rest Ht2
                  ltac:(simpl in Hk; lia) Hc H35 Hd').
    rewrite IH. rewrite comment_lines_cons. cbn [length]. rewrite length_app.
    cbn [length]. do 2 f_equal. lia.
Qed.

(** When the file ends after the comment lines, what is pushed back is the
    character 255 that [EOF] becomes in an [unsigned char], and the
    position goes back over the last byte of the file. *)
Lemma ignore_comments_loop_eof (texts : list (list Z)) :
  forall (k : nat) (bytes : list Z) (p : nat),
  Forall short_line texts -> (length texts < k)%nat ->
  (0 < p + length (comment_lines texts))%nat ->
  drop p bytes = comment_lines texts ->
  (let '(c', file1) := fgetc (at_byte bytes p) in
   ignore_comments_loop k file1 128 (byte_of c'))
  = Done {| contents := bytes;
            position := Z.of_nat (p + length (comment_lines texts)) - 1;
            pushed_back := [255] |}.
Proof.
  induction texts as [|t ts IH]; intros k bytes p Ht Hk Hp Hd;
    (destruct k as [|k]; [simpl in Hk; lia|]).
  - cbn [comment_lines map concat] in Hd.
    assert (Hlen : (length bytes <= p)%nat).
    { destruct (Nat.le_gt_cases (length bytes) p) as [?|Hlt]; [assumption|].
      apply (f_equal length) in Hd. rewrite length_drop in Hd. simpl in Hd. lia. }
    rewrite (fgetc_at_end _ _ Hlen). cbn [ignore_comments_loop].
    change (byte_of EOF) with 255. change (255 =? 35) with false. cbn iota.
    unfold ungetc, at_byte. cbn [position contents pushed_back].
    cbn [comment_lines map concat length] in *.
    replace (Z.of_nat p <=? 0) with false by (symmetry; apply Z.leb_gt; lia).
    do 2 f_equal. lia.
  - rewrite comment_lines_cons in Hd. cbn [app] in Hd.
    apply drop_cons_inv in Hd as [Hb Hd].
    rewrite (fgetc_at_byte _ _ _ Hb). cbn [ignore_comments_loop].
    change (byte_of 35 =? 35) with true. cbn iota.
    inversion Ht as [|? ? Ht1 Ht2]; subst.
    rewrite (readline_line bytes (S p) t (comment_lines ts) Ht1 Hd).
    cbn [mbind outcome_bind].
    assert (Hd' : drop (S p + length t + 1) bytes = comment_lines ts).
    { replace (S p + length t + 1)%nat with (S p + (length t + 1))%nat by lia.
      rewrite <- drop_drop, Hd.
      change (t ++ 10 :: comment_lines ts) with (t ++ [10] ++ comment_lines ts).
      rewrite app_assoc. apply drop_app_length'. rewrite length_app. simpl. lia. }
    specialize (IH k bytes (S p + length t + 1)%nat Ht2
                  ltac:(simpl in Hk; lia) ltac:(lia) Hd').
    rewrite IH. rewrite comment_lines_cons. cbn [length]. rewrite length_app.
    cbn [length]. do 2 f_equal. lia.
Qed.

Lemma fread_rest (k : nat) :
  forall (bytes : list Z) (p : nat),
  Forall (fun c => 0 <= c) (drop p bytes) -> (p + k = length bytes)%nat ->
  fst (fread k (at_byte bytes p)) = drop p bytes.
Proof.
  induction k as [|k IH]; intros bytes p Hb Hk; cbn [fread].
  - cbn [fst]. symmetry. apply drop_ge. lia.
  - destruct (lookup_lt_is_Some_2 bytes p ltac:(lia)) as [c Hc].
    rewrite (fgetc_at_byte _ _ _ Hc).
    rewrite (drop_S _ _ _ Hc) in Hb |- *.
    inversion Hb as [|? ? Hc0 Hb']; subst.
    replace (c =? EOF) with false by (symmetry; apply Z.eqb_neq; unfold EOF; lia).
    specialize (IH bytes (S p) Hb' ltac:(lia)).
    destruct (fread k (at_byte bytes (S p))) as [cs f]. cbn [fst] in *.
    rewrite IH. reflexivity.
Qed.

(** ** utils.c: reading a QTC file *)

(** The end of [read_bitstream_from_file_Q1]: a stream of as many bytes as
    the buffer holds is allocated, the bytes are pushed into it and the
    stream is finished. *)
Lemma push_bytes_finish (bytes : list Z) (junk : nat -> Z) :
  bytes_ok bytes -> Z.of_nat (length bytes) < 2 ^ 31 ->
  exists s,
    (stream' ← push_bytes bytes (initBitStream (Z.of_nat (length bytes)) junk);
     finishBitStream stream') = Done s /\
    buf s = bytes /\ start s = 0 /\ ptr s = Z.of_nat (length bytes) /\
    capa s = CHAR_BIT /\
    stream_bytes s = bytes /\
    BitStream_size s = 8 * Z.of_nat (length bytes).
Proof.
  intros Hb Hsmall.
  set (s0 := initBitStream (Z.of_nat (length bytes)) junk).
  set (fs := map (fun b => (b, 8)) bytes).
  assert (Hl0 : Z.of_nat (length (buf s0)) = Z.of_nat (length bytes)).
  { unfold s0. cbn [initBitStream buf]. rewrite length_malloc. lia. }
  assert (Hw : widths_ok fs).
  { unfold widths_ok, fs. apply List.Forall_map, List.Forall_forall.
    intros b _. simpl. lia. }
  destruct (push_fields_spec fs s0) as
    (s1 & E1 & Hl1 & Hst1 & Hc1 & Hp1 & Hw1 & Hsp1 & _); auto.
  { unfold capa_ok, s0. simpl. unfold CHAR_BIT. lia. }
  { simpl. lia. }
  { unfold fs. rewrite bits_len_bytes, Hl0. unfold wpos, s0. simpl.
    unfold CHAR_BIT. lia. }
  assert (Hw0 : wpos s0 = 0) by (unfold wpos, s0; simpl; unfold CHAR_BIT; lia).
  rewrite Hw0 in Hsp1, Hw1. unfold fs in Hw1. rewrite bits_len_bytes in Hw1.
  destruct (finishBitStream_spec s1) as
    (s2 & E2 & Hl2 & Hst2 & Hc2 & Hp2 & Hw2 & Hfr2); auto.
  { rewrite Hw1, Hl1. lia. }
  rewrite push_bytes_fields. fold fs. rewrite E1. cbn [mbind outcome_bind].
  exists s2. split; [exact E2|].
  assert (Hbuf : buf s2 = bytes).
  { apply bytes_ext.
    - apply Nat2Z.inj. rewrite Hl2, Hl1. exact Hl0.
    - eapply finishBitStream_bytes; [exact E2|].
      eapply push_fields_bytes; [exact E1|]. apply malloc_bytes_ok.
    - exact Hb.
    - intros k Hk.
      assert (Hlen : length (buf s2) = length bytes).
      { apply Nat2Z.inj. rewrite Hl2, Hl1. exact Hl0. }
      rewrite Hlen in Hk.
      rewrite Hfr2 by lia.
      assert (Hkd : k = 8 * Z.of_nat (Z.to_nat (k / 8)) + k mod 8).
      { rewrite Z2Nat.id by (apply Z.div_pos; lia). apply Z.div_mod. lia. }
      assert (Hkm : 0 <= k mod 8 < 8) by (apply Z.mod_pos_bound; lia).
      assert (Hkq : (Z.to_nat (k / 8) < length bytes)%nat).
      { apply Nat2Z.inj_lt. rewrite Z2Nat.id by (apply Z.div_pos; lia).
        apply Z.div_lt_upper_bound; lia. }
      destruct (lookup_lt_is_Some_2 bytes _ Hkq) as [b Eb].
      rewrite Hkd.
      rewrite (sbit_byte bytes _ b) by auto.
      apply (spells_bytes (buf s1) bytes 0 Hsp1 _ b); auto. }
  assert (Hptr : ptr s2 = Z.of_nat (length bytes)) by lia.
  assert (Hstart : start s2 = 0) by (rewrite Hst2, Hst1; reflexivity).
  split; [exact Hbuf|]. split; [exact Hstart|]. split; [exact Hptr|].
  split; [exact Hc2|]. split.
  - unfold stream_bytes. rewrite Hbuf, Hstart, Hptr. simpl drop.
    rewrite Z.sub_0_r, Nat2Z.id. apply take_ge. lia.
  - unfold BitStream_size, size_t_of, CHAR_BIT. rewrite Z.mod_small; lia.
Qed.

(** What [read_bitstream_from_file_Q1] does once [ignore_comments] has left
    the stream at byte [p] with a character pushed back: the bytes from [p]
    on are loaded. *)
Lemma read_bitstream_rest (bytes : list Z) (p : nat) (c : Z) (junk : nat -> Z) :
  (p <= length bytes)%nat -> bytes_ok (drop p bytes) ->
  Z.of_nat (length (drop p bytes)) < 2 ^ 31 ->
  let file2 := {| contents := bytes; position := Z.of_nat p; pushed_back := [c] |} in
  exists s,
    (let pos := ftell file2 in
     let file3 := fseek_end file2 in
     let size := ftell file3 - pos in
     let file4 := fseek_set file3 pos in
     let stream := initBitStream size junk in
     let '(buffer, _) := fread (Z.to_nat size) file4 in
     if negb (Z.of_nat (length buffer) =? size) then ExitFailure
     else stream' ← push_bytes buffer stream; finishBitStream stream') = Done s /\
    buf s = drop p bytes /\ start s = 0 /\
    ptr s = Z.of_nat (length (drop p bytes)) /\
    capa s = CHAR_BIT /\
    stream_bytes s = drop p bytes /\
    BitStream_size s = 8 * Z.of_nat (length (drop p bytes)).
Proof.
  intros Hp Hb Hsmall file2.
  destruct (push_bytes_finish (drop p bytes) junk Hb Hsmall) as (s & E & Hs).
  exists s. split; [|exact Hs].
  unfold ftell, fseek_end, fseek_set, file2. cbn [position contents pushed_back].
  replace (Z.of_nat p <? 0) with false by (symmetry; apply Z.ltb_ge; lia).
  assert (Hsize : Z.of_nat (length bytes) - Z.of_nat p
                  = Z.of_nat (length (drop p bytes))).
  { rewrite length_drop. lia. }
  rewrite Hsize, Nat2Z.id.
  pose proof (fread_rest (length (drop p bytes)) bytes p) as Hr.
  change {| contents := bytes; position := Z.of_nat p; pushed_back := [] |}
    with (at_byte bytes p).
  destruct (fread (length (drop p bytes)) (at_byte bytes p)) as [buffer f].
  cbn [fst] in Hr. rewrite Hr.
  - rewrite Z.eqb_refl. cbn [negb]. exact E.
  - eapply Forall_impl; [exact Hb|]. intros x Hx. simpl in Hx. lia.
  - rewrite length_drop. lia.
Qed.

Lemma short_line_bytes (l : list Z) : short_line l -> bytes_ok l.
Proof.
  intros [H _]. eapply Forall_impl; [exact H|]. intros x Hx. simpl in Hx. tauto.
Qed.

(** A QTC file: a first line, comment lines, and a payload that does not
    start with [#]. *)
Lemma read_qtc_spec (first : list Z) (texts : list (list Z)) (payload : list Z)
    (c : Z) (rest : list Z) (junk : nat -> Z) :
  short_line first -> Forall short_line texts ->
  payload = c :: rest -> c <> 35 ->
  bytes_ok payload -> Z.of_nat (length payload) < 2 ^ 31 ->
  exists s,
    read_qtc (first ++ [10] ++ comment_lines texts ++ payload) junk = Done s /\
    buf s = payload /\ start s = 0 /\ ptr s = Z.of_nat (length payload) /\
    capa s = CHAR_BIT /\
    stream_bytes s = payload /\
    BitStream_size s = 8 * Z.of_nat (length payload).
Proof.
  intros Hf Ht Hpl H35 Hb Hsmall.
  set (bytes := first ++ [10] ++ comment_lines texts ++ payload).
  set (p1 := (length first + 1)%nat).
  set (p2 := (p1 + length (comment_lines texts))%nat).
  assert (Hd1 : drop p1 bytes = comment_lines texts ++ payload).
  { unfold bytes, p1. rewrite app_assoc. apply drop_app_length'.
    rewrite length_app. simpl. lia. }
  assert (Hd2 : drop p2 bytes = payload).
  { unfold p2. rewrite <- drop_drop, Hd1. apply drop_app_length'. reflexivity. }
  assert (Hc : 0 <= c < 256).
  { subst payload. inversion Hb; assumption. }
  assert (Hlen : (p2 <= length bytes)%nat).
  { unfold bytes, p2, p1. rewrite !length_app. simpl. lia. }
  unfold read_qtc, read_bitstream_from_file_Q1.
  change (fopen bytes) with (at_byte bytes 0).
  rewrite (readline_line bytes 0 first (comment_lines texts ++ payload) Hf)
    by reflexivity.
  cbn [mbind outcome_bind]. change (0 + length first + 1)%nat with p1.
  unfold ignore_comments. cbn [contents at_byte].
  pose proof (ignore_comments_loop_texts texts (S (length bytes)) bytes p1 c rest Ht)
    as Hic.
  rewrite Hpl in Hd1. specialize (Hic ltac:(pose proof (length_comment_lines_ge texts);
                                            unfold p2 in Hlen; lia) Hc H35 Hd1).
  change {| contents := bytes; position := Z.of_nat p1; pushed_back := [] |}
    with (at_byte bytes p1).
  destruct (fgetc (at_byte bytes p1)) as [c' file1].
  rewrite Hic. cbn [mbind outcome_bind]. fold p2.
  rewrite <- Hd2 in Hb, Hsmall |- *.
  apply (read_bitstream_rest bytes p2 c junk Hlen Hb Hsmall).
Qed.

(** With an empty payload the file ends after the header: [size] is 1, not
    0, and the stream holds the last byte of the header, a newline. *)
Lemma read_qtc_empty_payload (first : list Z) (texts : list (list Z))
    (junk : nat -> Z) :
  short_line first -> Forall short_line texts ->
  exists s,
    read_qtc (first ++ [10] ++ comment_lines texts) junk = Done s /\
    buf s = [10] /\ stream_bytes s = [10] /\ BitStream_size s = 8.
Proof.
  intros Hf Ht.
  set (bytes := first ++ [10] ++ comment_lines texts).
  set (p1 := (length first + 1)%nat).
  assert (Hd1 : drop p1 bytes = comment_lines texts).
  { unfold bytes, p1. rewrite app_assoc.
    rewrite <- (app_nil_r (comment_lines texts)) at 2.
    rewrite <- (app_nil_r ((first ++ [10]) ++ comment_lines texts)).
    rewrite <- app_assoc. apply drop_app_length'. rewrite length_app. simpl. lia. }
  assert (Hlen : length bytes = (p1 + length (comment_lines texts))%nat).
  { unfold bytes, p1. rewrite !length_app. simpl. lia. }
  assert (Hlast : drop (length bytes - 1) bytes = [10]).
  { unfold bytes. destruct texts as [|t ts] using rev_ind.
    - cbn [comment_lines map concat]. rewrite app_nil_r.
      rewrite length_app. simpl length.
      replace (length first + 1 - 1)%nat with (length first) by lia.
      apply drop_app_length.
    - unfold comment_lines. rewrite map_app, concat_app. cbn [map concat].
      rewrite app_nil_r.
      change (35 :: t ++ [10]) with ((35 :: t) ++ [10]).
      rewrite !app_assoc. rewrite length_app. simpl length.
      match goal with
      | |- drop (length ?a + 1 - 1) _ = _ =>
          replace (length a + 1 - 1)%nat with (length a) by lia
      end.
      apply drop_app_length. }
  unfold read_qtc, read_bitstream_from_file_Q1.
  change (fopen bytes) with (at_byte bytes 0).
  rewrite (readline_line bytes 0 first (comment_lines texts) Hf) by reflexivity.
  cbn [mbind outcome_bind]. change (0 + length first + 1)%nat with p1.
  unfold ignore_comments. cbn [contents at_byte].
  pose proof (ignore_comments_loop_eof texts (S (length bytes)) bytes p1 Ht) as Hic.
  specialize (Hic ltac:(pose proof (length_comment_lines_ge texts); lia)
                  ltac:(unfold p1; lia) Hd1).
  change {| contents := bytes; position := Z.of_nat p1; pushed_back := [] |}
    with (at_byte bytes p1).
  destruct (fgetc (at_byte bytes p1)) as [c' file1].
  rewrite Hic. cbn [mbind outcome_bind]. rewrite <- Hlen.
  replace (Z.of_nat (length bytes) - 1) with (Z.of_nat (length bytes - 1))
    by (unfold p1 in Hlen; lia).
  destruct (read_bitstream_rest bytes (length bytes - 1) 255 junk) as
    (s & E & Hbuf & _ & _ & _ & Hsb & Hsz).
  { lia. } { rewrite Hlast. repeat constructor; lia. }
  { rewrite Hlast. reflexivity. }
  exists s. rewrite Hlast in Hbuf, Hsb, Hsz. split; [exact E|].
  split; [exact Hbuf|]. split; [exact Hsb|]. exact Hsz.
Qed.

(** X20. [read_bitstream_from_file_Q1] on a file made of a first line, of
    comment lines and of a payload that is not empty and does not start
    with [#]: the stream returned holds exactly the payload, byte for
    byte, ready to be read from its first bit.  The first line is not
    looked at: any line will do for [Q1]. *)
Theorem read_bitstream_from_file_Q1_bytes (first : list Z) (texts : list (list Z))
    (payload : list Z) (junk : nat -> Z) :
  short_line first -> Forall short_line texts ->
  bytes_ok payload -> payload <> [] -> payload !! 0%nat <> Some 35 ->
  Z.of_nat (length payload) < 2 ^ 31 ->
  exists s,
    read_bitstream_from_file_Q1
      (fopen (first ++ [10] ++ comment_lines texts ++ payload)) junk = Done s /\
    buf s = payload /\ start s = 0 /\ ptr s = Z.of_nat (length payload) /\
    capa s = CHAR_BIT /\
    stream_bytes s = payload /\
    BitStream_size s = 8 * Z.of_nat (length payload).
Proof.
  intros Hf Ht Hb Hne H35 Hsmall.
  destruct payload as [|c rest]; [contradiction|].
  apply (read_qtc_spec first texts (c :: rest) c rest junk); auto.
  intros ->. apply H35. reflexivity.
Qed.

Lemma short_line_text (s : String.string) :
  forallb (fun c => (0 <=? c) && (c <? 256) && negb (c =? 10)) (bytes_of s) = true ->
  (length (bytes_of s) <=? 126)%nat = true ->
  short_line (bytes_of s).
Proof.
  intros H1 H2. split; [|apply Nat.leb_le; exact H2].
  apply List.Forall_forall. intros c Hc.
  rewrite List.forallb_forall in H1.
  specialize (H1 c Hc). apply andb_true_iff in H1 as [H1 H3].
  apply andb_true_iff in H1 as [H1 H4].
  apply Z.leb_le in H1. apply Z.ltb_lt in H4. apply negb_true_iff, Z.eqb_neq in H3.
  lia.
Qed.

Lemma read_bitstream_from_file_Q1_bytes_witness :
  short_line (bytes_of "Q1"%string) /\
  Forall short_line [bytes_of " Compression rate 37.50%"%string] /\
  bytes_ok [1; 128; 32] /\ [1; 128; 32] <> [] /\
  [1; 128; 32] !! 0%nat <> Some 35 /\
  Z.of_nat (length [1; 128; 32]) < 2 ^ 31 /\
  exists s,
    read_bitstream_from_file_Q1
      (fopen (bytes_of "Q1"%string ++ [10]
              ++ comment_lines [bytes_of " Compression rate 37.50%"%string]
              ++ [1; 128; 32])) zero_bytes = Done s /\
    buf s = [1; 128; 32] /\ start s = 0 /\
    ptr s = Z.of_nat (length [1; 128; 32]) /\
    capa s = CHAR_BIT /\
    stream_bytes s = [1; 128; 32] /\
    BitStream_size s = 8 * Z.of_nat (length [1; 128; 32]).
Proof.
  assert (H1 : short_line (bytes_of "Q1"%string)) by (apply short_line_text; reflexivity).
  assert (H2 : Forall short_line [bytes_of " Compression rate 37.50%"%string])
    by (constructor; [apply short_line_text; reflexivity | constructor]).
  assert (H3 : bytes_ok [1; 128; 32]) by (repeat constructor; lia).
  split; [exact H1|]. split; [exact H2|]. split; [exact H3|].
  split; [discriminate|]. split; [discriminate|]. split; [reflexivity|].
  apply (read_bitstream_from_file_Q1_bytes (bytes_of "Q1"%string)
           [bytes_of " Compression rate 37.50%"%string] [1; 128; 32] zero_bytes H1 H2 H3);
    [discriminate | discriminate | reflexivity].
Defined.

(** A payload that starts with [#] is taken for a comment up to its first
    newline: here the payload 23 01 0A 02 03 is loaded as 02 03. *)
Lemma read_qtc_payload_hash :
  exists s, read_qtc (bytes_of "Q1"%string ++ [10] ++ [35; 1; 10; 2; 3]) zero_bytes
            = Done s /\
    buf s = [2; 3].
Proof. eexists. split; [vm_compute; reflexivity | reflexivity]. Qed.

(** X28. With an empty payload [read_bitstream_from_file_Q1] neither fails nor
    returns an empty stream: [ignore_comments] pushes back the character
    that [EOF] becomes in an [unsigned char], the position goes one byte
    back, and the stream returned holds the newline that ends the
    header. *)
Theorem read_bitstream_from_file_Q1_empty_payload (first : list Z)
    (texts : list (list Z)) (junk : nat -> Z) :
  short_line first -> Forall short_line texts ->
  exists s,
    read_bitstream_from_file_Q1 (fopen (first ++ [10] ++ comment_lines texts)) junk
      = Done s /\
    buf s = [10] /\ stream_bytes s = [10] /\ BitStream_size s = 8.
Proof. exact (read_qtc_empty_payload first texts junk). Qed.

Lemma read_bitstream_from_file_Q1_empty_payload_witness :
  short_line (bytes_of "Q1"%string) /\ Forall short_line [bytes_of " no data"%string] /\
  exists s,
    read_bitstream_from_file_Q1
      (fopen (bytes_of "Q1"%string ++ [10] ++ comment_lines [bytes_of " no data"%string]))
      zero_bytes = Done s /\
    buf s = [10] /\ stream_bytes s = [10] /\ BitStream_size s = 8.
Proof.
  assert (H1 : short_line (bytes_of "Q1"%string)) by (apply short_line_text; reflexivity).
  assert (H2 : Forall short_line [bytes_of " no data"%string])
    by (constructor; [apply short_line_text; reflexivity | constructor]).
  split; [exact H1|]. split; [exact H2|].
  apply (read_bitstream_from_file_Q1_empty_payload (bytes_of "Q1"%string)
           [bytes_of " no data"%string] zero_bytes H1 H2).
Defined.

(** ** quadtree.c: the node block *)

(** X8. [create_empty_quadtree], for up to 15 levels: the tree has
    [(4^(levels+1) - 1) / 3] nodes, the node block has that many cells, and
    both variances start at zero; a negative number of levels gives a tree
    with no node at all. *)
Theorem create_empty_quadtree_count (lv : Z) (junk : nat -> Node) :
  lv <= 15 ->
  levels (create_empty_quadtree lv junk) = lv /\
  Z.of_nat (length (nodes (create_empty_quadtree lv junk)))
    = total_nodes (create_empty_quadtree lv junk) /\
  3 * total_nodes (create_empty_quadtree lv junk) + 1 = 4 ^ Z.max 0 (lv + 1) /\
  total_nodes (create_empty_quadtree lv junk) < 2 ^ 31 /\
  medvar (create_empty_quadtree lv junk) = 0%float /\
  maxvar (create_empty_quadtree lv junk) = 0%float.
Proof.
  intros Hlv. unfold create_empty_quadtree. cbn [levels nodes total_nodes medvar maxvar].
  pose proof (count_nodes_spec (Z.to_nat (lv + 1)) 0 0) as Hc.
  change (Z.of_nat 0) with 0 in Hc. simpl first_index in Hc at 2.
  rewrite Hc, Nat.add_0_l, Z.add_0_l, Z.sub_0_r.
  pose proof (first_index_closed (Z.to_nat (lv + 1))) as H3.
  pose proof (first_index_nonneg (Z.to_nat (lv + 1))) as H0.
  assert (Hm : Z.of_nat (Z.to_nat (lv + 1)) = Z.max 0 (lv + 1)) by lia.
  rewrite Hm in H3.
  split; [reflexivity|]. split; [rewrite length_malloc; lia|].
  split; [exact H3|]. split; [|split; reflexivity].
  assert (4 ^ Z.max 0 (lv + 1) <= 4 ^ 16) by (apply Z.pow_le_mono_r; lia).
  change (4 ^ 16) with 4294967296 in *. change (2 ^ 31) with 2147483648. lia.
Qed.

Lemma create_empty_quadtree_count_witness :
  2 <= 15 /\
  levels (create_empty_quadtree 2 zero_nodes) = 2 /\
  Z.of_nat (length (nodes (create_empty_quadtree 2 zero_nodes)))
    = total_nodes (create_empty_quadtree 2 zero_nodes) /\
  3 * total_nodes (create_empty_quadtree 2 zero_nodes) + 1 = 4 ^ Z.max 0 (2 + 1) /\
  total_nodes (create_empty_quadtree 2 zero_nodes) < 2 ^ 31 /\
  medvar (create_empty_quadtree 2 zero_nodes) = 0%float /\
  maxvar (create_empty_quadtree 2 zero_nodes) = 0%float.
Proof.
  split; [lia|]. apply (create_empty_quadtree_count 2 zero_nodes). lia.
Defined.

(** X9. [is_leaf] in a tree of [n] levels below the root: the leaves are the
    last [4^n] nodes; a node that is not a leaf has its four children
    inside the node block, and a leaf has none. *)
Theorem is_leaf_children (q : Quadtree) (n : nat) (i : Z) :
  shape q n -> (n <= 15)%nat -> 0 <= i < total_nodes q ->
  (is_leaf q i = true <-> total_nodes q - 4 ^ Z.of_nat n <= i) /\
  (is_leaf q i = false -> 4 * i + 4 < total_nodes q) /\
  (is_leaf q i = true -> total_nodes q <= 4 * i + 1).
Proof.
  intros Hsh _ Hi. rewrite (is_leaf_shape q n i Hsh).
  destruct Hsh as (_ & Ht & _). rewrite Ht in *.
  pose proof (first_index_succ n) as Hs.
  pose proof (first_index_closed n) as H3.
  cbn [first_index] in *.
  split; [|split].
  - rewrite Z.leb_le. lia.
  - intros H. apply Z.leb_gt in H. lia.
  - intros H. apply Z.leb_le in H. lia.
Qed.

Lemma is_leaf_children_witness :
  shape (create_empty_quadtree 1 zero_nodes) 1 /\ (1 <= 15)%nat /\
  0 <= 0 < total_nodes (create_empty_quadtree 1 zero_nodes) /\
  (is_leaf (create_empty_quadtree 1 zero_nodes) 0 = true <->
   total_nodes (create_empty_quadtree 1 zero_nodes) - 4 ^ Z.of_nat 1 <= 0) /\
  (is_leaf (create_empty_quadtree 1 zero_nodes) 0 = false ->
   4 * 0 + 4 < total_nodes (create_empty_quadtree 1 zero_nodes)) /\
  (is_leaf (create_empty_quadtree 1 zero_nodes) 0 = true ->
   total_nodes (create_empty_quadtree 1 zero_nodes) <= 4 * 0 + 1).
Proof.
  assert (Hs : shape (create_empty_quadtree 1 zero_nodes) 1)
    by apply (create_empty_quadtree_shape 1 zero_nodes).
  assert (Hi : 0 <= 0 < total_nodes (create_empty_quadtree 1 zero_nodes))
    by (vm_compute; split; [discriminate | reflexivity]).
  split; [exact Hs|]. split; [lia|]. split; [exact Hi|].
  apply (is_leaf_children (create_empty_quadtree 1 zero_nodes) 1 0 Hs); [lia | exact Hi].
Defined.

(** ** encode.c: what the builder stores *)

Lemma built_leaf_node (img : Image) (ns : list Node) (d : nat) :
  forall (index x y dx dy : Z),
  built img ns d (2 ^ Z.of_nat d) index x y ->
  0 <= dx < 2 ^ Z.of_nat d -> 0 <= dy < 2 ^ Z.of_nat d ->
  exists pixel,
    load (image img) ((y + dy) * width img + (x + dx)) = Done pixel /\
    load ns (leaf_index d index dx dy) = Done (leaf_node pixel).
Proof.
  induction d as [|d IH]; intros index x y dx dy Hb Hdx Hdy.
  - change (2 ^ Z.of_nat 0) with 1 in *.
    replace dx with 0 by lia. replace dy with 0 by lia. rewrite !Z.add_0_r.
    cbn [built] in Hb. destruct Hb as (pixel & Hp & Hn).
    exists pixel. split; [exact Hp | exact Hn].
  - cbn [built] in Hb. rewrite quot_pow2 in Hb. rewrite pow2_succ in *.
    pose proof (pow2_pos d) as Hpd. cbn [leaf_index].
    set (c := 2 ^ Z.of_nat d) in *.
    destruct Hb as (H1 & H2 & H3 & H4 & _).
    destruct (Z.ltb_spec dx c), (Z.ltb_spec dy c).
    + apply IH; auto; lia.
    + destruct (IH _ _ _ dx (dy - c) H4) as (px & P & L); try lia.
      exists px. split; [|exact L]. rewrite <- P. f_equal. lia.
    + destruct (IH _ _ _ (dx - c) dy H2) as (px & P & L); try lia.
      exists px. split; [|exact L]. rewrite <- P. f_equal. lia.
    + destruct (IH _ _ _ (dx - c) (dy - c) H3) as (px & P & L); try lia.
      exists px. split; [|exact L]. rewrite <- P. f_equal. lia.
Qed.

(** X10. The builder stores every pixel in a leaf: the pixel [(x, y)] is the
    mean of the leaf [leaf_index n 0 x y], whose [epsilon] is 0, whose [u]
    is 1 and whose variance is 0. *)
Theorem built_leaves_hold_pixels (n : nat) (img : Image) (fuel : nat)
    (junk : nat -> Node) :
  valid_raster n img -> (n <= 15)%nat -> (n < fuel)%nat ->
  exists q, build_quadtree_from_image fuel img junk = Done q /\
    levels q = Z.of_nat n /\
    forall x y, 0 <= x < width img -> 0 <= y < width img ->
      exists pixel,
        load (image img) (y * width img + x) = Done pixel /\
        is_leaf q (leaf_index n 0 x y) = true /\
        load (nodes q) (leaf_index n 0 x y) = Done (leaf_node pixel).
Proof.
  intros Hvalid _ Hfuel.
  destruct (build_valid_raster n img junk fuel Hvalid Hfuel) as
    (q & E & Hsh & _ & Hb).
  destruct Hvalid as (Hw & _ & _).
  exists q. split; [exact E|]. split; [apply Hsh|].
  intros x y Hx Hy. rewrite Hw in Hx, Hy.
  destruct (built_leaf_node img (nodes q) n 0 0 0 x y Hb Hx Hy) as (px & P & L).
  rewrite !Z.add_0_l in P.
  exists px. split; [exact P|]. split; [|exact L].
  rewrite (is_leaf_shape q n _ Hsh). apply Z.leb_le.
  pose proof (leaf_index_level n 0%nat 0 x y at_level_root) as Hlvl.
  unfold at_level in Hlvl. simpl Nat.add in Hlvl. lia.
Qed.

Lemma built_leaves_hold_pixels_witness :
  valid_raster 1 raster_2x2 /\ (1 <= 15)%nat /\ (1 < 2)%nat /\
  exists q, build_quadtree_from_image 2 raster_2x2 zero_nodes = Done q /\
    levels q = Z.of_nat 1 /\
    forall x y, 0 <= x < width raster_2x2 -> 0 <= y < width raster_2x2 ->
      exists pixel,
        load (image raster_2x2) (y * width raster_2x2 + x) = Done pixel /\
        is_leaf q (leaf_index 1 0 x y) = true /\
        load (nodes q) (leaf_index 1 0 x y) = Done (leaf_node pixel).
Proof.
  split; [exact raster_2x2_valid|]. split; [lia|]. split; [lia|].
  apply (built_leaves_hold_pixels 1 raster_2x2 2 zero_nodes);
    [exact raster_2x2_valid | lia | lia].
Defined.

(** X11. Every node of a built tree holds a mean between 0 and 255, an epsilon
    between 0 and 3 and a uniformity bit; a uniform node has epsilon 0, a
    leaf is uniform, and the four children of a uniform node are uniform
    with the mean of their parent. *)
Theorem built_tree_invariants (n : nat) (img : Image) (fuel : nat)
    (junk : nat -> Node) :
  valid_raster n img -> (n <= 15)%nat -> (n < fuel)%nat ->
  exists q, build_quadtree_from_image fuel img junk = Done q /\
    levels q = Z.of_nat n /\
    3 * total_nodes q + 1 = 4 ^ Z.of_nat (S n) /\
    Z.of_nat (length (nodes q)) = total_nodes q /\
    forall j, 0 <= j < total_nodes q ->
      exists nd, load (nodes q) j = Done nd /\
        0 <= moyenne nd < 256 /\ 0 <= epsilon nd < 4 /\
        (u nd = 0 \/ u nd = 1) /\ (u nd = 1 -> epsilon nd = 0) /\
        (is_leaf q j = true -> epsilon nd = 0 /\ u nd = 1) /\
        (is_leaf q j = false -> u nd = 1 ->
         forall a, 1 <= a <= 4 ->
         exists c, load (nodes q) (4 * j + a) = Done c /\
           moyenne c = moyenne nd /\ epsilon c = 0 /\ u c = 1).
Proof.
  intros Hvalid _ Hfuel.
  destruct (build_valid_raster n img junk fuel Hvalid Hfuel) as
    (q & E & Hsh & Hco & _).
  exists q. split; [exact E|]. pose proof Hsh as (Hl & Ht & Hlen).
  split; [exact Hl|]. split; [rewrite Ht; apply first_index_closed|].
  split; [congruence|].
  intros j Hj. rewrite Ht in Hj.
  destruct (Hco j Hj) as [(nd & L & (Hm & He & Hu & Hx) & Hleaf) Hfam].
  exists nd. split; [exact L|]. split; [exact Hm|]. split; [exact He|].
  split; [exact Hu|].
  split; [intros H1; destruct (Z.eq_dec (epsilon nd) 0); [assumption|];
          specialize (Hx ltac:(assumption)); lia|].
  rewrite (is_leaf_shape q n j Hsh).
  split.
  - intros H. apply Z.leb_le in H. apply Hleaf. exact H.
  - intros H Hu1 a Ha. apply Z.leb_gt in H.
    destruct (Hfam H) as (p & n1 & n2 & n3 & n4 & Lp & L1 & L2 & L3 & L4 & _ & Hun).
    assert (p = nd) by congruence. subst p.
    specialize (Hun ltac:(lia)).
    inversion Hun as [|? ? P1 Hun2]; subst.
    inversion Hun2 as [|? ? P2 Hun3]; subst.
    inversion Hun3 as [|? ? P3 Hun4]; subst.
    inversion Hun4 as [|? ? P4 _]; subst.
    assert (a = 1 \/ a = 2 \/ a = 3 \/ a = 4) as [->|[->|[->| ->]]] by lia;
      eexists; (split; [eassumption|]); tauto.
Qed.

Lemma built_tree_invariants_witness :
  valid_raster 1 raster_2x2 /\ (1 <= 15)%nat /\ (1 < 2)%nat /\
  exists q, build_quadtree_from_image 2 raster_2x2 zero_nodes = Done q /\
    levels q = Z.of_nat 1 /\
    3 * total_nodes q + 1 = 4 ^ Z.of_nat 2 /\
    Z.of_nat (length (nodes q)) = total_nodes q /\
    forall j, 0 <= j < total_nodes q ->
      exists nd, load (nodes q) j = Done nd /\
        0 <= moyenne nd < 256 /\ 0 <= epsilon nd < 4 /\
        (u nd = 0 \/ u nd = 1) /\ (u nd = 1 -> epsilon nd = 0) /\
        (is_leaf q j = true -> epsilon nd = 0 /\ u nd = 1) /\
        (is_leaf q j = false -> u nd = 1 ->
         forall a, 1 <= a <= 4 ->
         exists c, load (nodes q) (4 * j + a) = Done c /\
           moyenne c = moyenne nd /\ epsilon c = 0 /\ u c = 1).
Proof.
  split; [exact raster_2x2_valid|]. split; [lia|]. split; [lia|].
  apply (built_tree_invariants 1 raster_2x2 2 zero_nodes);
    [exact raster_2x2_valid | lia | lia].
Defined.

(** ** encode.c: the uniformity bit of a built tree *)

Lemma block_is_sub (img : Image) (x y size c x1 y1 size1 : Z) :
  x <= x1 -> x1 + size1 <= x + size -> y <= y1 -> y1 + size1 <= y + size ->
  block_is img x y size c -> block_is img x1 y1 size1 c.
Proof. intros ? ? ? ? H x' y' Hx Hy. apply H; lia. Qed.

Section BuiltBlock.

Variable img : Image.
Variable ns : list Node.
Hypothesis pixels_bytes : Forall (fun p => 0 <= p < 256) (image img).

Lemma built_block (d : nat) :
  forall (i x y : Z),
  built img ns d (2 ^ Z.of_nat d) i x y ->
  exists nd, load ns i = Done nd /\ byte_fields nd /\
    (u nd = 1 -> block_is img x y (2 ^ Z.of_nat d) (moyenne nd)) /\
    (forall c, block_is img x y (2 ^ Z.of_nat d) c -> u nd = 1 /\ moyenne nd = c).
Proof.
  induction d as [|d IH]; intros i x y Hb.
  - change (2 ^ Z.of_nat 0) with 1 in *. cbn [built] in Hb.
    destruct Hb as (pixel & Hp & Hn).
    exists (leaf_node pixel). split; [exact Hn|].
    pose proof Hp as Hp'. apply load_Done in Hp'. destruct Hp' as [_ Hp'].
    pose proof (Forall_lookup_1 _ _ _ _ pixels_bytes Hp') as Hr. simpl in Hr.
    split; [unfold byte_fields; cbn [leaf_node moyenne epsilon u];
            repeat split; auto; lia|].
    cbn [leaf_node moyenne u]. split.
    + intros _ x' y' Hx Hy. replace x' with x by lia. replace y' with y by lia.
      exact Hp.
    + intros c Hc. split; [reflexivity|].
      specialize (Hc x y ltac:(lia) ltac:(lia)). congruence.
  - cbn [built] in Hb. rewrite quot_pow2 in Hb. rewrite pow2_succ.
    pose proof (pow2_pos d) as Hpd. set (c := 2 ^ Z.of_nat d) in *.
    destruct Hb as (H1 & H2 & H3 & H4 & n1 & n2 & n3 & n4 & L1 & L2 & L3 & L4 & L).
    destruct (IH _ _ _ H1) as (m1 & M1 & F1 & U1 & C1).
    destruct (IH _ _ _ H2) as (m2 & M2 & F2 & U2 & C2).
    destruct (IH _ _ _ H3) as (m3 & M3 & F3 & U3 & C3).
    destruct (IH _ _ _ H4) as (m4 & M4 & F4 & U4 & C4).
    assert (m1 = n1) by congruence. assert (m2 = n2) by congruence.
    assert (m3 = n3) by congruence. assert (m4 = n4) by congruence.
    subst m1 m2 m3 m4.
    destruct (parent_node_fields n1 n2 n3 n4 F1 F2 F3 F4) as [Fp [Hsum Hun]].
    exists (parent_node n1 n2 n3 n4). split; [exact L|]. split; [exact Fp|].
    split.
    + intros Hu. specialize (Hun ltac:(lia)).
      inversion Hun as [|? ? P1 Hun2]; subst.
      inversion Hun2 as [|? ? P2 Hun3]; subst.
      inversion Hun3 as [|? ? P3 Hun4]; subst.
      inversion Hun4 as [|? ? P4 _]; subst.
      destruct P1 as (E1 & _ & V1), P2 as (E2 & _ & V2),
               P3 as (E3 & _ & V3), P4 as (E4 & _ & V4).
      specialize (U1 V1). specialize (U2 V2). specialize (U3 V3). specialize (U4 V4).
      rewrite E1 in U1. rewrite E2 in U2. rewrite E3 in U3. rewrite E4 in U4.
      intros x' y' Hx Hy.
      destruct (Z.lt_ge_cases x' (x + c)), (Z.lt_ge_cases y' (y + c)).
      * apply U1; lia.
      * apply U4; lia.
      * apply U2; lia.
      * apply U3; lia.
    + intros k Hk.
      destruct (C1 k) as [V1 E1]; [eapply block_is_sub; [| | | |exact Hk]; lia|].
      destruct (C2 k) as [V2 E2]; [eapply block_is_sub; [| | | |exact Hk]; lia|].
      destruct (C3 k) as [V3 E3]; [eapply block_is_sub; [| | | |exact Hk]; lia|].
      destruct (C4 k) as [V4 E4]; [eapply block_is_sub; [| | | |exact Hk]; lia|].
      destruct F1 as (R1 & _).
      unfold parent_node. cbn [u moyenne].
      rewrite E1, E2, E3, E4, V1, V2, V3, V4, !Z.eqb_refl. cbn [andb].
      split; [reflexivity|].
      replace (k + k + k + k) with (k * 4) by lia.
      rewrite Z.quot_mul by lia. unfold byte_of. apply Z.mod_small. lia.
Qed.

Lemma built_walk (path : list Z) :
  forall (d : nat) (i x y size' i' x' y' : Z),
  quadrants path -> (length path <= d)%nat ->
  built img ns d (2 ^ Z.of_nat d) i x y ->
  walk path (2 ^ Z.of_nat d) i x y = (size', i', x', y') ->
  size' = 2 ^ Z.of_nat (d - length path) /\
  built img ns (d - length path) size' i' x' y'.
Proof.
  induction path as [|a path IH]; intros d i x y size' i' x' y' Hq Hlen Hb Hw.
  - cbn [walk] in Hw. inversion Hw; subst. simpl length.
    rewrite Nat.sub_0_r. auto.
  - destruct d as [|d]; [simpl in Hlen; lia|].
    cbn [walk] in Hw. rewrite quot_pow2 in Hw.
    cbn [built] in Hb. rewrite quot_pow2 in Hb.
    destruct Hb as (H1 & H2 & H3 & H4 & _).
    inversion Hq as [|? ? Ha Hq']; subst.
    simpl length. replace (S d - S (length path))%nat with (d - length path)%nat by lia.
    simpl in Hlen.
    assert (a = 1 \/ a = 2 \/ a = 3 \/ a = 4) as [->|[->|[->| ->]]] by lia;
      cbn [Z.eqb Pos.eqb orb] in Hw;
      eapply IH; try exact Hw; auto; lia.
Qed.

End BuiltBlock.

(** X12. The uniformity bit of a built tree says what it is meant to say: a
    node, reached from the root by any path of quadrants, has [u = 1]
    exactly when all the pixels of its block have the same value, and that
    value is then its mean. *)
Theorem built_uniform_flag (n : nat) (img : Image) (fuel : nat)
    (junk : nat -> Node) :
  valid_raster n img -> (n <= 15)%nat -> (n < fuel)%nat ->
  exists q, build_quadtree_from_image fuel img junk = Done q /\
    forall path size i x y,
      quadrants path -> (length path <= n)%nat ->
      walk path (width img) 0 0 0 = (size, i, x, y) ->
      exists nd, load (nodes q) i = Done nd /\
        (u nd = 0 \/ u nd = 1) /\
        (u nd = 1 <-> exists c, block_is img x y size c) /\
        (u nd = 1 -> block_is img x y size (moyenne nd)).
Proof.
  intros Hvalid _ Hfuel.
  destruct (build_valid_raster n img junk fuel Hvalid Hfuel) as
    (q & E & _ & _ & Hb).
  destruct Hvalid as (Hw & _ & Hpx).
  exists q. split; [exact E|].
  intros path size i x y Hq Hlen Hwalk. rewrite Hw in Hwalk.
  destruct (built_walk img (nodes q) path n 0 0 0 size i x y Hq Hlen Hb Hwalk)
    as [-> Hb'].
  destruct (built_block img (nodes q) Hpx _ _ _ _ Hb') as (nd & L & F & U & C).
  exists nd. split; [exact L|]. split; [apply F|]. split; [|exact U].
  split.
  - intros H. exists (moyenne nd). apply U. exact H.
  - intros [c Hc]. apply (C c Hc).
Qed.

Lemma built_uniform_flag_witness :
  valid_raster 1 raster_uniform_2x2 /\ (1 <= 15)%nat /\ (1 < 2)%nat /\
  exists q, build_quadtree_from_image 2 raster_uniform_2x2 zero_nodes = Done q /\
    forall path size i x y,
      quadrants path -> (length path <= 1)%nat ->
      walk path (width raster_uniform_2x2) 0 0 0 = (size, i, x, y) ->
      exists nd, load (nodes q) i = Done nd /\
        (u nd = 0 \/ u nd = 1) /\
        (u nd = 1 <-> exists c, block_is raster_uniform_2x2 x y size c) /\
        (u nd = 1 -> block_is raster_uniform_2x2 x y size (moyenne nd)).
Proof.
  assert (H : valid_raster 1 raster_uniform_2x2).
  { unfold valid_raster. simpl. split; [reflexivity|]. split; [reflexivity|].
    repeat constructor; lia. }
  split; [exact H|]. split; [lia|]. split; [lia|].
  apply (built_uniform_flag 1 raster_uniform_2x2 2 zero_nodes); [exact H | lia | lia].
Defined.

(** ** decode.c after encode.c: painting a tree that was built *)

Lemma paint_same_means (n : nat) (img : Image) (q q' : Quadtree) (fuel : nat)
    (junkI : nat -> Z) :
  valid_raster n img -> (n < fuel)%nat ->
  built img (nodes q) n (2 ^ Z.of_nat n) 0 0 0 ->
  shape q' n ->
  (forall j nd, load (nodes q) j = Done nd ->
     exists nd', load (nodes q') j = Done nd' /\ moyenne nd' = moyenne nd) ->
  exists im, build_image_from_quadtree fuel q' junkI = Done im /\
    width im = width img /\ image im = image img.
Proof.
  intros (Hw & Hlen & Hpx) Hfuel Hb Hsh' Hag.
  destruct (build_image_from_quadtree_spec q' n fuel junkI Hsh' Hfuel) as
    (im & Ep & Hwi & Hli & Hpix).
  exists im. split; [exact Ep|]. split; [congruence|].
  pose proof (pow2_pos n) as Hp.
  apply image_ext with (w := 2 ^ Z.of_nat n); auto; try congruence.
  intros x y Hx Hy. rewrite Hpix by assumption.
  destruct (built_leaf img (nodes q) n 0 0 0 x y Hb Hx Hy) as (nd & Lq & Lp).
  rewrite !Z.add_0_l, Hw in Lp. rewrite Lp.
  destruct (Hag _ _ Lq) as (nd' & L' & Hm).
  unfold node_moyenne. rewrite L'. congruence.
Qed.

(** X17. The painter undoes the builder: painting the tree built from a raster
    gives the raster back, whatever its size (a single pixel included).
    The filter does not change this, since it never changes a mean:
    the loss of the lossy mode comes from the decoder, not from the tree. *)
Theorem paint_after_build (n : nat) (img : Image) (fuel : nat)
    (junk : nat -> Node) (junkI : nat -> Z) (alpha : float) :
  valid_raster n img -> (n <= 15)%nat -> (n < fuel)%nat ->
  exists q im q1 r im1,
    build_quadtree_from_image fuel img junk = Done q /\
    build_image_from_quadtree fuel q junkI = Done im /\
    width im = width img /\ image im = image img /\
    main_filtrage fuel q alpha = Done (q1, r) /\
    build_image_from_quadtree fuel q1 junkI = Done im1 /\
    width im1 = width img /\ image im1 = image img.
Proof.
  intros Hvalid _ Hfuel.
  destruct (build_valid_raster n img junk fuel Hvalid Hfuel) as
    (q & E & Hsh & _ & Hb).
  destruct (filter_built n img fuel junk alpha Hvalid Hfuel) as
    (q0 & q1 & r & E0 & Ef & Ht & Hl & _ & _ & Hfn & _).
  assert (q0 = q) by congruence. subst q0.
  destruct (paint_same_means n img q q fuel junkI Hvalid Hfuel Hb Hsh) as
    (im & Ep & Hwi & Him); [eauto|].
  destruct Hfn as [Hlen Hnodes].
  destruct (paint_same_means n img q q1 fuel junkI Hvalid Hfuel Hb) as
    (im1 & Ep1 & Hwi1 & Him1).
  { destruct Hsh as (A & B & C). unfold shape. rewrite Hl, Ht, Hlen. auto. }
  { intros j nd L. destruct (Hnodes j nd L) as (nd' & L' & Hm & _). eauto. }
  exists q, im, q1, r, im1. auto 10.
Qed.

Lemma paint_after_build_witness :
  valid_raster 2 raster_4x4 /\ (2 <= 15)%nat /\ (2 < 3)%nat /\
  exists q im q1 r im1,
    build_quadtree_from_image 3 raster_4x4 zero_nodes = Done q /\
    build_image_from_quadtree 3 q zero_bytes = Done im /\
    width im = width raster_4x4 /\ image im = image raster_4x4 /\
    main_filtrage 3 q 1.5%float = Done (q1, r) /\
    build_image_from_quadtree 3 q1 zero_bytes = Done im1 /\
    width im1 = width raster_4x4 /\ image im1 = image raster_4x4.
Proof.
  split; [exact raster_4x4_valid|]. split; [lia|]. split; [lia|].
  apply (paint_after_build 2 raster_4x4 3 zero_nodes zero_bytes 1.5%float);
    [exact raster_4x4_valid | lia | lia].
Defined.

(** ** encode.c: the size and the bytes of the encoded stream *)

Lemma encode_loop_bytes (k : nat) (q : Quadtree) :
  forall (i : Z) (s s' : BitStream),
  0 <= i -> i + Z.of_nat k <= Z.of_nat (length (nodes q)) ->
  encode_loop k q i s = Done s' -> bytes_ok (buf s) -> bytes_ok (buf s').
Proof.
  intros i s s' Hi Hk H Hb. rewrite encode_loop_push in H by assumption.
  eapply push_fields_bytes; eauto.
Qed.

Lemma encode_into_full (q : Quadtree) (n : nat) (s0 : BitStream) :
  shape q n -> 0 <= levels q < 256 ->
  capa s0 = 8 -> start s0 = 0 -> ptr s0 = 0 -> bytes_ok (buf s0) ->
  8 + bits_len (loop_fields (Z.to_nat (total_nodes q)) q 0)
    <= 8 * Z.of_nat (length (buf s0)) ->
  exists s, encode_into s0 q = Done s /\
    capa s = 8 /\ start s = 0 /\ length (buf s) = length (buf s0) /\
    8 + bits_len (loop_fields (Z.to_nat (total_nodes q)) q 0) <= 8 * ptr s /\
    8 * ptr s < 8 + bits_len (loop_fields (Z.to_nat (total_nodes q)) q 0) + 8 /\
    spells (buf s) 0 ((levels q, 8) :: loop_fields (Z.to_nat (total_nodes q)) q 0) /\
    bytes_ok (buf s) /\
    (forall p, 8 + bits_len (loop_fields (Z.to_nat (total_nodes q)) q 0) <= p < 8 * ptr s ->
       sbit (buf s) p = false).
Proof.
  intros Hsh Hlv Hcapa Hstart Hptr Hb0 Hlen.
  pose proof Hsh as (Hl & Ht & Hn).
  pose proof (first_index_nonneg (S n)) as HT.
  set (fs := loop_fields (Z.to_nat (total_nodes q)) q 0) in *.
  destruct (loop_fields_widths (Z.to_nat (total_nodes q)) q 0) as [Hw Hb].
  fold fs in Hw, Hb.
  assert (Hwall : widths_ok ((levels q, 8) :: fs))
    by (constructor; [simpl; lia | assumption]).
  assert (Hw0 : wpos s0 = 0) by (unfold wpos; lia).
  destruct (push_fields_spec ((levels q, 8) :: fs) s0) as
    (s2 & E2 & Hl2 & Hst2 & Hc2 & Hp2 & Hwp2 & Hsp2 & _); auto.
  { unfold capa_ok. lia. } { lia. }
  { rewrite Hw0. cbn [bits_len]. lia. }
  pose proof (bits_len_nonneg _ Hw) as Hnn.
  cbn [bits_len] in Hwp2.
  destruct (finishBitStream_full s2) as
    (s3 & E3 & Hl3 & Hst3 & Hc3 & _ & _ & Hfr3 & Hpad3 & _); auto.
  { rewrite Hwp2, Hl2. lia. }
  destruct (finishBitStream_spec s2) as
    (s3' & E3' & _ & _ & _ & _ & Hwp3 & _); auto.
  { rewrite Hwp2, Hl2. lia. }
  assert (s3' = s3) by congruence. subst s3'.
  assert (Hw3 : wpos s3 = 8 * ptr s3) by (unfold wpos; rewrite Hc3; unfold CHAR_BIT; lia).
  exists s3. split.
  - unfold encode_into. cbn [push_fields] in E2.
    destruct (push_n_bits s0 (levels q) 8) as [s1| | |]; cbn [mbind outcome_bind] in *;
      try discriminate.
    rewrite encode_loop_push by lia. fold fs. rewrite E2. exact E3.
  - split; [exact Hc3|]. split; [congruence|]. split; [congruence|].
    split; [lia|]. split; [lia|].
    split.
    { apply spells_ext with (m := buf s2); auto; try lia.
      + intros k Hk. apply Hfr3. cbn [bits_len] in Hk. lia.
      + rewrite Hw0 in Hsp2. assumption. }
    split.
    { eapply finishBitStream_bytes; [exact E3|].
      eapply push_fields_bytes; [exact E2 | exact Hb0]. }
    intros p Hp. apply Hpad3. lia.
Qed.

Lemma encode_fits_spec (q : Quadtree) (n : nat) (junk : nat -> Z) :
  shape q n -> (1 <= n <= 14)%nat ->
  exists s, encode q junk = Done s /\
    start s = 0 /\ capa s = CHAR_BIT /\
    Z.of_nat (length (buf s)) = 2 * total_nodes q /\
    2 <= ptr s <= 2 * total_nodes q /\
    8 * ptr s <= 8 + 11 * total_nodes q + 7 /\
    BitStream_size s = 8 * ptr s /\
    (forall j, 0 <= j < 8 -> sbit (buf s) j = Z.testbit (levels q) (7 - j)).
Proof.
  intros Hsh Hn. pose proof Hsh as (Hl & Ht & Hlen).
  pose proof (first_index_ge_5 n ltac:(lia)) as H5.
  destruct (loop_fields_widths (Z.to_nat (total_nodes q)) q 0) as [Hw Hb].
  pose proof (bits_len_nonneg _ Hw) as Hnn.
  destruct (encode_into_full q n (initBitStream (total_nodes q * 2) junk) Hsh)
    as (s & E & Hc & Hs & Hlb & Hp1 & Hp2 & Hsp & _); auto; try lia.
  { apply malloc_bytes_ok. }
  { cbn [initBitStream buf]. rewrite length_malloc. lia. }
  exists s. split; [exact E|]. split; [exact Hs|]. split; [exact Hc|].
  assert (Hlen' : Z.of_nat (length (buf s)) = 2 * total_nodes q).
  { rewrite Hlb. cbn [initBitStream buf]. rewrite length_malloc. lia. }
  split; [exact Hlen'|].
  assert (Hroot : 2 <= bits_len (loop_fields (Z.to_nat (total_nodes q)) q 0)).
  { destruct (Z.to_nat (total_nodes q)) as [|k] eqn:Ek; [lia|].
    cbn [loop_fields]. rewrite bits_len_app.
    destruct (loop_fields_widths k q (0 + 1)) as [Hwk _].
    pose proof (bits_len_nonneg _ Hwk) as Hk0.
    assert (2 <= bits_len (step_fields q 0)); [|lia].
    unfold step_fields.
    destruct (load_in_range (nodes q) 0) as [nd Lnd]; [lia|].
    rewrite Lnd. rewrite Z.eqb_refl. unfold write_node_fields.
    rewrite bits_len_app.
    destruct (node_part_widths nd) as [Hwp _].
    assert (0 <= bits_len (if negb (Z.rem 0 4 =? 0) || (0 =? 0)
                           then [(moyenne nd, 8)] else [])).
    { destruct (negb (Z.rem 0 4 =? 0) || (0 =? 0)); simpl; lia. }
    unfold node_part in *. cbn [bits_len].
    destruct (epsilon nd =? 0); cbn [bits_len]; lia. }
  rewrite Z2Nat.id in Hb by lia.
  split; [lia|]. split; [lia|].
  split.
  { pose proof (first_index_closed (S n)) as Hcl.
    assert (Hpow : 4 ^ Z.of_nat (S n) <= 4 ^ 15) by (apply Z.pow_le_mono_r; lia).
    assert (H415 : 4 ^ 15 = 1073741824) by reflexivity.
    unfold BitStream_size, size_t_of, CHAR_BIT.
    rewrite Z.mod_small; [lia|].
    assert (H264 : 2 ^ 64 = 18446744073709551616) by reflexivity. lia. }
  intros j Hj. cbn [spells] in Hsp. destruct Hsp as [Hh _].
  specialize (Hh j Hj). rewrite Z.add_0_l in Hh. rewrite Hh. f_equal; lia.
Qed.

(** X14. [encode] never leaves its buffer when the tree has at least one level
    below the root (and at most 14, so that [total_nodes * 2] is an [int]):
    whatever the nodes hold, at most 11 bits are written per node, the
    stream starts with the number of levels, ends on a byte boundary and
    takes between 2 bytes and the 2 bytes per node that were allocated. *)
Theorem encode_fits_buffer (q : Quadtree) (n : nat) (junk : nat -> Z) :
  shape q n -> (1 <= n <= 14)%nat ->
  exists s, encode q junk = Done s /\
    start s = 0 /\ capa s = CHAR_BIT /\
    Z.of_nat (length (buf s)) = 2 * total_nodes q /\
    2 <= ptr s <= 2 * total_nodes q /\
    8 * ptr s <= 8 + 11 * total_nodes q + 7 /\
    BitStream_size s = 8 * ptr s /\
    (forall j, 0 <= j < 8 -> sbit (buf s) j = Z.testbit (levels q) (7 - j)).
Proof. exact (encode_fits_spec q n junk). Qed.

Lemma encode_fits_buffer_witness :
  shape (create_empty_quadtree 1 zero_nodes) 1 /\ (1 <= 1 <= 14)%nat /\
  exists s, encode (create_empty_quadtree 1 zero_nodes) zero_bytes = Done s /\
    start s = 0 /\ capa s = CHAR_BIT /\
    Z.of_nat (length (buf s)) = 2 * total_nodes (create_empty_quadtree 1 zero_nodes) /\
    2 <= ptr s <= 2 * total_nodes (create_empty_quadtree 1 zero_nodes) /\
    8 * ptr s <= 8 + 11 * total_nodes (create_empty_quadtree 1 zero_nodes) + 7 /\
    BitStream_size s = 8 * ptr s /\
    (forall j, 0 <= j < 8 ->
       sbit (buf s) j = Z.testbit (levels (create_empty_quadtree 1 zero_nodes)) (7 - j)).
Proof.
  assert (Hs : shape (create_empty_quadtree 1 zero_nodes) 1)
    by apply (create_empty_quadtree_shape 1 zero_nodes).
  split; [exact Hs|]. split; [lia|].
  apply (encode_fits_buffer (create_empty_quadtree 1 zero_nodes) 1 zero_bytes Hs). lia.
Defined.

Lemma coherent_all_uniform (ns : list Node) (n : nat) (r : Node) :
  coherent ns n -> load ns 0 = Done r -> u r <> 0 ->
  forall (k : nat) (j : Z), 0 <= j < Z.of_nat k -> j < first_index (S n) ->
  exists nd, load ns j = Done nd /\ u nd <> 0.
Proof.
  intros Hco Hr Hu. induction k as [|k IH]; intros j Hj Hjn; [lia|].
  destruct (Z.eq_dec j 0) as [->|Hj0]; [eauto|].
  destruct (coherent_parent ns n j Hco ltac:(lia)) as
    (par & n1 & n2 & n3 & n4 & cur & Lp & _ & _ & _ & _ & [_ Hfam] & _ & Lc & _ & _ & Hcur).
  destruct (parent_index j ltac:(lia)) as [_ Hpi].
  destruct (IH ((j - 1) / 4) ltac:(lia) ltac:(lia)) as (p' & Lp' & Hup).
  assert (p' = par) by congruence. subst p'.
  specialize (Hfam Hup).
  inversion Hfam as [|? ? P1 H2]; subst. inversion H2 as [|? ? P2 H3]; subst.
  inversion H3 as [|? ? P3 H4]; subst. inversion H4 as [|? ? P4 _]; subst.
  exists cur. split; [exact Lc|].
  destruct Hcur as [[_ ->]|[[_ ->]|[[_ ->]|[_ ->]]]]; lia.
Qed.

Lemma loop_fields_uniform (q : Quadtree) (N : Z) :
  Z.of_nat (length (nodes q)) = N ->
  (forall j, 0 <= j < N -> exists nd, load (nodes q) j = Done nd /\ u nd <> 0) ->
  forall (k : nat) (i : Z), 1 <= i -> i + Z.of_nat k <= N ->
  loop_fields k q i = [].
Proof.
  intros Hlen Hall. induction k as [|k IH]; intros i Hi Hk; [reflexivity|].
  cbn [loop_fields]. rewrite IH by lia. rewrite app_nil_r.
  unfold step_fields.
  destruct (Hall i ltac:(lia)) as (cur & Lc & _). rewrite Lc.
  destruct (Z.eqb_spec i 0); [lia|].
  destruct (parent_index i Hi) as [-> Hpi].
  destruct (Hall ((i - 1) / 4) ltac:(lia)) as (par & Lp & Hup). rewrite Lp.
  destruct (Z.eqb_spec (u par) 0); [contradiction | reflexivity].
Qed.

Lemma sbit_take (m : list Z) (k : nat) (p : Z) :
  0 <= p < 8 * Z.of_nat k -> sbit (take k m) p = sbit m p.
Proof.
  intros Hp. unfold sbit. rewrite lookup_take_lt; [reflexivity|].
  apply Nat2Z.inj_lt. rewrite Z2Nat.id by (apply Z.div_pos; lia).
  apply Z.div_lt_upper_bound; lia.
Qed.

(** X15. A raster whose pixels all have the value [c] is encoded in three
    bytes, whatever its side [2^n] (from 2 to [2^14]): the number of levels,
    the value [c], and the byte [00100000] that holds epsilon 0, the
    uniformity bit 1 and five bits of padding. *)
Theorem encode_uniform_raster (n : nat) (img : Image) (c : Z) (fuel : nat)
    (junkN : nat -> Node) (junkB : nat -> Z) :
  valid_raster n img -> Forall (fun p => p = c) (image img) ->
  (1 <= n <= 14)%nat -> (n < fuel)%nat ->
  exists q s, build_quadtree_from_image fuel img junkN = Done q /\
    encode q junkB = Done s /\
    stream_bytes s = [Z.of_nat n; c; 32].
Proof.
  intros Hvalid Hall Hn Hfuel. pose proof Hvalid as (Hw & Hlen & Hpx).
  pose proof (pow2_pos n) as Hp.
  assert (Hc : 0 <= c < 256).
  { destruct (image img) as [|p0 rest] eqn:E; [simpl in Hlen; nia|].
    inversion Hall; subst. inversion Hpx; subst. assumption. }
  destruct (build_valid_raster n img junkN fuel Hvalid Hfuel) as
    (q & E & Hsh & Hco & Hb).
  destruct (built_uniform img (nodes q) c n Hc Hall _ _ _ _ Hb) as [Hroot _].
  pose proof Hsh as (Hl & Ht & Hln).
  pose proof (first_index_ge_5 n ltac:(lia)) as H5.
  assert (Hfs : loop_fields (Z.to_nat (total_nodes q)) q 0 = [(c, 8); (0, 2); (1, 1)]).
  { destruct (Z.to_nat (total_nodes q)) as [|k] eqn:Ek; [lia|].
    cbn [loop_fields].
    rewrite (loop_fields_uniform q (first_index (S n)) Hln); try lia.
    - unfold step_fields. rewrite Hroot. reflexivity.
    - intros j Hj.
      apply (coherent_all_uniform (nodes q) n (leaf_node c) Hco Hroot
               ltac:(discriminate) (S (Z.to_nat j)) j); lia. }
  destruct (encode_into_full q n (initBitStream (total_nodes q * 2) junkB) Hsh)
    as (s & Ee & Hcs & Hss & Hlb & Hp1 & Hp2 & Hsp & Hbs & Hpad); auto; try lia.
  { apply malloc_bytes_ok. }
  { cbn [initBitStream buf]. rewrite length_malloc, Hfs. cbn [bits_len]. lia. }
  rewrite Hfs in *. cbn [bits_len] in *.
  exists q, s. split; [exact E|]. split; [exact Ee|].
  assert (Hptr : ptr s = 3) by lia.
  assert (Hlen3 : (3 <= length (buf s))%nat).
  { rewrite Hlb. cbn [initBitStream buf]. apply Nat2Z.inj_le.
    rewrite length_malloc. lia. }
  unfold stream_bytes. rewrite Hss, Hptr.
  change (drop (Z.to_nat 0) (buf s)) with (buf s).
  change (Z.to_nat (3 - 0)) with 3%nat.
  apply bytes_ext.
  - rewrite length_take. simpl length. lia.
  - apply Forall_take. exact Hbs.
  - repeat constructor; lia.
  - intros k Hk. rewrite length_take in Hk.
    replace (3 `min` length (buf s))%nat with 3%nat in Hk by lia.
    rewrite sbit_take by lia.
    cbn [spells] in Hsp. destruct Hsp as (S0 & S1 & S2 & S3 & _).
    assert (Hkd : k = 8 * Z.of_nat (Z.to_nat (k / 8)) + k mod 8).
    { rewrite Z2Nat.id by (apply Z.div_pos; lia). apply Z.div_mod. lia. }
    assert (Hkm : 0 <= k mod 8 < 8) by (apply Z.mod_pos_bound; lia).
    assert (Hkq : 0 <= k / 8 < 3).
    { split; [apply Z.div_pos; lia | apply Z.div_lt_upper_bound; lia]. }
    assert (k / 8 = 0 \/ k / 8 = 1 \/ k / 8 = 2) as [Hq|[Hq|Hq]] by lia;
      rewrite Hq in Hkd; simpl Z.to_nat in Hkd; simpl Z.of_nat in Hkd.
    + rewrite Hkd at 2. rewrite (sbit_byte _ 0 (Z.of_nat n)) by auto.
      specialize (S0 k ltac:(lia)). rewrite Z.add_0_l, Hl in S0.
      rewrite S0. f_equal. lia.
    + rewrite Hkd at 2. rewrite (sbit_byte _ 1 c) by auto.
      specialize (S1 (k - 8) ltac:(lia)).
      replace (0 + 8 + (k - 8)) with k in S1 by lia.
      rewrite S1. f_equal. lia.
    + assert (k = 16 \/ k = 17 \/ k = 18 \/ 19 <= k < 24) as [->|[->|[->|Hr]]] by lia.
      * change (sbit (buf s) 16) with (sbit (buf s) (0 + 8 + 8 + 0)).
        rewrite S2 by lia. reflexivity.
      * change (sbit (buf s) 17) with (sbit (buf s) (0 + 8 + 8 + 1)).
        rewrite S2 by lia. reflexivity.
      * change (sbit (buf s) 18) with (sbit (buf s) (0 + 8 + 8 + 2 + 0)).
        rewrite S3 by lia. reflexivity.
      * rewrite Hpad by lia.
        assert (k = 19 \/ k = 20 \/ k = 21 \/ k = 22 \/ k = 23)
          as [->|[->|[->|[->| ->]]]] by lia; reflexivity.
Qed.

Lemma encode_uniform_raster_witness :
  valid_raster 1 raster_uniform_2x2 /\
  Forall (fun p => p = 10) (image raster_uniform_2x2) /\
  (1 <= 1 <= 14)%nat /\ (1 < 2)%nat /\
  exists q s, build_quadtree_from_image 2 raster_uniform_2x2 zero_nodes = Done q /\
    encode q zero_bytes = Done s /\
    stream_bytes s = [Z.of_nat 1; 10; 32].
Proof.
  assert (H : valid_raster 1 raster_uniform_2x2).
  { unfold valid_raster. simpl. split; [reflexivity|]. split; [reflexivity|].
    repeat constructor; lia. }
  assert (Hu : Forall (fun p => p = 10) (image raster_uniform_2x2))
    by (repeat constructor).
  split; [exact H|]. split; [exact Hu|]. split; [lia|]. split; [lia|].
  apply (encode_uniform_raster 1 raster_uniform_2x2 10 2 zero_nodes zero_bytes H Hu);
    lia.
Defined.

(** ** encode.c: the filter keeps uniformity going down *)

Lemma closed_under_child (ns : list Node) (i a : Z) :
  1 <= a <= 4 -> closed_under ns i -> closed_under ns (4 * i + a).
Proof.
  intros Ha H j p Hd. apply H. apply desc_of_child with (a := a); assumption.
Qed.

Lemma closed_under_ext (ns ns' : list Node) (i : Z) :
  (forall j, desc i j -> load ns' j = load ns j) ->
  closed_under ns i -> closed_under ns' i.
Proof.
  intros Hext H j p Hd L Hu a c Ha Lc.
  rewrite Hext in L by assumption.
  rewrite Hext in Lc by (apply desc_child; assumption).
  eapply H; eauto.
Qed.

Lemma flag_range (nd : Node) : 0 <= flag nd <= 1.
Proof. unfold flag. destruct (u nd =? 0); lia. Qed.

Lemma flag_1 (nd : Node) : flag nd = 1 -> u nd <> 0.
Proof. unfold flag. destruct (Z.eqb_spec (u nd) 0); [discriminate | auto]. Qed.

Section FilterClosed.

Variable alpha : float.
Variable n : nat.

Lemma filtrage_closed (d : nat) :
  forall (l fuel : nat) (q : Quadtree) (index : Z) (sigma : float)
         (q' : Quadtree) (r : Z),
  (l + d = n)%nat -> (d < fuel)%nat -> at_level l index ->
  Z.of_nat (length (nodes q)) = first_index (S n) ->
  leaves_uniform n (nodes q) ->
  closed_under (nodes q) index ->
  filtrage fuel q index sigma alpha = Done (q', r) ->
  closed_under (nodes q') index.
Proof.
  induction d as [|d IH];
    intros l fuel q index sigma q' r Hld Hfuel Hlvl Hlen Hleaves Hcl Hrun;
    (destruct fuel as [|fuel]; [lia|]);
    pose proof (at_level_in_range l n index Hlvl ltac:(lia)) as Hidx;
    destruct (load_in_range (nodes q) index ltac:(lia)) as [nd Lnd];
    cbn [filtrage] in Hrun; rewrite Lnd in Hrun; cbn [mbind outcome_bind] in Hrun.
  - replace l with n in * by lia.
    destruct (Hleaves index Hlvl) as (nd0 & L0 & Hu).
    assert (nd0 = nd) by congruence. subst nd0.
    replace (u nd =? 0) with false in Hrun by (symmetry; apply Z.eqb_neq; assumption).
    cbn [negb] in Hrun. inversion Hrun; subst. exact Hcl.
  - destruct (Z.eqb_spec (u nd) 0) as [Hu|Hu]; cbn [negb] in Hrun;
      [|inversion Hrun; subst; exact Hcl].
    assert (Hsib : forall a b j, 1 <= a <= 4 -> 1 <= b <= 4 -> a <> b ->
              desc (4 * index + a) j -> ~ desc (4 * index + b) j).
    { intros a b j Ha Hb Hab. apply desc_siblings_disjoint; lia. }
    assert (Hge : forall a j, 1 <= a <= 4 -> desc (4 * index + a) j ->
              0 <= j /\ j <> index).
    { intros a j Ha Hd. apply desc_le in Hd; lia. }
    assert (Hnd : forall a, 1 <= a <= 4 -> ~ desc (4 * index + a) index).
    { intros a Ha. apply desc_not_parent; lia. }
    destruct (filtrage_spec alpha n d (S l) fuel q (4 * index + 1) (sigma * alpha)%float) as
      (q1 & r1 & E1 & _ & _ & _ & _ & Hf1 & Hfr1 & (c1 & Lc1 & Hr1) & _);
      try lia; auto; [apply at_level_child; [assumption | lia]|].
    pose proof Hf1 as [Hl1 _].
    pose proof (leaves_uniform_filtered n _ _ Hf1 Hleaves) as Hlv1.
    destruct (filtrage_spec alpha n d (S l) fuel q1 (4 * index + 2) (sigma * alpha)%float) as
      (q2 & r2 & E2 & _ & _ & _ & _ & Hf2 & Hfr2 & (c2 & Lc2 & Hr2) & _);
      try lia; auto; [apply at_level_child; [assumption | lia]|].
    pose proof Hf2 as [Hl2 _].
    pose proof (leaves_uniform_filtered n _ _ Hf2 Hlv1) as Hlv2.
    destruct (filtrage_spec alpha n d (S l) fuel q2 (4 * index + 3) (sigma * alpha)%float) as
      (q3 & r3 & E3 & _ & _ & _ & _ & Hf3 & Hfr3 & (c3 & Lc3 & Hr3) & _);
      try lia; auto; [apply at_level_child; [assumption | lia]|].
    pose proof Hf3 as [Hl3 _].
    pose proof (leaves_uniform_filtered n _ _ Hf3 Hlv2) as Hlv3.
    destruct (filtrage_spec alpha n d (S l) fuel q3 (4 * index + 4) (sigma * alpha)%float) as
      (q4 & r4 & E4 & _ & _ & _ & _ & Hf4 & Hfr4 & (c4 & Lc4 & Hr4) & _);
      try lia; auto; [apply at_level_child; [assumption | lia]|].
    pose proof Hf4 as [Hl4 _].
    (* the subtrees of the four children, after each call *)
    assert (C1 : closed_under (nodes q1) (4 * index + 1)).
    { apply (IH (S l) fuel q (4 * index + 1) (sigma * alpha)%float q1 r1); auto; try lia.
      - apply at_level_child; [assumption | lia].
      - apply closed_under_child; [lia | assumption]. }
    assert (C2 : closed_under (nodes q2) (4 * index + 2)).
    { apply (IH (S l) fuel q1 (4 * index + 2) (sigma * alpha)%float q2 r2); auto; try lia.
      - apply at_level_child; [assumption | lia].
      - apply closed_under_ext with (ns := nodes q).
        + intros j Hd. destruct (Hge 2 j ltac:(lia) Hd).
          apply Hfr1; auto. apply (Hsib 2); auto; lia.
        + apply closed_under_child; [lia | assumption]. }
    assert (C3 : closed_under (nodes q3) (4 * index + 3)).
    { apply (IH (S l) fuel q2 (4 * index + 3) (sigma * alpha)%float q3 r3); auto; try lia.
      - apply at_level_child; [assumption | lia].
      - apply closed_under_ext with (ns := nodes q).
        + intros j Hd. destruct (Hge 3 j ltac:(lia) Hd).
          rewrite Hfr2, Hfr1; auto; apply (Hsib 3); auto; lia.
        + apply closed_under_child; [lia | assumption]. }
    assert (C4 : closed_under (nodes q4) (4 * index + 4)).
    { apply (IH (S l) fuel q3 (4 * index + 4) (sigma * alpha)%float q4 r4); auto; try lia.
      - apply at_level_child; [assumption | lia].
      - apply closed_under_ext with (ns := nodes q).
        + intros j Hd. destruct (Hge 4 j ltac:(lia) Hd).
          rewrite Hfr3, Hfr2, Hfr1; auto; apply (Hsib 4); auto; lia.
        + apply closed_under_child; [lia | assumption]. }
    assert (K1 : forall j, desc (4 * index + 1) j -> load (nodes q4) j = load (nodes q1) j).
    { intros j Hd. destruct (Hge 1 j ltac:(lia) Hd).
      rewrite Hfr4, Hfr3, Hfr2; auto; apply (Hsib 1); auto; lia. }
    assert (K2 : forall j, desc (4 * index + 2) j -> load (nodes q4) j = load (nodes q2) j).
    { intros j Hd. destruct (Hge 2 j ltac:(lia) Hd).
      rewrite Hfr4, Hfr3; auto; apply (Hsib 2); auto; lia. }
    assert (K3 : forall j, desc (4 * index + 3) j -> load (nodes q4) j = load (nodes q3) j).
    { intros j Hd. destruct (Hge 3 j ltac:(lia) Hd).
      rewrite Hfr4; auto; apply (Hsib 3); auto; lia. }
    assert (D1 : closed_under (nodes q4) (4 * index + 1))
      by (apply closed_under_ext with (ns := nodes q1); assumption).
    assert (D2 : closed_under (nodes q4) (4 * index + 2))
      by (apply closed_under_ext with (ns := nodes q2); assumption).
    assert (D3 : closed_under (nodes q4) (4 * index + 3))
      by (apply closed_under_ext with (ns := nodes q3); assumption).
    assert (Lnd4 : load (nodes q4) index = Done nd).
    { rewrite Hfr4, Hfr3, Hfr2, Hfr1; auto; try lia; apply Hnd; lia. }
    assert (Lc1' : load (nodes q4) (4 * index + 1) = Done c1)
      by (rewrite K1 by apply desc_refl; assumption).
    assert (Lc2' : load (nodes q4) (4 * index + 2) = Done c2)
      by (rewrite K2 by apply desc_refl; assumption).
    assert (Lc3' : load (nodes q4) (4 * index + 3) = Done c3)
      by (rewrite K3 by apply desc_refl; assumption).
    assert (Hbelow : forall j, desc index j -> j <> index ->
              forall p, load (nodes q4) j = Done p -> u p <> 0 ->
              forall a c, 1 <= a <= 4 -> load (nodes q4) (4 * j + a) = Done c -> u c <> 0).
    { intros j Hd Hne. apply desc_inv in Hd. destruct Hd as [->|(a & Ha & Hd)]; [lia|].
      assert (a = 1 \/ a = 2 \/ a = 3 \/ a = 4) as [->|[->|[->| ->]]] by lia;
        intros p Lp; [eapply D1 | eapply D2 | eapply D3 | eapply C4]; eauto. }
    rewrite E1 in Hrun. cbn [mbind outcome_bind] in Hrun.
    rewrite E2 in Hrun. cbn [mbind outcome_bind] in Hrun.
    rewrite E3 in Hrun. cbn [mbind outcome_bind] in Hrun.
    rewrite E4 in Hrun. cbn [mbind outcome_bind] in Hrun.
    rewrite Lnd4 in Hrun. cbn [mbind outcome_bind] in Hrun. subst r1 r2 r3 r4.
    destruct ((0 + flag c1 + flag c2 + flag c3 + flag c4 <? 4)
              || (sigma <? v nd)%float) eqn:Hcond.
    + inversion Hrun; subst q' r. intros j p Hd Lp Hup.
      destruct (Z.eq_dec j index) as [->|Hne].
      * assert (p = nd) by congruence. subst p. contradiction.
      * eapply Hbelow; eauto.
    + rewrite store_in_range in Hrun by lia. cbn [mbind outcome_bind] in Hrun.
      inversion Hrun; subst q' r. cbn [set_nodes nodes].
      apply orb_false_iff in Hcond. destruct Hcond as [Hsum _].
      apply Z.ltb_ge in Hsum.
      pose proof (flag_range c1). pose proof (flag_range c2).
      pose proof (flag_range c3). pose proof (flag_range c4).
      intros j p Hd Lp Hup a c Ha Lc.
      assert (Hj0 : index <= j) by (apply desc_le; [lia | assumption]).
      rewrite load_insert_ne in Lc by lia.
      destruct (Z.eq_dec j index) as [->|Hne].
      * assert (a = 1 \/ a = 2 \/ a = 3 \/ a = 4) as [->|[->|[->| ->]]] by lia;
          apply flag_1; [replace c with c1 by congruence | replace c with c2 by congruence
                         | replace c with c3 by congruence | replace c with c4 by congruence];
          lia.
      * rewrite load_insert_ne in Lp by lia. eapply Hbelow; eauto.
Qed.

End FilterClosed.

(** ** The tree a stream stands for *)

Lemma flat_node_fuel (ns : list Node) (k : nat) :
  forall (k' : nat) (j : Z),
  (Z.to_nat j <= k)%nat -> (Z.to_nat j <= k')%nat ->
  flat_node ns k j = flat_node ns k' j.
Proof.
  induction k as [|k IH]; intros k' j Hk Hk'.
  - destruct k' as [|k']; [reflexivity|]. cbn [flat_node].
    destruct (Z.leb_spec j 0); [reflexivity | lia].
  - cbn [flat_node]. destruct (Z.leb_spec j 0) as [Hj|Hj].
    + destruct k' as [|k']; [reflexivity|]. cbn [flat_node].
      destruct (Z.leb_spec j 0); [reflexivity | lia].
    + destruct k' as [|k']; [lia|]. cbn [flat_node].
      destruct (Z.leb_spec j 0); [lia|].
      destruct (parent_index j ltac:(lia)) as [_ Hp].
      rewrite (IH k' ((j - 1) / 4)) by lia. reflexivity.
Qed.

Lemma flat_node_rec (ns : list Node) (j : Z) :
  1 <= j ->
  flat_node ns (Z.to_nat j) j =
  if u (flat_node ns (Z.to_nat ((j - 1) / 4)) ((j - 1) / 4)) =? 0 then node_at ns j
  else {| moyenne := moyenne (flat_node ns (Z.to_nat ((j - 1) / 4)) ((j - 1) / 4));
          epsilon := 0; u := 1; v := v (node_at ns j) |}.
Proof.
  intros Hj. destruct (Z.to_nat j) as [|k] eqn:Ek; [lia|]. cbn [flat_node].
  destruct (Z.leb_spec j 0); [lia|].
  destruct (parent_index j ltac:(lia)) as [_ Hp].
  rewrite (flat_node_fuel ns k (Z.to_nat ((j - 1) / 4))) by lia. reflexivity.
Qed.

Lemma flat_node_child (ns : list Node) (j a : Z) :
  0 <= j -> 1 <= a <= 4 ->
  flat_node ns (Z.to_nat (4 * j + a)) (4 * j + a) =
  if u (flat_node ns (Z.to_nat j) j) =? 0 then node_at ns (4 * j + a)
  else {| moyenne := moyenne (flat_node ns (Z.to_nat j) j);
          epsilon := 0; u := 1; v := v (node_at ns (4 * j + a)) |}.
Proof.
  intros Hj Ha. rewrite flat_node_rec by lia.
  replace ((4 * j + a - 1) / 4) with j; [reflexivity|].
  apply Z.div_unique with (r := a - 1); lia.
Qed.

Lemma length_flat (ns : list Node) : length (flat ns) = length ns.
Proof. unfold flat. rewrite length_map, length_seq. reflexivity. Qed.

Lemma load_flat (ns : list Node) (j : Z) :
  0 <= j < Z.of_nat (length ns) ->
  load (flat ns) j = Done (flat_node ns (Z.to_nat j) j).
Proof.
  intros Hj. apply load_Done. split; [lia|]. unfold flat.
  change (map ?f ?l) with (f <$> l).
  rewrite list_lookup_fmap, lookup_seq_lt by lia. simpl.
  rewrite Z2Nat.id by lia. reflexivity.
Qed.

Lemma node_at_load (ns : list Node) (j : Z) (nd : Node) :
  load ns j = Done nd -> node_at ns j = nd.
Proof. unfold node_at. intros ->. reflexivity. Qed.

Lemma child_of_parent (j : Z) :
  1 <= j -> exists a, 1 <= a <= 4 /\ j = 4 * ((j - 1) / 4) + a.
Proof.
  intros Hj. exists ((j - 1) mod 4 + 1).
  pose proof (Z.div_mod (j - 1) 4 ltac:(lia)).
  pose proof (Z.mod_pos_bound (j - 1) 4 ltac:(lia)). lia.
Qed.

Section Flat.

Variable ns : list Node.
Variable n : nat.
Hypothesis ns_length : Z.of_nat (length ns) = first_index (S n).
Hypothesis ns_coherent : filtered_coherent ns n.

Let fl (j : Z) : Node := flat_node ns (Z.to_nat j) j.

Lemma flat_inv (k : nat) :
  forall j, 0 <= j < Z.of_nat k -> j < first_index (S n) ->
  byte_fields (fl j) /\
  (u (fl j) = 0 <-> u (node_at ns j) = 0) /\
  (u (fl j) = 0 -> fl j = node_at ns j).
Proof.
  induction k as [|k IH]; intros j Hj Hjn; [lia|].
  destruct (ns_coherent j ltac:(lia)) as (nd & L & Hbf & _).
  rewrite (node_at_load _ _ _ L).
  destruct (Z.eq_dec j 0) as [->|Hj0].
  - unfold fl. change (flat_node ns (Z.to_nat 0) 0) with (node_at ns 0).
    rewrite (node_at_load _ _ _ L). tauto.
  - destruct (parent_index j ltac:(lia)) as [_ Hp].
    destruct (child_of_parent j ltac:(lia)) as (a & Ha & Hja).
    destruct (IH ((j - 1) / 4) ltac:(lia) ltac:(lia)) as (Pbf & Pu & Peq).
    unfold fl in *. rewrite flat_node_rec by lia.
    rewrite (node_at_load _ _ _ L).
    destruct (Z.eqb_spec (u (flat_node ns (Z.to_nat ((j - 1) / 4)) ((j - 1) / 4))) 0)
      as [E|E]; [tauto|].
    cbn [u]. split.
    + destruct Pbf as (M & _). unfold byte_fields. cbn [moyenne epsilon u].
      repeat split; auto; lia.
    + split; [|discriminate]. split; [discriminate|]. intros Hu0. exfalso.
      assert (Hpu : u (node_at ns ((j - 1) / 4)) <> 0) by tauto.
      assert (HS : first_index (S n) = 4 * first_index n + 1) by reflexivity.
      destruct (ns_coherent ((j - 1) / 4) ltac:(lia)) as
        (pd & Lp & _ & _ & Hch).
      rewrite (node_at_load _ _ _ Lp) in Hpu.
      destruct (Hch ltac:(lia)) as (n1 & n2 & n3 & n4 & L1 & L2 & L3 & L4 & _ & Hcl).
      destruct (Hcl Hpu) as (U1 & U2 & U3 & U4).
      rewrite Hja in L.
      assert (a = 1 \/ a = 2 \/ a = 3 \/ a = 4) as [->|[->|[->| ->]]] by lia;
        congruence.
Qed.

Lemma flat_facts (j : Z) :
  0 <= j < first_index (S n) ->
  byte_fields (fl j) /\
  (u (fl j) = 0 <-> u (node_at ns j) = 0) /\
  (u (fl j) = 0 -> fl j = node_at ns j).
Proof. intros Hj. apply (flat_inv (S (Z.to_nat j))); lia. Qed.

Lemma flat_coherent : coherent (flat ns) n.
Proof.
  intros j Hj. destruct (flat_facts j Hj) as (Hbf & Hu & Heq).
  destruct (ns_coherent j Hj) as (nd & L & Nbf & Nleaf & Nch).
  rewrite (node_at_load _ _ _ L) in Hu, Heq.
  split.
  - exists (fl j). split; [apply load_flat; lia|]. split; [exact Hbf|].
    intros Hge. specialize (Nleaf Hge).
    destruct (Z.eq_dec j 0) as [->|Hj0].
    + unfold fl. change (flat_node ns (Z.to_nat 0) 0) with (node_at ns 0).
      rewrite (node_at_load _ _ _ L). exact Nleaf.
    + unfold fl. rewrite flat_node_rec by lia. rewrite (node_at_load _ _ _ L).
      destruct (_ =? 0); [exact Nleaf|]. unfold leaf_fields. auto.
  - intros Hlt.
    assert (HS : first_index (S n) = 4 * first_index n + 1) by reflexivity.
    destruct (Nch Hlt) as (n1 & n2 & n3 & n4 & L1 & L2 & L3 & L4 & Hsum & _).
    exists (fl j), (fl (4 * j + 1)), (fl (4 * j + 2)), (fl (4 * j + 3)), (fl (4 * j + 4)).
    split; [apply load_flat; lia|].
    split; [apply load_flat; lia|].
    split; [apply load_flat; lia|].
    split; [apply load_flat; lia|].
    split; [apply load_flat; lia|].
    unfold fl in *. rewrite !flat_node_child by lia.
    rewrite (node_at_load _ _ _ L1), (node_at_load _ _ _ L2),
            (node_at_load _ _ _ L3), (node_at_load _ _ _ L4).
    destruct (Z.eqb_spec (u (flat_node ns (Z.to_nat j) j)) 0) as [E|E].
    + rewrite (Heq E). split; [apply Hsum; tauto|].
      intros Hne. exfalso. apply Hne. tauto.
    + destruct Hbf as (_ & _ & _ & He).
      assert (epsilon (flat_node ns (Z.to_nat j) j) = 0).
      { destruct (Z.eq_dec (epsilon (flat_node ns (Z.to_nat j) j)) 0); [assumption|].
        exfalso. apply E. auto. }
      split; [cbn [moyenne]; lia|]. intros _.
      repeat constructor.
Qed.

Lemma flat_step_fields (q : Quadtree) (i : Z) :
  nodes q = ns -> 0 <= i < first_index (S n) ->
  step_fields (set_nodes q (flat ns)) i = step_fields q i.
Proof.
  intros Hq Hi. unfold step_fields. cbn [set_nodes nodes]. rewrite Hq.
  rewrite load_flat by lia.
  destruct (ns_coherent i Hi) as (nd & L & _). rewrite L.
  destruct (Z.eqb_spec i 0) as [->|Hi0].
  - change (flat_node ns (Z.to_nat 0) 0) with (node_at ns 0).
    rewrite (node_at_load _ _ _ L). reflexivity.
  - destruct (parent_index i ltac:(lia)) as [-> Hp].
    rewrite load_flat by lia.
    destruct (ns_coherent ((i - 1) / 4) ltac:(lia)) as (pd & Lp & _). rewrite Lp.
    destruct (flat_facts ((i - 1) / 4) ltac:(lia)) as (_ & Hu & _).
    rewrite (node_at_load _ _ _ Lp) in Hu. unfold fl in Hu.
    rewrite (flat_node_rec ns i) by lia. rewrite (node_at_load _ _ _ L).
    destruct (Z.eqb_spec (u (flat_node ns (Z.to_nat ((i - 1) / 4)) ((i - 1) / 4))) 0)
      as [E|E], (Z.eqb_spec (u pd) 0) as [E'|E']; try reflexivity; tauto.
Qed.

Lemma flat_loop_fields (q : Quadtree) (k : nat) :
  nodes q = ns ->
  forall i, 0 <= i -> i + Z.of_nat k <= first_index (S n) ->
  loop_fields k (set_nodes q (flat ns)) i = loop_fields k q i.
Proof.
  intros Hq. induction k as [|k IH]; intros i Hi Hk; [reflexivity|].
  cbn [loop_fields]. rewrite IH by lia. rewrite flat_step_fields by (auto; lia).
  reflexivity.
Qed.

Lemma flat_below_uniform (i : Z) :
  0 <= i -> u (fl i) <> 0 ->
  forall j, desc i j -> moyenne (fl j) = moyenne (fl i) /\ u (fl j) <> 0.
Proof.
  intros Hi Hu j Hd. induction Hd as [|j a Hd IH Ha]; [auto|].
  destruct IH as [Hm Huj].
  assert (0 <= j) by (apply desc_le in Hd; lia).
  unfold fl in *. rewrite flat_node_child by lia.
  destruct (Z.eqb_spec (u (flat_node ns (Z.to_nat j) j)) 0); [contradiction|].
  cbn [moyenne u]. split; [exact Hm | discriminate].
Qed.

Lemma leaf_index_desc (d : nat) :
  forall (i dx dy : Z), desc i (leaf_index d i dx dy).
Proof.
  induction d as [|d IH]; intros i dx dy; cbn [leaf_index]; [apply desc_refl|].
  destruct (dx <? _), (dy <? _);
    (eapply desc_of_child; [|apply IH]); lia.
Qed.

Lemma shown_flat (d : nat) :
  forall (l : nat) (i dx dy : Z),
  (l + d = n)%nat -> at_level l i -> fl i = node_at ns i ->
  moyenne (fl (leaf_index d i dx dy)) = shown_pixel ns d i dx dy.
Proof.
  induction d as [|d IH]; intros l i dx dy Hld Hlvl Hfi;
    pose proof (at_level_in_range l n i Hlvl ltac:(lia)) as Hidx;
    destruct (ns_coherent i Hidx) as (nd & L & _);
    rewrite (node_at_load _ _ _ L) in Hfi.
  - cbn [leaf_index shown_pixel]. rewrite L, Hfi. reflexivity.
  - cbn [shown_pixel]. rewrite L.
    destruct (Z.eqb_spec (u nd) 0) as [Hu|Hu]; cbn [negb].
    + assert (Hch : forall a, 1 <= a <= 4 -> fl (4 * i + a) = node_at ns (4 * i + a)).
      { intros a Ha. unfold fl in *. rewrite flat_node_child by lia.
        rewrite Hfi, Hu. reflexivity. }
      cbn [leaf_index].
      destruct (dx <? _), (dy <? _);
        (apply (IH (S l)); [lia | apply at_level_child; [assumption | lia]
                            | apply Hch; lia]).
    + destruct (flat_below_uniform i ltac:(lia) ltac:(rewrite Hfi; exact Hu)
                  _ (leaf_index_desc (S d) i dx dy)) as [Hm _].
      rewrite Hm, Hfi. reflexivity.
Qed.

End Flat.

(** ** The codec on a filtered tree *)

Lemma coherent_closed (ns : list Node) (n : nat) :
  Z.of_nat (length ns) = first_index (S n) ->
  coherent ns n -> closed_under ns 0.
Proof.
  intros Hlen Hco j p Hd L Hu a c Ha Lc.
  pose proof (load_range _ _ _ L) as Hj. pose proof (load_range _ _ _ Lc) as Hc.
  assert (HS : first_index (S n) = 4 * first_index n + 1) by reflexivity.
  destruct (Hco j ltac:(lia)) as [_ Hfam].
  destruct (Hfam ltac:(lia)) as (p' & n1 & n2 & n3 & n4 & Lp & L1 & L2 & L3 & L4 & _ & Hun).
  assert (p' = p) by congruence. subst p'. specialize (Hun Hu).
  inversion Hun as [|? ? P1 H2]; subst. inversion H2 as [|? ? P2 H3]; subst.
  inversion H3 as [|? ? P3 H4]; subst. inversion H4 as [|? ? P4 _]; subst.
  assert (a = 1 \/ a = 2 \/ a = 3 \/ a = 4) as [->|[->|[->| ->]]] by lia;
    [replace c with n1 by congruence | replace c with n2 by congruence
     | replace c with n3 by congruence | replace c with n4 by congruence]; lia.
Qed.

Lemma filtered_coherent_of (ns ns' : list Node) (n : nat) :
  Z.of_nat (length ns) = first_index (S n) ->
  coherent ns n -> filtered_nodes ns ns' -> closed_under ns' 0 ->
  filtered_coherent ns' n.
Proof.
  intros Hlen Hco [Hl Hf] Hcl j Hj.
  destruct (Hco j Hj) as [(nd & L & (Hm & He & Hu & Hx) & Hleaf) Hfam].
  destruct (Hf j nd L) as (nd' & L' & Em & _ & Hch).
  exists nd'. split; [exact L'|]. split.
  { unfold byte_fields. destruct Hch as [->|(_ & U' & E')]; [auto|].
    rewrite Em, U', E'. repeat split; auto; lia. }
  split.
  { intros Hge. destruct (Hleaf Hge) as [E0 U1].
    destruct Hch as [->|(U0 & _)]; [split; assumption | lia]. }
  intros Hlt.
  destruct (Hfam Hlt) as (p & n1 & n2 & n3 & n4 & Lp & L1 & L2 & L3 & L4 & Hsum & _).
  assert (p = nd) by congruence. subst p.
  destruct (Hf _ _ L1) as (m1 & M1 & E1 & _). destruct (Hf _ _ L2) as (m2 & M2 & E2 & _).
  destruct (Hf _ _ L3) as (m3 & M3 & E3 & _). destruct (Hf _ _ L4) as (m4 & M4 & E4 & _).
  exists m1, m2, m3, m4. repeat (split; [assumption|]).
  split.
  - intros U0. destruct Hch as [->|(_ & U' & _)]; [lia | lia].
  - intros Hu'.
    assert (Hd : desc 0 j) by (apply desc_root; lia).
    repeat split.
    + apply (Hcl j nd' Hd L' Hu' 1 m1); [lia | assumption].
    + apply (Hcl j nd' Hd L' Hu' 2 m2); [lia | assumption].
    + apply (Hcl j nd' Hd L' Hu' 3 m3); [lia | assumption].
    + apply (Hcl j nd' Hd L' Hu' 4 m4); [lia | assumption].
Qed.

Lemma decode_spells (q : Quadtree) (n : nat) (s : BitStream) (junkN : nat -> Node) :
  shape q n -> coherent (nodes q) n -> Z.of_nat n < 256 ->
  capa s = 8 -> start s = 0 ->
  spells (buf s) 0 ((levels q, 8) :: loop_fields (Z.to_nat (total_nodes q)) q 0) ->
  8 + bits_len (loop_fields (Z.to_nat (total_nodes q)) q 0)
    <= 8 * Z.of_nat (length (buf s)) ->
  exists s' q', decode s junkN = Done (s', q') /\
    shape q' n /\ agree (nodes q) (nodes q') (first_index (S n)).
Proof.
  intros Hsh Hco Hn256 Hcapa Hstart Hsp Hroom.
  pose proof Hsh as (Hl & Ht & Hlen).
  pose proof (first_index_nonneg (S n)) as HT.
  destruct (loop_fields_widths (Z.to_nat (total_nodes q)) q 0) as [Hw Hb].
  pose proof (bits_len_nonneg _ Hw) as Hnn.
  assert (Hc : cursor_ok s) by (unfold cursor_ok, capa_ok; lia).
  assert (Hr0 : rpos s = 0) by (unfold rpos; lia).
  destruct (read_field s (levels q) 8 (loop_fields (Z.to_nat (total_nodes q)) q 0)) as
    (s1 & E1 & Hc1 & Hb1 & _ & Hr1 & Hsp1); auto; try lia.
  { rewrite Hr0. assumption. }
  pose proof (create_empty_quadtree_shape n junkN) as Hsh0.
  destruct (decode_loop_spec q n Hsh Hco (Z.to_nat (total_nodes q)) 0 s1
              (create_empty_quadtree (Z.of_nat n) junkN))
    as (s2 & q2 & E2 & Hsh2 & Hag2); auto; try lia.
  { intros j Hj. lia. }
  { rewrite Hb1, Hr1, Hr0. lia. }
  exists s2, q2. split; [|auto].
  unfold decode. rewrite E1. cbn [mbind outcome_bind]. rewrite Hl.
  destruct Hsh0 as (_ & Ht0 & _). rewrite Ht0, <- Ht. exact E2.
Qed.

(** Decoding and painting a stream that spells the fields of a filtered
    tree shows, for every pixel, the mean of the first uniform node above
    its leaf. *)
Lemma decode_paint_filtered (q : Quadtree) (n : nat) (s : BitStream)
    (fuel : nat) (junkN : nat -> Node) (junkI : nat -> Z) :
  shape q n -> filtered_coherent (nodes q) n -> Z.of_nat n < 256 -> (n < fuel)%nat ->
  capa s = 8 -> start s = 0 ->
  spells (buf s) 0 ((levels q, 8) :: loop_fields (Z.to_nat (total_nodes q)) q 0) ->
  8 + bits_len (loop_fields (Z.to_nat (total_nodes q)) q 0)
    <= 8 * Z.of_nat (length (buf s)) ->
  exists s' q' im, decode s junkN = Done (s', q') /\
    build_image_from_quadtree fuel q' junkI = Done im /\
    width im = 2 ^ Z.of_nat n /\
    Z.of_nat (length (image im)) = 2 ^ Z.of_nat n * 2 ^ Z.of_nat n /\
    forall x y, 0 <= x < 2 ^ Z.of_nat n -> 0 <= y < 2 ^ Z.of_nat n ->
      load (image im) (y * 2 ^ Z.of_nat n + x) =
      Done (shown_pixel (nodes q) n 0 x y).
Proof.
  intros Hsh Hfc Hn256 Hfuel Hcapa Hstart Hsp Hroom.
  pose proof Hsh as (Hl & Ht & Hlen).
  pose proof (first_index_nonneg (S n)) as HT.
  set (qf := set_nodes q (flat (nodes q))).
  assert (Hshf : shape qf n).
  { unfold shape, qf. cbn [set_nodes levels total_nodes nodes].
    rewrite length_flat. auto. }
  assert (Hcof : coherent (nodes qf) n) by (apply flat_coherent; assumption).
  assert (Hlf : loop_fields (Z.to_nat (total_nodes q)) qf 0
                = loop_fields (Z.to_nat (total_nodes q)) q 0).
  { apply (flat_loop_fields (nodes q) n Hlen Hfc); [reflexivity | lia | lia]. }
  destruct (decode_spells qf n s junkN Hshf Hcof Hn256 Hcapa Hstart) as
    (s' & q' & Ed & Hsh' & Hag).
  { unfold qf at 1 2. cbn [set_nodes levels total_nodes]. rewrite Hlf. exact Hsp. }
  { unfold qf at 1. cbn [set_nodes total_nodes]. rewrite Hlf. exact Hroom. }
  destruct (build_image_from_quadtree_spec q' n fuel junkI Hsh' Hfuel) as
    (im & Ep & Hwi & Hli & Hpix).
  exists s', q', im. repeat (split; [assumption|]).
  intros x y Hx Hy. rewrite Hpix by assumption. f_equal.
  pose proof (leaf_index_level n 0%nat 0 x y at_level_root) as Hlvl.
  pose proof (at_level_in_range _ n _ Hlvl ltac:(lia)) as Hr.
  destruct (Hag (leaf_index n 0 x y) Hr) as (a & a' & La & La' & Hm & _).
  unfold node_moyenne. rewrite La'. rewrite <- Hm.
  unfold qf in La. cbn [set_nodes nodes] in La.
  rewrite load_flat in La by lia. inversion La; subst a.
  apply (shown_flat (nodes q) n Hfc n 0%nat 0 x y); [lia | apply at_level_root|].
  reflexivity.
Qed.

Lemma filter_built_coherent (n : nat) (img : Image) (fuel : nat) (junk : nat -> Node)
    (alpha : float) :
  valid_raster n img -> (n < fuel)%nat ->
  exists q q1 r,
    build_quadtree_from_image fuel img junk = Done q /\
    main_filtrage fuel q alpha = Done (q1, r) /\
    shape q1 n /\ filtered_coherent (nodes q1) n /\
    closed_under (nodes q1) 0 /\
    (exists nd, load (nodes q1) 0 = Done nd /\ r = flag nd).
Proof.
  intros Hvalid Hfuel.
  destruct (build_valid_raster n img junk fuel Hvalid Hfuel) as
    (q & E & Hsh & Hco & _).
  pose proof Hsh as (Hl & Ht & Hlen).
  pose proof (coherent_leaves_uniform _ _ Hco) as Hlu.
  destruct (filtrage_spec alpha n n 0%nat fuel q 0 (main_sigma q)) as
    (q1 & r & Ef & Ht1 & Hl1 & _ & _ & Hfn & _ & Hr & _);
    auto; [apply at_level_root|].
  pose proof (coherent_closed _ _ Hlen Hco) as Hcl.
  pose proof (filtrage_closed alpha n n 0%nat fuel q 0 (main_sigma q) q1 r
                ltac:(lia) Hfuel at_level_root Hlen Hlu Hcl Ef) as Hcl1.
  exists q, q1, r. split; [exact E|]. split; [exact Ef|].
  destruct Hfn as [Hlen1 Hf].
  split; [unfold shape; rewrite Hl1, Ht1, Hlen1; auto|].
  split; [|auto].
  apply filtered_coherent_of with (ns := nodes q); auto. split; assumption.
Qed.


Lemma encode_stream (q : Quadtree) (n : nat) (junkB : nat -> Z) :
  shape q n -> (1 <= n <= 14)%nat ->
  exists s, encode q junkB = Done s /\
    capa s = 8 /\ start s = 0 /\
    0 <= ptr s <= Z.of_nat (length (buf s)) /\ bytes_ok (buf s) /\
    8 + bits_len (loop_fields (Z.to_nat (total_nodes q)) q 0) <= 8 * ptr s /\
    spells (buf s) 0 ((levels q, 8) :: loop_fields (Z.to_nat (total_nodes q)) q 0).
Proof.
  intros Hsh Hn. pose proof Hsh as (Hl & Ht & Hlen).
  pose proof (first_index_ge_5 n ltac:(lia)) as H5.
  destruct (loop_fields_widths (Z.to_nat (total_nodes q)) q 0) as [Hw Hb].
  pose proof (bits_len_nonneg _ Hw) as Hnn.
  rewrite Z2Nat.id in Hb by lia.
  destruct (encode_into_full q n (initBitStream (total_nodes q * 2) junkB) Hsh)
    as (s & E & Hc & Hs & Hlb & Hp1 & Hp2 & Hsp & Hbs & _); auto; try lia.
  { apply malloc_bytes_ok. }
  { cbn [initBitStream buf]. rewrite length_malloc. lia. }
  exists s. split; [exact E|]. split; [exact Hc|]. split; [exact Hs|].
  split; [|auto].
  rewrite Hlb. cbn [initBitStream buf]. rewrite length_malloc. lia.
Qed.

(** X19. The lossy pipeline, stream to stream: the tree built from a raster of
    side [2^n] ([1 <= n <= 14]) and filtered as [main] does is encoded
    within its buffer; decoding the stream and painting the result shows,
    for every pixel, the mean of the first uniform node above its leaf in
    the filtered tree. *)
Theorem filter_encode_decode_paint (n : nat) (img : Image) (fuel : nat)
    (alpha : float) (junkN junkN' : nat -> Node) (junkB junkI : nat -> Z) :
  valid_raster n img -> (1 <= n <= 14)%nat -> (n < fuel)%nat ->
  exists q q1 r s s' q' im,
    build_quadtree_from_image fuel img junkN = Done q /\
    main_filtrage fuel q alpha = Done (q1, r) /\
    encode q1 junkB = Done s /\
    decode s junkN' = Done (s', q') /\
    build_image_from_quadtree fuel q' junkI = Done im /\
    width im = width img /\
    Z.of_nat (length (image im)) = width img * width img /\
    forall x y, 0 <= x < width img -> 0 <= y < width img ->
      load (image im) (y * width img + x) = Done (shown_pixel (nodes q1) n 0 x y).
Proof.
  intros Hvalid Hn Hfuel.
  destruct (filter_built_coherent n img fuel junkN alpha Hvalid Hfuel) as
    (q & q1 & r & Eb & Ef & Hsh1 & Hfc & _).
  destruct (encode_stream q1 n junkB Hsh1 Hn) as
    (s & Ee & Hc & Hs & Hp & Hb & Hroom & Hsp).
  destruct (decode_paint_filtered q1 n s fuel junkN' junkI Hsh1 Hfc) as
    (s' & q' & im & Ed & Ep & Hw & Hl & Hpix); auto; try lia.
  destruct Hvalid as (Hwi & _). rewrite Hwi.
  exists q, q1, r, s, s', q', im. auto 10.
Qed.

Lemma filter_encode_decode_paint_witness :
  valid_raster 2 raster_4x4 /\ (1 <= 2 <= 14)%nat /\ (2 < 3)%nat /\
  exists q q1 r s s' q' im,
    build_quadtree_from_image 3 raster_4x4 zero_nodes = Done q /\
    main_filtrage 3 q 1.5%float = Done (q1, r) /\
    encode q1 zero_bytes = Done s /\
    decode s zero_nodes = Done (s', q') /\
    build_image_from_quadtree 3 q' zero_bytes = Done im /\
    width im = width raster_4x4 /\
    Z.of_nat (length (image im)) = width raster_4x4 * width raster_4x4 /\
    forall x y, 0 <= x < width raster_4x4 -> 0 <= y < width raster_4x4 ->
      load (image im) (y * width raster_4x4 + x) = Done (shown_pixel (nodes q1) 2 0 x y).
Proof.
  split; [exact raster_4x4_valid|]. split; [lia|]. split; [lia|].
  apply (filter_encode_decode_paint 2 raster_4x4 3 1.5%float zero_nodes zero_nodes
           zero_bytes zero_bytes); [exact raster_4x4_valid | lia | lia].
Defined.

(** The pipeline on [raster_4x4] with [alpha = 1.5]: the filter makes the
    first quadrant uniform, the stream is 13 bytes long, and the image
    decoded shows 10 where the raster has 11. *)
Lemma lossy_raster_4x4 :
  exists q q1 r s s' q' im,
    build_quadtree_from_image 3 raster_4x4 zero_nodes = Done q /\
    main_filtrage 3 q 1.5%float = Done (q1, r) /\
    encode q1 zero_bytes = Done s /\
    decode s zero_nodes = Done (s', q') /\
    build_image_from_quadtree 3 q' zero_bytes = Done im /\
    image im = [10; 10; 50; 50;
                10; 10; 50; 50;
                90; 90; 0; 255;
                90; 90; 255; 0] /\
    image im <> image raster_4x4.
Proof.
  do 7 eexists. split; [vm_compute; reflexivity|].
  split; [vm_compute; reflexivity|]. split; [vm_compute; reflexivity|].
  split; [vm_compute; reflexivity|]. split; [vm_compute; reflexivity|].
  split; [reflexivity | discriminate].
Qed.


(** ** segmentation_grid.c *)

Section Grid.

Variable W : Z.
Hypothesis W_pos : 0 < W.

Lemma build_grid_top_spec (k : nat) :
  forall (im : Image) (x y i : Z),
  width im = W -> Z.of_nat (length (image im)) = W * W ->
  0 <= x -> 0 <= i -> 0 < y <= W -> x + i + Z.of_nat k <= W ->
  exists im', build_grid_top k im x y i = Done im' /\
    width im' = width im /\ image_size im' = image_size im /\
    max_val im' = max_val im /\ length (image im') = length (image im) /\
    forall px py, 0 <= px < W -> 0 <= py < W ->
      load (image im') (py * W + px) =
      if (py =? y - 1) && (x + i <=? px) && (px <? x + i + Z.of_nat k)
      then Done 190 else load (image im) (py * W + px).
Proof.
  induction k as [|k IH]; intros im x y i Hw Hlen Hx Hi Hy Hk.
  - exists im. split; [reflexivity|]. repeat (split; [reflexivity|]).
    intros px py Hpx Hpy.
    destruct (Z.eqb_spec py (y - 1)); decide_cmp; cbn [andb]; reflexivity.
  - cbn [build_grid_top]. rewrite Hw.
    replace (x + i <? W) with true by (symmetry; apply Z.ltb_lt; lia).
    assert (Hpos : 0 <= (y - 1) * W + x + i < Z.of_nat (length (image im)))
      by (rewrite Hlen; nia).
    rewrite store_in_range by assumption. cbn [mbind outcome_bind].
    destruct (IH (set_image im (<[Z.to_nat ((y - 1) * W + x + i) := 190]> (image im)))
                 x y (i + 1)) as (im' & E & Hw' & Hs' & Hm' & Hl' & P);
      cbn [set_image width image]; auto; try lia.
    { rewrite length_insert. assumption. }
    exists im'. split; [exact E|].
    cbn [set_image width image_size max_val image] in *.
    rewrite length_insert in Hl'. split; [congruence|]. repeat (split; [assumption|]).
    intros px py Hpx Hpy. rewrite P by assumption.
    destruct (Z.eq_dec (py * W + px) ((y - 1) * W + x + i)) as [Eq|Ne].
    + rewrite <- Z.add_assoc in Eq. apply pixel_index_inj in Eq; try lia.
      destruct Eq as [-> ->].
      replace ((y - 1) * W + (x + i)) with ((y - 1) * W + x + i) by lia.
      rewrite load_insert_eq by assumption.
      rewrite Z.eqb_refl. decide_cmp; cbn [andb]; reflexivity.
    + rewrite load_insert_ne by nia.
      destruct (Z.eqb_spec py (y - 1)) as [->|]; cbn [andb]; [|reflexivity].
      assert (px <> x + i) by (intros ->; apply Ne; lia).
      decide_cmp; cbn [andb]; reflexivity.
Qed.

Lemma build_grid_left_spec (k : nat) :
  forall (im : Image) (x y i : Z),
  width im = W -> Z.of_nat (length (image im)) = W * W ->
  0 <= y -> 0 <= i -> 0 < x <= W -> y + i + Z.of_nat k <= W ->
  exists im', build_grid_left k im x y i = Done im' /\
    width im' = width im /\ image_size im' = image_size im /\
    max_val im' = max_val im /\ length (image im') = length (image im) /\
    forall px py, 0 <= px < W -> 0 <= py < W ->
      load (image im') (py * W + px) =
      if (px =? x - 1) && (y + i <=? py) && (py <? y + i + Z.of_nat k)
      then Done 190 else load (image im) (py * W + px).
Proof.
  induction k as [|k IH]; intros im x y i Hw Hlen Hy Hi Hx Hk.
  - exists im. split; [reflexivity|]. repeat (split; [reflexivity|]).
    intros px py Hpx Hpy.
    destruct (Z.eqb_spec px (x - 1)); decide_cmp; cbn [andb]; reflexivity.
  - cbn [build_grid_left]. rewrite Hw.
    replace (y + i <? W) with true by (symmetry; apply Z.ltb_lt; lia).
    assert (Hpos : 0 <= (y + i) * W + x - 1 < Z.of_nat (length (image im)))
      by (rewrite Hlen; nia).
    rewrite store_in_range by assumption. cbn [mbind outcome_bind].
    destruct (IH (set_image im (<[Z.to_nat ((y + i) * W + x - 1) := 190]> (image im)))
                 x y (i + 1)) as (im' & E & Hw' & Hs' & Hm' & Hl' & P);
      cbn [set_image width image]; auto; try lia.
    { rewrite length_insert. assumption. }
    exists im'. split; [exact E|].
    cbn [set_image width image_size max_val image] in *.
    rewrite length_insert in Hl'. split; [congruence|]. repeat (split; [assumption|]).
    intros px py Hpx Hpy. rewrite P by assumption.
    destruct (Z.eq_dec (py * W + px) ((y + i) * W + x - 1)) as [Eq|Ne].
    + replace ((y + i) * W + x - 1) with ((y + i) * W + (x - 1)) in * by lia.
      apply pixel_index_inj in Eq; try lia.
      destruct Eq as [-> ->].
      rewrite load_insert_eq by assumption.
      rewrite Z.eqb_refl. decide_cmp; cbn [andb]; reflexivity.
    + rewrite load_insert_ne by nia.
      destruct (Z.eqb_spec px (x - 1)) as [->|]; cbn [andb]; [|reflexivity].
      assert (py <> y + i) by (intros ->; apply Ne; lia).
      decide_cmp; cbn [andb]; reflexivity.
Qed.

Lemma build_grid_spec (im : Image) (x y size : Z) :
  width im = W -> Z.of_nat (length (image im)) = W * W ->
  0 <= x -> 0 <= y -> 0 <= size -> x + size <= W -> y + size <= W ->
  exists im', build_grid im x y size = Done im' /\
    width im' = width im /\ image_size im' = image_size im /\
    max_val im' = max_val im /\ length (image im') = length (image im) /\
    forall px py, 0 <= px < W -> 0 <= py < W ->
      load (image im') (py * W + px) =
      if ((py =? y - 1) && (x <=? px) && (px <? x + size))
         || ((px =? x - 1) && (y <=? py) && (py <? y + size))
      then Done 190 else load (image im) (py * W + px).
Proof.
  intros Hw Hlen Hx Hy Hs Hxs Hys. unfold build_grid.
  assert (Htop : exists im1,
            (if 0 <? y then build_grid_top (Z.to_nat size) im x y 0 else Done im) = Done im1 /\
            width im1 = width im /\ image_size im1 = image_size im /\
            max_val im1 = max_val im /\ length (image im1) = length (image im) /\
            forall px py, 0 <= px < W -> 0 <= py < W ->
              load (image im1) (py * W + px) =
              if (py =? y - 1) && (x <=? px) && (px <? x + size)
              then Done 190 else load (image im) (py * W + px)).
  { destruct (Z.ltb_spec 0 y) as [Hy0|Hy0].
    - destruct (build_grid_top_spec (Z.to_nat size) im x y 0) as
        (im1 & E & A & B & C & D & P); auto; try lia.
      exists im1. split; [exact E|]. repeat (split; [assumption|]).
      intros px py Hpx Hpy. rewrite P by assumption.
      rewrite Z.add_0_r, Z2Nat.id by lia. reflexivity.
    - exists im. split; [reflexivity|]. repeat (split; [reflexivity|]).
      intros px py Hpx Hpy.
      destruct (Z.eqb_spec py (y - 1)); [lia|]. reflexivity. }
  destruct Htop as (im1 & E1 & A1 & B1 & C1 & D1 & P1). rewrite E1.
  cbn [mbind outcome_bind].
  destruct (Z.ltb_spec 0 x) as [Hx0|Hx0].
  - destruct (build_grid_left_spec (Z.to_nat size) im1 x y 0) as
      (im2 & E & A & B & C & D & P); auto; try lia; try congruence.
    exists im2. split; [exact E|].
    split; [congruence|]. split; [congruence|]. split; [congruence|].
    split; [congruence|].
    intros px py Hpx Hpy. rewrite P, P1 by assumption.
    rewrite Z.add_0_r, Z2Nat.id by lia.
    destruct ((py =? y - 1) && (x <=? px) && (px <? x + size)),
             ((px =? x - 1) && (y <=? py) && (py <? y + size)); reflexivity.
  - exists im1. split; [reflexivity|]. repeat (split; [assumption|]).
    intros px py Hpx Hpy. rewrite P1 by assumption.
    destruct (Z.eqb_spec px (x - 1)); [lia|]. cbn [andb].
    rewrite orb_false_r. reflexivity.
Qed.

End Grid.

Ltac decide_eqb :=
  repeat match goal with
  | |- context [?a =? ?b] => destruct (a =? b)
  end.

Section GridRec.

Variable q : Quadtree.
Variable n : nat.
Hypothesis q_shape : shape q n.
Hypothesis q_leaves : leaves_uniform n (nodes q).

Let W : Z := 2 ^ Z.of_nat n.

Lemma drawn_block_uniform (d : nat) (index x y px py : Z) (nd : Node) :
  load (nodes q) index = Done nd -> u nd <> 0 \/ d = O ->
  drawn_block (nodes q) d index x y px py = (x, y).
Proof.
  intros L H. destruct d as [|d]; cbn [drawn_block]; rewrite L; [reflexivity|].
  destruct H as [H|H]; [|discriminate].
  destruct (Z.eqb_spec (u nd) 0); [contradiction | reflexivity].
Qed.

Lemma top_border_split (d : nat) (index x y px py : Z) (nd : Node) :
  load (nodes q) index = Done nd -> u nd = 0 ->
  top_border (nodes q) (S d) index x y px py =
  top_border (nodes q) d (4 * index + 1) x y px py
  || top_border (nodes q) d (4 * index + 2) (x + 2 ^ Z.of_nat d) y px py
  || top_border (nodes q) d (4 * index + 3) (x + 2 ^ Z.of_nat d) (y + 2 ^ Z.of_nat d) px py
  || top_border (nodes q) d (4 * index + 4) x (y + 2 ^ Z.of_nat d) px py.
Proof.
  intros L Hu. unfold top_border. cbn [drawn_block]. rewrite L, Hu.
  cbn [Z.eqb negb]. rewrite pow2_succ. pose proof (pow2_pos d) as Hpd.
  set (c := 2 ^ Z.of_nat d) in *.
  decide_cmp; cbn [andb orb]; decide_eqb; reflexivity.
Qed.

Lemma left_border_split (d : nat) (index x y px py : Z) (nd : Node) :
  load (nodes q) index = Done nd -> u nd = 0 ->
  left_border (nodes q) (S d) index x y px py =
  left_border (nodes q) d (4 * index + 1) x y px py
  || left_border (nodes q) d (4 * index + 2) (x + 2 ^ Z.of_nat d) y px py
  || left_border (nodes q) d (4 * index + 3) (x + 2 ^ Z.of_nat d) (y + 2 ^ Z.of_nat d) px py
  || left_border (nodes q) d (4 * index + 4) x (y + 2 ^ Z.of_nat d) px py.
Proof.
  intros L Hu. unfold left_border. cbn [drawn_block]. rewrite L, Hu.
  cbn [Z.eqb negb]. rewrite pow2_succ. pose proof (pow2_pos d) as Hpd.
  set (c := 2 ^ Z.of_nat d) in *.
  decide_cmp; cbn [andb orb]; decide_eqb; reflexivity.
Qed.

Lemma grid_rec_spec (d : nat) :
  forall (l fuel : nat) (im : Image) (index x y : Z),
  (l + d = n)%nat -> (d < fuel)%nat -> at_level l index ->
  width im = W -> Z.of_nat (length (image im)) = W * W ->
  0 <= x -> 0 <= y -> x + 2 ^ Z.of_nat d <= W -> y + 2 ^ Z.of_nat d <= W ->
  exists im',
    build_segmentation_grid fuel q im (2 ^ Z.of_nat d) index x y = Done im' /\
    width im' = width im /\ image_size im' = image_size im /\
    max_val im' = max_val im /\
    length (image im') = length (image im) /\
    forall px py, 0 <= px < W -> 0 <= py < W ->
      load (image im') (py * W + px) =
      if top_border (nodes q) d index x y px py
         || left_border (nodes q) d index x y px py
      then Done 190 else load (image im) (py * W + px).
Proof.
  assert (HW : 0 < W) by apply pow2_pos.
  assert (Huniform : forall d0 im index x y nd,
            load (nodes q) index = Done nd -> u nd <> 0 \/ d0 = O ->
            width im = W -> Z.of_nat (length (image im)) = W * W ->
            0 <= x -> 0 <= y -> x + 2 ^ Z.of_nat d0 <= W -> y + 2 ^ Z.of_nat d0 <= W ->
            exists im',
              build_grid im x y (2 ^ Z.of_nat d0) = Done im' /\
              width im' = width im /\ image_size im' = image_size im /\
              max_val im' = max_val im /\
              length (image im') = length (image im) /\
              forall px py, 0 <= px < W -> 0 <= py < W ->
                load (image im') (py * W + px) =
                if top_border (nodes q) d0 index x y px py
                   || left_border (nodes q) d0 index x y px py
                then Done 190 else load (image im) (py * W + px)).
  { intros d0 im index x y nd L Hu Hw Hlen Hx Hy Hxw Hyw.
    pose proof (pow2_pos d0) as Hpd.
    destruct (build_grid_spec W HW im x y (2 ^ Z.of_nat d0)) as
      (im' & E & A & B & C & D & P); auto; try lia.
    exists im'. split; [exact E|]. repeat (split; [assumption|]).
    intros px py Hpx Hpy. rewrite P by assumption.
    unfold top_border, left_border.
    rewrite !(drawn_block_uniform d0 index x y _ _ nd L Hu). cbn [fst snd].
    set (s := 2 ^ Z.of_nat d0) in *.
    destruct (Z.eqb_spec py (y - 1)), (Z.eqb_spec px (x - 1)),
             (Z.eqb_spec y (py + 1)), (Z.eqb_spec x (px + 1)); try lia;
      decide_cmp; cbn [andb orb]; reflexivity. }
  induction d as [|d IH];
    intros l fuel im index x y Hld Hfuel Hlvl Hw Hlen Hx Hy Hxw Hyw;
    (destruct fuel as [|fuel]; [lia|]);
    pose proof q_shape as (Hlv & Ht & Hn);
    pose proof (at_level_in_range l n index Hlvl ltac:(lia)) as Hidx;
    destruct (load_in_range (nodes q) index ltac:(lia)) as [nd Lnd];
    cbn [build_segmentation_grid]; rewrite Lnd; cbn [mbind outcome_bind].
  - replace l with n in * by lia.
    destruct (q_leaves index Hlvl) as (nd0 & L0 & Hu).
    assert (nd0 = nd) by congruence. subst nd0.
    replace (u nd =? 0) with false by (symmetry; apply Z.eqb_neq; assumption).
    cbn [negb]. apply (Huniform 0%nat im index x y nd); auto.
  - destruct (Z.eqb_spec (u nd) 0) as [Hu|Hu]; cbn [negb];
      [|apply (Huniform (S d) im index x y nd); auto].
    rewrite quot_pow2. rewrite pow2_succ in *. pose proof (pow2_pos d) as Hpd.
    set (c := 2 ^ Z.of_nat d) in *.
    destruct (IH (S l) fuel im (4 * index + 1) x y) as
      (i1 & E1 & Hw1 & Hs1 & Hm1 & Hl1 & P1);
      try lia; [apply at_level_child; [assumption | lia]|].
    destruct (IH (S l) fuel i1 (4 * index + 2) (x + c) y) as
      (i2 & E2 & Hw2 & Hs2 & Hm2 & Hl2 & P2);
      try lia; [apply at_level_child; [assumption | lia]|].
    destruct (IH (S l) fuel i2 (4 * index + 3) (x + c) (y + c)) as
      (i3 & E3 & Hw3 & Hs3 & Hm3 & Hl3 & P3);
      try lia; [apply at_level_child; [assumption | lia]|].
    destruct (IH (S l) fuel i3 (4 * index + 4) x (y + c)) as
      (i4 & E4 & Hw4 & Hs4 & Hm4 & Hl4 & P4);
      try lia; [apply at_level_child; [assumption | lia]|].
    rewrite E1. cbn [mbind outcome_bind]. rewrite E2. cbn [mbind outcome_bind].
    rewrite E3. cbn [mbind outcome_bind]. rewrite E4.
    exists i4. split; [reflexivity|].
    split; [congruence|]. split; [congruence|]. split; [congruence|].
    split; [congruence|].
    intros px py Hpx Hpy.
    rewrite P4, P3, P2, P1 by assumption.
    rewrite (top_border_split d index x y px py nd Lnd Hu).
    rewrite (left_border_split d index x y px py nd Lnd Hu). fold c.
    destruct (top_border (nodes q) d (4 * index + 1) x y px py),
             (top_border (nodes q) d (4 * index + 2) (x + c) y px py),
             (top_border (nodes q) d (4 * index + 3) (x + c) (y + c) px py),
             (top_border (nodes q) d (4 * index + 4) x (y + c) px py),
             (left_border (nodes q) d (4 * index + 1) x y px py),
             (left_border (nodes q) d (4 * index + 2) (x + c) y px py),
             (left_border (nodes q) d (4 * index + 3) (x + c) (y + c) px py),
             (left_border (nodes q) d (4 * index + 4) x (y + c) px py);
      reflexivity.
Qed.

End GridRec.

Lemma memset_all (l : list Z) (c : Z) :
  0 <= c < 256 ->
  memset l c (Z.of_nat (length l)) = Done (replicate (length l) c).
Proof.
  intros Hc. unfold memset.
  replace (Z.of_nat (length l) <? 0) with false by (symmetry; apply Z.ltb_ge; lia).
  rewrite Z.ltb_irrefl. cbn [orb]. rewrite Nat2Z.id, drop_all, app_nil_r.
  unfold byte_of. rewrite Z.mod_small by lia. reflexivity.
Qed.

Lemma load_replicate (k : nat) (c i : Z) :
  0 <= i < Z.of_nat k -> load (replicate k c) i = Done c.
Proof.
  intros Hi. apply load_Done. split; [lia|].
  apply lookup_replicate_2. lia.
Qed.

Lemma generate_segmentation_grid_spec (q : Quadtree) (n : nat) (fuel : nat)
    (junk : nat -> Z) :
  shape q n -> leaves_uniform n (nodes q) -> (n < fuel)%nat ->
  exists im, generate_segmentation_grid fuel q junk = Done im /\
    width im = 2 ^ Z.of_nat n /\ max_val im = 255 /\
    Z.of_nat (length (image im)) = 2 ^ Z.of_nat n * 2 ^ Z.of_nat n /\
    forall px py, 0 <= px < 2 ^ Z.of_nat n -> 0 <= py < 2 ^ Z.of_nat n ->
      load (image im) (py * 2 ^ Z.of_nat n + px) =
      Done (if top_border (nodes q) n 0 0 0 px py
               || left_border (nodes q) n 0 0 0 px py
            then 190 else 255).
Proof.
  intros Hsh Hleaves Hfuel. pose proof Hsh as (Hlv & _ & _).
  unfold generate_segmentation_grid. rewrite Hlv, shiftl_1_pow2.
  pose proof (pow2_pos n) as Hp. set (w := 2 ^ Z.of_nat n) in *.
  assert (Hal : Z.of_nat (length (image (allocate_image w (w * w) 255 junk))) = w * w).
  { cbn [allocate_image image]. rewrite length_malloc. nia. }
  set (img0 := allocate_image w (w * w) 255 junk) in *.
  assert (Em : memset (image img0) 255 (image_size img0)
               = Done (replicate (length (image img0)) 255)).
  { change (image_size img0) with (w * w). rewrite <- Hal. apply memset_all. lia. }
  rewrite Em. cbn [mbind outcome_bind].
  destruct (grid_rec_spec q n Hsh Hleaves n 0%nat fuel
              (set_image img0 (replicate (length (image img0)) 255)) 0 0 0)
    as (im & E & Hw & _ & Hm & Hl & P); auto; try (fold w; lia).
  { apply at_level_root. }
  { cbn [set_image image]. rewrite length_replicate. exact Hal. }
  exists im. split; [exact E|]. split; [rewrite Hw; reflexivity|].
  split; [rewrite Hm; reflexivity|].
  split; [rewrite Hl; cbn [set_image image]; rewrite length_replicate; exact Hal|].
  intros px py Hpx Hpy. fold w in P. rewrite P by assumption.
  cbn [set_image image]. rewrite load_replicate by (rewrite Hal; nia).
  destruct (_ || _); reflexivity.
Qed.

(** X27. [generate_segmentation_grid], on a tree of [n] levels ([n] at most
    15) whose leaves are uniform, as in every tree that was built or
    filtered and in every decoded tree of at least one level: the grid is
    a white image of side [2^n] in which exactly the pixels that lie just
    above the top row, or just left of the left column, of a drawn block
    are grey (190); the blocks drawn are those of the first uniform node
    on the way down to each pixel. *)
Theorem segmentation_grid_pixels (q : Quadtree) (n : nat) (fuel : nat)
    (junk : nat -> Z) :
  shape q n -> leaves_uniform n (nodes q) -> (n <= 15)%nat -> (n < fuel)%nat ->
  exists im, generate_segmentation_grid fuel q junk = Done im /\
    width im = 2 ^ Z.of_nat n /\ max_val im = 255 /\
    Z.of_nat (length (image im)) = 2 ^ Z.of_nat n * 2 ^ Z.of_nat n /\
    forall px py, 0 <= px < 2 ^ Z.of_nat n -> 0 <= py < 2 ^ Z.of_nat n ->
      load (image im) (py * 2 ^ Z.of_nat n + px) =
      Done (if top_border (nodes q) n 0 0 0 px py
               || left_border (nodes q) n 0 0 0 px py
            then 190 else 255).
Proof.
  intros Hsh Hleaves _ Hfuel.
  exact (generate_segmentation_grid_spec q n fuel junk Hsh Hleaves Hfuel).
Qed.

Lemma tree_2x2_shape : shape tree_2x2 1.
Proof. unfold shape. repeat split; reflexivity. Defined.

Lemma tree_2x2_leaves : leaves_uniform 1 (nodes tree_2x2).
Proof.
  intros j Hj. change (first_index 1) with 1 in Hj. change (first_index 2) with 5 in Hj.
  assert (j = 1 \/ j = 2 \/ j = 3 \/ j = 4) as [->|[->|[->| ->]]] by lia;
    eexists; (split; [reflexivity | discriminate]).
Defined.

Lemma segmentation_grid_pixels_witness :
  shape tree_2x2 1 /\ leaves_uniform 1 (nodes tree_2x2) /\
  (1 <= 15)%nat /\ (1 < 2)%nat /\
  exists im,
    generate_segmentation_grid 2 tree_2x2 zero_bytes = Done im /\
    width im = 2 ^ Z.of_nat 1 /\ max_val im = 255 /\
    Z.of_nat (length (image im)) = 2 ^ Z.of_nat 1 * 2 ^ Z.of_nat 1 /\
    forall px py, 0 <= px < 2 ^ Z.of_nat 1 -> 0 <= py < 2 ^ Z.of_nat 1 ->
      load (image im) (py * 2 ^ Z.of_nat 1 + px) =
      Done (if top_border (nodes tree_2x2) 1 0 0 0 px py
               || left_border (nodes tree_2x2) 1 0 0 0 px py
            then 190 else 255).
Proof.
  split; [exact tree_2x2_shape|]. split; [exact tree_2x2_leaves|].
  split; [lia|]. split; [lia|].
  apply (segmentation_grid_pixels tree_2x2 1 2 zero_bytes
           tree_2x2_shape tree_2x2_leaves); lia.
Defined.

(** The grid of [tree_2x2], whose four leaves are drawn: the pixels above
    or to the left of another leaf are grey, the last one is white. *)
Lemma grid_tree_2x2 :
  exists im, generate_segmentation_grid 2 tree_2x2 zero_bytes = Done im /\
    image im = [190; 190; 190; 255].
Proof. eexists. split; [vm_compute; reflexivity | reflexivity]. Qed.

(** ** encode.c: the tree the filter leaves *)

(** X13. After the filter, as after the builder, uniformity goes down the tree:
    every bit [u] is 0 or 1, a uniform node has [epsilon = 0] and all its
    children are uniform, so that the encoder may skip them; and the value
    [filtrage] returns to [main] is the uniformity bit of the root. *)
Theorem filter_uniform_children (n : nat) (img : Image) (fuel : nat)
    (junk : nat -> Node) (alpha : float) :
  valid_raster n img -> (n <= 15)%nat -> (n < fuel)%nat ->
  exists q q1 r,
    build_quadtree_from_image fuel img junk = Done q /\
    main_filtrage fuel q alpha = Done (q1, r) /\
    (exists nd, load (nodes q1) 0 = Done nd /\ r = u nd) /\
    forall j p, load (nodes q1) j = Done p ->
      (u p = 0 \/ u p = 1) /\
      (u p = 1 -> epsilon p = 0 /\
         forall a c, 1 <= a <= 4 -> load (nodes q1) (4 * j + a) = Done c -> u c = 1).
Proof.
  intros Hvalid _ Hfuel.
  destruct (filter_built_coherent n img fuel junk alpha Hvalid Hfuel) as
    (q & q1 & r & Eb & Ef & Hsh & Hfc & Hcl & (nd & L & Hr)).
  destruct Hsh as (_ & _ & Hlen).
  assert (Hu01 : forall j p, load (nodes q1) j = Done p ->
            (u p = 0 \/ u p = 1) /\ (u p = 1 -> epsilon p = 0)).
  { intros j p Lp. pose proof (load_range _ _ _ Lp) as Hj.
    destruct (Hfc j ltac:(lia)) as (p' & Lp' & (_ & _ & Hu & He) & _).
    assert (p' = p) by congruence. subst p'. split; [exact Hu|].
    intros H1. destruct (Z.eq_dec (epsilon p) 0); [assumption|].
    specialize (He ltac:(assumption)). lia. }
  exists q, q1, r. split; [exact Eb|]. split; [exact Ef|]. split.
  - exists nd. split; [exact L|]. subst r. unfold flag.
    destruct (Hu01 0 nd L) as [[H|H] _]; rewrite H; reflexivity.
  - intros j p Lp. destruct (Hu01 j p Lp) as [H01 He]. split; [exact H01|].
    intros H1. split; [apply He; exact H1|].
    intros a c Ha Lc.
    assert (Hd : desc 0 j) by (apply desc_root; apply load_range in Lp; lia).
    pose proof (Hcl j p Hd Lp ltac:(lia) a c Ha Lc) as Hc.
    destruct (Hu01 _ c Lc) as [[H|H] _]; [contradiction | exact H].
Qed.

Lemma filter_uniform_children_witness :
  valid_raster 2 raster_4x4 /\ (2 <= 15)%nat /\ (2 < 3)%nat /\
  exists q q1 r,
    build_quadtree_from_image 3 raster_4x4 zero_nodes = Done q /\
    main_filtrage 3 q 1.5%float = Done (q1, r) /\
    (exists nd, load (nodes q1) 0 = Done nd /\ r = u nd) /\
    forall j p, load (nodes q1) j = Done p ->
      (u p = 0 \/ u p = 1) /\
      (u p = 1 -> epsilon p = 0 /\
         forall a c, 1 <= a <= 4 -> load (nodes q1) (4 * j + a) = Done c -> u c = 1).
Proof.
  split; [exact raster_4x4_valid|]. split; [lia|]. split; [lia|].
  apply (filter_uniform_children 2 raster_4x4 3 zero_nodes 1.5%float);
    [exact raster_4x4_valid | lia | lia].
Defined.

(** ** quadtree.c: the extension of a file name *)

Lemma strrchr_dot_suffix (base ext : String.string) :
  strrchr ext "."%char = None ->
  strrchr (String.append base (String.String "."%char ext)) "."%char
  = Some (String.String "."%char ext).
Proof.
  intros Hext. induction base as [|a base IH]; cbn [String.append strrchr].
  - rewrite Hext. reflexivity.
  - rewrite IH. reflexivity.
Qed.

(** X23. [check_file_extension] compares what follows the last dot of the file
    name with the expected extension: a name [base.ext], where [ext] holds
    no dot, is accepted exactly when [ext] is the expected extension,
    whatever [base] is (it may be empty or hold dots).  A name without any
    dot is not rejected: the test written for it does nothing, and the
    comparison is made on a null pointer. *)
Theorem check_file_extension_last_dot (base ext expected : String.string) :
  strrchr ext "."%char = None ->
  check_file_extension (String.append base (String.String "."%char ext)) expected
    = Done (if String.eqb ext expected then 1 else 0) /\
  check_file_extension ext expected = Undefined.
Proof.
  intros Hext. unfold check_file_extension.
  rewrite strrchr_dot_suffix by assumption. rewrite Hext. auto.
Qed.

Lemma check_file_extension_last_dot_witness :
  strrchr "pgm"%string "."%char = None /\
  check_file_extension (String.append "a.b"%string (String.String "."%char "pgm"%string))
    "pgm"%string
    = Done (if String.eqb "pgm"%string "pgm"%string then 1 else 0) /\
  check_file_extension "pgm"%string "pgm"%string = Undefined.
Proof.
  split; [reflexivity|].
  apply (check_file_extension_last_dot "a.b"%string "pgm"%string "pgm"%string).
  reflexivity.
Defined.

(** ** decode.c: any stream that is long enough *)

Lemma read_n_bits_any (s : BitStream) (n : Z) :
  0 <= n <= 8 -> cursor_ok s ->
  rpos s + n <= 8 * Z.of_nat (length (buf s)) ->
  exists s' r, read_n_bits s n = Done (s', r) /\
    buf s' = buf s /\ cursor_ok s' /\ rpos s' = rpos s + n /\ 0 <= r < 2 ^ n.
Proof.
  intros Hn [Hc Hp] Hlen.
  destruct (read_n_bits_spec s n Hn Hc Hp Hlen) as
    (s' & r & Hr & Hb & _ & Hc' & Hp' & Hrp & Hbits).
  exists s', r. split; [exact Hr|]. split; [exact Hb|].
  split; [split; assumption|]. split; [exact Hrp|].
  assert (Hr0 : 0 <= r).
  { apply Z.bits_iff_nonneg_ex. exists n. intros m Hm.
    rewrite Hbits by lia. destruct (Z.ltb_spec m n); [lia | reflexivity]. }
  split; [exact Hr0|].
  destruct (Z.eq_dec r 0) as [->|Hne]; [apply Z.pow_pos_nonneg; lia|].
  apply Z.log2_lt_pow2; [lia|].
  destruct (Z.lt_ge_cases (Z.log2 r) n) as [Hlt|Hge]; [exact Hlt|].
  assert (Hb1 : Z.testbit r (Z.log2 r) = true) by (apply Z.bit_log2; lia).
  rewrite Hbits in Hb1 by (apply Z.log2_nonneg).
  destruct (Z.ltb_spec (Z.log2 r) n); [lia | discriminate].
Qed.

Lemma read_tail_any (s : BitStream) (m : Z) (vv : float) :
  cursor_ok s -> rpos s + 3 <= 8 * Z.of_nat (length (buf s)) ->
  exists s' nd, read_tail s m vv = Done (s', nd) /\
    moyenne nd = m /\ 0 <= epsilon nd < 4 /\ (u nd = 0 \/ u nd = 1) /\
    (epsilon nd <> 0 -> u nd = 0) /\
    buf s' = buf s /\ cursor_ok s' /\ rpos s <= rpos s' <= rpos s + 3.
Proof.
  intros Hc Hlen. unfold read_tail.
  destruct (read_n_bits_any s 2 ltac:(lia) Hc ltac:(lia)) as
    (s1 & e & E1 & Hb1 & Hc1 & Hr1 & He).
  rewrite E1. cbn [mbind outcome_bind]. change (2 ^ 2) with 4 in He.
  destruct (Z.eqb_spec e 0) as [->|Hne].
  - destruct (read_n_bits_any s1 1 ltac:(lia) Hc1 ltac:(rewrite Hb1; lia)) as
      (s2 & b & E2 & Hb2 & Hc2 & Hr2 & Hb).
    rewrite E2. cbn [mbind outcome_bind]. change (2 ^ 1) with 2 in Hb.
    eexists _, _. split; [reflexivity|]. cbn [moyenne epsilon u].
    split; [reflexivity|]. split; [lia|]. split; [lia|]. split; [lia|].
    split; [congruence|]. split; [exact Hc2|]. lia.
  - eexists _, _. split; [reflexivity|]. cbn [moyenne epsilon u].
    split; [reflexivity|]. split; [lia|]. split; [lia|]. split; [auto|].
    split; [exact Hb1|]. split; [exact Hc1|]. lia.
Qed.

Lemma read_node_any (s : BitStream) (nd : Node) :
  cursor_ok s -> rpos s + 11 <= 8 * Z.of_nat (length (buf s)) ->
  exists s' nd', read_node s nd = Done (s', nd') /\ byte_fields nd' /\
    buf s' = buf s /\ cursor_ok s' /\ rpos s <= rpos s' <= rpos s + 11.
Proof.
  intros Hc Hlen. rewrite read_node_tail.
  destruct (read_n_bits_any s 8 ltac:(lia) Hc ltac:(lia)) as
    (s1 & m & E1 & Hb1 & Hc1 & Hr1 & Hm).
  rewrite E1. cbn [mbind outcome_bind]. change (2 ^ 8) with 256 in Hm.
  destruct (read_tail_any s1 m (v nd) Hc1 ltac:(rewrite Hb1; lia)) as
    (s2 & nd' & E2 & M & He & Hu & Hx & Hb2 & Hc2 & Hr2).
  exists s2, nd'. split; [exact E2|].
  split; [unfold byte_fields; rewrite M; auto|].
  split; [congruence|]. split; [exact Hc2|]. lia.
Qed.

Lemma read_leaf_any (s : BitStream) (nd : Node) :
  cursor_ok s -> rpos s + 11 <= 8 * Z.of_nat (length (buf s)) ->
  exists s' nd', read_leaf s nd = Done (s', nd') /\ byte_fields nd' /\
    leaf_fields nd' /\
    buf s' = buf s /\ cursor_ok s' /\ rpos s <= rpos s' <= rpos s + 11.
Proof.
  intros Hc Hlen. unfold read_leaf.
  destruct (read_n_bits_any s 8 ltac:(lia) Hc ltac:(lia)) as
    (s1 & m & E1 & Hb1 & Hc1 & Hr1 & Hm).
  rewrite E1. cbn [mbind outcome_bind]. change (2 ^ 8) with 256 in Hm.
  eexists _, _. split; [reflexivity|].
  unfold byte_fields, leaf_fields. cbn [moyenne epsilon u].
  split; [repeat split; auto; lia|]. split; [auto|].
  split; [exact Hb1|]. split; [exact Hc1|]. lia.
Qed.

Section DecodeAny.

Variable n : nat.

Lemma decode_node_any (i : Z) (s : BitStream) (q' : Quadtree) (cur : Node) :
  0 <= i < first_index (S n) -> shape q' n ->
  decoded_upto n (nodes q') i ->
  cursor_ok s -> rpos s + 11 <= 8 * Z.of_nat (length (buf s)) ->
  exists s' nd', decode_node i s q' cur = Done (s', nd') /\
    byte_fields nd' /\
    (1 <= i -> first_index n <= i -> leaf_fields nd') /\
    (1 <= i -> forall par, load (nodes q') ((i - 1) / 4) = Done par -> u par <> 0 ->
       moyenne nd' = moyenne par /\ epsilon nd' = 0 /\ u nd' = 1) /\
    buf s' = buf s /\ cursor_ok s' /\ rpos s <= rpos s' <= rpos s + 11.
Proof.
  intros Hi Hsh Hinv Hc Hlen. unfold decode_node.
  pose proof Hsh as (Hlv & Ht & Hln).
  destruct (Z.eqb_spec i 0) as [->|Hi0].
  - destruct (read_node_any s cur Hc Hlen) as (s' & nd' & E & Hbf & Hb & Hc' & Hr).
    exists s', nd'. split; [exact E|]. split; [exact Hbf|].
    split; [lia|]. split; [lia|]. auto.
  - destruct (parent_index i ltac:(lia)) as [-> Hp].
    destruct (Hinv ((i - 1) / 4) ltac:(lia)) as (par & Lp & Pbf & _).
    rewrite Lp. cbn [mbind outcome_bind].
    destruct (Z.eqb_spec (u par) 0) as [Hu|Hu]; cbn [negb].
    + assert (Hpar : 1 <= i -> forall par0, load (nodes q') ((i - 1) / 4) = Done par0 ->
                u par0 <> 0 -> False).
      { intros _ par0 L0 H0. assert (par0 = par) by congruence. subst. contradiction. }
      destruct (Z.eqb_spec (Z.rem i 4) 0) as [Hrem|Hrem].
      * rewrite interpolation_tail.
        assert (Hi4 : 4 <= i).
        { rewrite Z.rem_mod_nonneg in Hrem by lia.
          pose proof (Z.div_mod i 4 ltac:(lia)). lia. }
        destruct (Hinv (i - 1) ltac:(lia)) as (n1 & L1 & _).
        destruct (Hinv (i - 2) ltac:(lia)) as (n2 & L2 & _).
        destruct (Hinv (i - 3) ltac:(lia)) as (n3 & L3 & _).
        rewrite L1, L2, L3. cbn [mbind outcome_bind].
        rewrite (is_leaf_shape q' n i Hsh).
        set (m := byte_of _).
        assert (Hm : 0 <= m < 256) by (apply Z.mod_pos_bound; lia).
        destruct (Z.leb_spec (first_index n) i) as [Hleaf|Hleaf].
        -- eexists _, _. split; [reflexivity|].
           unfold byte_fields, leaf_fields. cbn [moyenne epsilon u].
           split; [repeat split; auto; lia|]. split; [auto|].
           split; [intros ? par0 L0 ?; inversion L0; subst; contradiction|].
           split; [reflexivity|]. split; [exact Hc|]. lia.
        -- destruct (read_tail_any s m (v cur) Hc ltac:(lia)) as
             (s2 & nd' & E2 & M & He & Hu' & Hx & Hb2 & Hc2 & Hr2).
           exists s2, nd'. split; [exact E2|].
           split; [unfold byte_fields; rewrite M; auto|].
           split; [lia|]. split; [intros ? par0 L0 ?; inversion L0; subst; contradiction|].
           split; [exact Hb2|]. split; [exact Hc2|]. lia.
      * rewrite (is_leaf_shape q' n i Hsh).
        destruct (Z.leb_spec (first_index n) i) as [Hleaf|Hleaf].
        -- destruct (read_leaf_any s cur Hc Hlen) as
             (s' & nd' & E & Hbf & Hlf & Hb & Hc' & Hr).
           exists s', nd'. split; [exact E|]. split; [exact Hbf|].
           split; [auto|]. split; [intros ? par0 L0 ?; inversion L0; subst; contradiction|]. auto.
        -- destruct (read_node_any s cur Hc Hlen) as
             (s' & nd' & E & Hbf & Hb & Hc' & Hr).
           exists s', nd'. split; [exact E|]. split; [exact Hbf|].
           split; [lia|]. split; [intros ? par0 L0 ?; inversion L0; subst; contradiction|]. auto.
    + eexists _, _. split; [reflexivity|].
      destruct Pbf as (Pm & _).
      unfold byte_fields, leaf_fields. cbn [moyenne epsilon u].
      split; [repeat split; auto; lia|]. split; [auto|].
      split.
      { intros _ par0 L0 _. assert (par0 = par) by congruence. subst. auto. }
      split; [reflexivity|]. split; [exact Hc|]. lia.
Qed.

Lemma decode_step_any (i : Z) (s : BitStream) (q' : Quadtree) :
  0 <= i < first_index (S n) -> shape q' n ->
  decoded_upto n (nodes q') i ->
  cursor_ok s -> rpos s + 11 <= 8 * Z.of_nat (length (buf s)) ->
  exists s' q'', decode_step i (s, q') = Done (s', q'') /\
    shape q'' n /\ decoded_upto n (nodes q'') (i + 1) /\
    buf s' = buf s /\ cursor_ok s' /\ rpos s <= rpos s' <= rpos s + 11.
Proof.
  intros Hi Hsh Hinv Hc Hlen. pose proof Hsh as (Hlv & Ht & Hln).
  rewrite decode_step_node.
  destruct (load_in_range (nodes q') i ltac:(lia)) as [cur Lc].
  rewrite Lc. cbn [mbind outcome_bind].
  destruct (decode_node_any i s q' cur Hi Hsh Hinv Hc Hlen) as
    (s' & nd' & E & Hbf & Hlf & Hpar & Hb & Hc' & Hr).
  rewrite E. cbn [mbind outcome_bind].
  rewrite store_in_range by lia. cbn [mbind outcome_bind].
  eexists _, _. split; [reflexivity|].
  split; [unfold shape; cbn [set_nodes levels total_nodes nodes];
          rewrite length_insert; auto|].
  split; [|auto].
  cbn [set_nodes nodes]. intros j Hj.
  destruct (Z.eq_dec j i) as [->|Hne].
  - exists nd'. split; [apply load_insert_eq; lia|]. split; [exact Hbf|].
    split; [exact Hlf|].
    intros H1 par Lp. destruct (parent_index i H1) as [_ Hpi].
    rewrite load_insert_ne in Lp by lia. apply Hpar; assumption.
  - destruct (Hinv j ltac:(lia)) as (nd & L & Nbf & Nlf & Npar).
    exists nd. split; [rewrite load_insert_ne by lia; exact L|].
    split; [exact Nbf|]. split; [exact Nlf|].
    intros H1 par Lp. destruct (parent_index j H1) as [_ Hpj].
    rewrite load_insert_ne in Lp by lia. apply Npar; assumption.
Qed.

Lemma decode_loop_any (k : nat) :
  forall (i : Z) (s : BitStream) (q' : Quadtree),
  0 <= i -> i + Z.of_nat k = first_index (S n) -> shape q' n ->
  decoded_upto n (nodes q') i ->
  cursor_ok s -> rpos s + 11 * Z.of_nat k <= 8 * Z.of_nat (length (buf s)) ->
  exists s' q'', decode_loop k i (s, q') = Done (s', q'') /\
    shape q'' n /\ decoded_upto n (nodes q'') (first_index (S n)) /\
    buf s' = buf s.
Proof.
  induction k as [|k IH]; intros i s q' Hi Hk Hsh Hinv Hc Hlen.
  - exists s, q'. split; [reflexivity|]. split; [exact Hsh|].
    split; [|reflexivity]. replace (first_index (S n)) with i by lia. exact Hinv.
  - destruct (decode_step_any i s q' ltac:(lia) Hsh Hinv Hc ltac:(lia)) as
      (s1 & q1 & E1 & Hsh1 & Hinv1 & Hb1 & Hc1 & Hr1).
    destruct (IH (i + 1) s1 q1 ltac:(lia) ltac:(lia) Hsh1 Hinv1 Hc1
                ltac:(rewrite Hb1; lia)) as (s2 & q2 & E2 & Hsh2 & Hinv2 & Hb2).
    exists s2, q2. cbn [decode_loop]. rewrite E1. cbn [mbind outcome_bind].
    split; [exact E2|]. split; [exact Hsh2|]. split; [exact Hinv2|]. congruence.
Qed.

End DecodeAny.

Lemma decode_any_spec (s : BitStream) (n : nat) (junk : nat -> Node) :
  capa s = CHAR_BIT -> 0 <= start s -> (n <= 15)%nat ->
  (forall j, 0 <= j < 8 ->
     sbit (buf s) (8 * start s + j) = Z.testbit (Z.of_nat n) (7 - j)) ->
  8 * start s + 8 + 11 * first_index (S n) <= 8 * Z.of_nat (length (buf s)) ->
  exists s' q, decode s junk = Done (s', q) /\
    buf s' = buf s /\
    levels q = Z.of_nat n /\ total_nodes q = first_index (S n) /\
    Z.of_nat (length (nodes q)) = first_index (S n) /\
    decoded_upto n (nodes q) (total_nodes q).
Proof.
  intros Hcapa Hstart Hn Hhead Hlen. unfold CHAR_BIT in Hcapa.
  pose proof (first_index_nonneg (S n)) as HT.
  assert (Hc : cursor_ok s) by (unfold cursor_ok, capa_ok; lia).
  assert (Hr0 : rpos s = 8 * start s) by (unfold rpos; lia).
  destruct (read_n_bits_value s 8 (Z.of_nat n)) as
    (s1 & E1 & Hb1 & _ & Hc1 & Hp1 & Hr1); try apply Hc; try lia.
  { intros j Hj. rewrite Hr0, Hhead by lia. f_equal; lia. }
  rewrite Z.mod_small in E1 by (change (2 ^ 8) with 256; lia).
  pose proof (create_empty_quadtree_shape n junk) as Hsh0.
  destruct (decode_loop_any n (Z.to_nat (first_index (S n))) 0 s1
              (create_empty_quadtree (Z.of_nat n) junk))
    as (s2 & q2 & E2 & Hsh2 & Hinv2 & Hb2); auto; try lia.
  { intros j Hj. lia. }
  { split; assumption. }
  { rewrite Hb1, Hr1, Hr0. lia. }
  exists s2, q2. split.
  - unfold decode. rewrite E1. cbn [mbind outcome_bind].
    destruct Hsh0 as (_ & Ht0 & _). rewrite Ht0. exact E2.
  - destruct Hsh2 as (A & B & C). split; [congruence|].
    split; [exact A|]. split; [exact B|]. split; [exact C|].
    rewrite B. exact Hinv2.
Qed.

(** X16. [decode] on any stream, written by the encoder or not: when the first
    byte announces [n] levels (at most 15) and there are 11 bits left for
    each of the [(4^(n+1) - 1) / 3] nodes, the decoder returns a tree of
    [n] levels and leaves the stream as it was.  Every node of that tree
    holds fields in range; below the root every leaf is uniform, and the
    children of a uniform node are uniform with the mean of their parent. *)
Theorem decode_any_stream (s : BitStream) (n : nat) (junk : nat -> Node) :
  capa s = CHAR_BIT -> 0 <= start s -> (n <= 15)%nat ->
  (forall j, 0 <= j < 8 ->
     sbit (buf s) (8 * start s + j) = Z.testbit (Z.of_nat n) (7 - j)) ->
  8 * start s + 8 + 11 * first_index (S n) <= 8 * Z.of_nat (length (buf s)) ->
  exists s' q, decode s junk = Done (s', q) /\
    buf s' = buf s /\
    levels q = Z.of_nat n /\ total_nodes q = first_index (S n) /\
    Z.of_nat (length (nodes q)) = first_index (S n) /\
    decoded_upto n (nodes q) (total_nodes q).
Proof. exact (decode_any_spec s n junk). Qed.

Lemma decode_any_stream_witness :
  capa stream_8_bytes = CHAR_BIT /\ 0 <= start stream_8_bytes /\ (1 <= 15)%nat /\
  (forall j, 0 <= j < 8 ->
     sbit (buf stream_8_bytes) (8 * start stream_8_bytes + j)
     = Z.testbit (Z.of_nat 1) (7 - j)) /\
  8 * start stream_8_bytes + 8 + 11 * first_index 2
    <= 8 * Z.of_nat (length (buf stream_8_bytes)) /\
  exists s' q, decode stream_8_bytes zero_nodes = Done (s', q) /\
    buf s' = buf stream_8_bytes /\
    levels q = Z.of_nat 1 /\ total_nodes q = first_index 2 /\
    Z.of_nat (length (nodes q)) = first_index 2 /\
    decoded_upto 1 (nodes q) (total_nodes q).
Proof.
  assert (Hh : forall j, 0 <= j < 8 ->
            sbit (buf stream_8_bytes) (8 * start stream_8_bytes + j)
            = Z.testbit (Z.of_nat 1) (7 - j)).
  { intros j Hj.
    assert (j = 0 \/ j = 1 \/ j = 2 \/ j = 3 \/ j = 4 \/ j = 5 \/ j = 6 \/ j = 7)
      as [->|[->|[->|[->|[->|[->|[->| ->]]]]]]] by lia; reflexivity. }
  assert (Hl : 8 * start stream_8_bytes + 8 + 11 * first_index 2
               <= 8 * Z.of_nat (length (buf stream_8_bytes)))
    by (vm_compute; discriminate).
  split; [reflexivity|]. split; [simpl; lia|]. split; [lia|].
  split; [exact Hh|]. split; [exact Hl|].
  apply (decode_any_stream stream_8_bytes 1 zero_nodes);
    [reflexivity | simpl; lia | lia | exact Hh | exact Hl].
Defined.


(** ** The lossless round trip, stream to stream *)

(** X18. The lossless pipeline on every raster of side [2^n], [1 <= n <= 14]:
    the tree is built and encoded within its buffer; the decoder returns
    a tree of the same shape that holds the mean, the epsilon and the
    uniformity bit of every node of the built tree, and the painter
    returns the raster. *)
Theorem stream_roundtrip_lossless (n : nat) (img : Image) (fuel : nat)
    (junkN junkN' : nat -> Node) (junkB junkI : nat -> Z) :
  valid_raster n img -> (1 <= n <= 14)%nat -> (n < fuel)%nat ->
  exists q s s' q' im,
    build_quadtree_from_image fuel img junkN = Done q /\
    encode q junkB = Done s /\
    decode s junkN' = Done (s', q') /\
    levels q' = levels q /\ total_nodes q' = total_nodes q /\
    length (nodes q') = length (nodes q) /\
    (forall j, 0 <= j < total_nodes q ->
       exists nd nd', load (nodes q) j = Done nd /\ load (nodes q') j = Done nd' /\
         moyenne nd = moyenne nd' /\ epsilon nd = epsilon nd' /\ u nd = u nd') /\
    build_image_from_quadtree fuel q' junkI = Done im /\
    width im = width img /\ image im = image img.
Proof. exact (lossless_roundtrip n img fuel junkN junkN' junkB junkI). Qed.

Lemma stream_roundtrip_lossless_witness :
  valid_raster 1 raster_2x2 /\ (1 <= 1 <= 14)%nat /\ (1 < 2)%nat /\
  exists q s s' q' im,
    build_quadtree_from_image 2 raster_2x2 zero_nodes = Done q /\
    encode q zero_bytes = Done s /\
    decode s zero_nodes = Done (s', q') /\
    levels q' = levels q /\ total_nodes q' = total_nodes q /\
    length (nodes q') = length (nodes q) /\
    (forall j, 0 <= j < total_nodes q ->
       exists nd nd', load (nodes q) j = Done nd /\ load (nodes q') j = Done nd' /\
         moyenne nd = moyenne nd' /\ epsilon nd = epsilon nd' /\ u nd = u nd') /\
    build_image_from_quadtree 2 q' zero_bytes = Done im /\
    width im = width raster_2x2 /\ image im = image raster_2x2.
Proof.
  split; [exact raster_2x2_valid|]. split; [lia|]. split; [lia|].
  apply (stream_roundtrip_lossless 1 raster_2x2 2 zero_nodes zero_nodes
           zero_bytes zero_bytes); [exact raster_2x2_valid | lia | lia].
Defined.

(** ** utils.c: reading a binary PGM file *)

(** A line that [scan_int] accepts does not start with [#]. *)
Lemma scan_int_first (l : list Z) (w : Z) :
  Forall (fun c => 0 <= c < 256 /\ c <> 10) l ->
  scan_int (l ++ [10]) = Done w ->
  exists c t, l ++ [10] = c :: t /\ 0 <= c < 256 /\ c <> 35.
Proof.
  intros Hl H. destruct l as [|c l].
  - vm_compute in H. discriminate.
  - exists c, (l ++ [10]). split; [reflexivity|].
    inversion Hl as [|? ? [Hc _] _]; subst. split; [exact Hc|].
    intros ->. cbn [app] in H. unfold scan_int, sscanf_d in H.
    cbn [c_str] in H. change (35 =? 0) with false in H. cbn iota in H.
    cbn [skip_spaces] in H. change (isspace 35) with false in H. cbn iota in H.
    cbn [scan_digits] in H. change (isdigit 35) with false in H. cbn iota in H.
    cbn [mbind outcome_bind] in H. discriminate.
Qed.

Lemma read_pgm_P5_loop_spec (k : nat) :
  forall (bytes : list Z) (p : nat) (img : Image) (i : Z) (pixels rest : list Z),
  drop p bytes = pixels ++ rest -> length pixels = k ->
  Forall (fun px => 0 <= px < 256 /\ px <= max_val img) pixels ->
  0 <= i -> i + Z.of_nat k <= Z.of_nat (length (image img)) ->
  exists img', read_pgm_P5_loop k (at_byte bytes p) img i = Done img' /\
    width img' = width img /\ image_size img' = image_size img /\
    max_val img' = max_val img /\ length (image img') = length (image img) /\
    forall j, 0 <= j < Z.of_nat (length (image img)) ->
      load (image img') j =
      if (i <=? j) && (j <? i + Z.of_nat k) then load pixels (j - i)
      else load (image img) j.
Proof.
  induction k as [|k IH]; intros bytes p img i pixels rest Hf Hl Hok Hi Hk.
  - exists img. split; [reflexivity|]. repeat (split; [reflexivity|]).
    intros j Hj. decide_cmp; cbn [andb]; reflexivity.
  - destruct pixels as [|px ps]; [discriminate|]. simpl in Hl.
    inversion Hok as [|? ? [Hp Hpm] Hok']; subst.
    cbn [app] in Hf. apply drop_cons_inv in Hf as [Hb Hf].
    cbn [read_pgm_P5_loop]. rewrite (fgetc_at_byte _ _ _ Hb).
    unfold check_pixel_value.
    replace (px <? 0) with false by (symmetry; apply Z.ltb_ge; lia).
    replace (max_val img <? px) with false by (symmetry; apply Z.ltb_ge; lia).
    cbn [orb mbind outcome_bind].
    rewrite store_in_range by lia. cbn [mbind outcome_bind].
    unfold byte_of. rewrite Z.mod_small by lia.
    destruct (IH bytes (S p) (set_image img (<[Z.to_nat i := px]> (image img)))
                 (i + 1) ps rest) as (img' & E & A & B & C & D & P);
      cbn [set_image image max_val]; auto; try lia.
    { rewrite length_insert. lia. }
    exists img'. split; [exact E|].
    cbn [set_image width image_size max_val image] in *.
    rewrite length_insert in D, P. repeat (split; [assumption|]).
    intros j Hj. rewrite P by assumption.
    destruct (Z.eq_dec j i) as [->|Hne].
    + rewrite load_insert_eq by lia. rewrite Z.sub_diag.
      decide_cmp; cbn [andb]; reflexivity.
    + rewrite load_insert_ne by lia.
      decide_cmp; cbn [andb]; try reflexivity.
      replace (j - i) with (Z.succ (j - (i + 1))) by lia.
      unfold load.
      replace (Z.succ (j - (i + 1)) <? 0) with false by (symmetry; apply Z.ltb_ge; lia).
      replace (j - (i + 1) <? 0) with false by (symmetry; apply Z.ltb_ge; lia).
      rewrite Z2Nat.inj_succ by lia. reflexivity.
Qed.

Lemma read_pgm_P5_loop_short (k : nat) :
  forall (bytes : list Z) (p : nat) (img : Image) (i : Z),
  bytes_ok (drop p bytes) -> (length (drop p bytes) < k)%nat ->
  0 <= i -> i + Z.of_nat k <= Z.of_nat (length (image img)) ->
  read_pgm_P5_loop k (at_byte bytes p) img i = ExitFailure.
Proof.
  induction k as [|k IH]; intros bytes p img i Hb Hl Hi Hk; [lia|].
  cbn [read_pgm_P5_loop]. destruct (drop p bytes) as [|px tail] eqn:Hd.
  - rewrite fgetc_at_end; [reflexivity|].
    destruct (Nat.le_gt_cases (length bytes) p) as [?|Hlt]; [assumption|].
    apply (f_equal length) in Hd. rewrite length_drop in Hd. simpl in Hd. lia.
  - apply drop_cons_inv in Hd as [Hpx Hd]. rewrite (fgetc_at_byte _ _ _ Hpx).
    inversion Hb as [|? ? Hp Hb']; subst. simpl in Hl.
    unfold check_pixel_value.
    replace (px <? 0) with false by (symmetry; apply Z.ltb_ge; lia).
    cbn [orb]. destruct (max_val img <? px); [reflexivity|].
    cbn [mbind outcome_bind]. rewrite store_in_range by lia.
    cbn [mbind outcome_bind]. apply IH; auto; try lia.
    cbn [set_image image]. rewrite length_insert. lia.
Qed.

Lemma read_pgm_P5_loop_above (k : nat) :
  forall (bytes : list Z) (p : nat) (img : Image) (i : Z) (t : nat) (px : Z),
  bytes_ok (drop p bytes) -> (t < k)%nat -> drop p bytes !! t = Some px ->
  max_val img < px ->
  0 <= i -> i + Z.of_nat k <= Z.of_nat (length (image img)) ->
  read_pgm_P5_loop k (at_byte bytes p) img i = ExitFailure.
Proof.
  induction k as [|k IH]; intros bytes p img i t px Hb Ht Hp Hm Hi Hk; [lia|].
  cbn [read_pgm_P5_loop]. destruct (drop p bytes) as [|p0 tail] eqn:Hd; [discriminate|].
  apply drop_cons_inv in Hd as [Hp0 Hd]. rewrite (fgetc_at_byte _ _ _ Hp0).
  inversion Hb as [|? ? Hp0r Hb']; subst.
  unfold check_pixel_value.
  replace (p0 <? 0) with false by (symmetry; apply Z.ltb_ge; lia).
  cbn [orb]. destruct (Z.ltb_spec (max_val img) p0) as [|Hle]; [reflexivity|].
  cbn [mbind outcome_bind]. rewrite store_in_range by lia.
  cbn [mbind outcome_bind].
  destruct t as [|t]; [inversion Hp; subst; lia|].
  apply (IH bytes (S p) _ (i + 1) t px); auto; try lia.
  cbn [set_image image]. rewrite length_insert. lia.
Qed.

(** The header of a binary PGM file, as [read_pgm] and [read_pgm_P5] read
    it: the format, the rest of its line, comment lines, the line of the
    dimensions and the line of the maximum.  The width is scanned twice
    from the line of the dimensions, and serves as height. *)
Lemma read_pgm_P5_header (l0 : list Z) (texts : list (list Z))
    (dims maxv tail : list Z) (w mv : Z) (junk : nat -> Z) :
  short_line l0 -> Forall short_line texts -> short_line dims -> short_line maxv ->
  scan_int (dims ++ [10]) = Done w -> scan_int (maxv ++ [10]) = Done mv ->
  let bytes := [80; 53] ++ l0 ++ [10] ++ comment_lines texts
               ++ dims ++ [10] ++ maxv ++ [10] ++ tail in
  exists p : nat,
    drop p bytes = tail /\
    readline (fopen bytes) 3 = Done ([80; 53], at_byte bytes 2) /\
    read_pgm_P5 (at_byte bytes 2) junk =
      read_pgm_P5_loop (Z.to_nat (w * w)) (at_byte bytes p)
        (allocate_image w (w * w) mv junk) 0.
Proof.
  intros Hl0 Ht Hd Hm Hw Hmv bytes.
  set (p1 := (2 + length l0 + 1)%nat).
  set (p2 := (p1 + length (comment_lines texts))%nat).
  set (p3 := (p2 + length dims + 1)%nat).
  set (p4 := (p3 + length maxv + 1)%nat).
  assert (D0 : drop 2 bytes = l0 ++ 10 :: comment_lines texts
                              ++ dims ++ [10] ++ maxv ++ [10] ++ tail) by reflexivity.
  assert (D1 : drop p1 bytes = comment_lines texts
                               ++ dims ++ [10] ++ maxv ++ [10] ++ tail).
  { unfold p1. replace (2 + length l0 + 1)%nat with (2 + (length l0 + 1))%nat by lia.
    rewrite <- drop_drop, D0.
    change (l0 ++ 10 :: ?x) with (l0 ++ [10] ++ x). rewrite app_assoc.
    apply drop_app_length'. rewrite length_app. simpl. lia. }
  assert (D2 : drop p2 bytes = dims ++ [10] ++ maxv ++ [10] ++ tail).
  { unfold p2. rewrite <- drop_drop, D1. apply drop_app_length'. reflexivity. }
  assert (D3 : drop p3 bytes = maxv ++ [10] ++ tail).
  { unfold p3. replace (p2 + length dims + 1)%nat with (p2 + (length dims + 1))%nat by lia.
    rewrite <- drop_drop, D2. rewrite app_assoc.
    apply drop_app_length'. rewrite length_app. simpl. lia. }
  assert (D4 : drop p4 bytes = tail).
  { unfold p4. replace (p3 + length maxv + 1)%nat with (p3 + (length maxv + 1))%nat by lia.
    rewrite <- drop_drop, D3. rewrite app_assoc.
    apply drop_app_length'. rewrite length_app. simpl. lia. }
  exists p4. split; [exact D4|]. split; [reflexivity|].
  destruct (scan_int_first dims w (proj1 Hd) Hw) as (c & t & Ec & Hc & H35).
  unfold read_pgm_P5.
  rewrite (readline_line bytes 2 l0 _ Hl0 D0). cbn [mbind outcome_bind]. fold p1.
  unfold ignore_comments. cbn [contents at_byte].
  assert (D1' : drop p1 bytes = comment_lines texts ++ c :: (t ++ maxv ++ [10] ++ tail)).
  { rewrite D1. f_equal. rewrite app_assoc, Ec. reflexivity. }
  pose proof (ignore_comments_loop_texts texts (S (length bytes)) bytes p1 c
                (t ++ maxv ++ [10] ++ tail) Ht) as Hic.
  assert (Hb2 : bytes !! p2 = Some c).
  { rewrite <- (Nat.add_0_r p2), <- lookup_drop, D2, app_assoc, Ec. reflexivity. }
  pose proof (lookup_lt_Some _ _ _ Hb2) as Hlen.
  specialize (Hic ltac:(pose proof (length_comment_lines_ge texts); unfold p2 in Hlen; lia)
                  Hc H35 D1').
  change {| contents := bytes; position := Z.of_nat p1; pushed_back := [] |}
    with (at_byte bytes p1).
  destruct (fgetc (at_byte bytes p1)) as [c' file1].
  rewrite Hic. cbn [mbind outcome_bind]. fold p2.
  rewrite (readline_pushed_back bytes p2 c 128 Hb2) by lia.
  rewrite (readline_line bytes p2 dims (maxv ++ [10] ++ tail) Hd D2).
  cbn [mbind outcome_bind]. fold p3. rewrite Hw. cbn [mbind outcome_bind].
  rewrite (readline_line bytes p3 maxv tail Hm D3).
  cbn [mbind outcome_bind]. fold p4. rewrite Hmv. cbn [mbind outcome_bind].
  reflexivity.
Qed.

(** X21. [read_pgm_P5] on a file made of the format [P5], comment lines, a
    line of dimensions that starts with the width [w] and a line that
    starts with the maximum [mv], followed by at least [w * w] bytes, none
    above [mv]: the image returned is a square of side [w] that holds the
    first [w * w] of these bytes.  The height written in the file is never
    read: the width is scanned a second time in its place. *)
Theorem read_pgm_P5_loads (l0 : list Z) (texts : list (list Z))
    (dims maxv pixels rest : list Z) (w mv : Z) (junk : nat -> Z) :
  short_line l0 -> Forall short_line texts -> short_line dims -> short_line maxv ->
  scan_int (dims ++ [10]) = Done w -> scan_int (maxv ++ [10]) = Done mv ->
  1 <= w -> w * w < 2 ^ 31 ->
  Z.of_nat (length pixels) = w * w ->
  Forall (fun px => 0 <= px < 256 /\ px <= mv) pixels ->
  exists file img,
    readline (fopen ([80; 53] ++ l0 ++ [10] ++ comment_lines texts
                     ++ dims ++ [10] ++ maxv ++ [10] ++ pixels ++ rest)) 3
      = Done ([80; 53], file) /\
    read_pgm_P5 file junk = Done img /\
    width img = w /\ image_size img = w * w /\ max_val img = mv /\
    image img = pixels.
Proof.
  intros Hl0 Ht Hd Hm Hw Hmv Hw1 _ Hlen Hok.
  destruct (read_pgm_P5_header l0 texts dims maxv (pixels ++ rest) w mv junk
              Hl0 Ht Hd Hm Hw Hmv) as (p & Dp & Er & Eh).
  set (bytes := [80; 53] ++ l0 ++ [10] ++ comment_lines texts
                ++ dims ++ [10] ++ maxv ++ [10] ++ pixels ++ rest) in *.
  set (img0 := allocate_image w (w * w) mv junk) in *.
  assert (Hl0' : Z.of_nat (length (image img0)) = w * w).
  { unfold img0. cbn [allocate_image image]. rewrite length_malloc. lia. }
  destruct (read_pgm_P5_loop_spec (Z.to_nat (w * w)) bytes p img0 0 pixels rest)
    as (img & E & A & B & C & D & P); auto; try lia.
  exists (at_byte bytes 2), img. split; [exact Er|].
  split; [rewrite Eh; exact E|]. split; [exact A|]. split; [exact B|].
  split; [exact C|].
  apply list_eq. intros j. rewrite !load_lookup.
  destruct (Z.lt_ge_cases (Z.of_nat j) (w * w)) as [Hj|Hj].
  - rewrite P by lia. rewrite Z.sub_0_r.
    replace ((0 <=? Z.of_nat j) && (Z.of_nat j <? 0 + Z.of_nat (Z.to_nat (w * w))))
      with true; [reflexivity|].
    symmetry. apply andb_true_iff. split; [apply Z.leb_le | apply Z.ltb_lt]; lia.
  - rewrite !load_past_end by lia. reflexivity.
Qed.

Lemma read_pgm_P5_loads_witness :
  short_line [] /\ Forall short_line [bytes_of " made by hand"%string] /\
  short_line (bytes_of "2 3"%string) /\ short_line (bytes_of "255"%string) /\
  scan_int (bytes_of "2 3"%string ++ [10]) = Done 2 /\
  scan_int (bytes_of "255"%string ++ [10]) = Done 255 /\
  1 <= 2 /\ 2 * 2 < 2 ^ 31 /\
  Z.of_nat (length [10; 20; 30; 40]) = 2 * 2 /\
  Forall (fun px => 0 <= px < 256 /\ px <= 255) [10; 20; 30; 40] /\
  exists file img,
    readline (fopen ([80; 53] ++ [] ++ [10]
                     ++ comment_lines [bytes_of " made by hand"%string]
                     ++ bytes_of "2 3"%string ++ [10] ++ bytes_of "255"%string ++ [10]
                     ++ [10; 20; 30; 40] ++ [50; 60])) 3
      = Done ([80; 53], file) /\
    read_pgm_P5 file zero_bytes = Done img /\
    width img = 2 /\ image_size img = 2 * 2 /\ max_val img = 255 /\
    image img = [10; 20; 30; 40].
Proof.
  assert (H0 : short_line []) by (split; [constructor | simpl; lia]).
  assert (H1 : Forall short_line [bytes_of " made by hand"%string])
    by (constructor; [apply short_line_text; reflexivity | constructor]).
  assert (H2 : short_line (bytes_of "2 3"%string))
    by (apply short_line_text; reflexivity).
  assert (H3 : short_line (bytes_of "255"%string))
    by (apply short_line_text; reflexivity).
  assert (H4 : Forall (fun px => 0 <= px < 256 /\ px <= 255) [10; 20; 30; 40])
    by (repeat constructor; lia).
  split; [exact H0|]. split; [exact H1|]. split; [exact H2|]. split; [exact H3|].
  split; [reflexivity|]. split; [reflexivity|]. split; [lia|].
  split; [reflexivity|]. split; [reflexivity|]. split; [exact H4|].
  apply (read_pgm_P5_loads [] [bytes_of " made by hand"%string]
           (bytes_of "2 3"%string) (bytes_of "255"%string)
           [10; 20; 30; 40] [50; 60] 2 255 zero_bytes H0 H1 H2 H3);
    [reflexivity | reflexivity | lia | reflexivity | reflexivity | exact H4].
Defined.

(** X22. [read_pgm_P5] on a file with such a header, width [w] and maximum
    [mv]: when fewer than [w * w] bytes follow the header, or when one of
    the first [w * w] is above [mv], the program ends with
    [exit(EXIT_FAILURE)]. *)
Theorem read_pgm_P5_rejects (l0 : list Z) (texts : list (list Z))
    (dims maxv tail : list Z) (w mv : Z) (junk : nat -> Z) :
  short_line l0 -> Forall short_line texts -> short_line dims -> short_line maxv ->
  scan_int (dims ++ [10]) = Done w -> scan_int (maxv ++ [10]) = Done mv ->
  1 <= w -> w * w < 2 ^ 31 -> bytes_ok tail ->
  Z.of_nat (length tail) < w * w \/
  (exists (t : nat) (px : Z), Z.of_nat t < w * w /\ tail !! t = Some px /\ mv < px) ->
  exists file,
    readline (fopen ([80; 53] ++ l0 ++ [10] ++ comment_lines texts
                     ++ dims ++ [10] ++ maxv ++ [10] ++ tail)) 3
      = Done ([80; 53], file) /\
    read_pgm_P5 file junk = ExitFailure.
Proof.
  intros Hl0 Ht Hd Hm Hw Hmv Hw1 _ Hb H.
  destruct (read_pgm_P5_header l0 texts dims maxv tail w mv junk
              Hl0 Ht Hd Hm Hw Hmv) as (p & Dp & Er & Eh).
  set (bytes := [80; 53] ++ l0 ++ [10] ++ comment_lines texts
                ++ dims ++ [10] ++ maxv ++ [10] ++ tail) in *.
  set (img0 := allocate_image w (w * w) mv junk) in *.
  assert (Hl0' : Z.of_nat (length (image img0)) = w * w).
  { unfold img0. cbn [allocate_image image]. rewrite length_malloc. lia. }
  exists (at_byte bytes 2). split; [exact Er|]. rewrite Eh.
  destruct H as [Hshort|(t & px & Ht' & Hp & Hmx)].
  - apply read_pgm_P5_loop_short; rewrite ?Dp; auto; lia.
  - apply (read_pgm_P5_loop_above _ bytes p img0 0 t px); rewrite ?Dp; auto; lia.
Qed.

Lemma read_pgm_P5_rejects_witness :
  short_line [] /\ Forall short_line [] /\
  short_line (bytes_of "2 2"%string) /\ short_line (bytes_of "100"%string) /\
  scan_int (bytes_of "2 2"%string ++ [10]) = Done 2 /\
  scan_int (bytes_of "100"%string ++ [10]) = Done 100 /\
  1 <= 2 /\ 2 * 2 < 2 ^ 31 /\ bytes_ok [10; 20; 200; 40] /\
  (Z.of_nat (length [10; 20; 200; 40]) < 2 * 2 \/
   (exists (t : nat) (px : Z),
      Z.of_nat t < 2 * 2 /\ [10; 20; 200; 40] !! t = Some px /\ 100 < px)) /\
  exists file,
    readline (fopen ([80; 53] ++ [] ++ [10] ++ comment_lines []
                     ++ bytes_of "2 2"%string ++ [10] ++ bytes_of "100"%string ++ [10]
                     ++ [10; 20; 200; 40])) 3
      = Done ([80; 53], file) /\
    read_pgm_P5 file zero_bytes = ExitFailure.
Proof.
  assert (H0 : short_line []) by (split; [constructor | simpl; lia]).
  assert (H1 : Forall short_line []) by constructor.
  assert (H2 : short_line (bytes_of "2 2"%string))
    by (apply short_line_text; reflexivity).
  assert (H3 : short_line (bytes_of "100"%string))
    by (apply short_line_text; reflexivity).
  assert (H4 : bytes_ok [10; 20; 200; 40]) by (repeat constructor; lia).
  assert (H5 : Z.of_nat (length [10; 20; 200; 40]) < 2 * 2 \/
               (exists (t : nat) (px : Z),
                  Z.of_nat t < 2 * 2 /\ [10; 20; 200; 40] !! t = Some px /\ 100 < px)).
  { right. exists 2%nat, 200. split; [lia|]. split; [reflexivity | lia]. }
  split; [exact H0|]. split; [exact H1|]. split; [exact H2|]. split; [exact H3|].
  split; [reflexivity|]. split; [reflexivity|]. split; [lia|].
  split; [reflexivity|]. split; [exact H4|]. split; [exact H5|].
  apply (read_pgm_P5_rejects [] [] (bytes_of "2 2"%string) (bytes_of "100"%string)
           [10; 20; 200; 40] 2 100 zero_bytes H0 H1 H2 H3);
    [reflexivity | reflexivity | lia | reflexivity | exact H4 | exact H5].
Defined.

(** ** quadtree.c: the two cases of [main] *)





Lemma decoded_leaves_uniform (ns : list Node) (n : nat) :
  (1 <= n)%nat -> decoded_upto n ns (first_index (S n)) -> leaves_uniform n ns.
Proof.
  intros Hn Hd j Hj.
  assert (H1 : 1 <= first_index n).
  { destruct n as [|n]; [lia|]. pose proof (first_index_nonneg n). cbn [first_index]. lia. }
  destruct (Hd j ltac:(lia)) as (nd & L & _ & Hleaf & _).
  exists nd. split; [exact L|]. destruct (Hleaf ltac:(lia) ltac:(lia)) as [_ Hu]. lia.
Qed.






Lemma header_lines :
  short_line (bytes_of "Q1"%string) /\
  Forall short_line [bytes_of " Compression date : Mon Nov  2 07:54:00 2026"%string;
                     bytes_of " Compression rate 81.25%"%string].
Proof.
  split; [apply short_line_text; reflexivity|].
  repeat (constructor; [apply short_line_text; reflexivity|]). constructor.
Defined.




(** X26. The decoding case of [main] on any file: after a first line and
    comment lines, when the payload starts with a number of levels [n] of
    at most 15 and holds 11 bits for each of the [(4^(n+1) - 1) / 3] nodes
    after it, the file is loaded, decoded and painted without leaving any
    block, whatever the payload holds, and the image has side [2^n].  With
    [-g] the same holds of the segmentation grid as soon as the tree has
    one level below the root; the root of a tree of a single node is read
    as a node, and need not be uniform. *)
Theorem main_decode_any_file (first : list Z) (texts : list (list Z))
    (payload : list Z) (n : nat) (fuel : nat) (g : bool)
    (junkB : nat -> Z) (junkN : nat -> Node) (junkI junkG : nat -> Z) :
  short_line first -> Forall short_line texts ->
  bytes_ok payload -> Z.of_nat (length payload) < 2 ^ 31 ->
  payload !! 0%nat = Some (Z.of_nat n) -> (n <= 15)%nat ->
  8 + 11 * first_index (S n) <= 8 * Z.of_nat (length payload) ->
  (n < fuel)%nat -> (g = true -> (1 <= n)%nat) ->
  exists im grid,
    main_decode fuel (first ++ [10] ++ comment_lines texts ++ payload) g
      junkB junkN junkI junkG = Done (im, grid) /\
    width im = 2 ^ Z.of_nat n /\
    Z.of_nat (length (image im)) = 2 ^ Z.of_nat n * 2 ^ Z.of_nat n /\
    (if g then exists gi, grid = Some gi /\ width gi = 2 ^ Z.of_nat n
     else grid = None).
Proof.
  intros Hf Ht Hb Hsmall Hhead Hn Hlen Hfuel Hg.
  destruct payload as [|c rest] eqn:Epl; [discriminate|].
  assert (Hc : c = Z.of_nat n) by (inversion Hhead; reflexivity).
  destruct (read_qtc_spec first texts (c :: rest) c rest junkB Hf Ht eq_refl
              ltac:(lia) Hb Hsmall) as
    (s & Er & Hbuf & Hstart & _ & Hcapa & _).
  destruct (decode_any_spec s n junkN Hcapa ltac:(lia) Hn) as
    (s' & q & Ed & _ & Hlv & Htn & Hln & Hdec).
  { intros j Hj. rewrite Hbuf, Hstart.
    change (8 * 0 + j) with (8 * Z.of_nat 0 + j).
    rewrite (sbit_byte (c :: rest) 0 (Z.of_nat n)) by (auto; rewrite Hc; reflexivity).
    reflexivity. }
  { rewrite Hbuf, Hstart. lia. }
  assert (Hsh : shape q n) by (unfold shape; auto).
  destruct (build_image_from_quadtree_spec q n fuel junkI Hsh Hfuel) as
    (im & Ep & Hw & Hl & _).
  assert (Hgrid : exists grid,
            (if g then segmentation_grid ← generate_segmentation_grid fuel q junkG;
                       Done (Some segmentation_grid)
             else Done None) = Done grid /\
            (if g then exists gi, grid = Some gi /\ width gi = 2 ^ Z.of_nat n
             else grid = None)).
  { destruct g; [|exists None; auto].
    rewrite Htn in Hdec.
    destruct (generate_segmentation_grid_spec q n fuel junkG Hsh
                (decoded_leaves_uniform _ _ (Hg eq_refl) Hdec) Hfuel)
      as (gi & Eg & Hwg & _).
    exists (Some gi). rewrite Eg. cbn [mbind outcome_bind]. eauto. }
  destruct Hgrid as (grid & Eg & Hgr).
  exists im, grid. split; [|auto].
  unfold main_decode. rewrite Er. cbn [mbind outcome_bind].
  rewrite Ed. cbn [mbind outcome_bind]. rewrite Ep. cbn [mbind outcome_bind].
  rewrite Eg. reflexivity.
Qed.

Lemma main_decode_any_file_witness :
  short_line (bytes_of "Q1"%string) /\ Forall short_line [] /\
  bytes_ok [1; 37; 0; 255; 0; 255; 0; 255] /\
  Z.of_nat (length [1; 37; 0; 255; 0; 255; 0; 255]) < 2 ^ 31 /\
  [1; 37; 0; 255; 0; 255; 0; 255] !! 0%nat = Some (Z.of_nat 1) /\
  (1 <= 15)%nat /\
  8 + 11 * first_index 2 <= 8 * Z.of_nat (length [1; 37; 0; 255; 0; 255; 0; 255]) /\
  (1 < 2)%nat /\ (true = true -> (1 <= 1)%nat) /\
  exists im grid,
    main_decode 2 (bytes_of "Q1"%string ++ [10] ++ comment_lines []
                   ++ [1; 37; 0; 255; 0; 255; 0; 255]) true
      zero_bytes zero_nodes zero_bytes zero_bytes = Done (im, grid) /\
    width im = 2 ^ Z.of_nat 1 /\
    Z.of_nat (length (image im)) = 2 ^ Z.of_nat 1 * 2 ^ Z.of_nat 1 /\
    (if true then exists gi, grid = Some gi /\ width gi = 2 ^ Z.of_nat 1
     else grid = None).
Proof.
  assert (Hb : bytes_ok [1; 37; 0; 255; 0; 255; 0; 255]) by (repeat constructor; lia).
  assert (Hl : 8 + 11 * first_index 2
               <= 8 * Z.of_nat (length [1; 37; 0; 255; 0; 255; 0; 255]))
    by (vm_compute; discriminate).
  split; [exact (proj1 header_lines)|]. split; [constructor|]. split; [exact Hb|].
  split; [reflexivity|]. split; [reflexivity|]. split; [lia|]. split; [exact Hl|].
  split; [lia|]. split; [lia|].
  apply (main_decode_any_file (bytes_of "Q1"%string) [] [1; 37; 0; 255; 0; 255; 0; 255]
           1 2 true zero_bytes zero_nodes zero_bytes zero_bytes
           (proj1 header_lines) (Forall_nil_2 _) Hb);
    [reflexivity | reflexivity | lia | exact Hl | lia | lia].
Defined.

(** A file that holds a tree of one node, 255 with an epsilon of 3: the
    node is painted, and with [-g] the grid, which takes the node for an
    internal one, looks for its children outside the node block. *)
Lemma main_decode_single_node :
  (exists im, main_decode 2 (bytes_of "Q1"%string ++ [10] ++ [0; 255; 255]) false
                zero_bytes zero_nodes zero_bytes zero_bytes = Done (im, None) /\
              image im = [255]) /\
  main_decode 2 (bytes_of "Q1"%string ++ [10] ++ [0; 255; 255]) true
    zero_bytes zero_nodes zero_bytes zero_bytes = Undefined.
Proof.
  split; [eexists; split; [vm_compute; reflexivity | reflexivity]|].
  vm_compute. reflexivity.
Qed.

(** A negative [alpha] stops [main] in its option loop. *)
Lemma main_encode_negative_alpha (fuel : nat) (img : Image) (alpha : float) (g : bool)
    (junkN : nat -> Node) (junkB junkG : nat -> Z) :
  (alpha <? 0)%float = true ->
  main_encode fuel img alpha g junkN junkB junkG = ExitFailure.
Proof. intros H. unfold main_encode, main_option_a. rewrite H. reflexivity. Qed.
